(** * Idea Finder: the discovery core

    A shallow embedding of the backend's discovery module:

    - the in-memory job store ([InMemoryDiscoveryRepo]),
    - the start-request schema ([DiscoveryConfigSchema]) and the POST route,
    - the analyzer registry's merge ([AnalyzerRegistry.combineResults]),
    - the Reddit analyzer's level-wise expansion ([RedditAnalyzer.analyze]),
    - the discovery service ([DiscoveryServiceImpl]): start, cancel and the
      background task,
    - the server-sent-event stream of a job ([streamRealData]).

    JavaScript numbers that count things (levels, nodes, indices) are
    natural numbers or integers; confidence and popularity, which the code
    only compares, copies and adds, are rationals.  Objects used as maps
    ([Map], [Set], [Record<string, any>]) are finite maps and sets. *)

From Stdlib Require Import ZArith QArith Qminmax String Ascii List Bool Lia.
From Stdlib Require Import DecimalString DecimalNat.
From stdpp Require Import base option list gmap sets strings.

Local Open Scope string_scope.

(** ** Data model ([types.ts] of the discovery module and of the analyzers) *)

Inductive NodeType := Niche | SubNiche | Topic.

Inductive Relationship := Contains | RelatedTo | DerivedFrom.

(** A value stored in a node's open [data] record. *)
Inductive JValue :=
| JStr (s : string)
| JNum (q : Q)
| JBool (b : bool).

Record DiscoveryConfig := {
  niche : string;
  maxLevels : Z;
  maxNodesPerLevel : Z;
  sources : list string;
}.

Record DiscoveryNode := {
  id : string;
  label : string;
  level : nat;
  type : NodeType;
  source : string;
  confidence : Q;
  popularity : Q;
  data : option (gmap string JValue);
}.

Record DiscoveryEdge := {
  edge_id : string;
  edge_source : string;
  edge_target : string;
  relationship : Relationship;
}.

Record DiscoveryGraph := {
  nodes : list DiscoveryNode;
  edges : list DiscoveryEdge;
}.

Inductive JobStatus := Starting | Discovering | Complete | Error | Cancelled.

Record SubAnalysis := {
  totalItems : nat;
  completedItems : nat;
  currentItem : option string;
  currentStep : option string;
  currentItemProgress : option nat;
  estimatedTimeRemaining : option nat;
}.

(** [new Date().toISOString()]: the reading of the wall clock. *)
Definition Time := nat.

Record DiscoveryJob := {
  job_id : string;
  config : DiscoveryConfig;
  status : JobStatus;
  currentLevel : nat;
  totalNodes : nat;
  totalEdges : nat;
  createdAt : Time;
  updatedAt : Time;
  error : option string;
  subAnalysis : option SubAnalysis;
}.

Definition terminal (s : JobStatus) : bool :=
  match s with
  | Complete | Error | Cancelled => true
  | Starting | Discovering => false
  end.

(** ** The job store ([InMemoryDiscoveryRepo]) *)

Module Repo.

Record t := {
  jobs : gmap string DiscoveryJob;
  jobGraphs : gmap string DiscoveryGraph;
}.

Definition empty : t := {| jobs := ∅; jobGraphs := ∅ |}.

(** [createJob]: [uuid] is the value of [crypto.randomUUID()]. *)
Definition createJob (uuid : string) (now : Time) (cfg : DiscoveryConfig) (r : t)
  : DiscoveryJob * t :=
  let job := {| job_id := uuid; config := cfg; status := Starting;
                currentLevel := 0; totalNodes := 0; totalEdges := 0;
                createdAt := now; updatedAt := now;
                error := None; subAnalysis := None |} in
  (job, {| jobs := <[uuid := job]> (jobs r);
           jobGraphs := <[uuid := {| nodes := []; edges := [] |}]> (jobGraphs r) |}).

Definition getJob (jobId : string) (r : t) : option DiscoveryJob :=
  jobs r !! jobId.

(** [if (error) job.error = error]: an absent or empty message leaves the
    field as it was. *)
Definition set_error (e : option string) (old : option string) : option string :=
  match e with
  | Some m => if String.eqb m "" then old else Some m
  | None => old
  end.

Definition updateJobStatus (jobId : string) (now : Time) (st : JobStatus)
    (e : option string) (r : t) : t :=
  match jobs r !! jobId with
  | Some job =>
      let job' := {| job_id := job_id job; config := config job; status := st;
                     currentLevel := currentLevel job;
                     totalNodes := totalNodes job; totalEdges := totalEdges job;
                     createdAt := createdAt job; updatedAt := now;
                     error := set_error e (error job);
                     subAnalysis := subAnalysis job |} in
      {| jobs := <[jobId := job']> (jobs r); jobGraphs := jobGraphs r |}
  | None => r
  end.

Definition updateJobCurrentLevel (jobId : string) (now : Time) (lvl : nat) (r : t) : t :=
  match jobs r !! jobId with
  | Some job =>
      let job' := {| job_id := job_id job; config := config job; status := status job;
                     currentLevel := lvl;
                     totalNodes := totalNodes job; totalEdges := totalEdges job;
                     createdAt := createdAt job; updatedAt := now;
                     error := error job;
                     subAnalysis := subAnalysis job |} in
      {| jobs := <[jobId := job']> (jobs r); jobGraphs := jobGraphs r |}
  | None => r
  end.

Definition updateJobSubAnalysis (jobId : string) (now : Time) (sa : SubAnalysis) (r : t) : t :=
  match jobs r !! jobId with
  | Some job =>
      let job' := {| job_id := job_id job; config := config job; status := status job;
                     currentLevel := currentLevel job;
                     totalNodes := totalNodes job; totalEdges := totalEdges job;
                     createdAt := createdAt job; updatedAt := now;
                     error := error job;
                     subAnalysis := Some sa |} in
      {| jobs := <[jobId := job']> (jobs r); jobGraphs := jobGraphs r |}
  | None => r
  end.

(** [addNode]: push on the graph's node array; the job's [totalNodes] is
    then read back from the array's length. *)
Definition addNode (jobId : string) (now : Time) (n : DiscoveryNode) (r : t) : t :=
  match jobGraphs r !! jobId with
  | Some graph =>
      let graph' := {| nodes := nodes graph ++ [n]; edges := edges graph |} in
      let gs := <[jobId := graph']> (jobGraphs r) in
      match jobs r !! jobId with
      | Some job =>
          let job' := {| job_id := job_id job; config := config job; status := status job;
                         currentLevel := currentLevel job;
                         totalNodes := length (nodes graph'); totalEdges := totalEdges job;
                         createdAt := createdAt job; updatedAt := now;
                         error := error job;
                         subAnalysis := subAnalysis job |} in
          {| jobs := <[jobId := job']> (jobs r); jobGraphs := gs |}
      | None => {| jobs := jobs r; jobGraphs := gs |}
      end
  | None => r
  end.

Definition addEdge (jobId : string) (now : Time) (e : DiscoveryEdge) (r : t) : t :=
  match jobGraphs r !! jobId with
  | Some graph =>
      let graph' := {| nodes := nodes graph; edges := edges graph ++ [e] |} in
      let gs := <[jobId := graph']> (jobGraphs r) in
      match jobs r !! jobId with
      | Some job =>
          let job' := {| job_id := job_id job; config := config job; status := status job;
                         currentLevel := currentLevel job;
                         totalNodes := totalNodes job; totalEdges := length (edges graph');
                         createdAt := createdAt job; updatedAt := now;
                         error := error job;
                         subAnalysis := subAnalysis job |} in
          {| jobs := <[jobId := job']> (jobs r); jobGraphs := gs |}
      | None => {| jobs := jobs r; jobGraphs := gs |}
      end
  | None => r
  end.

Definition getJobGraph (jobId : string) (r : t) : DiscoveryGraph :=
  default {| nodes := []; edges := [] |} (jobGraphs r !! jobId).

(** One call of the store's interface. *)
Inductive op :=
| CreateJob (uuid : string) (now : Time) (cfg : DiscoveryConfig)
| UpdateJobStatus (jobId : string) (now : Time) (st : JobStatus) (e : option string)
| UpdateJobCurrentLevel (jobId : string) (now : Time) (lvl : nat)
| UpdateJobSubAnalysis (jobId : string) (now : Time) (sa : SubAnalysis)
| AddNode (jobId : string) (now : Time) (n : DiscoveryNode)
| AddEdge (jobId : string) (now : Time) (e : DiscoveryEdge).

Definition apply (o : op) (r : t) : t :=
  match o with
  | CreateJob uuid now cfg => snd (createJob uuid now cfg r)
  | UpdateJobStatus j now st e => updateJobStatus j now st e r
  | UpdateJobCurrentLevel j now lvl => updateJobCurrentLevel j now lvl r
  | UpdateJobSubAnalysis j now sa => updateJobSubAnalysis j now sa r
  | AddNode j now n => addNode j now n r
  | AddEdge j now e => addEdge j now e r
  end.

(** The store after a sequence of calls, oldest first. *)
Definition run (ops : list op) (r : t) : t := fold_left (fun r o => apply o r) ops r.

(** The counters of a job record agree with its graph. *)
Definition counts_agree (r : t) : Prop :=
  ∀ jobId job, jobs r !! jobId = Some job →
    ∃ g, jobGraphs r !! jobId = Some g ∧
         totalNodes job = length (nodes g) ∧ totalEdges job = length (edges g).

End Repo.

(** ** Strings: the fragments of JavaScript's string library the code uses *)

Module Js.

(** [String(n)] for a non-negative integer. *)
Definition string_of_nat (n : nat) : string := NilEmpty.string_of_uint (Nat.to_uint n).

(** [toLowerCase] on the ASCII range: the letters A to Z.  (JavaScript
    also lower-cases the cased letters beyond ASCII; the properties that go
    through this function are stated for ASCII strings.) *)
Definition lower_ascii (c : ascii) : ascii :=
  let n := nat_of_ascii c in
  if (65 <=? n)%nat && (n <=? 90)%nat then ascii_of_nat (n + 32) else c.

Fixpoint toLowerCase (s : string) : string :=
  match s with
  | EmptyString => EmptyString
  | String c s' => String (lower_ascii c) (toLowerCase s')
  end.

(** White space as [trim] sees it, on the ASCII range: tab, line feed,
    vertical tab, form feed, carriage return and space.  (JavaScript also
    strips the spaces beyond ASCII, such as U+00A0 and U+FEFF.) *)
Definition is_space (c : ascii) : bool :=
  let n := nat_of_ascii c in
  ((9 <=? n)%nat && (n <=? 13)%nat) || (n =? 32)%nat.

Fixpoint trimStart (s : string) : string :=
  match s with
  | EmptyString => EmptyString
  | String c s' => if is_space c then trimStart s' else s
  end.

(** [trimEnd]: a white-space character is dropped when everything after it
    has been dropped. *)
Fixpoint trimEnd (s : string) : string :=
  match s with
  | EmptyString => EmptyString
  | String c s' =>
      match trimEnd s' with
      | EmptyString => if is_space c then EmptyString else String c EmptyString
      | t => String c t
      end
  end.

Definition trim (s : string) : string := trimEnd (trimStart s).

(** [arr.join(sep)]. *)
Fixpoint join (sep : string) (l : list string) : string :=
  match l with
  | [] => ""
  | [x] => x
  | x :: l' => x ++ sep ++ join sep l'
  end.

(** Insertion of [x] in a list ordered by [le]. *)
Fixpoint insert_by {A} (le : A → A → bool) (x : A) (l : list A) : list A :=
  match l with
  | [] => [x]
  | y :: l' => if le x y then x :: l else y :: insert_by le x l'
  end.

Definition sort_by {A} (le : A → A → bool) (l : list A) : list A :=
  foldr (insert_by le) [] l.

(** The keys of an object whose keys are array indices come out in
    ascending numeric order, each once. *)
Definition index_keys (l : list nat) : list nat := sort_by Nat.leb (remove_dups l).

(** [Array.prototype.sort()] without a comparator orders the elements by
    their string forms, compared by code units. *)
Definition default_sort (l : list nat) : list nat :=
  sort_by (fun a b => String.leb (string_of_nat a) (string_of_nat b)) l.

End Js.

(** ** Analyzer results and the registry's merge ([registry.ts]) *)

Record AnalyzerNode := {
  a_id : string;
  a_label : string;
  a_level : nat;
  a_type : NodeType;
  a_source : string;
  a_data : option (gmap string JValue);
  a_confidence : Q;
  a_popularity : Q;
}.

Record AnalyzerEdge := {
  ae_id : string;
  ae_source : string;
  ae_target : string;
  ae_relationship : Relationship;
  ae_confidence : Q;
  ae_source_platform : string;
}.

Record AnalyzerMetadata := {
  md_platform : string;
  md_startTime : Time;
  md_endTime : Time;
  md_processingTime : Z;
  md_apiCalls : nat;
  md_errors : list string;
}.

Record AnalyzerResult := {
  r_nodes : list AnalyzerNode;
  r_edges : list AnalyzerEdge;
  r_metadata : AnalyzerMetadata;
}.

Record CombinedMetadata := {
  totalProcessingTime : Z;
  totalApiCalls : nat;
  platformsUsed : list string;
  cm_startTime : Time;
  cm_endTime : Time;
}.

Record CombinedAnalyzerResult := {
  c_nodes : list AnalyzerNode;
  c_edges : list AnalyzerEdge;
  analyzerMetadata : list AnalyzerMetadata;
  combinedMetadata : CombinedMetadata;
}.

Module Registry.

Definition relationship_string (r : Relationship) : string :=
  match r with
  | Contains => "contains"
  | RelatedTo => "related-to"
  | DerivedFrom => "derived-from"
  end.

(** [a > b] on confidences. *)
Definition Qgtb (a b : Q) : bool := negb (Qle_bool a b).

(** A JavaScript [Map] with string keys, as it is iterated: the entries in
    the order in which their keys were first set. *)
Definition jsmap (V : Type) := list (string * V).

Fixpoint map_get {V} (k : string) (m : jsmap V) : option V :=
  match m with
  | [] => None
  | (k', v) :: m' => if String.eqb k k' then Some v else map_get k m'
  end.

(** [m.set(k, v)]: an existing key keeps its place. *)
Fixpoint map_set {V} (k : string) (v : V) (m : jsmap V) : jsmap V :=
  match m with
  | [] => [(k, v)]
  | (k', v') :: m' => if String.eqb k k' then (k, v) :: m' else (k', v') :: map_set k v m'
  end.

Definition map_values {V} (m : jsmap V) : list V := map snd m.

(** The identity key of a node.  It is the key of the code for every
    ASCII label; on other labels the code may identify nodes that this key
    keeps apart. *)
Definition node_key (n : AnalyzerNode) : string :=
  Js.trim (Js.toLowerCase (a_label n)) ++ "-" ++ Js.string_of_nat (a_level n).

(** The update of the node already in the map by a later duplicate. *)
Definition merge_node (existing node : AnalyzerNode) : AnalyzerNode :=
  let higher := Qgtb (a_confidence node) (a_confidence existing) in
  {| a_id := a_id existing;
     a_label := a_label existing;
     a_level := a_level existing;
     a_type := a_type existing;
     a_source := if higher then a_source node else a_source existing;
     a_data := match a_data node, a_data existing with
               | Some nd, Some ed => Some (nd ∪ ed)
               | _, _ => a_data existing
               end;
     a_confidence := if higher then a_confidence node else a_confidence existing;
     a_popularity := a_popularity existing + a_popularity node |}.

Definition dedup_node (m : jsmap AnalyzerNode) (node : AnalyzerNode) : jsmap AnalyzerNode :=
  let key := node_key node in
  match map_get key m with
  | None => map_set key node m
  | Some existing => map_set key (merge_node existing node) m
  end.

Definition edge_key (e : AnalyzerEdge) : string :=
  ae_source e ++ "-" ++ ae_target e ++ "-" ++ relationship_string (ae_relationship e).

Definition dedup_edge (m : jsmap AnalyzerEdge) (edge : AnalyzerEdge) : jsmap AnalyzerEdge :=
  let key := edge_key edge in
  match map_get key m with
  | None => map_set key edge m
  | Some existing =>
      if Qgtb (ae_confidence edge) (ae_confidence existing) then map_set key edge m else m
  end.

Definition new_node_id (lvl index : nat) : string :=
  "node-" ++ Js.string_of_nat lvl ++ "-" ++ Js.string_of_nat index.

(** The pass that renumbers the deduplicated nodes: it fills [nodeIdMap]
    (old id to new id, a later entry for the same old id replacing an
    earlier one) and overwrites each node's id. *)
Fixpoint renumber (index : nat) (ns : list AnalyzerNode) (nodeIdMap : gmap string string)
  : list AnalyzerNode * gmap string string :=
  match ns with
  | [] => ([], nodeIdMap)
  | n :: ns' =>
      let newId := new_node_id (a_level n) index in
      let n' := {| a_id := newId; a_label := a_label n; a_level := a_level n;
                   a_type := a_type n; a_source := a_source n; a_data := a_data n;
                   a_confidence := a_confidence n; a_popularity := a_popularity n |} in
      let '(rest, m) := renumber (S index) ns' (<[a_id n := newId]> nodeIdMap) in
      (n' :: rest, m)
  end.

(** [nodeIdMap.get(x) || x]. *)
Definition remap (nodeIdMap : gmap string string) (x : string) : string :=
  match nodeIdMap !! x with
  | Some y => if String.eqb y "" then x else y
  | None => x
  end.

Fixpoint remap_edges (index : nat) (nodeIdMap : gmap string string) (es : list AnalyzerEdge)
  : list AnalyzerEdge :=
  match es with
  | [] => []
  | e :: es' =>
      {| ae_id := "edge-" ++ Js.string_of_nat index;
         ae_source := remap nodeIdMap (ae_source e);
         ae_target := remap nodeIdMap (ae_target e);
         ae_relationship := ae_relationship e;
         ae_confidence := ae_confidence e;
         ae_source_platform := ae_source_platform e |} :: remap_edges (S index) nodeIdMap es'
  end.

Definition dedup_nodes (allNodes : list AnalyzerNode) : list AnalyzerNode :=
  map_values (fold_left dedup_node allNodes []).

Definition dedup_edges (allEdges : list AnalyzerEdge) : list AnalyzerEdge :=
  map_values (fold_left dedup_edge allEdges []).

Definition combineResults (results : list AnalyzerResult) (startTime endTime : Time)
  : CombinedAnalyzerResult :=
  let allNodes := flat_map r_nodes results in
  let allEdges := flat_map r_edges results in
  let '(deduplicatedNodes, nodeIdMap) := renumber 0 (dedup_nodes allNodes) ∅ in
  let deduplicatedEdges := remap_edges 0 nodeIdMap (dedup_edges allEdges) in
  {| c_nodes := deduplicatedNodes;
     c_edges := deduplicatedEdges;
     analyzerMetadata := map r_metadata results;
     combinedMetadata :=
       {| totalProcessingTime := fold_left (fun s r => (s + md_processingTime (r_metadata r))%Z) results 0%Z;
          totalApiCalls := fold_left (fun s r => s + md_apiCalls (r_metadata r)) results 0;
          platformsUsed := map (fun r => md_platform (r_metadata r)) results;
          cm_startTime := startTime;
          cm_endTime := endTime |} |}.

(** The ids of the nodes of a combined result. *)
Definition node_ids (c : CombinedAnalyzerResult) : list string := map a_id (c_nodes c).

(** No edge of [c] dangles. *)
Definition edges_closed (c : CombinedAnalyzerResult) : Prop :=
  ∀ e, In e (c_edges c) → In (ae_source e) (node_ids c) ∧ In (ae_target e) (node_ids c).

End Registry.

(** ** The start-request schema ([DiscoveryConfigSchema]) *)

Module Validators.

(** [z.string().min(1)], [z.number().min(1).max(10)],
    [z.number().min(1).max(100)], [z.array(z.string()).min(1)]. *)
Definition DiscoveryConfigSchema (c : DiscoveryConfig) : bool :=
  (1 <=? String.length (niche c))%nat
  && ((1 <=? maxLevels c)%Z && (maxLevels c <=? 10)%Z)
  && ((1 <=? maxNodesPerLevel c)%Z && (maxNodesPerLevel c <=? 100)%Z)
  && (1 <=? length (sources c))%nat.

End Validators.

(** ** The event stream of a job ([GET /api/discover/:jobId/stream]) *)

Inductive Event :=
| EvConnected (jobId : string) (st : JobStatus)
| EvProgress (progress : Q) (lvl : nat) (st : JobStatus) (sa : option SubAnalysis)
| EvLevelStarted (lvl : nat)
| EvNodeFound (n : DiscoveryNode)
| EvLevelCompleted (lvl nodeCount edgeCount : nat)
| EvEdgeFound (e : DiscoveryEdge)
| EvDone (nNodes nEdges completedLevels : nat)
| EvError (message code : string).

Module Stream.

(** [nodesByLevel[level]]: the nodes of a level, in the order of the
    graph's node array. *)
Definition nodesByLevel (g : DiscoveryGraph) (lvl : nat) : list DiscoveryNode :=
  List.filter (fun n => Nat.eqb (level n) lvl) (nodes g).

(** [Object.keys(nodesByLevel).map(Number).sort()]. *)
Definition levels (g : DiscoveryGraph) : list nat :=
  Js.default_sort (Js.index_keys (map level (nodes g))).

(** [updatedGraph.nodes.find(n => n.id === e.source)?.level === level]. *)
Definition edge_at_level (g : DiscoveryGraph) (lvl : nat) (e : DiscoveryEdge) : bool :=
  match List.find (fun n => String.eqb (id n) (edge_source e)) (nodes g) with
  | Some n => Nat.eqb (level n) lvl
  | None => false
  end.

Definition edgeCount (g : DiscoveryGraph) (lvl : nat) : nat :=
  length (List.filter (edge_at_level g lvl) (edges g)).

Definition done_event (g : DiscoveryGraph) : Event :=
  EvDone (length (nodes g)) (length (edges g)) (length (levels g)).

(** The replay written by the polling callback once the job is complete
    (the branch under [updatedJob.status === 'complete']). *)
Definition replay_polled (g : DiscoveryGraph) : list Event :=
  flat_map (fun lvl =>
      EvLevelStarted lvl
        :: map EvNodeFound (nodesByLevel g lvl)
        ++ [EvLevelCompleted lvl (length (nodesByLevel g lvl)) (edgeCount g lvl)])
    (levels g)
  ++ map EvEdgeFound (edges g)
  ++ [done_event g].

(** The replay written at once when the graph already has nodes at
    connection time (the [else] branch of [streamRealData]). *)
Definition replay_immediate (g : DiscoveryGraph) : list Event :=
  flat_map (fun lvl => EvLevelStarted lvl :: map EvNodeFound (nodesByLevel g lvl))
    (levels g)
  ++ map EvEdgeFound (edges g)
  ++ [done_event g].

(** The [progress] field of a progress event. *)
Definition progress_value (maxLv : Z) (job : DiscoveryJob) : Q :=
  match status job with
  | Complete => 100
  | _ => (inject_Z (Z.of_nat (currentLevel job)) / inject_Z maxLv) * 100
  end.

(** One run of the polling callback against the store as it is at that
    tick: the events written, and whether the interval was cleared and the
    response ended. *)
Definition tick (jobId : string) (maxLv : Z) (r : Repo.t) : list Event * bool :=
  match Repo.getJob jobId r with
  | None => ([EvError "Job not found" "JOB_NOT_FOUND"], true)
  | Some updatedJob =>
      let updatedGraph := Repo.getJobGraph jobId r in
      let progress := EvProgress (progress_value maxLv updatedJob) (currentLevel updatedJob)
                        (status updatedJob) (subAnalysis updatedJob) in
      match status updatedJob with
      | Complete =>
          if (0 <? length (nodes updatedGraph))%nat
          then (progress :: replay_polled updatedGraph, true)
          else ([progress], false)
      | Error =>
          ([progress; EvError (default "Discovery failed"
                                 (match error updatedJob with
                                  | Some m => if String.eqb m "" then None else Some m
                                  | None => None
                                  end)) "DISCOVERY_ERROR"], true)
      | _ => ([progress], false)
      end
  end.

(** The interval: [snapshots] is the store at each successive tick; the
    callback runs until it clears the interval. *)
Fixpoint poll (jobId : string) (maxLv : Z) (snapshots : list Repo.t) : list Event :=
  match snapshots with
  | [] => []
  | r :: rest =>
      let '(evs, stop) := tick jobId maxLv r in
      if stop then evs else evs ++ poll jobId maxLv rest
  end.

(** Whether the interval is still armed after these ticks. *)
Fixpoint polling (jobId : string) (maxLv : Z) (snapshots : list Repo.t) : bool :=
  match snapshots with
  | [] => true
  | r :: rest =>
      if snd (tick jobId maxLv r) then false else polling jobId maxLv rest
  end.

(** A whole connection: [r0] is the store when the request arrives,
    [snapshots] the store at the ticks that follow. *)
Definition stream (jobId : string) (r0 : Repo.t) (snapshots : list Repo.t) : list Event :=
  match Repo.getJob jobId r0 with
  | None => [EvError "Job not found" "JOB_NOT_FOUND"]
  | Some job =>
      let jobGraph := Repo.getJobGraph jobId r0 in
      EvConnected jobId (status job) ::
      if (length (nodes jobGraph) =? 0)%nat
      then poll jobId (maxLevels (config job)) snapshots
      else replay_immediate jobGraph
  end.

Definition is_terminal_event (e : Event) : bool :=
  match e with
  | EvDone _ _ _ | EvError _ _ => true
  | _ => false
  end.

Definition terminal_events (evs : list Event) : list Event :=
  List.filter is_terminal_event evs.

Definition is_level_completed (e : Event) : bool :=
  match e with
  | EvLevelCompleted _ _ _ => true
  | _ => false
  end.

End Stream.

(** ** The running server: state, exceptions and the outside world *)

(** A thrown [Error]: its [name] and its [message]. *)
Record JsError := {
  err_name : string;
  err_message : string;
}.

Definition mkError (msg : string) : JsError := {| err_name := "Error"; err_message := msg |}.

(** The [status] text of a progress report, by the place that writes it. *)
Inductive Phase :=
| PInit
| PSearching
| PFoundSubreddits (n : nat)
| PAnalyzingSubreddit (i total : nat)
| PProcessingSubreddit (name : string)
| PLevel1Done (n : nat)
| PLevelStart (lvl nParents : nat)
| PParent (lvl : nat) (parent : string) (i total : nat)
| PLevelDone (lvl found : nat)
| PComplete
| PFailed (msg : string)
| PTagged (platform : string) (p : Phase).

Fixpoint render (p : Phase) : string :=
  match p with
  | PInit => "Initializing Reddit analysis..."
  | PSearching => "Searching Reddit for related content..."
  | PFoundSubreddits n => "Found " ++ Js.string_of_nat n ++ " subreddits, analyzing..."
  | PAnalyzingSubreddit i total =>
      "Analyzing subreddit " ++ Js.string_of_nat i ++ "/" ++ Js.string_of_nat total ++ "..."
  | PProcessingSubreddit name => "Processing r/" ++ name ++ "..."
  | PLevel1Done n => "Found " ++ Js.string_of_nat n ++ " subreddits, analyzing deeper levels..."
  | PLevelStart lvl n =>
      "Level " ++ Js.string_of_nat lvl ++ ": Analyzing " ++ Js.string_of_nat n ++ " parent nodes..."
  | PParent lvl parent i total =>
      "Level " ++ Js.string_of_nat lvl ++ ": Analyzing " ++ String "034" parent ++ String "034" " ("
        ++ Js.string_of_nat i ++ "/" ++ Js.string_of_nat total ++ ")..."
  | PLevelDone lvl found =>
      "Level " ++ Js.string_of_nat lvl ++ ": Found " ++ Js.string_of_nat found ++ " topics"
  | PComplete => "Reddit analysis complete"
  | PFailed msg => "Error: " ++ msg
  | PTagged platform p => "[" ++ platform ++ "] " ++ render p
  end.

(** [AnalyzerProgress], without the percentage (a floating-point figure
    that is only printed). *)
Record AnalyzerProgress := {
  p_currentLevel : nat;
  p_status : Phase;
  p_nodesDiscovered : nat;
  p_edgesDiscovered : nat;
  p_subAnalysis : option SubAnalysis;
}.

Record AbortController := { aborted : bool }.

Record CancelReply := {
  success : bool;
  message : string;
}.

(** What a request served during the run was answered: the result of
    [cancelJob], or the job record sent by [GET /api/discover/:jobId]. *)
Inductive Reply :=
| CancelReplied (r : CancelReply)
| StatusReplied (job : option DiscoveryJob).

(** The state of the server process: the store, the service's two tables,
    the clock, the progress lines printed by the service's progress
    callback, the number of external calls made so far, and the replies
    given to the requests served so far. *)
Record World := {
  repo : Repo.t;
  cancelledJobs : gset string;
  activeJobs : gmap string AbortController;
  clock : Time;
  console : list (string * AnalyzerProgress);
  ioCount : nat;
  replies : list Reply;
}.

Definition set_repo (f : Repo.t → Repo.t) (w : World) : World :=
  {| repo := f (repo w); cancelledJobs := cancelledJobs w; activeJobs := activeJobs w;
     clock := clock w; console := console w; ioCount := ioCount w; replies := replies w |}.

Definition set_cancelledJobs (f : gset string → gset string) (w : World) : World :=
  {| repo := repo w; cancelledJobs := f (cancelledJobs w); activeJobs := activeJobs w;
     clock := clock w; console := console w; ioCount := ioCount w; replies := replies w |}.

Definition set_activeJobs (f : gmap string AbortController → gmap string AbortController)
    (w : World) : World :=
  {| repo := repo w; cancelledJobs := cancelledJobs w; activeJobs := f (activeJobs w);
     clock := clock w; console := console w; ioCount := ioCount w; replies := replies w |}.

Definition set_clock (t : Time) (w : World) : World :=
  {| repo := repo w; cancelledJobs := cancelledJobs w; activeJobs := activeJobs w;
     clock := t; console := console w; ioCount := ioCount w; replies := replies w |}.

Definition log_progress (jobId : string) (p : AnalyzerProgress) (w : World) : World :=
  {| repo := repo w; cancelledJobs := cancelledJobs w; activeJobs := activeJobs w;
     clock := clock w; console := console w ++ [(jobId, p)]; ioCount := ioCount w;
     replies := replies w |}.

Definition next_io (w : World) : World :=
  {| repo := repo w; cancelledJobs := cancelledJobs w; activeJobs := activeJobs w;
     clock := clock w; console := console w; ioCount := S (ioCount w); replies := replies w |}.

Definition add_reply (r : Reply) (w : World) : World :=
  {| repo := repo w; cancelledJobs := cancelledJobs w; activeJobs := activeJobs w;
     clock := clock w; console := console w; ioCount := ioCount w;
     replies := replies w ++ [r] |}.

Definition initial : World :=
  {| repo := Repo.empty; cancelledJobs := ∅; activeJobs := ∅; clock := 0;
     console := []; ioCount := 0; replies := [] |}.

(** What Reddit and the language model answer. *)
Record Subreddit := {
  sr_name : string;
  display_name : string;
  subscribers : Q;
  description : string;
  public_description : string;
}.

Record LlmSubNiche := {
  sn_label : string;
  sn_confidence : Q;
  sn_reasoning : string;
}.

Record TopicInfo := {
  t_label : string;
  t_confidence : Q;
  t_popularity : option Q;
  t_reasoning : string;
  t_data : option (gmap string JValue);
}.

(** The three ways a level-1 node gets its confidence: from the model's
    best sub-niche, from the subreddit alone when the model returned
    nothing, and in the [catch] block. *)
Inductive Level1Path := ViaModel | ViaSubreddit | ViaCatch.

(** A request served while the background task waits for an external
    call. *)
Inductive Request :=
| ReqCancel (jobId : string)
| ReqStatus (jobId : string).

(** The outside world.  An external call is one wait of a background
    task for the outside world: all that the task awaits between two of
    its progress reports, which may be several HTTP requests in a row.
    The calls are numbered in the order in which the process makes them;
    the answers may depend on that number.
    - [searchSubreddits k niche]: [searchReddit] followed by
      [extractSubreddits], which looks up every subreddit found (one request
      for the search and one for each subreddit);
    - [extractSubNiches k sr niche]: the language model's sub-niches for a
      subreddit;
    - [level1Confidence k sr path]: the confidence computed for the
      level-1 node of [sr] (logarithms and [Math.random]);
    - [extractTopics k subreddit parent niche]:
      [extractTopicsFromSubredditWithLLM] (the fetch of the posts, the
      model's call and, when that fails, the fallback fetch);
    - [arrivals k]: the requests served while call [k] is pending;
    - [timeAt k]: the clock when call [k] returns. *)
Record Env := {
  searchSubreddits : nat → string → JsError + list Subreddit;
  extractSubNiches : nat → Subreddit → string → JsError + list LlmSubNiche;
  level1Confidence : nat → Subreddit → Level1Path → Q;
  extractTopics : nat → string → string → string → JsError + list TopicInfo;
  arrivals : nat → list Request;
  timeAt : nat → Time;
}.

(** Computations of the process: they may throw, and they change the
    state. *)
Definition M (A : Type) : Type := World → (JsError + A) * World.

Definition ret {A} (a : A) : M A := fun w => (inr a, w).

Definition throw {A} (e : JsError) : M A := fun w => (inl e, w).

Definition bind {A B} (m : M A) (f : A → M B) : M B :=
  fun w => match m w with
           | (inr a, w') => f a w'
           | (inl e, w') => (inl e, w')
           end.

Definition try_catch {A} (m : M A) (handler : JsError → M A) : M A :=
  fun w => match m w with
           | (inr a, w') => (inr a, w')
           | (inl e, w') => handler e w'
           end.

Definition modify (f : World → World) : M unit := fun w => (inr tt, f w).

Definition gets {A} (f : World → A) : M A := fun w => (inr (f w), w).

Notation "x <- m ;; k" := (bind m (fun x => k))
  (at level 100, m at next level, right associativity).
Notation "m ;;; k" := (bind m (fun _ => k))
  (at level 100, right associativity).

(** ** Cancel requests ([DiscoveryServiceImpl.cancelJob]) *)

Module Cancel.

Definition cancelJob (jobId : string) (w : World) : CancelReply * World :=
  match activeJobs w !! jobId with
  | None => ({| success := false; message := "Job not found or already completed" |}, w)
  | Some _ =>
      let w1 := set_cancelledJobs (fun s => {[ jobId ]} ∪ s) w in
      let w2 := set_activeJobs (<[jobId := {| aborted := true |}]>) w1 in
      let w3 := set_repo (Repo.updateJobStatus jobId (clock w) Cancelled
                            (Some "Job was cancelled by user")) w2 in
      ({| success := true; message := "Job cancelled successfully" |}, w3)
  end.

Definition serve (rq : Request) (w : World) : World :=
  match rq with
  | ReqCancel jobId => let '(r, w') := cancelJob jobId w in add_reply (CancelReplied r) w'
  | ReqStatus jobId => add_reply (StatusReplied (Repo.getJob jobId (repo w))) w
  end.

Definition serve_all (rqs : list Request) (w : World) : World :=
  fold_left (fun w rq => serve rq w) rqs w.

End Cancel.

(** An external call: while it is pending the requests that arrive are
    served; the call's number is returned to index the world's answer.
    Within one call the code makes its requests without looking at the set
    of cancelled jobs; it looks at it in the progress report that
    follows. *)
Definition await_io (env : Env) : M nat :=
  fun w =>
    let k := ioCount w in
    (inr k, next_io (Cancel.serve_all (arrivals env k) (set_clock (timeAt env k) w))).

Definition lift_answer {A} (r : JsError + A) : M A :=
  fun w => (r, w).

(** ** The Reddit analyzer ([RedditAnalyzer.analyze]) *)

Record AnalyzerConfig := {
  ac_maxLevels : Z;
  ac_maxNodesPerLevel : Z;
}.

Definition ProgressCallback := AnalyzerProgress → M unit.

Module RedditAnalyzer.

Definition platform : string := "reddit".

Definition mkSub (total completed : nat) (item step : string) (prog : nat) : SubAnalysis :=
  {| totalItems := total; completedItems := completed; currentItem := Some item;
     currentStep := Some step; currentItemProgress := Some prog;
     estimatedTimeRemaining := None |}.

Definition report (cb : ProgressCallback) (lvl : nat) (ph : Phase) (nNodes nEdges : nat)
    (sa : option SubAnalysis) : M unit :=
  cb {| p_currentLevel := lvl; p_status := ph; p_nodesDiscovered := nNodes;
        p_edgesDiscovered := nEdges; p_subAnalysis := sa |}.

(** [niche.split(' ').length]. *)
Fixpoint count_spaces (s : string) : nat :=
  match s with
  | EmptyString => 0
  | String c s' => (if Ascii.eqb c " " then 1 else 0) + count_spaces s'
  end.

Definition nicheSpecificity (niche : string) : nat := S (count_spaces niche).

Definition quoted (s : string) : string := String "034" (s ++ String "034" "").

Definition rootNode (niche : string) : AnalyzerNode :=
  let n := nicheSpecificity niche in
  {| a_id := "root"; a_label := niche; a_level := 0; a_type := Niche;
     a_source := platform;
     a_data := Some {[ "specificity_score" := JNum (inject_Z (Z.of_nat n));
                       "reasoning" := JStr ("Root niche confidence based on specificity ("
                                            ++ Js.string_of_nat n ++ " words)") ]};
     a_confidence := Qmin (95 # 100) ((7 # 10) + inject_Z (Z.of_nat n) * (5 # 100));
     a_popularity := 0 |}.

Definition level_type (lvl : nat) : NodeType :=
  if Nat.eqb lvl 1 then SubNiche else Topic.

(** The [data] record common to the three kinds of level-1 node. *)
Definition subreddit_data (sr : Subreddit) : gmap string JValue :=
  {[ "description" := JStr (description sr);
     "public_description" := JStr (public_description sr);
     "subscribers" := JNum (subscribers sr);
     "subreddit_url" := JStr ("https://www.reddit.com/r/" ++ sr_name sr) ]}.

(** The node pushed when the model returned a best sub-niche (the
    floating-point intermediates [llm_confidence] and [subscriber_factor]
    of its [data] are left out). *)
Definition model_node (lvl index : nat) (sr : Subreddit) (best : LlmSubNiche) (conf : Q)
  : AnalyzerNode :=
  {| a_id := "node-" ++ Js.string_of_nat lvl ++ "-" ++ Js.string_of_nat index;
     a_label := sn_label best; a_level := lvl; a_type := level_type lvl;
     a_source := platform;
     a_data := Some (<["llm_reasoning" := JStr (sn_reasoning best)]>
                      (<["original_subreddit" := JStr (display_name sr)]>
                        (<["enhanced_confidence" := JNum conf]> (subreddit_data sr))));
     a_confidence := conf; a_popularity := subscribers sr |}.

(** The node pushed for the subreddit itself, by the [else] branch and by
    the [catch] block. *)
Definition subreddit_node (lvl index : nat) (sr : Subreddit) (conf : Q) : AnalyzerNode :=
  {| a_id := "node-" ++ Js.string_of_nat lvl ++ "-" ++ Js.string_of_nat index;
     a_label := display_name sr; a_level := lvl; a_type := level_type lvl;
     a_source := platform;
     a_data := Some (subreddit_data sr);
     a_confidence := conf; a_popularity := subscribers sr |}.

Section Analyze.

Variable env : Env.

(** [createNodesFromSubredditsWithLLM]: the loop over the subreddits;
    [nodes] is the array built so far.  The call to the language model is
    the first statement of the [try]; what can throw there is its answer. *)
Fixpoint createNodesFromSubredditsWithLLM (subreddits : list Subreddit) (index total lvl : nat)
    (parentNiche : string) (cb : ProgressCallback) (nodes : list AnalyzerNode)
  : M (list AnalyzerNode) :=
  match subreddits with
  | [] => ret nodes
  | sr :: rest =>
      report cb lvl (PAnalyzingSubreddit (index + 1) total) (length nodes + 1) (length nodes)
        (Some (mkSub total index ("r/" ++ display_name sr) "llm_analysis" 0)) ;;;
      k <- await_io env ;;
      node <- try_catch
        (subNiches <- lift_answer (extractSubNiches env k sr parentNiche) ;;
         report cb lvl (PProcessingSubreddit (display_name sr)) (length nodes + 1) (length nodes)
           (Some (mkSub total index ("r/" ++ display_name sr) "processing" 75)) ;;;
         match subNiches with
         | best :: _ => ret (model_node lvl index sr best (level1Confidence env k sr ViaModel))
         | [] => ret (subreddit_node lvl index sr (level1Confidence env k sr ViaSubreddit))
         end)
        (fun _ => ret (subreddit_node lvl index sr (level1Confidence env k sr ViaCatch))) ;;
      createNodesFromSubredditsWithLLM rest (S index) total lvl parentNiche cb (nodes ++ [node])%list
  end.

(** [parentNode.data?.original_subreddit || parentNode.label]; the
    analyzer only ever stores a string under that key. *)
Definition subredditName (parentNode : AnalyzerNode) : string :=
  match a_data parentNode with
  | Some d =>
      match d !! "original_subreddit" with
      | Some (JStr s) => if String.eqb s "" then a_label parentNode else s
      | _ => a_label parentNode
      end
  | None => a_label parentNode
  end.

Definition topic_node (lvl : nat) (parentNode : AnalyzerNode) (srName : string)
    (index : nat) (topic : TopicInfo) : AnalyzerNode :=
  {| a_id := "node-" ++ Js.string_of_nat lvl ++ "-" ++ a_id parentNode ++ "-"
             ++ Js.string_of_nat index;
     a_label := t_label topic; a_level := lvl; a_type := Topic;
     a_source := platform;
     a_data := Some (<["parent_subniche" := JStr (a_label parentNode)]>
                      (<["original_subreddit" := JStr srName]>
                        (<["reasoning" := JStr (t_reasoning topic)]>
                          (default ∅ (t_data topic)))));
     a_confidence := t_confidence topic;
     a_popularity := default 0%Q (t_popularity topic) |}.

Definition topic_edge (parentNode node : AnalyzerNode) : AnalyzerEdge :=
  {| ae_id := "edge-" ++ a_id parentNode ++ "-" ++ a_id node;
     ae_source := a_id parentNode; ae_target := a_id node;
     ae_relationship := Contains; ae_confidence := 7 # 10;
     ae_source_platform := platform |}.

(** What one level has gathered so far: [levelNodes], [levelEdges] and
    the count of API calls. *)
Definition LevelAcc : Type := list AnalyzerNode * list AnalyzerEdge * nat.

(** The loop over the parents of one level.  Each parent is handled
    inside its own [try]; the [catch] block leaves what was gathered
    untouched and goes on to the next parent. *)
Fixpoint expandParents (lvl : nat) (niche : string) (cb : ProgressCallback)
    (parents : list AnalyzerNode) (parentIndex total nNodes nEdges : nat) (acc : LevelAcc)
  : M LevelAcc :=
  match parents with
  | [] => ret acc
  | parentNode :: rest =>
      let '(levelNodes, levelEdges, apiCalls) := acc in
      acc' <- try_catch
        (let srName := subredditName parentNode in
         report cb lvl (PParent lvl (a_label parentNode) (parentIndex + 1) total) nNodes nEdges
           (Some (mkSub total parentIndex (a_label parentNode) "llm_analysis" 25)) ;;;
         k <- await_io env ;;
         topics <- lift_answer (extractTopics env k srName (a_label parentNode) niche) ;;
         match topics with
         | [] => ret (levelNodes, levelEdges, S apiCalls)
         | _ =>
             let topicNodes := imap (topic_node lvl parentNode srName) (take 3 topics) in
             let topicEdges := map (topic_edge parentNode) topicNodes in
             ret ((levelNodes ++ topicNodes)%list, (levelEdges ++ topicEdges)%list, S apiCalls)
         end)
        (fun _ => ret acc) ;;
      expandParents lvl niche cb rest (S parentIndex) total nNodes nEdges acc'
  end.

(** The loop [for (level = 2; level <= config.maxLevels; level++)];
    [remaining] is the number of levels from [lvl] up to [maxLevels]. *)
Fixpoint expandLevels (remaining lvl : nat) (niche : string) (cb : ProgressCallback)
    (allNodes : list AnalyzerNode) (allEdges : list AnalyzerEdge) (apiCalls : nat)
  : M LevelAcc :=
  match remaining with
  | 0 => ret (allNodes, allEdges, apiCalls)
  | S remaining' =>
      let parentNodes := List.filter (fun n => Nat.eqb (a_level n) (lvl - 1)) allNodes in
      let maxParentsPerLevel := length parentNodes in
      report cb lvl (PLevelStart lvl maxParentsPerLevel) (length allNodes) (length allEdges)
        (Some (mkSub maxParentsPerLevel 0 "Preparing level analysis" "fetching" 0)) ;;;
      acc <- expandParents lvl niche cb (take maxParentsPerLevel parentNodes) 0
               maxParentsPerLevel (length allNodes) (length allEdges) ([], [], apiCalls) ;;
      let '(levelNodes, levelEdges, apiCalls') := acc in
      let allNodes' := (allNodes ++ levelNodes)%list in
      let allEdges' := (allEdges ++ levelEdges)%list in
      report cb lvl (PLevelDone lvl (length levelNodes)) (length allNodes') (length allEdges')
        None ;;;
      if Nat.eqb (length levelNodes) 0
      then ret (allNodes', allEdges', apiCalls')
      else expandLevels remaining' (S lvl) niche cb allNodes' allEdges' apiCalls'
  end.

Definition root_edge (root node : AnalyzerNode) : AnalyzerEdge :=
  {| ae_id := "edge-root-" ++ a_id node;
     ae_source := a_id root; ae_target := a_id node;
     ae_relationship := Contains; ae_confidence := 8 # 10;
     ae_source_platform := platform |}.

(** [analyze]: the body of the outer [try], then the outer [catch], which
    reports the failure through the callback and rethrows. *)
Definition analyze (niche : string) (cfg : AnalyzerConfig) (cb : ProgressCallback)
  : M AnalyzerResult :=
  startTime <- gets clock ;;
  try_catch
    (report cb 0 PInit 0 0 None ;;;
     let root := rootNode niche in
     report cb 0 PSearching 1 0 (Some (mkSub 1 0 (quoted niche) "fetching" 10)) ;;;
     k <- await_io env ;;
     subreddits <- lift_answer (searchSubreddits env k niche) ;;
     let totalSubreddits := length subreddits in
     report cb 1 (PFoundSubreddits totalSubreddits) 1 0
       (Some (mkSub totalSubreddits 0 "Preparing subreddit analysis" "processing" 0)) ;;;
     level1Nodes <- createNodesFromSubredditsWithLLM subreddits 0 totalSubreddits 1 niche cb [] ;;
     let allNodes := root :: level1Nodes in
     let allEdges := map (root_edge root) level1Nodes in
     report cb 1 (PLevel1Done (length level1Nodes)) (length allNodes) (length allEdges) None ;;;
     acc <- expandLevels (Z.to_nat (ac_maxLevels cfg - 1)) 2 niche cb allNodes allEdges 1 ;;
     let '(allNodes', allEdges', apiCalls) := acc in
     report cb (Z.to_nat (ac_maxLevels cfg)) PComplete (length allNodes') (length allEdges')
       None ;;;
     endTime <- gets clock ;;
     ret {| r_nodes := allNodes'; r_edges := allEdges';
            r_metadata := {| md_platform := platform; md_startTime := startTime;
                             md_endTime := endTime;
                             md_processingTime := Z.of_nat endTime - Z.of_nat startTime;
                             md_apiCalls := apiCalls; md_errors := [] |} |})
    (fun error =>
       report cb 0 (PFailed (err_message error)) 0 0 None ;;;
       throw error).

End Analyze.

End RedditAnalyzer.

(** ** The registry's fan-out ([AnalyzerRegistry.analyzeWithMultiplePlatforms]) *)

Record BaseAnalyzer := {
  ba_platform : string;
  ba_analyze : string → AnalyzerConfig → ProgressCallback → M AnalyzerResult;
}.

Module AnalyzerRegistry.

Definition register (a : BaseAnalyzer) (analyzers : gmap string BaseAnalyzer)
  : gmap string BaseAnalyzer :=
  <[ba_platform a := a]> analyzers.

Definition getAnalyzer (analyzers : gmap string BaseAnalyzer) (p : string)
  : option BaseAnalyzer :=
  analyzers !! p.

(** The callback handed to an analyzer: the status is prefixed with the
    analyzer's platform. *)
Definition wrappedProgressCallback (a : BaseAnalyzer) (cb : ProgressCallback)
  : ProgressCallback :=
  fun progress =>
    cb {| p_currentLevel := p_currentLevel progress;
          p_status := PTagged (ba_platform a) (p_status progress);
          p_nodesDiscovered := p_nodesDiscovered progress;
          p_edgesDiscovered := p_edgesDiscovered progress;
          p_subAnalysis := p_subAnalysis progress |}.

(** The analyzers' promises.  Each analyzer runs inside its own [try]:
    a failure is turned into a message pushed on [errors] and the result
    [null].  The promises are awaited together; here the analyzers run in
    the order of the request, which is the only order there is for the
    single analyzer that the discovery service registers.  When the
    sources name that analyzer more than once the code has several
    analyses under way at once; the run modelled is then the one in which
    each analysis has had all its answers before the next gets its first,
    and it agrees with the code on what the analyses return, and so on the
    status and the graph that the task leaves. *)
Fixpoint runAnalyzers (analyzers : list BaseAnalyzer) (niche : string) (cfg : AnalyzerConfig)
    (cb : ProgressCallback) (analyzerResults : list AnalyzerResult) (errors : list string)
  : M (list AnalyzerResult * list string) :=
  match analyzers with
  | [] => ret (analyzerResults, errors)
  | a :: rest =>
      r <- try_catch
             (result <- ba_analyze a niche cfg (wrappedProgressCallback a cb) ;;
              ret (inr result))
             (fun error =>
                ret (inl ("Error in " ++ ba_platform a ++ " analyzer: " ++ err_message error))) ;;
      match r with
      | inr result => runAnalyzers rest niche cfg cb (analyzerResults ++ [result])%list errors
      | inl errorMessage =>
          runAnalyzers rest niche cfg cb analyzerResults (errors ++ [errorMessage])%list
      end
  end.

Definition analyzeWithMultiplePlatforms (registered : gmap string BaseAnalyzer)
    (niche : string) (platforms : list string) (cfg : AnalyzerConfig) (cb : ProgressCallback)
  : M CombinedAnalyzerResult :=
  startTime <- gets clock ;;
  let analyzers := omap (getAnalyzer registered) platforms in
  match analyzers with
  | [] => throw (mkError ("No analyzers found for platforms: " ++ Js.join ", " platforms))
  | _ =>
      out <- runAnalyzers analyzers niche cfg cb [] [] ;;
      let '(analyzerResults, errors) := out in
      match analyzerResults with
      | [] => throw (mkError ("All analyzers failed. Errors: " ++ Js.join "; " errors))
      | _ =>
          endTime <- gets clock ;;
          ret (Registry.combineResults analyzerResults startTime endTime)
      end
  end.

End AnalyzerRegistry.

(** ** The discovery service ([DiscoveryServiceImpl]) *)

Record StartResponse := {
  sr_jobId : string;
  sr_status : string;
  sr_message : string;
}.

Module Service.

Definition AbortError : JsError :=
  {| err_name := "AbortError"; err_message := "Discovery job was cancelled" |}.

(** The progress callback of [runDiscoveryWithAnalyzers]: it throws when
    the job is in [cancelledJobs]; otherwise it prints the progress line and
    writes the level (and the sub-analysis, when there is one) on the job
    record. *)
Definition progressCallback (jobId : string) : ProgressCallback :=
  fun progress w =>
    if decide (jobId ∈ cancelledJobs w) then (inl AbortError, w)
    else
      let w1 := log_progress jobId progress w in
      let w2 := set_repo (Repo.updateJobCurrentLevel jobId (clock w)
                            (p_currentLevel progress)) w1 in
      match p_subAnalysis progress with
      | Some sa => (inr tt, set_repo (Repo.updateJobSubAnalysis jobId (clock w) sa) w2)
      | None => (inr tt, w2)
      end.

Definition toDiscoveryNode (n : AnalyzerNode) : DiscoveryNode :=
  {| id := a_id n; label := a_label n; level := a_level n; type := a_type n;
     source := a_source n; confidence := a_confidence n; popularity := a_popularity n;
     data := a_data n |}.

Definition toDiscoveryEdge (e : AnalyzerEdge) : DiscoveryEdge :=
  {| edge_id := ae_id e; edge_source := ae_source e; edge_target := ae_target e;
     relationship := ae_relationship e |}.

Definition storeAnalyzerResults (jobId : string) (result : CombinedAnalyzerResult) : M unit :=
  modify (fun w =>
    let w1 := fold_left (fun w n => set_repo (Repo.addNode jobId (clock w) (toDiscoveryNode n)) w)
                (c_nodes result) w in
    fold_left (fun w e => set_repo (Repo.addEdge jobId (clock w) (toDiscoveryEdge e)) w)
      (c_edges result) w1).

Definition updateStatus (jobId : string) (st : JobStatus) (e : option string) : M unit :=
  modify (fun w => set_repo (Repo.updateJobStatus jobId (clock w) st e) w).

Section Process.

Variable env : Env.

(** The global registry after [initializeAnalyzers]. *)
Definition analyzerRegistry : gmap string BaseAnalyzer :=
  AnalyzerRegistry.register
    {| ba_platform := RedditAnalyzer.platform; ba_analyze := RedditAnalyzer.analyze env |} ∅.

(** [runDiscoveryWithAnalyzers]; its [catch] block prints and rethrows. *)
Definition runDiscoveryWithAnalyzers (jobId : string) (cfg : DiscoveryConfig) : M unit :=
  try_catch
    (result <- AnalyzerRegistry.analyzeWithMultiplePlatforms analyzerRegistry
                 (niche cfg) (sources cfg)
                 {| ac_maxLevels := maxLevels cfg; ac_maxNodesPerLevel := maxNodesPerLevel cfg |}
                 (progressCallback jobId) ;;
     storeAnalyzerResults jobId result)
    (fun error => throw error).

Definition runRealDiscovery (jobId : string) : M unit :=
  job <- gets (fun w => Repo.getJob jobId (repo w)) ;;
  match job with
  | None => throw (mkError "Job not found")
  | Some job =>
      try_catch
        (updateStatus jobId Discovering None ;;;
         runDiscoveryWithAnalyzers jobId (config job) ;;;
         updateStatus jobId Complete None)
        (fun error =>
           updateStatus jobId Error (Some (err_message error)) ;;;
           throw error)
  end.

(** The background task that [startDiscovery] launches:
    [runRealDiscovery(job.id).catch(...).finally(...)]. *)
Definition backgroundTask (jobId : string) (w : World) : World :=
  let '(r, w1) := runRealDiscovery jobId w in
  let w2 :=
    match r with
    | inr _ => w1
    | inl error =>
        if String.eqb (err_name error) "AbortError"
        then set_repo (Repo.updateJobStatus jobId (clock w1) Cancelled
                         (Some "Job was cancelled by user")) w1
        else set_repo (Repo.updateJobStatus jobId (clock w1) Error
                         (Some (err_message error))) w1
    end in
  set_cancelledJobs (fun s => s ∖ {[ jobId ]}) (set_activeJobs (delete jobId) w2).

End Process.

(** [startDiscovery] up to the launch of the background task: the job is
    created and its abort controller registered; [uuid] is the id drawn
    for the job. *)
Definition startDiscovery (cfg : DiscoveryConfig) (uuid : string) (w : World)
  : StartResponse * World :=
  let '(job, r) := Repo.createJob uuid (clock w) cfg (repo w) in
  let w1 := set_repo (fun _ => r) w in
  let w2 := set_activeJobs (<[job_id job := {| aborted := false |}]>) w1 in
  ({| sr_jobId := job_id job; sr_status := "starting";
      sr_message := "Discovery job started successfully" |}, w2).

(** A job from its start to the end of its background task. *)
Definition runJob (env : Env) (cfg : DiscoveryConfig) (uuid : string) (w : World) : World :=
  backgroundTask env uuid (snd (startDiscovery cfg uuid w)).

Definition jobStatus (jobId : string) (w : World) : option JobStatus :=
  status <$> Repo.getJob jobId (repo w).

End Service.

(** ** The route [POST /api/discover] *)

Inductive HttpReply :=
| Ok200 (body : StartResponse)
| BadRequest400.

Module Routes.

(** The body is checked against the schema before the handler runs; a
    body that fails is answered with status 400. *)
Definition postDiscover (body : DiscoveryConfig) (uuid : string) (w : World)
  : HttpReply * World :=
  if Validators.DiscoveryConfigSchema body
  then let '(result, w') := Service.startDiscovery body uuid w in (Ok200 result, w')
  else (BadRequest400, w).

End Routes.

(** ** Sample inputs *)

Module Sample.

Definition node (i lab : string) (lvl : nat) (src : string) (conf pop : Q)
    (d : option (gmap string JValue)) : AnalyzerNode :=
  {| a_id := i; a_label := lab; a_level := lvl;
     a_type := match lvl with 0 => Niche | 1 => SubNiche | _ => Topic end;
     a_source := src; a_data := d; a_confidence := conf; a_popularity := pop |}.

Definition edge (i s t : string) (src : string) : AnalyzerEdge :=
  {| ae_id := i; ae_source := s; ae_target := t; ae_relationship := Contains;
     ae_confidence := 8 # 10; ae_source_platform := src |}.

Definition metadata (p : string) : AnalyzerMetadata :=
  {| md_platform := p; md_startTime := 0; md_endTime := 1; md_processingTime := 1;
     md_apiCalls := 1; md_errors := [] |}.

(** Two analyzers that both find the level-1 node "Entrepreneur" under
    the root "startups", each with an edge from its root to its own copy. *)
Definition resultA : AnalyzerResult :=
  {| r_nodes := [ node "a-root" "startups" 0 "reddit" (8 # 10) 0 (Some ∅);
                  node "a-1" "Entrepreneur" 1 "reddit" (9 # 10) 100
                    (Some {[ "seen_by" := JStr "reddit" ]}) ];
     r_edges := [ edge "a-e" "a-root" "a-1" "reddit" ];
     r_metadata := metadata "reddit" |}.

Definition resultB : AnalyzerResult :=
  {| r_nodes := [ node "b-root" "startups" 0 "forum" (7 # 10) 0 (Some ∅);
                  node "b-1" "entrepreneur " 1 "forum" (6 # 10) 50
                    (Some {[ "seen_by" := JStr "forum" ]}) ];
     r_edges := [ edge "b-e" "b-root" "b-1" "forum" ];
     r_metadata := metadata "forum" |}.



End Sample.

(** The progress lines printed so far, as the phases they report. *)
Definition phases (w : World) : list Phase := map (fun l => p_status (snd l)) (console w).

(** ** A sample run *)

Module SampleRun.

Definition startups : Subreddit :=
  {| sr_name := "startups"; display_name := "startups"; subscribers := 1000;
     description := "Founders"; public_description := "Startups" |}.

Definition saas : Subreddit :=
  {| sr_name := "SaaS"; display_name := "SaaS"; subscribers := 2000;
     description := "Software"; public_description := "SaaS" |}.

Definition pricing : TopicInfo :=
  {| t_label := "Pricing"; t_confidence := 1 # 2; t_popularity := Some (12 # 1);
     t_reasoning := "recurring"; t_data := None |}.

(** Reddit finds two subreddits, the model names no sub-niche, every
    subreddit's posts yield [topics]; [schedule k] are the requests that
    arrive while external call number [k] is pending. *)
Definition env (topics : JsError + list TopicInfo) (schedule : nat → list Request) : Env :=
  {| searchSubreddits := fun _ _ => inr [startups; saas];
     extractSubNiches := fun _ _ _ => inr [];
     level1Confidence := fun _ _ _ => 1 # 2;
     extractTopics := fun _ _ _ _ => topics;
     arrivals := schedule;
     timeAt := fun k => S k |}.

Definition quiet (topics : JsError + list TopicInfo) : Env := env topics (fun _ => []).

Definition during (call : nat) (rqs : list Request) : nat → list Request :=
  fun k => if Nat.eqb k call then rqs else [].

Definition cfg (levels : Z) : DiscoveryConfig :=
  {| niche := "AI tools"; maxLevels := levels; maxNodesPerLevel := 5;
     sources := ["reddit"; "twitter"] |}.

Definition jobId : string := "job-1".

(** The job runs to its end undisturbed. *)
Definition undisturbed : World :=
  Service.runJob (quiet (inr [pricing])) (cfg 2) jobId initial.

(** A cancel request, then a status request, arrive while the topics of
    the first of the two level-1 parents are being fetched (external call
    number 3). *)
Definition cancelled_mid_level : World :=
  Service.runJob (env (inr [pricing]) (during 3 [ReqCancel jobId; ReqStatus jobId])) (cfg 2)
    jobId initial.

(** Two cancel requests, with a status request in between, arrive while
    the search (external call number 0) is pending. *)
Definition cancelled_twice : World :=
  Service.runJob
    (env (inr [pricing]) (during 0 [ReqCancel jobId; ReqStatus jobId; ReqCancel jobId]))
    (cfg 2) jobId initial.

(** Three levels are allowed and no subreddit has any topic. *)
Definition barren : World :=
  Service.runJob (quiet (inr [])) (cfg 3) jobId initial.

(** The sub-analysis written on the record while the search is pending. *)
Definition searching : SubAnalysis :=
  RedditAnalyzer.mkSub 1 0 (RedditAnalyzer.quoted "AI tools") "fetching" 10.

(** The store as a client finds it while the search of [cancelled_twice]
    is pending: before the cancel requests arrive, and once the first has
    been served. *)
Definition running : Repo.t :=
  Repo.run [Repo.CreateJob jobId 0 (cfg 2);
            Repo.UpdateJobStatus jobId 0 Discovering None;
            Repo.UpdateJobCurrentLevel jobId 0 0;
            Repo.UpdateJobCurrentLevel jobId 0 0;
            Repo.UpdateJobSubAnalysis jobId 0 searching] Repo.empty.

Definition cancelled : Repo.t :=
  Repo.run [Repo.UpdateJobStatus jobId 1 Cancelled (Some "Job was cancelled by user")] running.

End SampleRun.

(** What the log of replies shows of each reply: whether a cancel request
    succeeded, or the status and error message of the record sent. *)
Definition reply_summary (r : Reply) : bool + option (JobStatus * option string) :=
  match r with
  | CancelReplied c => inl (success c)
  | StatusReplied job => inr ((fun j => (status j, error j)) <$> job)
  end.

(** ** Notions used to state the properties *)

(** [m] keeps [P]: whatever it returns or throws, [P] holds of the state
    it leaves when it held of the state it found. *)
Definition keeps (P : World → Prop) {A} (m : M A) : Prop :=
  ∀ w, P w → P (snd (m w)).

(** The store has a record for [jobId]. *)
Definition job_known (jobId : string) (r : Repo.t) : Prop :=
  is_Some (Repo.jobs r !! jobId).

(** A property of the store that none of its update operations breaks. *)
Record repo_stable (Q : Repo.t → Prop) : Prop := {
  stable_status : ∀ j now st e r, Q r → Q (Repo.updateJobStatus j now st e r);
  stable_level : ∀ j now lvl r, Q r → Q (Repo.updateJobCurrentLevel j now lvl r);
  stable_sub : ∀ j now sa r, Q r → Q (Repo.updateJobSubAnalysis j now sa r);
  stable_node : ∀ j now n r, Q r → Q (Repo.addNode j now n r);
  stable_edge : ∀ j now e r, Q r → Q (Repo.addEdge j now e r);
}.

(** A property of the server state that is kept by every step of which
    a background task is made: the writes on the store, the progress
    lines, and the external calls with the requests served meanwhile. *)
Record world_stable (env : Env) (P : World → Prop) : Prop := {
  ws_status : ∀ j now st e w, P w → P (set_repo (Repo.updateJobStatus j now st e) w);
  ws_level : ∀ j now lvl w, P w → P (set_repo (Repo.updateJobCurrentLevel j now lvl) w);
  ws_sub : ∀ j now sa w, P w → P (set_repo (Repo.updateJobSubAnalysis j now sa) w);
  ws_node : ∀ j now n w, P w → P (set_repo (Repo.addNode j now n) w);
  ws_edge : ∀ j now e w, P w → P (set_repo (Repo.addEdge j now e) w);
  ws_log : ∀ j p w, P w → P (log_progress j p w);
  ws_await : ∀ w, P w → P (snd (await_io env w));
}.

(** From [w] to [w'] the job [uuid], if it was not cancelled, has not
    been cancelled, and the progress lines [N] were printed. *)
Definition extends (uuid : string) (w w' : World) (N : list Phase) : Prop :=
  (uuid ∉ cancelledJobs w → uuid ∉ cancelledJobs w')
  ∧ phases w' = (phases w ++ N)%list.

(** [m] returns from [w] (it does not throw), and its result and the
    progress lines it printed satisfy [Post]. *)
Definition returns {A} (uuid : string) (m : M A) (w : World)
    (Post : A → list Phase → Prop) : Prop :=
  ∃ a w' N, m w = (inr a, w') ∧ extends uuid w w' N ∧ Post a N.

(** In a list of progress lines, a report that a level found no topic is
    the last line. *)
Definition empty_level_last (tg : string) (N : list Phase) : Prop :=
  ∀ i L, N !! i = Some (PTagged tg (PLevelDone L 0)) → S i = length N.

(** In a list of progress lines, a report that a level found no topic is
    followed at once by the report that the analysis is complete. *)
Definition empty_level_ends_analysis (tg : string) (N : list Phase) : Prop :=
  ∀ i L, N !! i = Some (PTagged tg (PLevelDone L 0)) →
         N !! (S i) = Some (PTagged tg PComplete).

(** No subreddit has topics: every fetch of topics fails or returns
    none. *)
Definition barren (env : Env) : Prop :=
  ∀ k sr parent topic,
    match extractTopics env k sr parent topic with
    | inl _ => True
    | inr topics => topics = []
    end.

(** No cancel request for the job [uuid] ever arrives. *)
Definition quiet_env (env : Env) (uuid : string) : Prop :=
  ∀ k, ¬ In (ReqCancel uuid) (arrivals env k).

(** Whether a progress line reports the end of a level of the expansion
    loop. *)
Definition is_level_done (p : Phase) : bool :=
  match p with
  | PTagged _ (PLevelDone _ _) => true
  | _ => false
  end.

(** The table of active jobs names known jobs only. *)
Definition tables_consistent (w : World) : Prop :=
  ∀ jobId, is_Some (activeJobs w !! jobId) → job_known jobId (repo w).

(** The states the server can pass through: from the initial state, by
    the start of a job, by the steps of which background tasks are made
    (in any interleaving of any number of tasks), by a cancel request, and
    by the clean-up at the end of a task. *)
Inductive reachable : World → Prop :=
| reach_initial : reachable initial
| reach_start cfg uuid w :
    reachable w → reachable (snd (Service.startDiscovery cfg uuid w))
| reach_status j now st e w :
    reachable w → reachable (set_repo (Repo.updateJobStatus j now st e) w)
| reach_level j now lvl w :
    reachable w → reachable (set_repo (Repo.updateJobCurrentLevel j now lvl) w)
| reach_sub j now sa w :
    reachable w → reachable (set_repo (Repo.updateJobSubAnalysis j now sa) w)
| reach_node j now n w :
    reachable w → reachable (set_repo (Repo.addNode j now n) w)
| reach_edge j now e w :
    reachable w → reachable (set_repo (Repo.addEdge j now e) w)
| reach_log j p w : reachable w → reachable (log_progress j p w)
| reach_clock t w : reachable w → reachable (set_clock t w)
| reach_io w : reachable w → reachable (next_io w)
| reach_reply r w : reachable w → reachable (add_reply r w)
| reach_cancel j w : reachable w → reachable (snd (Cancel.cancelJob j w))
| reach_cleanup j w :
    reachable w →
    reachable (set_cancelledJobs (fun s => s ∖ {[ j ]}) (set_activeJobs (delete j) w)).

(** The requests the schema accepts, and those it rejects. *)
Definition accepted_config (c : DiscoveryConfig) : Prop :=
  niche c ≠ "" ∧ (1 <= maxLevels c <= 10)%Z ∧ (1 <= maxNodesPerLevel c <= 100)%Z
  ∧ sources c ≠ [].

Definition rejected_config (c : DiscoveryConfig) : Prop :=
  niche c = "" ∨ (maxLevels c < 1)%Z ∨ (10 < maxLevels c)%Z
  ∨ (maxNodesPerLevel c < 1)%Z ∨ (100 < maxNodesPerLevel c)%Z ∨ sources c = [].

(** The analyzer that the discovery service registers. *)
Definition reddit (env : Env) : BaseAnalyzer :=
  {| ba_platform := RedditAnalyzer.platform; ba_analyze := RedditAnalyzer.analyze env |}.

(** Progress lines none of which reports the end of a level. *)
Abbreviation tame N := (Forall (fun p => is_level_done p = false) N).

(** What the progress lines [N] of an undisturbed run show: an empty
    level ends the analysis, and in a barren world level 2 is empty. *)
Definition goes_well_in (env : Env) (cfg : DiscoveryConfig) (N : list Phase) : Prop :=
  empty_level_ends_analysis "reddit" N
  ∧ (barren env → (2 <= maxLevels cfg)%Z → In (PTagged "reddit" (PLevelDone 2 0)) N).

(** A graph with one node on each of the levels 0 to 10. *)
Definition deep_graph : DiscoveryGraph :=
  {| nodes := map (fun l => {| id := "n"; label := "n"; level := l; type := Topic;
                               source := "reddit"; confidence := 1 # 2; popularity := 0;
                               data := None |}) (seq 0 11);
     edges := [] |}.

(** The analyzer [a] keeps [P] under every callback that does. *)
Definition analyzer_keeps (P : World → Prop) (a : BaseAnalyzer) : Prop :=
  ∀ niche cfg cb, (∀ p, keeps P (cb p)) → keeps P (ba_analyze a niche cfg cb).

(** The cancel requests for [uuid] that arrived during the external calls
    made since call number [k0] have been served: the job is still in the
    table of active jobs, and if there was such a request the job is in
    the set of cancelled jobs. *)
Definition cancel_seen (env : Env) (uuid : string) (k0 : nat) (w : World) : Prop :=
  is_Some (activeJobs w !! uuid)
  ∧ (k0 <= ioCount w)%nat
  ∧ ∀ k, (k0 <= k < ioCount w)%nat → In (ReqCancel uuid) (arrivals env k) →
         uuid ∈ cancelledJobs w.

(** ** Notions used to state the further properties of the job store *)

(** The job that a call of the store addresses, and whether the call is
    [createJob]. *)
Definition op_target (o : Repo.op) : string :=
  match o with
  | Repo.CreateJob uuid _ _ => uuid
  | Repo.UpdateJobStatus j _ _ _ => j
  | Repo.UpdateJobCurrentLevel j _ _ => j
  | Repo.UpdateJobSubAnalysis j _ _ => j
  | Repo.AddNode j _ _ => j
  | Repo.AddEdge j _ _ => j
  end.

Definition op_creates (o : Repo.op) : bool :=
  match o with
  | Repo.CreateJob _ _ _ => true
  | _ => false
  end.

(** The store has a record for a job exactly when it has a graph for it. *)
Definition same_domain (r : Repo.t) : Prop :=
  ∀ j, Repo.jobs r !! j = None ↔ Repo.jobGraphs r !! j = None.

Definition empty_graph : DiscoveryGraph := {| nodes := []; edges := [] |}.

(** A map from keys to values each of which carries its key. *)
Definition keyed {V} (key : V → string) (m : Registry.jsmap V) : Prop :=
  Forall (fun kv => key (snd kv) = fst kv) m ∧ NoDup (map fst m).

(** ** The service's other entry points *)

(** [getJobStatus]. *)
Definition getJobStatus (jobId : string) (w : World) : option DiscoveryJob :=
  Repo.getJob jobId (repo w).

(** [simulateDiscovery]: a controller is registered for the job and
    [runRealDiscovery] is awaited; nothing here catches what it throws, and
    nothing removes the controller. *)
Definition simulateDiscovery (env : Env) (jobId : string) : M unit :=
  modify (set_activeJobs (<[jobId := {| aborted := false |}]>)) ;;;
  Service.runRealDiscovery env jobId.

(** ** Notions used to state the further properties of the service *)

(** A progress report for a level up to [bound]. *)
Definition level_within (bound : nat) (p : AnalyzerProgress) : Prop :=
  (p_currentLevel p <= bound)%nat.

(** The highest level that an analysis with this config reports. *)
Definition top_level (maxLv : Z) : nat := Z.to_nat (Z.max 1 maxLv).

(** ** Notions used to state the properties of an analysis result *)

(** When [m] returns, its result satisfies [Q]. *)
Definition yields {A} (m : M A) (Q : A → Prop) : Prop :=
  ∀ w a w', m w = (inr a, w') → Q a.

(** The topic nodes that a parent contributes for the topics [ts], and
    the edges to them. *)
Definition topics_of (lvl : nat) (parentNode : AnalyzerNode) (ts : list TopicInfo)
  : list AnalyzerNode :=
  imap (RedditAnalyzer.topic_node lvl parentNode (RedditAnalyzer.subredditName parentNode)) ts.

Definition level_nodes (lvl : nat) (parents : list AnalyzerNode) (groups : list (list TopicInfo))
  : list AnalyzerNode :=
  concat (zip_with (topics_of lvl) parents groups).

Definition level_edges (lvl : nat) (parents : list AnalyzerNode) (groups : list (list TopicInfo))
  : list AnalyzerEdge :=
  concat (zip_with (fun p ts => map (RedditAnalyzer.topic_edge p) (topics_of lvl p ts))
            parents groups).

(** One round of the level loop: every node of the level above gets at
    most three topics, in the order of the parents. *)
Definition level_step (lvl : nat) (ns : list AnalyzerNode) (es : list AnalyzerEdge)
    (ns' : list AnalyzerNode) (es' : list AnalyzerEdge) : Prop :=
  let parents := List.filter (fun n => Nat.eqb (a_level n) (lvl - 1)) ns in
  ∃ groups, length groups = length parents
    ∧ Forall (fun ts => (length ts <= 3)%nat) groups
    ∧ ns' = (ns ++ level_nodes lvl parents groups)%list
    ∧ es' = (es ++ level_edges lvl parents groups)%list.

(** At most [remaining] rounds, for the levels from [lvl] on. *)
Inductive expanded : nat → nat → list AnalyzerNode → list AnalyzerEdge →
                     list AnalyzerNode → list AnalyzerEdge → Prop :=
| expanded_none remaining lvl ns es : expanded remaining lvl ns es ns es
| expanded_more remaining lvl ns es ns1 es1 ns' es' :
    level_step lvl ns es ns1 es1 →
    expanded remaining (S lvl) ns1 es1 ns' es' →
    expanded (S remaining) lvl ns es ns' es'.

(** What the node of a subreddit carries whichever way it was made. *)
Definition from_subreddit (lvl index : nat) (sr : Subreddit) (n : AnalyzerNode) : Prop :=
  a_id n = ("node-" ++ Js.string_of_nat lvl ++ "-" ++ Js.string_of_nat index)%string
  ∧ a_level n = lvl ∧ a_type n = RedditAnalyzer.level_type lvl
  ∧ a_source n = "reddit" ∧ a_popularity n = subscribers sr.

(** The edge [e] arrives at [n] from a node of [ns] one level up. *)
Definition is_child (ns : list AnalyzerNode) (n : AnalyzerNode) (e : AnalyzerEdge) : Prop :=
  ae_target e = a_id n ∧ ae_relationship e = Contains
  ∧ ∃ p, In p ns ∧ ae_source e = a_id p ∧ a_level n = S (a_level p).

(** The number of nodes of a level. *)
Definition level_size (lvl : nat) (ns : list AnalyzerNode) : nat :=
  length (List.filter (fun n => Nat.eqb (a_level n) lvl) ns).

(** The id of a node tells its level: the root is called "root", and
    the id of every other node begins with "node-<level>-". *)
Definition wf_id (n : AnalyzerNode) : Prop :=
  (a_id n = "root" ∧ a_level n = 0)
  ∨ ((1 <= a_level n)%nat
     ∧ ∃ r, a_id n = ("node-" ++ Js.string_of_nat (a_level n) ++ "-" ++ r)%string).

(** What holds of the nodes and edges gathered before the round for
    level [lvl]: they begin with the root; the other nodes are paired, in
    order, with the edges, each edge arriving at its node from a node one
    level up; ids are not repeated; and a level has at most three times
    the nodes of the level above. *)
Record analysis_inv (niche : string) (lvl : nat) (ns : list AnalyzerNode)
    (es : list AnalyzerEdge) : Prop := {
  inv_tree : ∃ rest, ns = RedditAnalyzer.rootNode niche :: rest
               ∧ Forall2 (is_child ns) rest es
               ∧ Forall (fun n => (1 <= a_level n < lvl)%nat) rest;
  inv_ids : NoDup (map a_id ns);
  inv_wf : Forall wf_id ns;
  inv_sizes : ∀ L, (1 <= L)%nat → (level_size (S L) ns <= 3 * level_size L ns)%nat;
}.

(** The Reddit analysis of the sample run, on its own. *)
Definition sample_analysis : (JsError + AnalyzerResult) * World :=
  RedditAnalyzer.analyze (SampleRun.quiet (inr [SampleRun.pricing])) "AI tools"
    {| ac_maxLevels := 2; ac_maxNodesPerLevel := 5 |}
    (Service.progressCallback SampleRun.jobId) initial.

(** An analyzer result that begins with the root node for [niche]. *)
Definition rooted (niche : string) (r : AnalyzerResult) : Prop :=
  ∃ rest, r_nodes r = RedditAnalyzer.rootNode niche :: rest.


(** The callback that the registry hands to the analyzer [a] when the
    service runs the job [uuid]. *)
Definition service_callback (a : BaseAnalyzer) (uuid : string) : ProgressCallback :=
  AnalyzerRegistry.wrappedProgressCallback a (Service.progressCallback uuid).

(** [m] throws from [w], and what it throws and the progress lines it
    printed satisfy [Post]. *)
Definition throws {A} (uuid : string) (m : M A) (w : World)
    (Post : JsError → list Phase → Prop) : Prop :=
  ∃ e w' N, m w = (inl e, w') ∧ extends uuid w w' N ∧ Post e N.

(** Every progress line is for the job [uuid] and for a level up to
    [bound]. *)
Definition lines_within (uuid : string) (bound : nat)
    (lines : list (string * AnalyzerProgress)) : Prop :=
  Forall (fun l => fst l = uuid ∧ (p_currentLevel (snd l) <= bound)%nat) lines.

(** Since the state [w0], the progress lines printed and the level on
    the record of the job [uuid] have stayed within [bound]. *)
Definition levels_within (uuid : string) (bound : nat) (w0 w : World) : Prop :=
  (∃ new, console w = (console w0 ++ new)%list ∧ lines_within uuid bound new)
  ∧ ∀ job, Repo.getJob uuid (repo w) = Some job → (currentLevel job <= bound)%nat.

(** ** The client's state machine ([discoveryMachine] of [machine.ts]) *)

Module Machine.

(** The events that the stream service sends to the machine. *)
Inductive DiscoveryEvent :=
| STREAM_CONNECTED
| STREAM_DISCONNECTED (reason : string)
| LEVEL_STARTED (lvl : nat)
| NODE_FOUND (node : DiscoveryNode)
| EDGE_FOUND (edge : DiscoveryEdge)
| LEVEL_COMPLETED (lvl nodeCount edgeCount : nat)
| PROGRESS (lvl : option nat) (progress : Q) (sub : option SubAnalysis)
| DONE (totalNodes totalEdges completedLevels : nat)
| ERROR (message code : string).

(** The listeners that [sseStreamService] adds for the named events of
    the stream.  There is none for [connected]; the one for [progress]
    reads [data.level], which the server does not send, so that the level
    of a [PROGRESS] event is undefined ([None]).  [onopen] and [onerror]
    report on the connection and are not part of this translation. *)
Definition listener (e : Event) : option DiscoveryEvent :=
  match e with
  | EvConnected _ _ => None
  | EvProgress progress _ _ sa => Some (PROGRESS None progress sa)
  | EvLevelStarted lvl => Some (LEVEL_STARTED lvl)
  | EvNodeFound n => Some (NODE_FOUND n)
  | EvLevelCompleted lvl nodeCount edgeCount => Some (LEVEL_COMPLETED lvl nodeCount edgeCount)
  | EvEdgeFound e => Some (EDGE_FOUND e)
  | EvDone nNodes nEdges completedLevels => Some (DONE nNodes nEdges completedLevels)
  | EvError message code => Some (ERROR message code)
  end.

Inductive StateValue :=
| st_idle | st_configured | st_starting | st_discovering | st_complete | st_error.

(** The fields of the context that the stream's events read and write.
    The keys of [progress] are levels or, for [undefined], [None]. *)
Record Context := {
  m_graph : DiscoveryGraph;
  m_currentLevel : nat;
  m_levelCounts : gmap nat nat;
  m_error : option string;
  m_progress : gmap (option nat) Q;
  m_subAnalysis : option SubAnalysis;
}.

Definition initialContext : Context :=
  {| m_graph := {| nodes := []; edges := [] |}; m_currentLevel := 0;
     m_levelCounts := ∅; m_error := None; m_progress := ∅; m_subAnalysis := None |}.

(** The transitions of the state [discovering] on the stream's events. *)
Definition on_discovering (ctx : Context) (ev : DiscoveryEvent) : StateValue * Context :=
  match ev with
  | LEVEL_STARTED lvl =>
      (st_discovering,
       {| m_graph := m_graph ctx; m_currentLevel := lvl;
          m_levelCounts := <[lvl := 0%nat]> (m_levelCounts ctx);
          m_error := m_error ctx; m_progress := m_progress ctx;
          m_subAnalysis := m_subAnalysis ctx |})
  | NODE_FOUND node =>
      (st_discovering,
       {| m_graph := {| nodes := nodes (m_graph ctx) ++ [node];
                        edges := edges (m_graph ctx) |};
          m_currentLevel := m_currentLevel ctx;
          m_levelCounts :=
            <[level node := (default 0 (m_levelCounts ctx !! level node) + 1)%nat]>
              (m_levelCounts ctx);
          m_error := m_error ctx; m_progress := m_progress ctx;
          m_subAnalysis := m_subAnalysis ctx |})
  | EDGE_FOUND edge =>
      (st_discovering,
       {| m_graph := {| nodes := nodes (m_graph ctx);
                        edges := edges (m_graph ctx) ++ [edge] |};
          m_currentLevel := m_currentLevel ctx; m_levelCounts := m_levelCounts ctx;
          m_error := m_error ctx; m_progress := m_progress ctx;
          m_subAnalysis := m_subAnalysis ctx |})
  | LEVEL_COMPLETED lvl nodeCount _ =>
      (st_discovering,
       {| m_graph := m_graph ctx; m_currentLevel := m_currentLevel ctx;
          m_levelCounts := <[lvl := nodeCount]> (m_levelCounts ctx);
          m_error := m_error ctx;
          m_progress := <[Some lvl := 1%Q]> (m_progress ctx);
          m_subAnalysis := m_subAnalysis ctx |})
  | PROGRESS lvl progress sub =>
      (st_discovering,
       {| m_graph := m_graph ctx; m_currentLevel := m_currentLevel ctx;
          m_levelCounts := m_levelCounts ctx; m_error := m_error ctx;
          m_progress := <[lvl := (progress / 100)%Q]> (m_progress ctx);
          m_subAnalysis := sub |})
  | DONE _ _ _ => (st_complete, ctx)
  | ERROR message _ =>
      (st_error,
       {| m_graph := m_graph ctx; m_currentLevel := m_currentLevel ctx;
          m_levelCounts := m_levelCounts ctx; m_error := Some message;
          m_progress := m_progress ctx; m_subAnalysis := m_subAnalysis ctx |})
  | STREAM_DISCONNECTED reason =>
      (st_error,
       {| m_graph := m_graph ctx; m_currentLevel := m_currentLevel ctx;
          m_levelCounts := m_levelCounts ctx;
          m_error := Some ("Stream disconnected: "
                             ++ (if String.eqb reason "" then "Unknown reason" else reason));
          m_progress := m_progress ctx; m_subAnalysis := m_subAnalysis ctx |})
  | STREAM_CONNECTED => (st_discovering, ctx)
  end.

(** No other state has a transition on an event of the stream. *)
Definition send (s : StateValue * Context) (ev : DiscoveryEvent) : StateValue * Context :=
  match fst s with
  | st_discovering => on_discovering (snd s) ev
  | _ => s
  end.

(** The machine after the events of a stream, in the order sent. *)
Definition receive (s : StateValue * Context) (evs : list Event) : StateValue * Context :=
  fold_left send (omap listener evs) s.

End Machine.

(** The client [s], which held [ctx] before, has taken in the graph [g]:
    it is in the state [complete]; the nodes of [g], regrouped, and its
    edges, in their order, have been added to the client's graph; and the
    client's count for every level of [g] is the number of nodes that [g]
    has at that level, the other counts being as before. *)
Definition rebuilt (ctx : Machine.Context) (g : DiscoveryGraph)
    (s : Machine.StateValue * Machine.Context) : Prop :=
  fst s = Machine.st_complete
  ∧ (∃ sent, nodes (Machine.m_graph (snd s)) = (nodes (Machine.m_graph ctx) ++ sent)%list
             ∧ sent ≡ₚ nodes g)
  ∧ edges (Machine.m_graph (snd s)) = (edges (Machine.m_graph ctx) ++ edges g)%list
  ∧ (∀ lvl, Machine.m_levelCounts (snd s) !! lvl
            = match Stream.nodesByLevel g lvl with
              | [] => Machine.m_levelCounts ctx !! lvl
              | ns => Some (length ns)
              end)
  ∧ Machine.m_error (snd s) = Machine.m_error ctx.

(** The state of a client in [discovering] that has been sent the nodes
    [ns] and the edges [es] and holds the level counts [lc]. *)
Definition holds (ctx : Machine.Context) (ns : list DiscoveryNode) (es : list DiscoveryEdge)
    (lc : gmap nat nat) (s : Machine.StateValue * Machine.Context) : Prop :=
  fst s = Machine.st_discovering
  ∧ nodes (Machine.m_graph (snd s)) = (nodes (Machine.m_graph ctx) ++ ns)%list
  ∧ edges (Machine.m_graph (snd s)) = (edges (Machine.m_graph ctx) ++ es)%list
  ∧ Machine.m_levelCounts (snd s) = lc
  ∧ Machine.m_error (snd s) = Machine.m_error ctx.

(** The events of one level of a replay; the polling callback closes the
    level with a [level_completed] event, the immediate replay does not. *)
Definition level_events (g : DiscoveryGraph) (completed : bool) (lvl : nat) : list Event :=
  (EvLevelStarted lvl
     :: map EvNodeFound (Stream.nodesByLevel g lvl)
     ++ (if completed
         then [EvLevelCompleted lvl (length (Stream.nodesByLevel g lvl)) (Stream.edgeCount g lvl)]
         else []))%list.

(** The level counts [lc] once the levels [ls] of [g] have been counted. *)
Definition counts_of (g : DiscoveryGraph) (ls : list nat) (lc : gmap nat nat) : gmap nat nat :=
  fold_left (fun m lvl => <[lvl := length (Stream.nodesByLevel g lvl)]> m) ls lc.

(** Since the state [w0] the record and the graph of the job [j] are as
    they were, and [j] has no running task. *)
Definition untouched (j : string) (w0 w : World) : Prop :=
  Repo.jobs (repo w) !! j = Repo.jobs (repo w0) !! j
  ∧ Repo.jobGraphs (repo w) !! j = Repo.jobGraphs (repo w0) !! j
  ∧ activeJobs w !! j = None.

(** ** The service used when no language model is configured
    ([FallbackLLMService]) *)

Module FallbackLLMService.

Record Post := {
  title : string;
  content : string;
  score : Q;
}.

(** [toUpperCase] on the ASCII range. *)
Definition upper_ascii (c : ascii) : ascii :=
  let n := nat_of_ascii c in
  if (97 <=? n)%nat && (n <=? 122)%nat then ascii_of_nat (n - 32) else c.

(** [word.charAt(0).toUpperCase() + word.slice(1)]. *)
Definition capitalize (word : string) : string :=
  match word with
  | EmptyString => EmptyString
  | String c rest => String (upper_ascii c) rest
  end.

(** [s.split(/\s+/)], white space being what [Js.is_space] sees: [word]
    is the piece read so far, [in_space] whether the last character read
    was white space.  A separator at either end leaves an empty piece
    there. *)
Fixpoint split_ws (s : string) (word : string) (in_space : bool) : list string :=
  match s with
  | EmptyString => [word]
  | String c s' =>
      if Js.is_space c
      then if in_space then split_ws s' word true else word :: split_ws s' "" true
      else split_ws s' (word ++ String c "") false
  end.

Definition split (s : string) : list string := split_ws s "" false.

Definition stopWords : list string := ["with"; "from"; "that"; "this"; "have"; "been"].

(** The words of a post's title that are counted. *)
Definition words (post : Post) : list string :=
  List.filter
    (fun word => (3 <? String.length word)%nat && negb (existsb (String.eqb word) stopWords))
    (split (Js.toLowerCase (title post))).

(** [wordCounts.set(word, (wordCounts.get(word) || 0) + 1)]. *)
Definition count_word (wordCounts : Registry.jsmap nat) (word : string) : Registry.jsmap nat :=
  Registry.map_set word (default 0 (Registry.map_get word wordCounts) + 1)%nat wordCounts.

Definition wordCounts (posts : list Post) : Registry.jsmap nat :=
  fold_left (fun m post => fold_left count_word (words post) m) posts [].

(** [extractTopicsFromPosts]: the entries of the map in the order of
    insertion, sorted by falling count (the sort is stable), cut to
    [maxTopics]. *)
Definition extractTopicsFromPosts (posts : list Post) (maxTopics : nat) : list LlmSubNiche :=
  map (fun wc =>
         {| sn_label := capitalize (fst wc);
            sn_confidence :=
              Qmin (6 # 10) (inject_Z (Z.of_nat (snd wc)) / inject_Z (Z.of_nat (length posts)));
            sn_reasoning :=
              "Appeared " ++ Js.string_of_nat (snd wc) ++ " times in post titles" |})
    (firstn maxTopics
       (Js.sort_by (fun a b => (snd b <=? snd a)%nat) (wordCounts posts))).

End FallbackLLMService.

(** Every character of [s] satisfies [P]. *)
Fixpoint all_chars (P : ascii → Prop) (s : string) : Prop :=
  match s with
  | EmptyString => True
  | String c s' => P c ∧ all_chars P s'
  end.

(** The entries of a map of counts: the keys are not repeated, every key
    is one of the words [ws] and every count is at least one. *)
Definition counted (ws : list string) (m : Registry.jsmap nat) : Prop :=
  NoDup (map fst m) ∧ Forall (fun kv => In (fst kv) ws ∧ (1 <= snd kv)%nat) m.

(** ** Notions used to state the properties of the merge *)

(** A string of ASCII characters.  On such strings [Js.toLowerCase] and
    [Js.trim] are the methods of JavaScript; beyond them the methods also
    change letters and strip spaces that the definitions above leave
    alone. *)
Definition ascii_string (s : string) : bool :=
  forallb (fun c => (nat_of_ascii c <? 128)%nat) (list_ascii_of_string s).

Definition ascii_labels (ns : list AnalyzerNode) : bool :=
  forallb (fun n => ascii_string (a_label n)) ns.


(** The node [n] under the id [i]. *)
Definition with_id (i : string) (n : AnalyzerNode) : AnalyzerNode :=
  {| a_id := i; a_label := a_label n; a_level := a_level n; a_type := a_type n;
     a_source := a_source n; a_data := a_data n; a_confidence := a_confidence n;
     a_popularity := a_popularity n |}.



Module SampleMerge.

(** The two copies of "Entrepreneur" in the results of [Sample]. *)
Definition entrepreneurA : AnalyzerNode :=
  Sample.node "a-1" "Entrepreneur" 1 "reddit" (9 # 10) 100
    (Some {[ "seen_by" := JStr "reddit" ]}).

Definition entrepreneurB : AnalyzerNode :=
  Sample.node "b-1" "entrepreneur " 1 "forum" (6 # 10) 50
    (Some {[ "seen_by" := JStr "forum" ]}).



(** Two edges with different ends and the same key. *)
Definition edgeLeft : AnalyzerEdge :=
  {| ae_id := "e1"; ae_source := "a-b"; ae_target := "c"; ae_relationship := Contains;
     ae_confidence := 8 # 10; ae_source_platform := "reddit" |}.

Definition edgeRight : AnalyzerEdge :=
  {| ae_id := "e2"; ae_source := "a"; ae_target := "b-c"; ae_relationship := Contains;
     ae_confidence := 9 # 10; ae_source_platform := "reddit" |}.

End SampleMerge.

(** ** Notions used to state the properties of requests served during a run *)

(** The clean-up at the end of a background task (the [finally] of
    [startDiscovery]). *)
Definition cleanup (jobId : string) (w : World) : World :=
  set_cancelledJobs (fun s => s ∖ {[ jobId ]}) (set_activeJobs (delete jobId) w).

(** The states in which the server can be when it serves a request that
    came in through its routes.  A request is served when no code of a
    background task is running, that is, while every task waits for an
    external call; the code that runs between two such waits runs to its
    end.  So the final status of a task and the removal of its controller
    come in one piece: the status complete written by [runRealDiscovery]
    and the clean-up; or the status error written by the [catch] of
    [runRealDiscovery], the status written by the [catch] of
    [startDiscovery], and the clean-up.  The other steps are those of
    [reachable], taken one by one, in any interleaving of any number of
    tasks; the only status that a task writes before its end is
    discovering.  ([simulateDiscovery], which no route calls, is not among
    the steps.) *)
Inductive serving : World → Prop :=
| serving_initial : serving initial
| serving_start cfg uuid w :
    serving w → serving (snd (Service.startDiscovery cfg uuid w))
| serving_discovering j now w :
    serving w → serving (set_repo (Repo.updateJobStatus j now Discovering None) w)
| serving_level j now lvl w :
    serving w → serving (set_repo (Repo.updateJobCurrentLevel j now lvl) w)
| serving_sub j now sa w :
    serving w → serving (set_repo (Repo.updateJobSubAnalysis j now sa) w)
| serving_node j now n w :
    serving w → serving (set_repo (Repo.addNode j now n) w)
| serving_edge j now e w :
    serving w → serving (set_repo (Repo.addEdge j now e) w)
| serving_log j p w : serving w → serving (log_progress j p w)
| serving_clock t w : serving w → serving (set_clock t w)
| serving_io w : serving w → serving (next_io w)
| serving_reply r w : serving w → serving (add_reply r w)
| serving_cancel j w : serving w → serving (snd (Cancel.cancelJob j w))
| serving_complete j now w :
    serving w →
    serving (cleanup j (set_repo (Repo.updateJobStatus j now Complete None) w))
| serving_failed j now e now' e' w :
    serving w →
    serving (cleanup j (set_repo (Repo.updateJobStatus j now' Error e')
                          (set_repo (Repo.updateJobStatus j now Error e) w)))
| serving_aborted j now e now' e' w :
    serving w →
    serving (cleanup j (set_repo (Repo.updateJobStatus j now' Cancelled e')
                          (set_repo (Repo.updateJobStatus j now Error e) w))).

(** The record of the job holds complete or error. *)
Definition finished (jobId : string) (r : Repo.t) : Prop :=
  ∃ job, Repo.getJob jobId r = Some job ∧ (status job = Complete ∨ status job = Error).

(** The store as a client finds it while the background task of the job
    is on its way: the record holds neither complete nor error, and the
    graph is empty. *)
Definition unfinished (jobId : string) (r : Repo.t) : Prop :=
  ∃ job, Repo.getJob jobId r = Some job
    ∧ status job ≠ Complete ∧ status job ≠ Error
    ∧ nodes (Repo.getJobGraph jobId r) = [].

Definition refused : CancelReply :=
  {| success := false; message := "Job not found or already completed" |}.

Module SampleTwice.

(** The sample job with the Reddit analyzer named twice: two analyses
    are run. *)
Definition cfg : DiscoveryConfig :=
  {| niche := "AI tools"; maxLevels := 2; maxNodesPerLevel := 5;
     sources := ["reddit"; "reddit"] |}.

(** The first analysis has had all its answers (external calls 0 to 4); a
    cancel request, then a status request, arrive while the search of the
    second (external call number 5) is pending. *)
Definition cancelled_late : World :=
  Service.runJob
    (SampleRun.env (inr [SampleRun.pricing])
       (SampleRun.during 5 [ReqCancel SampleRun.jobId; ReqStatus SampleRun.jobId]))
    cfg SampleRun.jobId initial.

End SampleTwice.

(** * Properties *)

Local Open Scope list_scope.

(** ** The job store keeps its counters in step with the graphs *)

Section RepoFacts.

Import Repo.

Lemma counts_agree_empty : counts_agree empty.
Proof. intros j job H. simpl in H. rewrite lookup_empty in H. discriminate. Qed.

Lemma counts_agree_createJob uuid now cfg r :
  counts_agree r → counts_agree (snd (createJob uuid now cfg r)).
Proof.
  intros Hr j job. unfold createJob; simpl.
  destruct (decide (uuid = j)) as [->|Hne].
  - rewrite !lookup_insert_eq. intros [= <-]. eexists; split; [reflexivity|]. simpl. auto.
  - rewrite !lookup_insert_ne by done. apply Hr.
Qed.

(** An update that rewrites a job record without touching its counters,
    and leaves the graphs alone, keeps the agreement. *)
Lemma counts_agree_rewrite (r : t) jobId (job job' : DiscoveryJob) :
  jobs r !! jobId = Some job →
  totalNodes job' = totalNodes job → totalEdges job' = totalEdges job →
  counts_agree r →
  counts_agree {| jobs := <[jobId := job']> (jobs r); jobGraphs := jobGraphs r |}.
Proof.
  intros Hj Hn He Hr j x. simpl.
  destruct (decide (jobId = j)) as [->|Hne].
  - rewrite lookup_insert_eq. intros [= <-].
    destruct (Hr _ _ Hj) as (g & Hg & H1 & H2).
    exists g. rewrite Hn, He. auto.
  - rewrite lookup_insert_ne by done. apply Hr.
Qed.

Lemma counts_agree_updateJobStatus jobId now st e r :
  counts_agree r → counts_agree (updateJobStatus jobId now st e r).
Proof.
  intros Hr. unfold updateJobStatus.
  destruct (jobs r !! jobId) as [job|] eqn:Hj; [|exact Hr].
  eapply counts_agree_rewrite; eauto.
Qed.

Lemma counts_agree_updateJobCurrentLevel jobId now lvl r :
  counts_agree r → counts_agree (updateJobCurrentLevel jobId now lvl r).
Proof.
  intros Hr. unfold updateJobCurrentLevel.
  destruct (jobs r !! jobId) as [job|] eqn:Hj; [|exact Hr].
  eapply counts_agree_rewrite; eauto.
Qed.

Lemma counts_agree_updateJobSubAnalysis jobId now sa r :
  counts_agree r → counts_agree (updateJobSubAnalysis jobId now sa r).
Proof.
  intros Hr. unfold updateJobSubAnalysis.
  destruct (jobs r !! jobId) as [job|] eqn:Hj; [|exact Hr].
  eapply counts_agree_rewrite; eauto.
Qed.

Lemma counts_agree_addNode jobId now n r :
  counts_agree r → counts_agree (addNode jobId now n r).
Proof.
  intros Hr. unfold addNode.
  destruct (jobGraphs r !! jobId) as [graph|] eqn:Hg; [|exact Hr].
  destruct (jobs r !! jobId) as [job|] eqn:Hj.
  - intros j x. simpl. destruct (decide (jobId = j)) as [->|Hne].
    + rewrite !lookup_insert_eq. intros [= <-]. eexists; split; [reflexivity|]. simpl.
      destruct (Hr _ _ Hj) as (g & Hg' & H1 & H2).
      rewrite Hg in Hg'. injection Hg' as <-. auto.
    + rewrite !lookup_insert_ne by done. apply Hr.
  - intros j x. simpl. destruct (decide (jobId = j)) as [->|Hne].
    + rewrite Hj. discriminate.
    + rewrite lookup_insert_ne by done. apply Hr.
Qed.

Lemma counts_agree_addEdge jobId now e r :
  counts_agree r → counts_agree (addEdge jobId now e r).
Proof.
  intros Hr. unfold addEdge.
  destruct (jobGraphs r !! jobId) as [graph|] eqn:Hg; [|exact Hr].
  destruct (jobs r !! jobId) as [job|] eqn:Hj.
  - intros j x. simpl. destruct (decide (jobId = j)) as [->|Hne].
    + rewrite !lookup_insert_eq. intros [= <-]. eexists; split; [reflexivity|]. simpl.
      destruct (Hr _ _ Hj) as (g & Hg' & H1 & H2).
      rewrite Hg in Hg'. injection Hg' as <-. auto.
    + rewrite !lookup_insert_ne by done. apply Hr.
  - intros j x. simpl. destruct (decide (jobId = j)) as [->|Hne].
    + rewrite Hj. discriminate.
    + rewrite lookup_insert_ne by done. apply Hr.
Qed.

Lemma counts_agree_apply o r : counts_agree r → counts_agree (apply o r).
Proof.
  intros Hr. destruct o; cbn [apply].
  - by apply counts_agree_createJob.
  - by apply counts_agree_updateJobStatus.
  - by apply counts_agree_updateJobCurrentLevel.
  - by apply counts_agree_updateJobSubAnalysis.
  - by apply counts_agree_addNode.
  - by apply counts_agree_addEdge.
Qed.

Lemma counts_agree_run ops r : counts_agree r → counts_agree (run ops r).
Proof.
  revert r. induction ops as [|o ops IH]; intros r Hr; simpl; [exact Hr|].
  apply IH, counts_agree_apply, Hr.
Qed.

End RepoFacts.

(** C10.  The store starts empty; after any sequence of its operations
    (createJob, updateJobStatus, updateJobCurrentLevel,
    updateJobSubAnalysis, addNode, addEdge), every job record has a graph,
    its totalNodes is the number of nodes of that graph and its totalEdges
    the number of its edges; a job just created has both counters 0 and an
    empty graph. *)
Theorem C10_counters_match_graph :
  (∀ ops, Repo.counts_agree (Repo.run ops Repo.empty)) ∧
  (∀ uuid now cfg r,
      let '(job, r') := Repo.createJob uuid now cfg r in
      totalNodes job = 0 ∧ totalEdges job = 0 ∧
      Repo.getJob uuid r' = Some job ∧
      Repo.getJobGraph uuid r' = {| nodes := []; edges := [] |}).
Proof.
  split.
  - intros ops. apply counts_agree_run, counts_agree_empty.
  - intros uuid now cfg r. unfold Repo.createJob, Repo.getJob, Repo.getJobGraph. simpl.
    rewrite !lookup_insert_eq. auto.
Qed.

(** ** Start requests and the schema *)

Lemma schema_true (c : DiscoveryConfig) :
  Validators.DiscoveryConfigSchema c = true → accepted_config c.
Proof.
  unfold Validators.DiscoveryConfigSchema, accepted_config.
  rewrite !andb_true_iff, !Z.leb_le, !Nat.leb_le.
  intros [[[Hn Hl] Hm] Hs]. repeat split; try tauto.
  - intros E. rewrite E in Hn. simpl in Hn. lia.
  - intros E. rewrite E in Hs. simpl in Hs. lia.
Qed.

Lemma schema_false (c : DiscoveryConfig) :
  Validators.DiscoveryConfigSchema c = false → rejected_config c.
Proof.
  unfold Validators.DiscoveryConfigSchema, rejected_config.
  rewrite !andb_false_iff, !Z.leb_gt, !Nat.leb_gt.
  intros [[[Hn | [Hl | Hl]] | [Hm | Hm]] | Hs]; try tauto.
  - left. destruct (niche c); [reflexivity | simpl in Hn; lia].
  - do 5 right. destruct (sources c); [reflexivity | simpl in Hs; lia].
Qed.

(** C8 (as amended).  A start request is either rejected or accepted.  It
    is rejected, with status 400 and the server state unchanged (no job
    record is created), when its niche is empty, maxLevels is below 1 or
    above 10, maxNodesPerLevel is below 1 or above 100, or the sources
    list is empty.  Otherwise a job is created under the drawn id, in
    status starting and with the request's config, and the reply carries
    that id and the status "starting". *)
Theorem C8_start_validates_then_creates (body : DiscoveryConfig) (uuid : string) (w : World) :
  (rejected_config body ∧ Routes.postDiscover body uuid w = (BadRequest400, w))
  ∨ (accepted_config body ∧
     ∃ w' job,
       Routes.postDiscover body uuid w =
         (Ok200 {| sr_jobId := uuid; sr_status := "starting";
                   sr_message := "Discovery job started successfully" |}, w')
       ∧ Repo.getJob uuid (repo w') = Some job
       ∧ status job = Starting ∧ config job = body
       ∧ Repo.getJobGraph uuid (repo w') = {| nodes := []; edges := [] |}).
Proof.
  unfold Routes.postDiscover.
  destruct (Validators.DiscoveryConfigSchema body) eqn:Hs.
  - right. split; [by apply schema_true|].
    unfold Service.startDiscovery, Repo.createJob. simpl.
    eexists _, _. split; [reflexivity|].
    unfold Repo.getJob, Repo.getJobGraph. simpl. rewrite !lookup_insert_eq. auto.
  - left. split; [by apply schema_false | reflexivity].
Qed.

(** C8, the claim as stated fails: a config with a non-empty niche,
    positive maxLevels and maxNodesPerLevel and a non-empty sources list is
    rejected all the same when maxLevels exceeds 10, and no job is
    created. *)
Lemma C8_counterexample_maxLevels_11 :
  let body := {| niche := "AI tools"; maxLevels := 11; maxNodesPerLevel := 5;
                 sources := ["reddit"] |} in
  niche body ≠ "" ∧ (0 < maxLevels body)%Z ∧ (0 < maxNodesPerLevel body)%Z
  ∧ sources body ≠ []
  ∧ Routes.postDiscover body "job-1" initial = (BadRequest400, initial)
  ∧ Repo.getJob "job-1" (repo (snd (Routes.postDiscover body "job-1" initial))) = None.
Proof. simpl. repeat split; try done. Qed.

(** ** The registry's merge *)

Section MergeFacts.

Import Registry.

Lemma Qgtb_true (a b : Q) : Qgtb a b = true ↔ (b < a)%Q.
Proof.
  unfold Qgtb. rewrite negb_true_iff. split.
  - intros H. apply Qnot_le_lt. intros Hle. apply Qle_bool_iff in Hle. congruence.
  - intros H. destruct (Qle_bool a b) eqn:E; [|reflexivity].
    apply Qle_bool_iff in E. exfalso. exact (Qlt_not_le _ _ H E).
Qed.

Lemma Qgtb_false (a b : Q) : Qgtb a b = false ↔ (a <= b)%Q.
Proof.
  unfold Qgtb. rewrite negb_false_iff. apply Qle_bool_iff.
Qed.


End MergeFacts.

(** C3, at the failing inputs.  Two analyzers: their copies of
    "Entrepreneur" are merged into one node, and the edge of the second
    analyzer still points at the ids that analyzer used, which no node of
    the combined result has.  One analyzer: in the sample run both level-1
    parents yield the topic "Pricing"; the two topics are merged, and the
    second parent's edge still points at the id of the copy that was
    dropped, so the graph stored for the job has an edge whose target is
    not a node of it. *)
Theorem C3_edge_dangles_after_remap :
  let c := Registry.combineResults [Sample.resultA; Sample.resultB] 0 1 in
  Registry.node_ids c = ["node-0-0"; "node-1-1"]
  ∧ map (fun e => (ae_source e, ae_target e)) (c_edges c)
    = [("node-0-0", "node-1-1"); ("b-root", "b-1")]
  ∧ ¬ Registry.edges_closed c
  ∧ let g := Repo.getJobGraph SampleRun.jobId (repo SampleRun.undisturbed) in
    map id (nodes g) = ["node-0-0"; "node-1-1"; "node-1-2"; "node-2-3"]
    ∧ map (fun e => (edge_source e, edge_target e)) (edges g)
      = [("node-0-0", "node-1-1"); ("node-0-0", "node-1-2");
         ("node-1-1", "node-2-3"); ("node-1-2", "node-2-node-1-1-0")].
Proof.
  split; [reflexivity|]. split; [reflexivity|].
  split; [|split; vm_compute; reflexivity].
  intros H.
  destruct (H (Sample.edge "edge-1" "b-root" "b-1" "forum")) as [Hs _].
  - vm_compute. right. left. reflexivity.
  - vm_compute in Hs. intuition discriminate.
Qed.

(** ** The event stream *)

Section StreamFacts.

Import Stream.

Lemma filter_level_completed_nodes (ns : list DiscoveryNode) :
  List.filter (fun e => negb (is_level_completed e)) (map EvNodeFound ns) = map EvNodeFound ns.
Proof. induction ns as [|n ns IH]; simpl; [reflexivity | by rewrite IH]. Qed.

Lemma filter_level_completed_edges (es : list DiscoveryEdge) :
  List.filter (fun e => negb (is_level_completed e)) (map EvEdgeFound es) = map EvEdgeFound es.
Proof. induction es as [|e es IH]; simpl; [reflexivity | by rewrite IH]. Qed.

(** The replay sent at once is the polled replay with every
    level_completed event left out. *)
Lemma replay_immediate_drops_level_completed (g : DiscoveryGraph) :
  replay_immediate g
  = List.filter (fun e => negb (is_level_completed e)) (replay_polled g).
Proof.
  unfold replay_immediate, replay_polled.
  rewrite !List.filter_app, filter_level_completed_edges. simpl. f_equal.
  induction (levels g) as [|lvl ls IH]; simpl; [reflexivity|].
  rewrite !List.filter_app, filter_level_completed_nodes, <- IH. simpl.
  rewrite app_nil_r. reflexivity.
Qed.

(** A connection that finds the job with an empty graph goes into
    polling. *)
Lemma stream_polls (jobId : string) (r : Repo.t) (job : DiscoveryJob)
    (snapshots : list Repo.t) :
  Repo.getJob jobId r = Some job → nodes (Repo.getJobGraph jobId r) = [] →
  stream jobId r snapshots
  = EvConnected jobId (status job) :: poll jobId (maxLevels (config job)) snapshots.
Proof. intros Hj Hg. unfold stream. rewrite Hj, Hg. reflexivity. Qed.

End StreamFacts.

(** C1, at the failing input: the job of the sample run is complete and
    its graph has three levels.  A client that was connected while the job
    ran gets, at the first tick after completion, the replay with one
    level_completed event per level; a client that connects afterwards gets
    the replay without any level_completed event.  The two sequences
    differ: for every graph the second is the first without its
    level_completed events.  (In both, the levels come in the order of
    their decimal spellings, which is not the ascending order once there is
    a level 10.) *)
Theorem C1_late_replay_has_no_level_completed :
  let g := Repo.getJobGraph SampleRun.jobId (repo SampleRun.undisturbed) in
  Service.jobStatus SampleRun.jobId SampleRun.undisturbed = Some Complete
  ∧ skipn 2 (Stream.stream SampleRun.jobId SampleRun.running [repo SampleRun.undisturbed])
    = Stream.replay_polled g
  ∧ skipn 1 (Stream.stream SampleRun.jobId (repo SampleRun.undisturbed) [])
    = Stream.replay_immediate g
  ∧ List.filter Stream.is_level_completed (Stream.replay_polled g)
    = [EvLevelCompleted 0 1 2; EvLevelCompleted 1 2 2; EvLevelCompleted 2 1 0]
  ∧ List.filter Stream.is_level_completed (Stream.replay_immediate g) = []
  ∧ Stream.replay_polled g ≠ Stream.replay_immediate g
  ∧ Stream.levels deep_graph = [0; 1; 10; 2; 3; 4; 5; 6; 7; 8; 9]
  ∧ ∀ g', Stream.replay_immediate g'
          = List.filter (fun e => negb (Stream.is_level_completed e)) (Stream.replay_polled g').
Proof.
  assert (H1 : List.filter Stream.is_level_completed
                 (Stream.replay_polled
                    (Repo.getJobGraph SampleRun.jobId (repo SampleRun.undisturbed)))
               = [EvLevelCompleted 0 1 2; EvLevelCompleted 1 2 2; EvLevelCompleted 2 1 0])
    by (vm_compute; reflexivity).
  assert (H2 : List.filter Stream.is_level_completed
                 (Stream.replay_immediate
                    (Repo.getJobGraph SampleRun.jobId (repo SampleRun.undisturbed)))
               = []) by (vm_compute; reflexivity).
  cbv zeta.
  split; [vm_compute; reflexivity|].
  split; [vm_compute; reflexivity|].
  split; [vm_compute; reflexivity|].
  split; [exact H1|]. split; [exact H2|].
  split; [|split; [vm_compute; reflexivity | apply replay_immediate_drops_level_completed]].
  intros E. rewrite E, H2 in H1. discriminate H1.
Qed.

(** ** Cancel requests *)

(** C9, the claim as stated fails: two cancel requests reach the sample
    job while its search is pending.  After the first the record holds the
    terminal status cancelled, as the status request in between shows; the
    second is answered with success true all the same. *)
Lemma C9_counterexample_second_cancel_succeeds :
  map reply_summary (replies SampleRun.cancelled_twice)
  = [inl true; inr (Some (Cancelled, Some "Job was cancelled by user")); inl true].
Proof. vm_compute; reflexivity. Qed.

(** ** What every computation of the process keeps *)

(** An external call keeps what the clock, the call counter, the log of
    replies and the cancel requests keep. *)
Lemma await_io_keeps (P : World → Prop) (env : Env) :
  (∀ t w, P w → P (set_clock t w)) →
  (∀ w, P w → P (next_io w)) →
  (∀ r w, P w → P (add_reply r w)) →
  (∀ j w, P w → P (snd (Cancel.cancelJob j w))) →
  ∀ w, P w → P (snd (await_io env w)).
Proof.
  intros Hclock Hio Hreply Hcancel w Hw. unfold await_io. simpl.
  apply Hio.
  assert (Hall : ∀ rqs w0, P w0 → P (Cancel.serve_all rqs w0)).
  { induction rqs as [|rq rqs IH]; intros w0 H0; [exact H0|].
    apply IH. destruct rq as [j|j]; unfold Cancel.serve.
    - pose proof (Hcancel j w0 H0) as H.
      destruct (Cancel.cancelJob j w0) as [r w']. by apply Hreply.
    - by apply Hreply. }
  apply Hall, Hclock, Hw.
Qed.

Section Keeps.

Variable env : Env.
Variable P : World → Prop.
Hypothesis HP : world_stable env P.

Lemma keeps_ret {A} (a : A) : keeps P (ret a).
Proof. intros w Hw. exact Hw. Qed.

Lemma keeps_throw {A} (e : JsError) : keeps P (@throw A e).
Proof. intros w Hw. exact Hw. Qed.

Lemma keeps_gets {A} (f : World → A) : keeps P (gets f).
Proof. intros w Hw. exact Hw. Qed.

Lemma keeps_lift_answer {A} (r : JsError + A) : keeps P (lift_answer r).
Proof. intros w Hw. exact Hw. Qed.

Lemma keeps_bind {A B} (m : M A) (f : A → M B) :
  keeps P m → (∀ a, keeps P (f a)) → keeps P (bind m f).
Proof.
  intros Hm Hf w Hw. unfold bind. specialize (Hm w Hw).
  destruct (m w) as [[e|a] w']; simpl in *; [exact Hm|]. by apply Hf.
Qed.

Lemma keeps_try_catch {A} (m : M A) (h : JsError → M A) :
  keeps P m → (∀ e, keeps P (h e)) → keeps P (try_catch m h).
Proof.
  intros Hm Hh w Hw. unfold try_catch. specialize (Hm w Hw).
  destruct (m w) as [[e|a] w']; simpl in *; [|exact Hm]. by apply Hh.
Qed.

Lemma keeps_modify (f : World → World) :
  (∀ w, P w → P (f w)) → keeps P (modify f).
Proof. intros Hf w Hw. by apply Hf. Qed.

Lemma keeps_await_io : keeps P (await_io env).
Proof. intros w Hw. by apply (ws_await env P HP). Qed.

Lemma keeps_progressCallback (jobId : string) (p : AnalyzerProgress) :
  keeps P (Service.progressCallback jobId p).
Proof.
  intros w Hw. unfold Service.progressCallback.
  destruct (decide (jobId ∈ cancelledJobs w)); [exact Hw|].
  destruct (p_subAnalysis p); simpl.
  - apply (ws_sub env P HP), (ws_level env P HP), (ws_log env P HP), Hw.
  - apply (ws_level env P HP), (ws_log env P HP), Hw.
Qed.

Lemma keeps_updateStatus jobId st e : keeps P (Service.updateStatus jobId st e).
Proof. apply keeps_modify. intros w Hw. by apply (ws_status env P HP). Qed.

Lemma keeps_storeAnalyzerResults jobId result :
  keeps P (Service.storeAnalyzerResults jobId result).
Proof.
  apply keeps_modify. intros w Hw.
  assert (H1 : ∀ ns w, P w →
            P (fold_left (fun w n => set_repo (Repo.addNode jobId (clock w)
                                                  (Service.toDiscoveryNode n)) w) ns w)).
  { induction ns as [|n ns IH]; intros w0 H0; [exact H0|].
    apply IH. by apply (ws_node env P HP). }
  assert (H2 : ∀ es w, P w →
            P (fold_left (fun w e => set_repo (Repo.addEdge jobId (clock w)
                                                  (Service.toDiscoveryEdge e)) w) es w)).
  { induction es as [|e es IH]; intros w0 H0; [exact H0|].
    apply IH. by apply (ws_edge env P HP). }
  apply H2, H1, Hw.
Qed.

(** The analyzer, with any callback that keeps [P]. *)
Section Analyzer.

Variable cb : ProgressCallback.
Hypothesis Hcb : ∀ p, keeps P (cb p).

Lemma keeps_report lvl ph n e sa : keeps P (RedditAnalyzer.report cb lvl ph n e sa).
Proof. apply Hcb. Qed.

Lemma keeps_createNodes subreddits index total lvl parentNiche nodes :
  keeps P (RedditAnalyzer.createNodesFromSubredditsWithLLM env subreddits index total lvl
             parentNiche cb nodes).
Proof.
  revert index nodes. induction subreddits as [|sr rest IH]; intros index nodes; simpl.
  - apply keeps_ret.
  - apply keeps_bind; [apply keeps_report|]. intros _.
    apply keeps_bind; [apply keeps_await_io|]. intros k.
    apply keeps_bind; [|intros node; apply IH].
    apply keeps_try_catch; [|intros _; apply keeps_ret].
    apply keeps_bind; [apply keeps_lift_answer|]. intros subNiches.
    apply keeps_bind; [apply keeps_report|]. intros _.
    destruct subNiches; apply keeps_ret.
Qed.

Lemma keeps_expandParents lvl niche parents parentIndex total nNodes nEdges acc :
  keeps P (RedditAnalyzer.expandParents env lvl niche cb parents parentIndex total
             nNodes nEdges acc).
Proof.
  revert parentIndex acc. induction parents as [|parentNode rest IH]; intros parentIndex acc;
    simpl.
  - apply keeps_ret.
  - destruct acc as [[levelNodes levelEdges] apiCalls].
    apply keeps_bind; [|intros acc'; apply IH].
    apply keeps_try_catch; [|intros _; apply keeps_ret].
    apply keeps_bind; [apply keeps_report|]. intros _.
    apply keeps_bind; [apply keeps_await_io|]. intros k.
    apply keeps_bind; [apply keeps_lift_answer|]. intros topics.
    destruct topics; apply keeps_ret.
Qed.

Lemma keeps_expandLevels remaining lvl niche allNodes allEdges apiCalls :
  keeps P (RedditAnalyzer.expandLevels env remaining lvl niche cb allNodes allEdges apiCalls).
Proof.
  revert lvl allNodes allEdges apiCalls.
  induction remaining as [|remaining IH]; intros lvl allNodes allEdges apiCalls; simpl.
  - apply keeps_ret.
  - apply keeps_bind; [apply keeps_report|]. intros _.
    apply keeps_bind; [apply keeps_expandParents|]. intros [[levelNodes levelEdges] apiCalls'].
    apply keeps_bind; [apply keeps_report|]. intros _.
    destruct (Nat.eqb (length levelNodes) 0); [apply keeps_ret | apply IH].
Qed.

Lemma keeps_analyze niche cfg : keeps P (RedditAnalyzer.analyze env niche cfg cb).
Proof.
  unfold RedditAnalyzer.analyze.
  apply keeps_bind; [apply keeps_gets|]. intros startTime.
  apply keeps_try_catch.
  - apply keeps_bind; [apply keeps_report|]. intros _.
    apply keeps_bind; [apply keeps_report|]. intros _.
    apply keeps_bind; [apply keeps_await_io|]. intros k.
    apply keeps_bind; [apply keeps_lift_answer|]. intros subreddits.
    apply keeps_bind; [apply keeps_report|]. intros _.
    apply keeps_bind; [apply keeps_createNodes|]. intros level1Nodes.
    apply keeps_bind; [apply keeps_report|]. intros _.
    apply keeps_bind; [apply keeps_expandLevels|]. intros [[allNodes' allEdges'] apiCalls].
    apply keeps_bind; [apply keeps_report|]. intros _.
    apply keeps_bind; [apply keeps_gets|]. intros endTime.
    apply keeps_ret.
  - intros e. apply keeps_bind; [apply keeps_report|]. intros _. apply keeps_throw.
Qed.

End Analyzer.

(** The registry, when each analyzer keeps [P] under every callback that
    does. *)

Lemma keeps_runAnalyzers analyzers niche cfg cb results errors :
  Forall (analyzer_keeps P) analyzers → (∀ p, keeps P (cb p)) →
  keeps P (AnalyzerRegistry.runAnalyzers analyzers niche cfg cb results errors).
Proof.
  intros Ha Hcb. revert results errors.
  induction Ha as [|a rest Hk Hrest IH]; intros results errors; simpl.
  - apply keeps_ret.
  - apply keeps_bind.
    + apply keeps_try_catch; [|intros e; apply keeps_ret].
      apply keeps_bind; [|intros r; apply keeps_ret].
      apply Hk. intros p. apply Hcb.
    + intros [msg|result]; apply IH.
Qed.

Lemma keeps_analyzeWithMultiplePlatforms registered niche platforms cfg cb :
  (∀ p a, registered !! p = Some a → analyzer_keeps P a) → (∀ p, keeps P (cb p)) →
  keeps P (AnalyzerRegistry.analyzeWithMultiplePlatforms registered niche platforms cfg cb).
Proof.
  intros Hreg Hcb. unfold AnalyzerRegistry.analyzeWithMultiplePlatforms.
  apply keeps_bind; [apply keeps_gets|]. intros startTime.
  assert (Hall : Forall (analyzer_keeps P)
                   (omap (AnalyzerRegistry.getAnalyzer registered) platforms)).
  { induction platforms as [|p ps IH]; simpl; [constructor|].
    unfold AnalyzerRegistry.getAnalyzer at 1.
    destruct (registered !! p) as [a|] eqn:E; [constructor; eauto | exact IH]. }
  destruct (omap (AnalyzerRegistry.getAnalyzer registered) platforms) as [|a rest] eqn:E.
  - apply keeps_throw.
  - apply keeps_bind; [by apply keeps_runAnalyzers|].
    intros [analyzerResults errors]. destruct analyzerResults; [apply keeps_throw|].
    apply keeps_bind; [apply keeps_gets|]. intros endTime. apply keeps_ret.
Qed.

Lemma keeps_runDiscoveryWithAnalyzers jobId cfg :
  keeps P (Service.runDiscoveryWithAnalyzers env jobId cfg).
Proof.
  unfold Service.runDiscoveryWithAnalyzers.
  apply keeps_try_catch; [|intros e; apply keeps_throw].
  apply keeps_bind; [|intros result; apply keeps_storeAnalyzerResults].
  apply keeps_analyzeWithMultiplePlatforms; [|intros p; apply keeps_progressCallback].
  intros p a. unfold Service.analyzerRegistry, AnalyzerRegistry.register. simpl.
  intros Ha. apply lookup_insert_Some in Ha as [[_ <-]|[_ Ha]].
  - intros niche0 cfg0 cb Hcb. simpl. by apply keeps_analyze.
  - rewrite lookup_empty in Ha. discriminate.
Qed.

Lemma keeps_runRealDiscovery jobId : keeps P (Service.runRealDiscovery env jobId).
Proof.
  unfold Service.runRealDiscovery.
  apply keeps_bind; [apply keeps_gets|]. intros [job|]; [|apply keeps_throw].
  apply keeps_try_catch.
  - apply keeps_bind; [apply keeps_updateStatus|]. intros _.
    apply keeps_bind; [apply keeps_runDiscoveryWithAnalyzers|]. intros _.
    apply keeps_updateStatus.
  - intros e. apply keeps_bind; [apply keeps_updateStatus|]. intros _. apply keeps_throw.
Qed.

End Keeps.

(** ** A job's record is never removed *)

Lemma job_known_insert (jobId j : string) (job : DiscoveryJob) (m : gmap string DiscoveryJob) :
  is_Some (m !! jobId) → is_Some (<[j := job]> m !! jobId).
Proof.
  intros H. destruct (decide (j = jobId)) as [->|Hne].
  - rewrite lookup_insert_eq. eauto.
  - by rewrite lookup_insert_ne.
Qed.

Lemma job_known_stable (jobId : string) : repo_stable (job_known jobId).
Proof.
  unfold job_known. split.
  - intros j now st e r H. unfold Repo.updateJobStatus.
    destruct (Repo.jobs r !! j); [simpl; by apply job_known_insert | exact H].
  - intros j now lvl r H. unfold Repo.updateJobCurrentLevel.
    destruct (Repo.jobs r !! j); [simpl; by apply job_known_insert | exact H].
  - intros j now sa r H. unfold Repo.updateJobSubAnalysis.
    destruct (Repo.jobs r !! j); [simpl; by apply job_known_insert | exact H].
  - intros j now n r H. unfold Repo.addNode.
    destruct (Repo.jobGraphs r !! j); [|exact H].
    destruct (Repo.jobs r !! j); [simpl; by apply job_known_insert | exact H].
  - intros j now e r H. unfold Repo.addEdge.
    destruct (Repo.jobGraphs r !! j); [|exact H].
    destruct (Repo.jobs r !! j); [simpl; by apply job_known_insert | exact H].
Qed.

(** A property of the store alone that its updates keep is kept by every
    step of the process. *)
Lemma repo_stable_world (env : Env) (Q : Repo.t → Prop) :
  repo_stable Q → world_stable env (fun w => Q (repo w)).
Proof.
  intros HQ. split.
  - intros. by apply (stable_status Q HQ).
  - intros. by apply (stable_level Q HQ).
  - intros. by apply (stable_sub Q HQ).
  - intros. by apply (stable_node Q HQ).
  - intros. by apply (stable_edge Q HQ).
  - intros. assumption.
  - apply (await_io_keeps (fun w => Q (repo w))); try (intros; assumption).
    intros j w Hw. unfold Cancel.cancelJob. destruct (activeJobs w !! j); [|assumption].
    simpl. by apply (stable_status Q HQ).
Qed.

Lemma job_known_world (env : Env) (jobId : string) :
  world_stable env (fun w => job_known jobId (repo w)).
Proof. apply repo_stable_world, job_known_stable. Qed.

(** Writing a status on a known job makes it the job's status. *)
Lemma status_after_update (jobId : string) (now : Time) (st : JobStatus) (e : option string)
    (r : Repo.t) :
  job_known jobId r →
  status <$> Repo.getJob jobId (Repo.updateJobStatus jobId now st e r) = Some st.
Proof.
  intros [job Hj]. unfold Repo.updateJobStatus, Repo.getJob. rewrite Hj. simpl.
  rewrite lookup_insert_eq. reflexivity.
Qed.

Lemma startDiscovery_known (cfg : DiscoveryConfig) (uuid : string) (w : World) :
  let w0 := snd (Service.startDiscovery cfg uuid w) in
  Repo.getJob uuid (repo w0)
  = Some {| job_id := uuid; config := cfg; status := Starting; currentLevel := 0;
            totalNodes := 0; totalEdges := 0; createdAt := clock w; updatedAt := clock w;
            error := None; subAnalysis := None |}
  ∧ cancelledJobs w0 = cancelledJobs w ∧ console w0 = console w.
Proof.
  unfold Service.startDiscovery, Repo.createJob, Repo.getJob. simpl.
  rewrite lookup_insert_eq. auto.
Qed.

(** How [runRealDiscovery] leaves the record of a known job: complete
    when it returns, error when it throws. *)
Lemma runRealDiscovery_status (env : Env) (jobId : string) (w w1 : World)
    (r : JsError + unit) :
  job_known jobId (repo w) →
  Service.runRealDiscovery env jobId w = (r, w1) →
  ∃ st, Service.jobStatus jobId w1 = Some st
      ∧ match r with inr _ => st = Complete | inl _ => st = Error end
      ∧ job_known jobId (repo w1).
Proof.
  intros Hk Erun.
  unfold Service.runRealDiscovery, bind, gets in Erun.
  destruct Hk as [job Hj]. unfold Repo.getJob in Erun. rewrite Hj in Erun.
  unfold try_catch, bind in Erun.
  assert (Hmid : job_known jobId
                   (repo (snd ((Service.updateStatus jobId Discovering None ;;;
                                Service.runDiscoveryWithAnalyzers env jobId (config job)) w)))).
  { apply (keeps_bind (fun w => job_known jobId (repo w))).
    - apply (keeps_updateStatus env), job_known_world.
    - intros _. apply keeps_runDiscoveryWithAnalyzers, job_known_world.
    - exists job. exact Hj. }
  unfold bind in Hmid.
  destruct (Service.updateStatus jobId Discovering None w) as [[e0|[]] wa]; simpl in *.
  - injection Erun as <- <-. simpl.
    exists Error. split; [by apply status_after_update|]. split; [reflexivity|].
    by apply (stable_status _ (job_known_stable jobId)).
  - destruct (Service.runDiscoveryWithAnalyzers env jobId (config job) wa)
      as [[e1|[]] wb]; simpl in *.
    + injection Erun as <- <-. simpl.
      exists Error. split; [by apply status_after_update|]. split; [reflexivity|].
      by apply (stable_status _ (job_known_stable jobId)).
    + injection Erun as <- <-. simpl.
      exists Complete. split; [by apply status_after_update|]. split; [reflexivity|].
      by apply (stable_status _ (job_known_stable jobId)).
Qed.

(** ** Runs during which the job is not cancelled *)

Section Undisturbed.

Variable uuid : string.

Lemma extends_refl (w : World) : extends uuid w w [].
Proof. split; [auto|]. by rewrite app_nil_r. Qed.

Lemma extends_trans (w w' w'' : World) (N N' : list Phase) :
  extends uuid w w' N → extends uuid w' w'' N' → extends uuid w w'' (N ++ N').
Proof.
  intros [H1 H2] [H3 H4]. split; [auto|]. rewrite H4, H2. by rewrite <- app_assoc.
Qed.

Lemma extends_calm (w w' : World) (N : list Phase) :
  extends uuid w w' N → uuid ∉ cancelledJobs w → uuid ∉ cancelledJobs w'.
Proof. intros [H _]. exact H. Qed.

Lemma returns_ret {A} (a : A) (w : World) (Post : A → list Phase → Prop) :
  Post a [] → returns uuid (ret a) w Post.
Proof. intros H. exists a, w, []. split; [reflexivity|]. split; [apply extends_refl | exact H]. Qed.

Lemma returns_gets {A} (f : World → A) (w : World) (Post : A → list Phase → Prop) :
  Post (f w) [] → returns uuid (gets f) w Post.
Proof.
  intros H. exists (f w), w, []. split; [reflexivity|]. split; [apply extends_refl | exact H].
Qed.

Lemma returns_bind {A B} (m : M A) (f : A → M B) (w : World)
    (P1 : A → list Phase → Prop) (P2 : B → list Phase → Prop) :
  returns uuid m w P1 →
  (∀ a w' N, extends uuid w w' N → P1 a N →
             returns uuid (f a) w' (fun b N' => P2 b (N ++ N'))) →
  returns uuid (bind m f) w P2.
Proof.
  intros (a & w1 & N1 & E1 & X1 & H1) Hf.
  destruct (Hf a w1 N1 X1 H1) as (b & w2 & N2 & E2 & X2 & H2).
  exists b, w2, (N1 ++ N2). unfold bind. rewrite E1. split; [exact E2|].
  split; [by eapply extends_trans | exact H2].
Qed.

Lemma returns_try_catch {A} (m : M A) (h : JsError → M A) (w : World)
    (Post : A → list Phase → Prop) :
  returns uuid m w Post → returns uuid (try_catch m h) w Post.
Proof.
  intros (a & w1 & N1 & E1 & X1 & H1). exists a, w1, N1.
  unfold try_catch. rewrite E1. auto.
Qed.

Lemma returns_weaken {A} (m : M A) (w : World) (P P' : A → list Phase → Prop) :
  returns uuid m w P → (∀ a N, P a N → P' a N) → returns uuid m w P'.
Proof. intros (a & w1 & N1 & E1 & X1 & H1) H. exists a, w1, N1. auto. Qed.

(** A change of the store alone prints nothing and cancels nothing. *)
Lemma returns_modify_repo (f : World → Repo.t → Repo.t) (w : World)
    (Post : unit → list Phase → Prop) :
  Post tt [] → returns uuid (modify (fun w => set_repo (f w) w)) w Post.
Proof.
  intros H. exists tt, (set_repo (f w) w), []. split; [reflexivity|].
  split; [|exact H]. split; [auto|]. unfold phases. simpl. by rewrite app_nil_r.
Qed.

(** The requests served during an external call, none of which cancels
    the job, leave it uncancelled and print nothing. *)
Lemma serve_all_others (rqs : list Request) (w : World) :
  ¬ In (ReqCancel uuid) rqs →
  (uuid ∉ cancelledJobs w → uuid ∉ cancelledJobs (Cancel.serve_all rqs w))
  ∧ console (Cancel.serve_all rqs w) = console w.
Proof.
  revert w. induction rqs as [|rq rqs IH]; intros w Hn; [auto|].
  assert (Hrq : rq ≠ ReqCancel uuid) by (intros ->; apply Hn; left; reflexivity).
  assert (Hrest : ¬ In (ReqCancel uuid) rqs) by (intros Hin; apply Hn; right; exact Hin).
  cbn [Cancel.serve_all fold_left]. fold (Cancel.serve_all rqs (Cancel.serve rq w)).
  destruct (IH (Cancel.serve rq w) Hrest) as [IH1 IH2].
  assert (H0 : (uuid ∉ cancelledJobs w → uuid ∉ cancelledJobs (Cancel.serve rq w))
               ∧ console (Cancel.serve rq w) = console w).
  { destruct rq as [j|j]; unfold Cancel.serve; [|auto].
    unfold Cancel.cancelJob. destruct (activeJobs w !! j); [|auto].
    simpl. split; [|reflexivity].
    intros Hc [Hin|Hin]%elem_of_union; [|by apply Hc].
    apply elem_of_singleton in Hin. apply Hrq. by rewrite Hin. }
  destruct H0 as [H1 H2]. split; [auto | congruence].
Qed.

Lemma extends_after_io (env : Env) (w w1 : World) (N : list Phase) :
  quiet_env env uuid → extends uuid w w1 N →
  extends uuid w
    (next_io (Cancel.serve_all (arrivals env (ioCount w1))
                (set_clock (timeAt env (ioCount w1)) w1))) N.
Proof.
  intros Hq [H1 H2].
  destruct (serve_all_others (arrivals env (ioCount w1))
              (set_clock (timeAt env (ioCount w1)) w1) (Hq _)) as [S1 S2].
  split.
  - intros Hc. simpl. apply S1. simpl. by apply H1.
  - unfold phases in *. simpl. rewrite S2. exact H2.
Qed.

Lemma returns_await_io (env : Env) (w : World) (Post : nat → list Phase → Prop) :
  quiet_env env uuid → Post (ioCount w) [] → returns uuid (await_io env) w Post.
Proof.
  intros Hq H. unfold returns, await_io. eexists _, _, []. split; [reflexivity|].
  split; [|exact H]. apply extends_after_io; [exact Hq | apply extends_refl].
Qed.

(** The service's progress callback, under the registry's wrapper, for a
    job that is not cancelled: it returns and prints the tagged line. *)
Lemma returns_progressCallback (a : BaseAnalyzer) (p : AnalyzerProgress) (w : World) :
  uuid ∉ cancelledJobs w →
  returns uuid (AnalyzerRegistry.wrappedProgressCallback a (Service.progressCallback uuid) p) w
    (fun _ N => N = [PTagged (ba_platform a) (p_status p)]).
Proof.
  intros Hc.
  unfold returns, AnalyzerRegistry.wrappedProgressCallback, Service.progressCallback.
  rewrite decide_False by exact Hc.
  cbn [p_subAnalysis p_currentLevel].
  destruct (p_subAnalysis p); eexists tt, _, _; (split; [reflexivity|]);
    (split; [|reflexivity]); (split; [auto|]); unfold phases; simpl;
    by rewrite map_app.
Qed.

Lemma returns_lift_inr {A} (a : A) (w : World) (Post : A → list Phase → Prop) :
  Post a [] → returns uuid (lift_answer (inr a)) w Post.
Proof. apply returns_ret. Qed.

(** *** The shape of the progress lines of the expansion loop *)

Lemma tame_no_level_done (N : list Phase) (i : nat) (tg : string) (L n : nat) :
  tame N → N !! i = Some (PTagged tg (PLevelDone L n)) → False.
Proof.
  intros HN Hi. rewrite Forall_lookup in HN. specialize (HN _ _ Hi). discriminate.
Qed.

(** One level: the line that starts it, the lines of its parents, the
    line that ends it, and the lines of the levels after it, of which
    there are none when the level found nothing. *)
Lemma empty_level_last_level (tg : string) (lvl k n : nat) (Np Nrest : list Phase) :
  tame Np → (n = 0 → Nrest = []) → empty_level_last tg Nrest →
  empty_level_last tg
    (PTagged tg (PLevelStart lvl k) :: Np ++ PTagged tg (PLevelDone lvl n) :: Nrest).
Proof.
  intros Hp Hn Hrest i L Hi.
  destruct i as [|i]; [discriminate|]. simpl in Hi.
  apply lookup_app_Some in Hi as [Hi|[Hle Hi]].
  - exfalso. eapply tame_no_level_done; eauto.
  - simpl. rewrite length_app. simpl.
    destruct (i - length Np) as [|j] eqn:Ej; simpl in Hi.
    + injection Hi as _ ->. rewrite (Hn eq_refl). simpl. lia.
    + specialize (Hrest _ _ Hi). lia.
Qed.

Lemma empty_level_last_nil (tg : string) : empty_level_last tg [].
Proof. intros i L Hi. discriminate. Qed.

(** The whole analysis: lines that end no level, the lines of the
    expansion loop, and the line of completion. *)
Lemma ends_analysis_shape (tg : string) (pre Nloop : list Phase) :
  tame pre → empty_level_last tg Nloop →
  empty_level_ends_analysis tg (pre ++ Nloop ++ [PTagged tg PComplete]).
Proof.
  intros Hpre Hloop i L Hi.
  apply lookup_app_Some in Hi as [Hi|[Hle Hi]].
  - exfalso. eapply tame_no_level_done; eauto.
  - apply lookup_app_Some in Hi as [Hi|[Hle' Hi]].
    + specialize (Hloop _ _ Hi).
      rewrite lookup_app_r by lia. rewrite lookup_app_r by lia.
      replace (S i - length pre - length Nloop) with 0 by lia. reflexivity.
    + destruct (i - length pre - length Nloop) as [|j]; simpl in Hi; discriminate.
Qed.

(** *** The analyzer *)

Section QuietAnalyzer.

Variable env : Env.
Variable tg : string.
Variable cb : ProgressCallback.

Hypothesis Hq : quiet_env env uuid.
Hypothesis Hcb : ∀ p w, uuid ∉ cancelledJobs w →
  returns uuid (cb p) w (fun _ N => N = [PTagged tg (p_status p)]).

Lemma returns_report lvl ph n e sa (w : World) :
  uuid ∉ cancelledJobs w →
  returns uuid (RedditAnalyzer.report cb lvl ph n e sa) w (fun _ N => N = [PTagged tg ph]).
Proof. intros Hc. unfold RedditAnalyzer.report. exact (Hcb _ w Hc). Qed.

Lemma returns_createNodes subreddits index total lvl parentNiche nodes (w : World) :
  uuid ∉ cancelledJobs w →
  returns uuid (RedditAnalyzer.createNodesFromSubredditsWithLLM env subreddits index total lvl
             parentNiche cb nodes) w (fun _ N => tame N).
Proof.
  revert index nodes w. induction subreddits as [|sr rest IH]; intros index nodes w Hc; simpl.
  - apply returns_ret. constructor.
  - eapply returns_bind; [by apply returns_report|].
    intros [] w1 N1 X1 ->. pose proof (extends_calm _ _ _ X1 Hc) as Hc1.
    apply (returns_bind _ _ _ (fun _ N => N = [])); [by apply returns_await_io|].
    intros k w2 N2 X2 ->. pose proof (extends_calm _ _ _ X2 Hc1) as Hc2.
    apply (returns_bind _ _ _ (fun _ N => tame N)).
    + destruct (extractSubNiches env k sr parentNiche) as [e|subNiches] eqn:Ea.
      * unfold returns, try_catch, bind, lift_answer. simpl.
        eexists _, w2, []. split; [reflexivity|]. split; [apply extends_refl | constructor].
      * apply returns_try_catch.
        apply (returns_bind _ _ _ (fun _ N => N = [])); [by apply returns_lift_inr|].
        intros subs w3 N3 X3 ->. pose proof (extends_calm _ _ _ X3 Hc2) as Hc3.
        eapply returns_bind; [by apply returns_report|].
        intros [] w4 N4 X4 ->.
        destruct subs; apply returns_ret; simpl; repeat constructor.
    + intros node w3 N3 X3 H3. pose proof (extends_calm _ _ _ X3 Hc2) as Hc3.
      eapply returns_weaken; [by apply IH|].
      intros a N HN. simpl. repeat constructor. apply Forall_app. auto.
Qed.

Lemma returns_expandParents lvl niche parents parentIndex total nNodes nEdges acc (w : World) :
  uuid ∉ cancelledJobs w →
  returns uuid (RedditAnalyzer.expandParents env lvl niche cb parents parentIndex total
             nNodes nEdges acc) w
    (fun acc' N => tame N ∧ (barren env → fst (fst acc') = fst (fst acc))).
Proof.
  revert parentIndex acc w.
  induction parents as [|parentNode rest IH]; intros parentIndex acc w Hc; simpl.
  - apply returns_ret. split; [constructor | reflexivity].
  - destruct acc as [[levelNodes levelEdges] apiCalls].
    apply (returns_bind _ _ _
             (fun acc' N => tame N ∧ (barren env → fst (fst acc') = levelNodes))).
    + unfold returns, try_catch, bind.
      destruct (returns_report lvl
                  (PParent lvl (a_label parentNode) (parentIndex + 1) total) nNodes nEdges
                  (Some (RedditAnalyzer.mkSub total parentIndex (a_label parentNode)
                           "llm_analysis" 25)) w Hc)
        as ([] & w1 & N1 & E1 & X1 & ->).
      rewrite E1. unfold await_io. unfold lift_answer.
      destruct (extractTopics env (ioCount w1) (RedditAnalyzer.subredditName parentNode)
                  (a_label parentNode) niche) as [e|topics] eqn:Et.
      * eexists _, _, _. split; [reflexivity|].
        split; [by apply extends_after_io|]. split; [repeat constructor | reflexivity].
      * destruct topics as [|t ts].
        -- eexists _, _, _. split; [reflexivity|].
           split; [by apply extends_after_io|]. split; [repeat constructor | reflexivity].
        -- eexists _, _, _. split; [reflexivity|].
           split; [by apply extends_after_io|]. split; [repeat constructor|].
           intros Hb. specialize (Hb (ioCount w1) (RedditAnalyzer.subredditName parentNode)
                                    (a_label parentNode) niche).
           rewrite Et in Hb. discriminate.
    + intros acc' w1 N1 X1 [H1 Hb1]. pose proof (extends_calm _ _ _ X1 Hc) as Hc1.
      eapply returns_weaken; [by apply IH|].
      intros a N [HN Hb]. split; [by apply Forall_app|].
      intros B. rewrite (Hb B). by apply Hb1.
Qed.

Lemma returns_expandLevels remaining lvl niche allNodes allEdges apiCalls (w : World) :
  uuid ∉ cancelledJobs w →
  returns uuid (RedditAnalyzer.expandLevels env remaining lvl niche cb allNodes allEdges apiCalls) w
    (fun _ N => empty_level_last tg N
                ∧ (barren env → (1 <= remaining)%nat →
                   In (PTagged tg (PLevelDone lvl 0)) N)).
Proof.
  revert lvl allNodes allEdges apiCalls w.
  induction remaining as [|remaining IH]; intros lvl allNodes allEdges apiCalls w Hc; simpl.
  - apply returns_ret. split; [apply empty_level_last_nil | lia].
  - eapply returns_bind; [by apply returns_report|].
    intros [] w1 N1 X1 ->. pose proof (extends_calm _ _ _ X1 Hc) as Hc1.
    eapply returns_bind; [by apply returns_expandParents|].
    intros [[levelNodes levelEdges] apiCalls'] w2 Np X2 [Hp Hb].
    pose proof (extends_calm _ _ _ X2 Hc1) as Hc2. simpl in Hb.
    eapply returns_bind; [by apply returns_report|].
    intros [] w3 N3 X3 ->. pose proof (extends_calm _ _ _ X3 Hc2) as Hc3.
    destruct (Nat.eqb (length levelNodes) 0) eqn:Elen.
    + apply Nat.eqb_eq in Elen. apply returns_ret. rewrite Elen. split.
      * simpl. apply empty_level_last_level; [exact Hp | reflexivity | apply empty_level_last_nil].
      * intros _ _. simpl. right. apply in_or_app. right. left. reflexivity.
    + apply Nat.eqb_neq in Elen.
      eapply returns_weaken; [by apply IH|].
      intros a N [HN _]. split.
      * simpl. apply empty_level_last_level; [exact Hp | by intros | exact HN].
      * intros B _. exfalso. apply Elen. rewrite (Hb B). reflexivity.
Qed.

Lemma returns_analyze niche cfg (w : World) :
  uuid ∉ cancelledJobs w →
  (∀ k, ∃ subreddits, searchSubreddits env k niche = inr subreddits) →
  returns uuid (RedditAnalyzer.analyze env niche cfg cb) w
    (fun _ N => empty_level_ends_analysis tg N
                ∧ (barren env → (2 <= ac_maxLevels cfg)%Z →
                   In (PTagged tg (PLevelDone 2 0)) N)).
Proof.
  intros Hc Hsearch. unfold RedditAnalyzer.analyze.
  apply (returns_bind _ _ _ (fun _ N => N = [])); [by apply returns_gets|].
  intros startTime w0 N0 X0 ->. pose proof (extends_calm _ _ _ X0 Hc) as Hc0.
  apply returns_try_catch.
  eapply returns_bind; [by apply returns_report|].
  intros [] w1 N1 X1 ->. pose proof (extends_calm _ _ _ X1 Hc0) as Hc1.
  eapply returns_bind; [by apply returns_report|].
  intros [] w2 N2 X2 ->. pose proof (extends_calm _ _ _ X2 Hc1) as Hc2.
  apply (returns_bind _ _ _ (fun _ N => N = [])); [by apply returns_await_io|].
  intros k w3 N3 X3 ->. pose proof (extends_calm _ _ _ X3 Hc2) as Hc3.
  destruct (Hsearch k) as [subreddits ->].
  apply (returns_bind _ _ _ (fun _ N => N = [])); [by apply returns_lift_inr|].
  intros subs w4 N4 X4 ->. pose proof (extends_calm _ _ _ X4 Hc3) as Hc4.
  eapply returns_bind; [by apply returns_report|].
  intros [] w5 N5 X5 ->. pose proof (extends_calm _ _ _ X5 Hc4) as Hc5.
  eapply returns_bind; [by apply returns_createNodes|].
  intros level1Nodes w6 N6 X6 H6. pose proof (extends_calm _ _ _ X6 Hc5) as Hc6.
  simpl in H6.
  eapply returns_bind; [by apply returns_report|].
  intros [] w7 N7 X7 ->. pose proof (extends_calm _ _ _ X7 Hc6) as Hc7.
  eapply returns_bind; [by apply returns_expandLevels|].
  intros [[allNodes' allEdges'] apiCalls] w8 N8 X8 [H8 Hb8].
  pose proof (extends_calm _ _ _ X8 Hc7) as Hc8.
  eapply returns_bind; [by apply returns_report|].
  intros [] w9 N9 X9 ->. pose proof (extends_calm _ _ _ X9 Hc8) as Hc9.
  apply (returns_bind _ _ _ (fun _ N => N = [])); [by apply returns_gets|].
  intros endTime w10 N10 X10 ->.
  apply returns_ret. simpl. split.
  - replace (PTagged tg PInit :: PTagged tg PSearching
               :: PTagged tg (PFoundSubreddits (length subs))
               :: N6 ++ PTagged tg (PLevel1Done (length level1Nodes))
               :: N8 ++ [PTagged tg PComplete])
      with (([PTagged tg PInit; PTagged tg PSearching;
              PTagged tg (PFoundSubreddits (length subs))]
             ++ N6 ++ [PTagged tg (PLevel1Done (length level1Nodes))])
            ++ N8 ++ [PTagged tg PComplete])
      by (simpl; rewrite <- app_assoc; reflexivity).
    apply ends_analysis_shape; [|exact H8].
    repeat constructor. apply Forall_app. split; [exact H6 | repeat constructor].
  - intros B Hl. do 3 right. apply in_or_app. right. right. apply in_or_app. left.
    apply Hb8; [exact B | lia].
Qed.

End QuietAnalyzer.

(** *** The registry and the service *)

(** The registry of the service answers with the Reddit analyzer for the
    name "reddit" and with nothing for any other name. *)
Lemma analyzers_of_sources (env : Env) (platforms : list string) :
  omap (AnalyzerRegistry.getAnalyzer (Service.analyzerRegistry env)) platforms
  = map (fun _ => reddit env) (List.filter (String.eqb "reddit") platforms).
Proof.
  induction platforms as [|p ps IH]; [reflexivity|].
  cbn [omap list_omap List.filter]. fold (@omap list _).
  unfold AnalyzerRegistry.getAnalyzer at 1.
  unfold Service.analyzerRegistry, AnalyzerRegistry.register. cbn [ba_platform].
  destruct (String.eqb_spec "reddit" p) as [<-|Hne].
  - unfold RedditAnalyzer.platform. rewrite lookup_insert_eq. cbn [map]. f_equal. exact IH.
  - unfold RedditAnalyzer.platform. rewrite lookup_insert_ne by exact Hne.
    rewrite lookup_empty. exact IH.
Qed.

Lemma returns_storeAnalyzerResults (jobId : string) (result : CombinedAnalyzerResult)
    (w : World) (Post : unit → list Phase → Prop) :
  Post tt [] → returns uuid (Service.storeAnalyzerResults jobId result) w Post.
Proof.
  intros H. unfold returns, Service.storeAnalyzerResults, modify.
  eexists tt, _, []. split; [reflexivity|]. split; [|exact H].
  assert (H1 : ∀ ns w0,
            extends uuid w0 (fold_left (fun w n => set_repo (Repo.addNode jobId (clock w)
                                                  (Service.toDiscoveryNode n)) w) ns w0) []).
  { induction ns as [|n ns IH]; intros w0; [apply extends_refl|].
    simpl. destruct (IH (set_repo (Repo.addNode jobId (clock w0)
                                     (Service.toDiscoveryNode n)) w0)) as [E1 E2].
    split; [exact E1 | exact E2]. }
  assert (H2 : ∀ es w0,
            extends uuid w0 (fold_left (fun w e => set_repo (Repo.addEdge jobId (clock w)
                                                  (Service.toDiscoveryEdge e)) w) es w0) []).
  { induction es as [|e es IH]; intros w0; [apply extends_refl|].
    simpl. destruct (IH (set_repo (Repo.addEdge jobId (clock w0)
                                     (Service.toDiscoveryEdge e)) w0)) as [E1 E2].
    split; [exact E1 | exact E2]. }
  exact (extends_trans _ _ _ [] [] (H1 _ w) (H2 _ _)).
Qed.

Section QuietService.

Variable env : Env.
Hypothesis Hq : quiet_env env uuid.

Lemma returns_runDiscoveryWithAnalyzers (cfg : DiscoveryConfig) (w : World) :
  uuid ∉ cancelledJobs w →
  (∀ k, ∃ subreddits, searchSubreddits env k (niche cfg) = inr subreddits) →
  List.filter (String.eqb "reddit") (sources cfg) = ["reddit"] →
  returns uuid (Service.runDiscoveryWithAnalyzers env uuid cfg) w (fun _ N => goes_well_in env cfg N).
Proof.
  intros Hc Hsearch Hsrc. unfold Service.runDiscoveryWithAnalyzers.
  apply returns_try_catch.
  apply (returns_bind _ _ _ (fun _ N => goes_well_in env cfg N)).
  - unfold AnalyzerRegistry.analyzeWithMultiplePlatforms.
    apply (returns_bind _ _ _ (fun _ N => N = [])); [by apply returns_gets|].
    intros startTime w0 N0 X0 ->. pose proof (extends_calm _ _ _ X0 Hc) as Hc0.
    rewrite analyzers_of_sources, Hsrc. cbn [map].
    apply (returns_bind _ _ _ (fun out N => (∃ result, out = ([result], [])) ∧ goes_well_in env cfg N)).
    + cbn [AnalyzerRegistry.runAnalyzers].
      apply (returns_bind _ _ _ (fun r N => (∃ result, r = inr result) ∧ goes_well_in env cfg N)).
      * apply returns_try_catch.
        apply (returns_bind _ _ _ (fun _ N => goes_well_in env cfg N)).
        -- apply (returns_analyze env "reddit"); [exact Hq| |exact Hc0|exact Hsearch].
           intros p w1 Hc1. apply (returns_progressCallback (reddit env) p w1 Hc1).
        -- intros result w1 N1 X1 H1. apply returns_ret. rewrite app_nil_r. eauto.
      * intros r w1 N1 X1 [[result ->] H1]. apply returns_ret. rewrite app_nil_r. eauto.
    + intros out w1 N1 X1 [[result ->] H1]. cbn [app].
      apply (returns_bind _ _ _ (fun _ N => N = [])); [by apply returns_gets|].
      intros endTime w2 N2 X2 ->. apply returns_ret. by rewrite !app_nil_r.
  - intros result w1 N1 X1 H1. apply returns_storeAnalyzerResults. by rewrite app_nil_r.
Qed.

Lemma returns_runRealDiscovery (cfg : DiscoveryConfig) (w : World) (job : DiscoveryJob) :
  Repo.getJob uuid (repo w) = Some job → config job = cfg →
  uuid ∉ cancelledJobs w →
  (∀ k, ∃ subreddits, searchSubreddits env k (niche cfg) = inr subreddits) →
  List.filter (String.eqb "reddit") (sources cfg) = ["reddit"] →
  returns uuid (Service.runRealDiscovery env uuid) w (fun _ N => goes_well_in env cfg N).
Proof.
  intros Hj Hcfg Hc Hsearch Hsrc. unfold Service.runRealDiscovery.
  apply (returns_bind _ _ _ (fun a N => a = Some job ∧ N = [])); [by apply returns_gets|].
  intros a w0 N0 X0 [-> ->]. pose proof (extends_calm _ _ _ X0 Hc) as Hc0.
  apply returns_try_catch. rewrite Hcfg.
  apply (returns_bind _ _ _ (fun _ N => N = [])).
  { by apply (returns_modify_repo
                (fun w => Repo.updateJobStatus uuid (clock w) Discovering None)). }
  intros [] w1 N1 X1 ->. pose proof (extends_calm _ _ _ X1 Hc0) as Hc1.
  apply (returns_bind _ _ _ (fun _ N => goes_well_in env cfg N));
    [by apply returns_runDiscoveryWithAnalyzers|].
  intros [] w2 N2 X2 H2.
  apply (returns_modify_repo (fun w => Repo.updateJobStatus uuid (clock w) Complete None)).
  by rewrite app_nil_r.
Qed.

End QuietService.

End Undisturbed.

(** C7.  Take a job whose sources name the Reddit analyzer once, whose
    search for subreddits succeeds, and for which no cancel request
    arrives.  Whenever the expansion loop reports that a level found no
    topic, the very next report is that the analysis is complete: no
    further level is started, whatever maxLevels allows.  The job ends in
    status complete.  In particular, when every fetch of topics fails or
    returns nothing and maxLevels is at least 2, level 2 is reported to
    have found no topic, and the job is complete. *)
Theorem C7_empty_level_ends_the_expansion (env : Env) (cfg : DiscoveryConfig)
    (uuid : string) (w : World) :
  quiet_env env uuid →
  uuid ∉ cancelledJobs w →
  (∀ k, ∃ subreddits, searchSubreddits env k (niche cfg) = inr subreddits) →
  List.filter (String.eqb "reddit") (sources cfg) = ["reddit"] →
  let w' := Service.runJob env cfg uuid w in
  Service.jobStatus uuid w' = Some Complete
  ∧ ∃ N, phases w' = phases w ++ N
       ∧ (∀ i L, N !! i = Some (PTagged "reddit" (PLevelDone L 0)) →
                 N !! (S i) = Some (PTagged "reddit" PComplete))
       ∧ (barren env → (2 <= maxLevels cfg)%Z →
          In (PTagged "reddit" (PLevelDone 2 0)) N).
Proof.
  intros Hq Hc Hsearch Hsrc.
  destruct (startDiscovery_known cfg uuid w) as (Hj & Hc0 & Hcon).
  set (w0 := snd (Service.startDiscovery cfg uuid w)) in *.
  assert (Hcalm : uuid ∉ cancelledJobs w0) by (by rewrite Hc0).
  destruct (returns_runRealDiscovery uuid env Hq cfg w0 _ Hj eq_refl Hcalm Hsearch Hsrc)
    as ([] & w1 & N & Erun & [_ Hph] & Hshape & Hbarren).
  assert (Hk : job_known uuid (repo w0)).
  { unfold job_known. unfold Repo.getJob in Hj. rewrite Hj. eauto. }
  destruct (runRealDiscovery_status env uuid w0 w1 _ Hk Erun) as (st & Hst & -> & _).
  cbv zeta. unfold Service.runJob. fold w0. unfold Service.backgroundTask. rewrite Erun.
  split; [exact Hst|].
  exists N. split; [|split; [exact Hshape | exact Hbarren]].
  unfold phases in *. simpl. rewrite Hph, Hcon. reflexivity.
Qed.

(** ** Cancel requests and the table of active jobs *)

(** Every state of a run of a job is a reachable state. *)
Lemma reachable_stable (env : Env) : world_stable env reachable.
Proof.
  split; try (intros; by constructor).
  apply await_io_keeps; intros; by constructor.
Qed.

Lemma reachable_runJob (env : Env) (cfg : DiscoveryConfig) (uuid : string) (w : World) :
  reachable w → reachable (Service.runJob env cfg uuid w).
Proof.
  intros Hw. unfold Service.runJob, Service.backgroundTask.
  pose proof (keeps_runRealDiscovery env reachable (reachable_stable env) uuid
                (snd (Service.startDiscovery cfg uuid w)) (reach_start cfg uuid w Hw)) as H.
  destruct (Service.runRealDiscovery env uuid (snd (Service.startDiscovery cfg uuid w)))
    as [[e|[]] w1]; simpl in H.
  - apply reach_cleanup. destruct (String.eqb (err_name e) "AbortError"); by constructor.
  - by apply reach_cleanup.
Qed.

(** In every reachable state the active jobs are known jobs. *)
Lemma reachable_consistent (w : World) : reachable w → tables_consistent w.
Proof.
  induction 1 as [|cfg uuid w Hw IH|j now st e w Hw IH|j now lvl w Hw IH|j now sa w Hw IH
                  |j now n w Hw IH|j now e w Hw IH|j p w Hw IH|t w Hw IH|w Hw IH|r w Hw IH
                  |j w Hw IH|j w Hw IH]; intros jobId Ha.
  - simpl in Ha. rewrite lookup_empty in Ha. by destruct Ha.
  - unfold Service.startDiscovery, Repo.createJob in *. simpl in *. unfold job_known. simpl.
    destruct (decide (uuid = jobId)) as [->|Hne].
    + rewrite lookup_insert_eq. eauto.
    + rewrite lookup_insert_ne in Ha by done. rewrite lookup_insert_ne by done.
      by apply IH.
  - apply (stable_status _ (job_known_stable jobId)), IH, Ha.
  - apply (stable_level _ (job_known_stable jobId)), IH, Ha.
  - apply (stable_sub _ (job_known_stable jobId)), IH, Ha.
  - apply (stable_node _ (job_known_stable jobId)), IH, Ha.
  - apply (stable_edge _ (job_known_stable jobId)), IH, Ha.
  - apply IH, Ha.
  - apply IH, Ha.
  - apply IH, Ha.
  - apply IH, Ha.
  - unfold Cancel.cancelJob in *. destruct (activeJobs w !! j) as [c|] eqn:Ej.
    + simpl in *. apply (stable_status _ (job_known_stable jobId)), IH.
      destruct (decide (j = jobId)) as [->|Hne]; [by rewrite Ej|].
      by rewrite lookup_insert_ne in Ha.
    + apply IH, Ha.
  - simpl in *. apply IH. destruct Ha as [c Hc].
    apply lookup_delete_Some in Hc as [_ Hc]. eauto.
Qed.

(** ** The sample run without topics *)

(** The sample run in which three levels are allowed and level 2 finds
    nothing. *)
Lemma C7_empty_level_ends_the_expansion_witness :
  Service.jobStatus SampleRun.jobId SampleRun.barren = Some Complete
  ∧ ∃ N, phases SampleRun.barren = phases initial ++ N
       ∧ (∀ i L, N !! i = Some (PTagged "reddit" (PLevelDone L 0)) →
                 N !! (S i) = Some (PTagged "reddit" PComplete))
       ∧ (barren (SampleRun.quiet (inr [])) → (2 <= maxLevels (SampleRun.cfg 3))%Z →
          In (PTagged "reddit" (PLevelDone 2 0)) N).
Proof.
  apply (C7_empty_level_ends_the_expansion (SampleRun.quiet (inr [])) (SampleRun.cfg 3)
           SampleRun.jobId initial).
  - intros k H. exact H.
  - simpl. apply not_elem_of_empty.
  - intros k. eexists. reflexivity.
  - reflexivity.
Defined.

(** ** The error that ends a background task *)

Lemma runAnalyzers_returns analyzers niche cfg cb results errors (w : World) :
  ∃ out w', AnalyzerRegistry.runAnalyzers analyzers niche cfg cb results errors w
            = (inr out, w').
Proof.
  revert results errors w.
  induction analyzers as [|a rest IH]; intros results errors w; simpl.
  - eexists _, _. reflexivity.
  - unfold bind at 1. unfold try_catch, bind at 1.
    destruct (ba_analyze a niche cfg (AnalyzerRegistry.wrappedProgressCallback a cb) w)
      as [[e|result] w1]; simpl; apply IH.
Qed.

(** The registry throws errors of its own only: what an analyzer throws,
    the cancellation error included, is caught analyzer by analyzer. *)
Lemma analyzeWithMultiplePlatforms_throws registered niche platforms cfg cb
    (w w' : World) (e : JsError) :
  AnalyzerRegistry.analyzeWithMultiplePlatforms registered niche platforms cfg cb w
  = (inl e, w') →
  err_name e = "Error".
Proof.
  unfold AnalyzerRegistry.analyzeWithMultiplePlatforms, bind at 1, gets.
  destruct (omap (AnalyzerRegistry.getAnalyzer registered) platforms) as [|a rest].
  - intros [= <- _]. reflexivity.
  - unfold bind at 1.
    destruct (runAnalyzers_returns (a :: rest) niche cfg cb [] [] w) as ([rs errs] & w1 & E).
    rewrite E. destruct rs.
    + intros [= <- _]. reflexivity.
    + unfold bind, ret. discriminate.
Qed.

Lemma runRealDiscovery_throws (env : Env) (jobId : string) (w w' : World) (e : JsError) :
  Service.runRealDiscovery env jobId w = (inl e, w') → err_name e = "Error".
Proof.
  unfold Service.runRealDiscovery, bind at 1, gets.
  destruct (Repo.getJob jobId (repo w)) as [job|]; [|intros [= <- _]; reflexivity].
  unfold try_catch, bind at 1. unfold Service.updateStatus at 1, modify.
  unfold bind at 1. unfold Service.runDiscoveryWithAnalyzers, try_catch, bind at 1.
  match goal with
  | |- context [AnalyzerRegistry.analyzeWithMultiplePlatforms ?r ?n ?p ?c ?k ?w0] =>
      destruct (AnalyzerRegistry.analyzeWithMultiplePlatforms r n p c k w0)
        as [[e1|result] w1] eqn:E1
  end.
  - apply analyzeWithMultiplePlatforms_throws in E1.
    unfold throw, bind, Service.updateStatus, modify. intros [= <- _]. exact E1.
  - unfold Service.storeAnalyzerResults, modify, Service.updateStatus, modify. discriminate.
Qed.

(** Whatever requests are served on the way, the record of a job whose
    background task has ended holds complete or error, never cancelled. *)
Lemma task_never_ends_cancelled (env : Env) (cfg : DiscoveryConfig) (uuid : string)
    (w : World) :
  Service.jobStatus uuid (Service.runJob env cfg uuid w) = Some Complete
  ∨ Service.jobStatus uuid (Service.runJob env cfg uuid w) = Some Error.
Proof.
  assert (Hk : job_known uuid (repo (snd (Service.startDiscovery cfg uuid w)))).
  { destruct (startDiscovery_known cfg uuid w) as (Hj & _). unfold job_known.
    unfold Repo.getJob in Hj. rewrite Hj. eauto. }
  unfold Service.runJob, Service.backgroundTask.
  destruct (Service.runRealDiscovery env uuid (snd (Service.startDiscovery cfg uuid w)))
    as [r w1] eqn:Erun.
  destruct (runRealDiscovery_status env uuid _ w1 r Hk Erun) as (st & Hst & Hr & Hk1).
  destruct r as [e|[]].
  - right. rewrite (runRealDiscovery_throws env uuid _ _ _ Erun). simpl.
    by apply status_after_update.
  - left. subst st. exact Hst.
Qed.

(** ** A cancel request served during the run *)

Lemma serve_all_cancel (uuid : string) (rqs : list Request) (w : World) :
  is_Some (activeJobs w !! uuid) →
  is_Some (activeJobs (Cancel.serve_all rqs w) !! uuid)
  ∧ ioCount (Cancel.serve_all rqs w) = ioCount w
  ∧ (uuid ∈ cancelledJobs w → uuid ∈ cancelledJobs (Cancel.serve_all rqs w))
  ∧ (In (ReqCancel uuid) rqs → uuid ∈ cancelledJobs (Cancel.serve_all rqs w)).
Proof.
  revert w. induction rqs as [|rq rqs IH]; intros w Ha.
  - simpl. repeat split; auto. intros [].
  - cbn [Cancel.serve_all fold_left]. fold (Cancel.serve_all rqs (Cancel.serve rq w)).
    assert (H0 : is_Some (activeJobs (Cancel.serve rq w) !! uuid)
                 ∧ ioCount (Cancel.serve rq w) = ioCount w
                 ∧ (uuid ∈ cancelledJobs w → uuid ∈ cancelledJobs (Cancel.serve rq w))
                 ∧ (rq = ReqCancel uuid → uuid ∈ cancelledJobs (Cancel.serve rq w))).
    { destruct rq as [j|j]; unfold Cancel.serve.
      - unfold Cancel.cancelJob. destruct (activeJobs w !! j) as [c|] eqn:Ej; simpl.
        + split; [by apply lookup_insert_is_Some'; right|]. split; [reflexivity|].
          split; [intros H; apply elem_of_union; by right|].
          intros [= ->]. apply elem_of_union. left. by apply elem_of_singleton.
        + split; [exact Ha|]. split; [reflexivity|]. split; [auto|].
          intros [= ->]. rewrite Ej in Ha. by destruct Ha.
      - simpl. repeat split; auto. discriminate. }
    destruct H0 as (A1 & A2 & A3 & A4).
    destruct (IH (Cancel.serve rq w) A1) as (B1 & B2 & B3 & B4).
    split; [exact B1|]. split; [congruence|]. split; [auto|].
    intros [->|Hin]; [apply B3, A4; reflexivity | by apply B4].
Qed.

Lemma cancel_seen_stable (env : Env) (uuid : string) (k0 : nat) :
  world_stable env (cancel_seen env uuid k0).
Proof.
  split; try (intros; assumption).
  intros w (Ha & Hk & Hseen). unfold await_io. simpl.
  destruct (serve_all_cancel uuid (arrivals env (ioCount w))
              (set_clock (timeAt env (ioCount w)) w) Ha) as (B1 & B2 & B3 & B4).
  split; [exact B1|]. simpl in B2. split; [simpl; lia|].
  intros k Hr Hin. simpl in *. rewrite B2 in Hr.
  destruct (decide (k = ioCount w)) as [->|Hne]; [by apply B4|].
  apply B3, (Hseen k); [lia | exact Hin].
Qed.

Lemma bind_inr_inv {A B} (m : M A) (f : A → M B) (w w' : World) (b : B) :
  bind m f w = (inr b, w') → ∃ a w1, m w = (inr a, w1) ∧ f a w1 = (inr b, w').
Proof.
  unfold bind. destruct (m w) as [[e|a] w1]; [discriminate|]. eauto.
Qed.

(** A progress report that returns leaves the job uncancelled. *)
Lemma report_inr_calm (uuid : string) (a : BaseAnalyzer) lvl ph n e sa (w w' : World) :
  RedditAnalyzer.report (AnalyzerRegistry.wrappedProgressCallback a
                           (Service.progressCallback uuid)) lvl ph n e sa w = (inr tt, w') →
  uuid ∉ cancelledJobs w'.
Proof.
  unfold RedditAnalyzer.report, AnalyzerRegistry.wrappedProgressCallback,
    Service.progressCallback. cbn [p_subAnalysis p_currentLevel].
  destruct (decide (uuid ∈ cancelledJobs w)) as [Hin|Hc]; [discriminate|].
  destruct sa; intros [= <-]; exact Hc.
Qed.

(** The analysis ends with a progress report: when it returns, the job is
    not cancelled. *)
Lemma analyze_inr_calm (env : Env) (uuid : string) (a : BaseAnalyzer) niche cfg
    (w w' : World) (res : AnalyzerResult) :
  RedditAnalyzer.analyze env niche cfg
    (AnalyzerRegistry.wrappedProgressCallback a (Service.progressCallback uuid)) w
  = (inr res, w') →
  uuid ∉ cancelledJobs w'.
Proof.
  unfold RedditAnalyzer.analyze. intros E.
  apply bind_inr_inv in E as (startTime & w0 & _ & E).
  unfold try_catch in E.
  match type of E with
  | (match ?body w0 with _ => _ end) = _ => destruct (body w0) as [[e|r] wB] eqn:EB
  end.
  - exfalso. unfold bind, throw in E.
    match type of E with
    | (let (_, _) := ?rep in _) = _ => destruct rep as [[e1|[]] w2]
    end; discriminate.
  - injection E as -> ->.
    apply bind_inr_inv in EB as (? & ? & _ & EB).
    apply bind_inr_inv in EB as (? & ? & _ & EB).
    apply bind_inr_inv in EB as (? & ? & _ & EB).
    apply bind_inr_inv in EB as (? & ? & _ & EB).
    apply bind_inr_inv in EB as (? & ? & _ & EB).
    apply bind_inr_inv in EB as (? & ? & _ & EB).
    apply bind_inr_inv in EB as (? & ? & _ & EB).
    apply bind_inr_inv in EB as ([[allNodes allEdges] apiCalls] & ? & _ & EB).
    apply bind_inr_inv in EB as ([] & w9 & Hrep & EB).
    apply report_inr_calm in Hrep.
    unfold bind, gets, ret in EB. injection EB as _ <-. exact Hrep.
Qed.

Lemma storeAnalyzerResults_cancelled (jobId : string) (result : CombinedAnalyzerResult)
    (w : World) :
  cancelledJobs (snd (Service.storeAnalyzerResults jobId result w)) = cancelledJobs w.
Proof.
  unfold Service.storeAnalyzerResults, modify. simpl.
  assert (H1 : ∀ ns w0,
            cancelledJobs (fold_left (fun w n => set_repo (Repo.addNode jobId (clock w)
                                                  (Service.toDiscoveryNode n)) w) ns w0)
            = cancelledJobs w0).
  { induction ns as [|n ns IH]; intros w0; [reflexivity|]. simpl. by rewrite IH. }
  assert (H2 : ∀ es w0,
            cancelledJobs (fold_left (fun w e => set_repo (Repo.addEdge jobId (clock w)
                                                  (Service.toDiscoveryEdge e)) w) es w0)
            = cancelledJobs w0).
  { induction es as [|e es IH]; intros w0; [reflexivity|]. simpl. by rewrite IH. }
  by rewrite H2, H1.
Qed.

(** With the Reddit analyzer named once, [runRealDiscovery] returns only
    if the job is not cancelled when it ends. *)
Lemma runRealDiscovery_inr_calm (env : Env) (uuid : string) (job : DiscoveryJob)
    (w w1 : World) :
  Repo.getJob uuid (repo w) = Some job →
  List.filter (String.eqb "reddit") (sources (config job)) = ["reddit"] →
  Service.runRealDiscovery env uuid w = (inr tt, w1) →
  uuid ∉ cancelledJobs w1.
Proof.
  intros Hj Hsrc E. unfold Service.runRealDiscovery in E.
  apply bind_inr_inv in E as (j & w0 & Hg & E).
  unfold gets in Hg. injection Hg as <- <-. rewrite Hj in E.
  unfold try_catch in E.
  match type of E with
  | (match ?body w with _ => _ end) = _ => destruct (body w) as [[e|[]] wB] eqn:EB
  end.
  - exfalso. unfold bind, Service.updateStatus, modify, throw in E. discriminate.
  - injection E as ->.
    apply bind_inr_inv in EB as ([] & wa & Ha & EB).
    apply bind_inr_inv in EB as ([] & wb & Hb & EB).
    unfold Service.updateStatus, modify in Ha, EB. injection Ha as <-. injection EB as <-.
    simpl. unfold Service.runDiscoveryWithAnalyzers, try_catch in Hb.
    match type of Hb with
    | (match ?body ?w0 with _ => _ end) = _ => destruct (body w0) as [[e|[]] wc] eqn:EC
    end; [discriminate|]. injection Hb as ->.
    apply bind_inr_inv in EC as (result & wd & Hd & EC).
    pose proof (storeAnalyzerResults_cancelled uuid result wd) as Hs.
    rewrite EC in Hs. simpl in Hs. rewrite Hs. clear EC Hs.
    unfold AnalyzerRegistry.analyzeWithMultiplePlatforms in Hd.
    apply bind_inr_inv in Hd as (startTime & we & Hg & Hd).
    unfold gets in Hg. injection Hg as _ <-.
    rewrite analyzers_of_sources, Hsrc in Hd. cbn [map] in Hd.
    apply bind_inr_inv in Hd as ([rs errs] & wf & Hrun & Hd).
    cbn [AnalyzerRegistry.runAnalyzers] in Hrun.
    apply bind_inr_inv in Hrun as (r & wg & Htry & Hrun).
    unfold try_catch in Htry.
    match type of Htry with
    | (match ?body ?w0 with _ => _ end) = _ => destruct (body w0) as [[e|r0] wh] eqn:EA
    end.
    + unfold ret in Htry. injection Htry as <- <-.
      unfold ret in Hrun. injection Hrun as <- <- <-.
      unfold throw in Hd. discriminate.
    + injection Htry as <- <-.
      apply bind_inr_inv in EA as (res & wi & Han & EA).
      unfold ret in EA. injection EA as <- <-.
      unfold ret in Hrun. injection Hrun as <- <- <-. cbn [app] in Hd.
      apply bind_inr_inv in Hd as (endTime & wj & Hg & Hd).
      unfold gets in Hg. injection Hg as _ <-. unfold ret in Hd. injection Hd as _ <-.
      exact (analyze_inr_calm env uuid (reddit env) _ _ _ _ _ Han).
Qed.

(** A job whose sources name the Reddit analyzer once, and for which a
    cancel request arrives during one of the external calls of its run,
    ends in error. *)
Lemma cancel_ends_in_error (env : Env) (cfg : DiscoveryConfig) (uuid : string) (w : World)
    (k : nat) :
  List.filter (String.eqb "reddit") (sources cfg) = ["reddit"] →
  (ioCount w <= k < ioCount (Service.runJob env cfg uuid w))%nat →
  In (ReqCancel uuid) (arrivals env k) →
  Service.jobStatus uuid (Service.runJob env cfg uuid w) = Some Error.
Proof.
  intros Hsrc Hk Hin.
  destruct (startDiscovery_known cfg uuid w) as (Hj & Hc0 & Hcon).
  set (w0 := snd (Service.startDiscovery cfg uuid w)) in *.
  assert (Hknown : job_known uuid (repo w0)).
  { unfold job_known. unfold Repo.getJob in Hj. rewrite Hj. eauto. }
  assert (Hseen : cancel_seen env uuid (ioCount w) w0).
  { split; [|split].
    - unfold w0, Service.startDiscovery, Repo.createJob. simpl.
      rewrite lookup_insert_eq. eauto.
    - unfold w0, Service.startDiscovery, Repo.createJob. simpl. lia.
    - intros k' Hr. exfalso. unfold w0, Service.startDiscovery, Repo.createJob in Hr.
      simpl in Hr. lia. }
  pose proof (keeps_runRealDiscovery env _ (cancel_seen_stable env uuid (ioCount w)) uuid
                w0 Hseen) as Hend.
  unfold Service.runJob, Service.backgroundTask in *. fold w0 in Hk |- *.
  destruct (Service.runRealDiscovery env uuid w0) as [r w1] eqn:Erun.
  destruct (runRealDiscovery_status env uuid w0 w1 r Hknown Erun) as (st & Hst & Hr & Hk1).
  simpl in Hend. destruct Hend as (_ & _ & Hseen1).
  destruct r as [e|[]].
  - rewrite (runRealDiscovery_throws env uuid _ _ _ Erun). simpl.
    by apply status_after_update.
  - exfalso. simpl in Hk.
    apply (runRealDiscovery_inr_calm env uuid _ w0 w1 Hj Hsrc Erun).
    by apply (Hseen1 k).
Qed.

(** C2, at the failing input: the sample job is cancelled while the topics
    of the first of its two level-1 parents are being fetched.  The cancel
    request succeeds and the record then holds cancelled, as the status
    request served right after it shows.  The next progress report throws
    the cancellation error; the analyzer lets it escape, the registry
    replaces it by its own "All analyzers failed" error, and the task's
    failure handlers write error on the record: the job ends in error.
    More generally, whatever requests are served during a job's run, the
    record holds complete or error when the task has ended; and it holds
    error whenever a cancel request for the job arrived during one of the
    external calls of the run and the sources name the Reddit analyzer
    once. *)
Theorem C2_cancel_mid_level_ends_in_error :
  map reply_summary (replies SampleRun.cancelled_mid_level)
  = [inl true; inr (Some (Cancelled, Some "Job was cancelled by user"))]
  ∧ last (phases SampleRun.cancelled_mid_level)
    = Some (PTagged "reddit" (PParent 2 "startups" 1 2))
  ∧ reply_summary (StatusReplied (Repo.getJob SampleRun.jobId
                                    (repo SampleRun.cancelled_mid_level)))
    = inr (Some (Error,
                 Some "All analyzers failed. Errors: Error in reddit analyzer: Discovery job was cancelled"))
  ∧ (∀ env cfg uuid w,
      Service.jobStatus uuid (Service.runJob env cfg uuid w) = Some Complete
      ∨ Service.jobStatus uuid (Service.runJob env cfg uuid w) = Some Error)
  ∧ (∀ env cfg uuid w k,
      List.filter (String.eqb "reddit") (sources cfg) = ["reddit"] →
      (ioCount w <= k < ioCount (Service.runJob env cfg uuid w))%nat →
      In (ReqCancel uuid) (arrivals env k) →
      Service.jobStatus uuid (Service.runJob env cfg uuid w) = Some Error).
Proof.
  split; [vm_compute; reflexivity|].
  split; [vm_compute; reflexivity|].
  split; [vm_compute; reflexivity|].
  split; [apply task_never_ends_cancelled | apply cancel_ends_in_error].
Qed.

(** The sample job cancelled mid-level is an instance of the general
    statement: its sources name the Reddit analyzer once and the cancel
    request arrives during external call number 3 of its run. *)
Lemma C2_cancel_mid_level_ends_in_error_witness :
  Service.jobStatus SampleRun.jobId SampleRun.cancelled_mid_level = Some Error.
Proof.
  destruct C2_cancel_mid_level_ends_in_error as (_ & _ & _ & _ & H).
  apply (H _ (SampleRun.cfg 2) SampleRun.jobId initial 3).
  - reflexivity.
  - vm_compute. lia.
  - vm_compute. left. reflexivity.
Defined.

(** ** At most one terminal event per connection *)

Section TerminalEvents.

Import Stream.

Lemma terminal_events_app (l1 l2 : list Event) :
  terminal_events (l1 ++ l2) = terminal_events l1 ++ terminal_events l2.
Proof. apply List.filter_app. Qed.

Lemma terminal_events_nodes (ns : list DiscoveryNode) :
  terminal_events (map EvNodeFound ns) = [].
Proof. induction ns as [|n ns IH]; [reflexivity | exact IH]. Qed.

Lemma terminal_events_edges (es : list DiscoveryEdge) :
  terminal_events (map EvEdgeFound es) = [].
Proof. induction es as [|e es IH]; [reflexivity | exact IH]. Qed.

Lemma terminal_events_cons (e : Event) (l : list Event) :
  is_terminal_event e = false → terminal_events (e :: l) = terminal_events l.
Proof. intros H. unfold terminal_events. simpl. by rewrite H. Qed.

Lemma terminal_events_flat_map {A} (f : A → list Event) (ls : list A) :
  (∀ x, terminal_events (f x) = []) → terminal_events (flat_map f ls) = [].
Proof.
  intros H. induction ls as [|l ls IH]; [reflexivity|].
  cbn [flat_map]. by rewrite terminal_events_app, H, IH.
Qed.

(** Both replays carry exactly one terminal event, the done event. *)
Lemma terminal_events_replay_polled (g : DiscoveryGraph) :
  terminal_events (replay_polled g) = [done_event g].
Proof.
  unfold replay_polled. rewrite !terminal_events_app, terminal_events_edges.
  rewrite terminal_events_flat_map; [reflexivity|].
  intros lvl. rewrite terminal_events_cons by reflexivity.
  by rewrite terminal_events_app, terminal_events_nodes.
Qed.

Lemma terminal_events_replay_immediate (g : DiscoveryGraph) :
  terminal_events (replay_immediate g) = [done_event g].
Proof.
  unfold replay_immediate. rewrite !terminal_events_app, terminal_events_edges.
  rewrite terminal_events_flat_map; [reflexivity|].
  intros lvl. rewrite terminal_events_cons by reflexivity.
  apply terminal_events_nodes.
Qed.

(** A tick writes a terminal event exactly when it clears the interval,
    and then it writes one. *)
Lemma terminal_events_tick (jobId : string) (maxLv : Z) (r : Repo.t) :
  length (terminal_events (fst (tick jobId maxLv r)))
  = if snd (tick jobId maxLv r) then 1 else 0.
Proof.
  unfold tick. destruct (Repo.getJob jobId r) as [job|]; [|reflexivity].
  destruct (status job); try reflexivity.
  destruct (0 <? length (nodes (Repo.getJobGraph jobId r)))%nat; [|reflexivity].
  cbn [fst snd]. rewrite terminal_events_cons by reflexivity.
  rewrite terminal_events_replay_polled. reflexivity.
Qed.

Lemma terminal_events_poll (jobId : string) (maxLv : Z) (snapshots : list Repo.t) :
  (length (terminal_events (poll jobId maxLv snapshots)) <= 1)%nat.
Proof.
  induction snapshots as [|r rest IH]; simpl; [lia|].
  pose proof (terminal_events_tick jobId maxLv r) as Ht.
  destruct (tick jobId maxLv r) as [evs stop]. simpl in Ht. destruct stop.
  - lia.
  - rewrite terminal_events_app, length_app. lia.
Qed.

(** However the store evolves while a client is connected, the client is
    sent at most one terminal event. *)
Lemma stream_at_most_one_terminal (jobId : string) (r0 : Repo.t) (snapshots : list Repo.t) :
  (length (terminal_events (stream jobId r0 snapshots)) <= 1)%nat.
Proof.
  unfold stream. destruct (Repo.getJob jobId r0) as [job|]; [|simpl; lia].
  rewrite terminal_events_cons by reflexivity.
  destruct (length (nodes (Repo.getJobGraph jobId r0)) =? 0)%nat.
  - apply terminal_events_poll.
  - rewrite terminal_events_replay_immediate. simpl. lia.
Qed.

End TerminalEvents.

(** * Further properties of the code *)

(** ** The job store: unknown ids, other jobs, and what updates never change *)

Section RepoFrame.

Import Repo.

Lemma same_domain_empty : same_domain empty.
Proof. intros j. simpl. by rewrite !lookup_empty. Qed.

Lemma same_domain_apply (o : op) (r : t) : same_domain r → same_domain (apply o r).
Proof.
  intros Hr j. pose proof (Hr j) as Hj.
  destruct o as [u now cfg|i now st e|i now lvl|i now sa|i now n|i now e]; simpl.
  - destruct (decide (u = j)) as [->|Hne].
    + by rewrite !lookup_insert_eq.
    + by rewrite !lookup_insert_ne.
  - unfold updateJobStatus. destruct (jobs r !! i) as [job|] eqn:Ei; [|exact Hj]. simpl.
    destruct (decide (i = j)) as [->|Hne].
    + rewrite lookup_insert_eq. rewrite Ei in Hj. destruct Hj as [H1 H2].
      split; [discriminate | intros H; specialize (H2 H); discriminate H2].
    + by rewrite lookup_insert_ne.
  - unfold updateJobCurrentLevel. destruct (jobs r !! i) as [job|] eqn:Ei; [|exact Hj]. simpl.
    destruct (decide (i = j)) as [->|Hne].
    + rewrite lookup_insert_eq. rewrite Ei in Hj. destruct Hj as [H1 H2].
      split; [discriminate | intros H; specialize (H2 H); discriminate H2].
    + by rewrite lookup_insert_ne.
  - unfold updateJobSubAnalysis. destruct (jobs r !! i) as [job|] eqn:Ei; [|exact Hj]. simpl.
    destruct (decide (i = j)) as [->|Hne].
    + rewrite lookup_insert_eq. rewrite Ei in Hj. destruct Hj as [H1 H2].
      split; [discriminate | intros H; specialize (H2 H); discriminate H2].
    + by rewrite lookup_insert_ne.
  - unfold addNode. destruct (jobGraphs r !! i) as [g|] eqn:Eg; [|exact Hj].
    destruct (jobs r !! i) as [job|] eqn:Ei; simpl.
    + destruct (decide (i = j)) as [->|Hne].
      * by rewrite !lookup_insert_eq.
      * by rewrite !lookup_insert_ne.
    + destruct (decide (i = j)) as [->|Hne].
      * exfalso. pose proof (proj1 (Hr j) Ei) as H. congruence.
      * by rewrite lookup_insert_ne.
  - unfold addEdge. destruct (jobGraphs r !! i) as [g|] eqn:Eg; [|exact Hj].
    destruct (jobs r !! i) as [job|] eqn:Ei; simpl.
    + destruct (decide (i = j)) as [->|Hne].
      * by rewrite !lookup_insert_eq.
      * by rewrite !lookup_insert_ne.
    + destruct (decide (i = j)) as [->|Hne].
      * exfalso. pose proof (proj1 (Hr j) Ei) as H. congruence.
      * by rewrite lookup_insert_ne.
Qed.

Lemma same_domain_run (ops : list op) (r : t) : same_domain r → same_domain (run ops r).
Proof.
  revert r. induction ops as [|o ops IH]; intros r Hr; [exact Hr|].
  apply IH, same_domain_apply, Hr.
Qed.

(** A call other than [createJob] that addresses a job without record and
    without graph changes nothing. *)
Lemma apply_unknown (o : op) (r : t) :
  op_creates o = false →
  jobs r !! op_target o = None → jobGraphs r !! op_target o = None →
  apply o r = r.
Proof.
  intros Hc Hj Hg.
  destruct o as [u now cfg|i now st e|i now lvl|i now sa|i now n|i now e];
    simpl in *; try discriminate Hc.
  - unfold updateJobStatus. by rewrite Hj.
  - unfold updateJobCurrentLevel. by rewrite Hj.
  - unfold updateJobSubAnalysis. by rewrite Hj.
  - unfold addNode. by rewrite Hg.
  - unfold addEdge. by rewrite Hg.
Qed.

(** A call leaves the record and the graph of every job it does not
    address as they are. *)
Lemma apply_other (o : op) (j : string) (r : t) :
  op_target o ≠ j →
  jobs (apply o r) !! j = jobs r !! j ∧ jobGraphs (apply o r) !! j = jobGraphs r !! j.
Proof.
  intros Hne.
  destruct o as [u now cfg|i now st e|i now lvl|i now sa|i now n|i now e]; simpl in *.
  - by rewrite !lookup_insert_ne.
  - unfold updateJobStatus. destruct (jobs r !! i); [|done]. simpl.
    by rewrite lookup_insert_ne.
  - unfold updateJobCurrentLevel. destruct (jobs r !! i); [|done]. simpl.
    by rewrite lookup_insert_ne.
  - unfold updateJobSubAnalysis. destruct (jobs r !! i); [|done]. simpl.
    by rewrite lookup_insert_ne.
  - unfold addNode. destruct (jobGraphs r !! i); [|done].
    destruct (jobs r !! i); simpl; by rewrite ?lookup_insert_ne.
  - unfold addEdge. destruct (jobGraphs r !! i); [|done].
    destruct (jobs r !! i); simpl; by rewrite ?lookup_insert_ne.
Qed.

(** What a call other than [createJob] does to the record and the graph
    of a known job: the id, the config and the creation time stay, an
    error message that is there is not removed, and the node and edge
    arrays keep what they hold, in place. *)
Lemma apply_keeps (o : op) (j : string) (r : t) (job : DiscoveryJob) :
  op_creates o = false →
  getJob j r = Some job →
  ∃ job', getJob j (apply o r) = Some job'
    ∧ job_id job' = job_id job ∧ config job' = config job
    ∧ createdAt job' = createdAt job
    ∧ (is_Some (error job) → is_Some (error job'))
    ∧ nodes (getJobGraph j r) `prefix_of` nodes (getJobGraph j (apply o r))
    ∧ edges (getJobGraph j r) `prefix_of` edges (getJobGraph j (apply o r)).
Proof.
  intros Hc Hj. unfold getJob in Hj.
  destruct (decide (op_target o = j)) as [Ht|Hne].
  2:{ destruct (apply_other o j r Hne) as [E1 E2].
      exists job. unfold getJob, getJobGraph. rewrite E1, E2. by repeat split. }
  destruct o as [u now cfg|i now st e|i now lvl|i now sa|i now n|i now e];
    simpl in *; try discriminate Hc; subst i.
  - unfold updateJobStatus, getJob, getJobGraph. rewrite Hj. simpl.
    rewrite lookup_insert_eq. eexists. split; [reflexivity|]. simpl.
    repeat split; try done.
    intros Hs. unfold set_error. destruct e as [m|]; [|exact Hs].
    destruct (String.eqb m ""); [exact Hs | eauto].
  - unfold updateJobCurrentLevel, getJob, getJobGraph. rewrite Hj. simpl.
    rewrite lookup_insert_eq. eexists. split; [reflexivity|]. by repeat split.
  - unfold updateJobSubAnalysis, getJob, getJobGraph. rewrite Hj. simpl.
    rewrite lookup_insert_eq. eexists. split; [reflexivity|]. by repeat split.
  - unfold addNode, getJob, getJobGraph.
    destruct (jobGraphs r !! j) as [g|] eqn:Eg.
    + rewrite Hj. simpl. rewrite !lookup_insert_eq. eexists. split; [reflexivity|]. simpl.
      repeat split; try done. by exists [n].
    + rewrite Hj, Eg. simpl. exists job. by repeat split.
  - unfold addEdge, getJob, getJobGraph.
    destruct (jobGraphs r !! j) as [g|] eqn:Eg.
    + rewrite Hj. simpl. rewrite !lookup_insert_eq. eexists. split; [reflexivity|]. simpl.
      repeat split; try done. by exists [e].
    + rewrite Hj, Eg. simpl. exists job. by repeat split.
Qed.

End RepoFrame.

(** X1.  In a store built by any sequence of calls, a call other than
    createJob that addresses a job id without record changes nothing at
    all, and the graph read for that id is the empty graph. *)
Theorem X1_unknown_job_is_left_alone (ops : list Repo.op) (o : Repo.op) :
  Repo.getJob (op_target o) (Repo.run ops Repo.empty) = None →
  op_creates o = false →
  Repo.apply o (Repo.run ops Repo.empty) = Repo.run ops Repo.empty
  ∧ Repo.getJobGraph (op_target o) (Repo.run ops Repo.empty) = empty_graph.
Proof.
  intros Hj Hc.
  pose proof (same_domain_run ops Repo.empty same_domain_empty (op_target o)) as Hd.
  unfold Repo.getJob in Hj. pose proof (proj1 Hd Hj) as Hg.
  split; [by apply apply_unknown|].
  unfold Repo.getJobGraph. by rewrite Hg.
Qed.

(** A node added under an id that no job was created with. *)
Lemma X1_unknown_job_is_left_alone_witness :
  let ops := [Repo.CreateJob "job-1" 0 (SampleRun.cfg 2)] in
  let o := Repo.AddNode "job-2" 1 (Service.toDiscoveryNode (RedditAnalyzer.rootNode "AI tools")) in
  Repo.apply o (Repo.run ops Repo.empty) = Repo.run ops Repo.empty
  ∧ Repo.getJobGraph (op_target o) (Repo.run ops Repo.empty) = empty_graph.
Proof.
  apply (X1_unknown_job_is_left_alone [Repo.CreateJob "job-1" 0 (SampleRun.cfg 2)]
           (Repo.AddNode "job-2" 1 (Service.toDiscoveryNode (RedditAnalyzer.rootNode "AI tools")))).
  - vm_compute. reflexivity.
  - reflexivity.
Defined.

(** X2.  A call of the store leaves the record and the graph of every
    job other than the one it addresses exactly as they were. *)
Theorem X2_other_jobs_are_untouched (o : Repo.op) (j : string) (r : Repo.t) :
  op_target o ≠ j →
  Repo.getJob j (Repo.apply o r) = Repo.getJob j r
  ∧ Repo.getJobGraph j (Repo.apply o r) = Repo.getJobGraph j r.
Proof.
  intros Hne. destruct (apply_other o j r Hne) as [E1 E2].
  unfold Repo.getJob, Repo.getJobGraph. by rewrite E1, E2.
Qed.

Lemma X2_other_jobs_are_untouched_witness :
  let o := Repo.UpdateJobStatus "job-2" 5 Error (Some "failed") in
  Repo.getJob "job-1" (Repo.apply o SampleRun.running) = Repo.getJob "job-1" SampleRun.running
  ∧ Repo.getJobGraph "job-1" (Repo.apply o SampleRun.running)
    = Repo.getJobGraph "job-1" SampleRun.running.
Proof.
  apply (X2_other_jobs_are_untouched (Repo.UpdateJobStatus "job-2" 5 Error (Some "failed"))
           "job-1" SampleRun.running).
  simpl. discriminate.
Defined.

(** X3.  Updates never rewrite what identifies a job and never take
    anything out of its graph: after any sequence of calls other than
    createJob, a job that had a record still has one, with the same id,
    config and creation time; an error message that was there is still
    there (possibly replaced by another); and the node and edge arrays of
    its graph begin with the nodes and edges they held before. *)
Theorem X3_updates_keep_identity_and_graph (ops : list Repo.op) (j : string) (r : Repo.t)
    (job : DiscoveryJob) :
  Forall (fun o => op_creates o = false) ops →
  Repo.getJob j r = Some job →
  ∃ job', Repo.getJob j (Repo.run ops r) = Some job'
    ∧ job_id job' = job_id job ∧ config job' = config job
    ∧ createdAt job' = createdAt job
    ∧ (is_Some (error job) → is_Some (error job'))
    ∧ nodes (Repo.getJobGraph j r) `prefix_of` nodes (Repo.getJobGraph j (Repo.run ops r))
    ∧ edges (Repo.getJobGraph j r) `prefix_of` edges (Repo.getJobGraph j (Repo.run ops r)).
Proof.
  intros Hops. revert r job.
  induction Hops as [|o ops Ho Hops IH]; intros r job Hj.
  - exists job. by repeat split.
  - destruct (apply_keeps o j r job Ho Hj) as (job1 & Hj1 & A1 & A2 & A3 & A4 & A5 & A6).
    destruct (IH (Repo.apply o r) job1 Hj1) as (job2 & Hj2 & B1 & B2 & B3 & B4 & B5 & B6).
    exists job2. cbn [Repo.run fold_left]. fold (Repo.run ops (Repo.apply o r)).
    split; [exact Hj2|]. split; [congruence|]. split; [congruence|]. split; [congruence|].
    split; [auto|]. split; etrans; eauto.
Qed.

Lemma X3_updates_keep_identity_and_graph_witness :
  ∃ job', Repo.getJob "job-1"
            (Repo.run [Repo.UpdateJobStatus "job-1" 1 Cancelled (Some "Job was cancelled by user")]
               SampleRun.running) = Some job'
    ∧ job_id job' = "job-1" ∧ config job' = SampleRun.cfg 2 ∧ createdAt job' = 0.
Proof.
  destruct (X3_updates_keep_identity_and_graph
              [Repo.UpdateJobStatus "job-1" 1 Cancelled (Some "Job was cancelled by user")]
              "job-1" SampleRun.running
              {| job_id := SampleRun.jobId; config := SampleRun.cfg 2;
                 status := Discovering; currentLevel := 0; totalNodes := 0;
                 totalEdges := 0; createdAt := 0; updatedAt := 0; error := None;
                 subAnalysis := Some SampleRun.searching |})
    as (job' & H1 & H2 & H3 & H4 & _).
  - repeat constructor.
  - vm_compute. reflexivity.
  - exists job'. repeat split; assumption.
Defined.

(** ** The registry's merge: keys, ids and edges *)

Section MergeMore.

Import Registry.

Lemma map_fmap {A B} (f : A → B) (l : list A) : map f l = f <$> l.
Proof. induction l as [|x l IH]; [reflexivity | simpl; by rewrite IH]. Qed.

Lemma map_get_set_eq {V} (k : string) (v : V) (m : jsmap V) :
  map_get k (map_set k v m) = Some v.
Proof.
  induction m as [|[k' v'] m IH]; simpl; [by rewrite String.eqb_refl|].
  destruct (String.eqb k k') eqn:E; simpl; [by rewrite String.eqb_refl | by rewrite E].
Qed.

Lemma map_get_set_ne {V} (k k' : string) (v : V) (m : jsmap V) :
  k' ≠ k → map_get k' (map_set k v m) = map_get k' m.
Proof.
  intros Hne. induction m as [|[k1 v1] m IH]; simpl.
  - apply String.eqb_neq in Hne. by rewrite Hne.
  - destruct (String.eqb k k1) eqn:E; simpl.
    + apply String.eqb_eq in E as <-. apply String.eqb_neq in Hne. by rewrite Hne.
    + destruct (String.eqb k' k1); [done | exact IH].
Qed.

Lemma map_get_None {V} (k : string) (m : jsmap V) :
  map_get k m = None ↔ ¬ In k (map fst m).
Proof.
  induction m as [|[k' v'] m IH]; simpl; [tauto|].
  destruct (String.eqb k k') eqn:E.
  - apply String.eqb_eq in E as ->. split; [discriminate | tauto].
  - apply String.eqb_neq in E. rewrite IH. split; [intros H [H1|H1]; congruence | tauto].
Qed.

Lemma map_get_In {V} (k : string) (v : V) (m : jsmap V) :
  map_get k m = Some v → In (k, v) m.
Proof.
  induction m as [|[k' v'] m IH]; simpl; [discriminate|].
  destruct (String.eqb k k') eqn:E.
  - apply String.eqb_eq in E as ->. intros [= ->]. by left.
  - auto.
Qed.

Lemma map_set_keys_old {V} (k : string) (v v0 : V) (m : jsmap V) :
  map_get k m = Some v0 → map fst (map_set k v m) = map fst m.
Proof.
  induction m as [|[k' v'] m IH]; simpl; [discriminate|].
  destruct (String.eqb k k') eqn:E; simpl.
  - apply String.eqb_eq in E as ->. reflexivity.
  - intros H. by rewrite IH.
Qed.

Lemma map_set_new {V} (k : string) (v : V) (m : jsmap V) :
  map_get k m = None → map_set k v m = m ++ [(k, v)].
Proof.
  induction m as [|[k' v'] m IH]; simpl; [reflexivity|].
  destruct (String.eqb k k') eqn:E; [discriminate|]. intros H. by rewrite IH.
Qed.

Lemma map_set_In {V} (k : string) (v : V) (kv : string * V) (m : jsmap V) :
  In kv (map_set k v m) → kv = (k, v) ∨ In kv m.
Proof.
  induction m as [|[k' v'] m IH]; simpl; [intros [<-|[]]; by left|].
  destruct (String.eqb k k'); simpl.
  - intros [<-|H]; [by left | right; by right].
  - intros [<-|H]; [right; by left|]. destruct (IH H); [by left | right; by right].
Qed.

Lemma keyed_nil {V} (key : V → string) : keyed key [].
Proof. split; constructor. Qed.

Lemma keyed_set {V} (key : V → string) (k : string) (v : V) (m : jsmap V) :
  key v = k → keyed key m → keyed key (map_set k v m).
Proof.
  intros Hk [Hf Hn]. destruct (map_get k m) as [v0|] eqn:E.
  - split; [|by rewrite (map_set_keys_old _ _ _ _ E)].
    apply List.Forall_forall. intros kv [->|H]%map_set_In; [exact Hk|].
    by apply (proj1 (List.Forall_forall _ _) Hf).
  - rewrite (map_set_new _ _ _ E). split.
    + apply Forall_app. split; [exact Hf | by constructor].
    + rewrite map_app. simpl. apply NoDup_app. split; [exact Hn|]. split.
      * intros x Hx [->|[]]%list_elem_of_In. apply map_get_None in E.
        apply E. by apply list_elem_of_In.
      * apply NoDup_singleton.
Qed.

Lemma keyed_values {V} (key : V → string) (m : jsmap V) :
  keyed key m → map key (map snd m) = map fst m.
Proof.
  intros [Hf _]. induction Hf as [|[k v] m Hk Hf IH]; [reflexivity|].
  simpl in *. by rewrite Hk, IH.
Qed.

Lemma node_key_merge (existing node : AnalyzerNode) :
  node_key (merge_node existing node) = node_key existing.
Proof. reflexivity. Qed.

Lemma keyed_dedup_node (m : jsmap AnalyzerNode) (n : AnalyzerNode) :
  keyed node_key m → keyed node_key (dedup_node m n).
Proof.
  intros Hm. unfold dedup_node. destruct (map_get (node_key n) m) as [ex|] eqn:E.
  - apply keyed_set; [|exact Hm]. rewrite node_key_merge.
    apply map_get_In in E. destruct Hm as [Hf _].
    exact (proj1 (List.Forall_forall _ _) Hf _ E).
  - by apply keyed_set.
Qed.

(** The keys of the map after a node has gone through. *)
Lemma dedup_node_keys (m : jsmap AnalyzerNode) (n : AnalyzerNode) (k : string) :
  In k (map fst (dedup_node m n)) ↔ In k (map fst m) ∨ k = node_key n.
Proof.
  unfold dedup_node. destruct (map_get (node_key n) m) as [ex|] eqn:E.
  - rewrite (map_set_keys_old _ _ _ _ E). split; [tauto|].
    intros [H| ->]; [exact H|]. apply map_get_In in E.
    apply in_map_iff. by exists (node_key n, ex).
  - rewrite (map_set_new _ _ _ E), map_app, in_app_iff. simpl. intuition.
Qed.

Lemma dedup_nodes_fold (l : list AnalyzerNode) (m : jsmap AnalyzerNode) :
  keyed node_key m →
  keyed node_key (fold_left dedup_node l m)
  ∧ ∀ k, In k (map fst (fold_left dedup_node l m))
         ↔ In k (map fst m) ∨ In k (map node_key l).
Proof.
  revert m. induction l as [|n l IH]; intros m Hm; simpl.
  - split; [exact Hm | tauto].
  - destruct (IH _ (keyed_dedup_node m n Hm)) as [H1 H2]. split; [exact H1|].
    intros k. rewrite H2, dedup_node_keys. intuition.
Qed.

Lemma renumber_fst (index : nat) (ns : list AnalyzerNode) (m : gmap string string) :
  map node_key (fst (renumber index ns m)) = map node_key ns
  ∧ map a_id (fst (renumber index ns m))
    = imap (fun k n => new_node_id (a_level n) (index + k)) ns
  ∧ map a_level (fst (renumber index ns m)) = map a_level ns
  ∧ map a_label (fst (renumber index ns m)) = map a_label ns.
Proof.
  revert index m. induction ns as [|n ns IH]; intros index m; [done|].
  cbn [renumber].
  destruct (renumber (S index) ns (<[a_id n := new_node_id (a_level n) index]> m))
    as [rest m'] eqn:E.
  pose proof (IH (S index) (<[a_id n := new_node_id (a_level n) index]> m))
    as (H1 & H2 & H3 & H4).
  rewrite E in H1, H2, H3, H4. cbn [fst map imap] in *. rewrite H1, H2, H3, H4.
  split; [reflexivity|]. split; [|split; reflexivity]. rewrite Nat.add_0_r. f_equal.
  apply imap_ext. intros k x _. simpl. f_equal. lia.
Qed.

Lemma combineResults_nodes (results : list AnalyzerResult) (s e : Time) :
  c_nodes (combineResults results s e)
  = fst (renumber 0 (dedup_nodes (flat_map r_nodes results)) ∅).
Proof.
  unfold combineResults.
  destruct (renumber 0 (dedup_nodes (flat_map r_nodes results)) ∅) as [ns m].
  reflexivity.
Qed.

Lemma combineResults_edges (results : list AnalyzerResult) (s e : Time) :
  c_edges (combineResults results s e)
  = remap_edges 0 (snd (renumber 0 (dedup_nodes (flat_map r_nodes results)) ∅))
      (dedup_edges (flat_map r_edges results)).
Proof.
  unfold combineResults.
  destruct (renumber 0 (dedup_nodes (flat_map r_nodes results)) ∅) as [ns m].
  reflexivity.
Qed.

(** Decimal numerals are made of digits: what follows the first hyphen
    is determined. *)
Lemma uint_hyphen (d d' : Decimal.uint) (r r' : string) :
  (NilEmpty.string_of_uint d ++ String "-" r)%string
  = (NilEmpty.string_of_uint d' ++ String "-" r')%string →
  d = d' ∧ r = r'.
Proof.
  revert d'. induction d as [|d IH|d IH|d IH|d IH|d IH|d IH|d IH|d IH|d IH|d IH];
    intros [|d'|d'|d'|d'|d'|d'|d'|d'|d'|d']; simpl; intros H;
    try discriminate H;
    try (injection H as H; destruct (IH _ H) as [-> ->]; by split).
  injection H as ->. by split.
Qed.

Lemma string_of_nat_inj (n n' : nat) :
  Js.string_of_nat n = Js.string_of_nat n' → n = n'.
Proof.
  unfold Js.string_of_nat. intros H. apply DecimalNat.Unsigned.to_uint_inj.
  pose proof (NilEmpty.usu (Nat.to_uint n)) as H1. rewrite H in H1.
  rewrite NilEmpty.usu in H1. by injection H1.
Qed.

Lemma new_node_id_inj (l l' i i' : nat) :
  new_node_id l i = new_node_id l' i' → l = l' ∧ i = i'.
Proof.
  unfold new_node_id, Js.string_of_nat at 1 3. simpl. intros H. injection H as H.
  apply uint_hyphen in H as [H1 H2].
  split; [by apply DecimalNat.Unsigned.to_uint_inj | by apply string_of_nat_inj].
Qed.

Lemma new_node_id_nonempty (l i : nat) : String.eqb (new_node_id l i) "" = false.
Proof. reflexivity. Qed.

End MergeMore.

(** The ids that the merge hands out. *)
Lemma combineResults_ids (results : list AnalyzerResult) (s e : Time) :
  Registry.node_ids (Registry.combineResults results s e)
  = imap (fun i n => Registry.new_node_id (a_level n) i)
      (c_nodes (Registry.combineResults results s e))
  ∧ NoDup (Registry.node_ids (Registry.combineResults results s e)).
Proof.
  unfold Registry.node_ids. rewrite combineResults_nodes.
  set (ns := Registry.dedup_nodes (flat_map r_nodes results)).
  destruct (renumber_fst 0 ns ∅) as (_ & E & Hlv & _).
  assert (E2 : map a_id (fst (Registry.renumber 0 ns ∅))
               = imap (fun i n => Registry.new_node_id (a_level n) i)
                   (fst (Registry.renumber 0 ns ∅))).
  { rewrite E. apply list_eq. intros i. rewrite !list_lookup_imap.
    assert (H : a_level <$> (fst (Registry.renumber 0 ns ∅)) !! i = a_level <$> ns !! i).
    { rewrite <- !list_lookup_fmap, <- !map_fmap. by rewrite Hlv. }
    destruct (ns !! i) as [n|], (fst (Registry.renumber 0 ns ∅) !! i) as [n'|];
      simpl in *; try discriminate H; [|done]. injection H as ->. reflexivity. }
  split; [exact E2|]. rewrite E. apply NoDup_alt. intros i j x.
  rewrite !list_lookup_imap. destruct (ns !! i) as [n|]; [|discriminate].
  destruct (ns !! j) as [n'|]; [|discriminate].
  cbv [fmap option_fmap option_map]. intros H1 H2.
  assert (H : Registry.new_node_id (a_level n) (0 + i)
              = Registry.new_node_id (a_level n') (0 + j)) by congruence.
  apply new_node_id_inj in H as [_ H]. lia.
Qed.

(** X5.  The ids that the merge hands out are pairwise distinct: the
    node at position i of the combined result has the id
    node-<level>-<i>, and no two nodes of the result share an id. *)
Theorem X5_new_ids_are_distinct (results : list AnalyzerResult) (s e : Time) :
  let c := Registry.combineResults results s e in
  Registry.node_ids c
  = imap (fun i n => Registry.new_node_id (a_level n) i) (c_nodes c)
  ∧ NoDup (Registry.node_ids c).
Proof. exact (combineResults_ids results s e). Qed.

Section MergeClosed.

Import Registry.

(** Nodes with pairwise distinct keys go through the deduplication
    unchanged and in order. *)
Lemma dedup_fold_distinct (l : list AnalyzerNode) (m : jsmap AnalyzerNode) :
  NoDup (map fst m ++ map node_key l) →
  fold_left dedup_node l m = m ++ map (fun n => (node_key n, n)) l.
Proof.
  revert m. induction l as [|n l IH]; intros m Hn; simpl; [by rewrite app_nil_r|].
  assert (E : map_get (node_key n) m = None).
  { apply map_get_None. intros Hin. apply NoDup_app in Hn as (_ & Hn & _).
    apply (Hn (node_key n)); [by apply list_elem_of_In | simpl; left]. }
  unfold dedup_node at 2. rewrite E, (map_set_new _ _ _ E).
  rewrite IH.
  - by rewrite <- app_assoc.
  - rewrite map_app. simpl. rewrite <- app_assoc. exact Hn.
Qed.

Lemma dedup_nodes_distinct (l : list AnalyzerNode) :
  NoDup (map node_key l) → dedup_nodes l = l.
Proof.
  intros Hn. unfold dedup_nodes, map_values. rewrite dedup_fold_distinct by exact Hn.
  simpl. rewrite map_map. simpl. apply map_id.
Qed.

Lemma renumber_snd_other (index : nat) (ns : list AnalyzerNode) (m : gmap string string)
    (x : string) :
  ¬ In x (map a_id ns) → snd (renumber index ns m) !! x = m !! x.
Proof.
  revert index m. induction ns as [|n ns IH]; intros index m Hx; [reflexivity|].
  cbn [renumber].
  destruct (renumber (S index) ns (<[a_id n := new_node_id (a_level n) index]> m))
    as [rest m'] eqn:E.
  pose proof (IH (S index) (<[a_id n := new_node_id (a_level n) index]> m)) as H.
  rewrite E in H. simpl in *. rewrite H by tauto.
  apply lookup_insert_ne. tauto.
Qed.

Lemma renumber_snd_lookup (index : nat) (ns : list AnalyzerNode) (m : gmap string string)
    (k : nat) (n : AnalyzerNode) :
  NoDup (map a_id ns) → ns !! k = Some n →
  snd (renumber index ns m) !! a_id n = Some (new_node_id (a_level n) (index + k)).
Proof.
  revert index m k. induction ns as [|n0 ns IH]; intros index m k Hn Hk; [discriminate|].
  cbn [renumber].
  destruct (renumber (S index) ns (<[a_id n0 := new_node_id (a_level n0) index]> m))
    as [rest m'] eqn:E.
  simpl in Hn. apply NoDup_cons in Hn as [Hn0 Hn].
  destruct k as [|k]; simpl in Hk.
  - injection Hk as ->.
    pose proof (renumber_snd_other (S index) ns
                  (<[a_id n := new_node_id (a_level n) index]> m) (a_id n)) as H.
    rewrite E in H. simpl in *. rewrite H.
    + rewrite lookup_insert_eq, Nat.add_0_r. reflexivity.
    + intros Hin. apply Hn0. by apply list_elem_of_In.
  - pose proof (IH (S index) (<[a_id n0 := new_node_id (a_level n0) index]> m) k Hn Hk) as H.
    rewrite E in H. simpl in *. rewrite H. f_equal. f_equal. lia.
Qed.

(** What the deduplication of the edges keeps was given to it, and of
    the edges with one key it keeps one, of the highest confidence. *)
Lemma dedup_edge_fold (l : list AnalyzerEdge) (m : jsmap AnalyzerEdge)
    (seen : list AnalyzerEdge) :
  keyed edge_key m →
  (∀ kv, In kv m → In (snd kv) seen) →
  (∀ e, In e seen → ∃ v, map_get (edge_key e) m = Some v
                         ∧ (ae_confidence e <= ae_confidence v)%Q) →
  let m' := fold_left dedup_edge l m in
  keyed edge_key m'
  ∧ (∀ kv, In kv m' → In (snd kv) (seen ++ l))
  ∧ (∀ e, In e (seen ++ l) → ∃ v, map_get (edge_key e) m' = Some v
                                  ∧ (ae_confidence e <= ae_confidence v)%Q).
Proof.
  revert m seen. induction l as [|edge l IH]; intros m seen Hk Hsub Hmax; cbn zeta.
  - rewrite app_nil_r. simpl. split; [exact Hk|]. split; [exact Hsub | exact Hmax].
  - cbn [fold_left].
    replace (seen ++ edge :: l) with ((seen ++ [edge]) ++ l) by (by rewrite <- app_assoc).
    apply IH; unfold dedup_edge.
    + destruct (map_get (edge_key edge) m) as [ex|] eqn:E.
      * destruct (Qgtb (ae_confidence edge) (ae_confidence ex)); [|exact Hk].
        by apply keyed_set.
      * by apply keyed_set.
    + intros kv Hin. apply in_app_iff.
      destruct (map_get (edge_key edge) m) as [ex|] eqn:E.
      * destruct (Qgtb (ae_confidence edge) (ae_confidence ex)); [|left; by apply Hsub].
        apply map_set_In in Hin as [->|Hin]; [right; by left | left; by apply Hsub].
      * apply map_set_In in Hin as [->|Hin]; [right; by left | left; by apply Hsub].
    + intros e [He|[<-|[]]]%in_app_iff.
      * destruct (Hmax e He) as (v & Hv & Hle).
        destruct (map_get (edge_key edge) m) as [ex|] eqn:E.
        -- destruct (Qgtb (ae_confidence edge) (ae_confidence ex)) eqn:Eg; [|eauto].
           destruct (decide (edge_key e = edge_key edge)) as [Heq|Hne].
           ++ rewrite Heq, map_get_set_eq. eexists; split; [reflexivity|].
              rewrite Heq, E in Hv. injection Hv as <-.
              apply Qgtb_true in Eg. apply Qlt_le_weak in Eg.
              exact (Qle_trans _ _ _ Hle Eg).
           ++ rewrite map_get_set_ne by exact Hne. eauto.
        -- destruct (decide (edge_key e = edge_key edge)) as [Heq|Hne]; [congruence|].
           rewrite map_get_set_ne by exact Hne. eauto.
      * destruct (map_get (edge_key edge) m) as [ex|] eqn:E.
        -- destruct (Qgtb (ae_confidence edge) (ae_confidence ex)) eqn:Eg.
           ++ rewrite map_get_set_eq. eexists; split; [reflexivity | apply Qle_refl].
           ++ apply Qgtb_false in Eg. eauto.
        -- rewrite map_get_set_eq. eexists; split; [reflexivity | apply Qle_refl].
Qed.

Lemma remap_edges_In (index : nat) (nodeIdMap : gmap string string) (es : list AnalyzerEdge)
    (e : AnalyzerEdge) :
  In e (remap_edges index nodeIdMap es) →
  ∃ e0, In e0 es ∧ ae_source e = remap nodeIdMap (ae_source e0)
        ∧ ae_target e = remap nodeIdMap (ae_target e0).
Proof.
  revert index. induction es as [|e0 es IH]; intros index; simpl; [tauto|].
  intros [<-|H]; [exists e0; simpl; auto|].
  destruct (IH _ H) as (e1 & H1 & H2). exists e1. auto.
Qed.

End MergeClosed.

(** ** The registry's merge: what becomes of the duplicates of a key *)

Section MergeSpec.

Import Registry.







(** The renumbering changes the ids and nothing else. *)
Lemma renumber_nodes (index : nat) (ns : list AnalyzerNode) (m : gmap string string) :
  fst (renumber index ns m)
  = imap (fun k n => with_id (new_node_id (a_level n) (index + k)) n) ns.
Proof.
  revert index m. induction ns as [|n ns IH]; intros index m; [reflexivity|].
  cbn [renumber].
  pose proof (IH (S index) (<[a_id n := new_node_id (a_level n) index]> m)) as H.
  destruct (renumber (S index) ns (<[a_id n := new_node_id (a_level n) index]> m))
    as [rest m'] eqn:E.
  cbn [fst imap] in *. rewrite H, Nat.add_0_r. f_equal.
  apply imap_ext. intros k x _. simpl. do 2 f_equal. lia.
Qed.






End MergeSpec.

(** The keys of the nodes of a combined result: each once, and they are
    the keys of the nodes that went in. *)
Lemma combineResults_keys (results : list AnalyzerResult) (s e : Time) :
  let allNodes := flat_map r_nodes results in
  let c := Registry.combineResults results s e in
  NoDup (map Registry.node_key (c_nodes c))
  ∧ (∀ n, In n allNodes → In (Registry.node_key n) (map Registry.node_key (c_nodes c)))
  ∧ (∀ n', In n' (c_nodes c) →
          ∃ n, In n allNodes ∧ Registry.node_key n = Registry.node_key n').
Proof.
  cbv zeta. rewrite combineResults_nodes.
  destruct (renumber_fst 0 (Registry.dedup_nodes (flat_map r_nodes results)) ∅)
    as (E & _ & _ & _).
  rewrite E. unfold Registry.dedup_nodes, Registry.map_values.
  destruct (dedup_nodes_fold (flat_map r_nodes results) [] (keyed_nil _)) as [Hk Hkeys].
  rewrite (keyed_values _ _ Hk). split; [exact (proj2 Hk)|]. split.
  - intros n Hn. apply Hkeys. right. by apply in_map.
  - intros n' Hn'.
    assert (H : In (Registry.node_key n')
                  (map fst (fold_left Registry.dedup_node (flat_map r_nodes results) []))).
    { rewrite <- (keyed_values _ _ Hk). fold (Registry.map_values
        (fold_left Registry.dedup_node (flat_map r_nodes results) [])).
      change (Registry.map_values _) with
        (Registry.dedup_nodes (flat_map r_nodes results)).
      rewrite <- E. by apply in_map. }
    apply Hkeys in H as [[]|H]. apply in_map_iff in H as (n & H1 & H2). eauto.
Qed.




(** X4.  On ASCII labels the merge leaves one node per identity key: no
    two nodes of a combined result have the same key (lower-cased, trimmed
    label and level), every node that went in has its key on a node that
    came out, and every node that came out has the key of a node that went
    in. *)
Theorem X4_one_node_per_key (results : list AnalyzerResult) (s e : Time) :
  let allNodes := flat_map r_nodes results in
  let c := Registry.combineResults results s e in
  ascii_labels allNodes = true →
  NoDup (map Registry.node_key (c_nodes c))
  ∧ (∀ n, In n allNodes → In (Registry.node_key n) (map Registry.node_key (c_nodes c)))
  ∧ (∀ n', In n' (c_nodes c) →
          ∃ n, In n allNodes ∧ Registry.node_key n = Registry.node_key n').
Proof. intros allNodes c _. apply combineResults_keys. Qed.

(** The two sample results, whose four nodes have two keys. *)
Lemma X4_one_node_per_key_witness :
  NoDup (map Registry.node_key
           (c_nodes (Registry.combineResults [Sample.resultA; Sample.resultB] 0 1)))
  ∧ In "entrepreneur-1"
      (map Registry.node_key
         (c_nodes (Registry.combineResults [Sample.resultA; Sample.resultB] 0 1))).
Proof.
  destruct (X4_one_node_per_key [Sample.resultA; Sample.resultB] 0 1) as (H1 & H2 & _);
    [reflexivity|].
  split; [exact H1|]. apply (H2 SampleMerge.entrepreneurB). simpl. auto.
Defined.

(** X6.  When the nodes that go into the merge have ASCII labels, no two
    of them have the same identity key or the same id, and every edge runs
    between two of them, the merge keeps every node as it is but for its
    id, which becomes node-<level>-<position>, and in the order in which
    the nodes went in; and every edge of the combined result connects the
    nodes that the edge it comes from connected, under their new ids; in
    particular no edge dangles. *)
Theorem X6_merge_without_duplicates_is_closed (results : list AnalyzerResult) (s e : Time) :
  let allNodes := flat_map r_nodes results in
  let allEdges := flat_map r_edges results in
  let c := Registry.combineResults results s e in
  ascii_labels allNodes = true →
  NoDup (map Registry.node_key allNodes) →
  NoDup (map a_id allNodes) →
  (∀ e, In e allEdges →
        In (ae_source e) (map a_id allNodes) ∧ In (ae_target e) (map a_id allNodes)) →
  c_nodes c = imap (fun i n => with_id (Registry.new_node_id (a_level n) i) n) allNodes
  ∧ (∀ e', In e' (c_edges c) →
       ∃ e0 i j u v, In e0 allEdges
         ∧ allNodes !! i = Some u ∧ a_id u = ae_source e0
         ∧ allNodes !! j = Some v ∧ a_id v = ae_target e0
         ∧ Registry.node_ids c !! i = Some (ae_source e')
         ∧ Registry.node_ids c !! j = Some (ae_target e'))
  ∧ Registry.edges_closed c.
Proof.
  cbv zeta. intros _ Hkeys Hids Hedges.
  set (allNodes := flat_map r_nodes results) in *.
  set (allEdges := flat_map r_edges results) in *.
  assert (Hnodes : c_nodes (Registry.combineResults results s e)
                   = fst (Registry.renumber 0 allNodes ∅)).
  { rewrite combineResults_nodes. fold allNodes. by rewrite dedup_nodes_distinct. }
  assert (Hes : c_edges (Registry.combineResults results s e)
                = Registry.remap_edges 0 (snd (Registry.renumber 0 allNodes ∅))
                    (Registry.dedup_edges allEdges)).
  { rewrite combineResults_edges. fold allNodes allEdges. by rewrite dedup_nodes_distinct. }
  destruct (renumber_fst 0 allNodes ∅) as (_ & Hid & _ & Hlab).
  assert (Hnew : ∀ x, In x (map a_id allNodes) →
            ∃ k u, allNodes !! k = Some u ∧ a_id u = x
                   ∧ Registry.remap (snd (Registry.renumber 0 allNodes ∅)) x
                     = Registry.new_node_id (a_level u) k
                   ∧ Registry.node_ids (Registry.combineResults results s e) !! k
                     = Some (Registry.new_node_id (a_level u) k)).
  { intros x (u & <- & Hu)%in_map_iff.
    apply list_elem_of_In, list_elem_of_lookup in Hu as [k Hk].
    exists k, u. split; [exact Hk|]. split; [reflexivity|]. split.
    - unfold Registry.remap.
      rewrite (renumber_snd_lookup 0 allNodes ∅ k u Hids Hk). reflexivity.
    - unfold Registry.node_ids. rewrite Hnodes, Hid, list_lookup_imap, Hk. reflexivity. }
  assert (Hthird : ∀ e', In e' (c_edges (Registry.combineResults results s e)) →
       ∃ e0 i j u v, In e0 allEdges
         ∧ allNodes !! i = Some u ∧ a_id u = ae_source e0
         ∧ allNodes !! j = Some v ∧ a_id v = ae_target e0
         ∧ Registry.node_ids (Registry.combineResults results s e) !! i = Some (ae_source e')
         ∧ Registry.node_ids (Registry.combineResults results s e) !! j = Some (ae_target e')).
  { intros e' He'. rewrite Hes in He'.
    apply remap_edges_In in He' as (e0 & He0 & Hs & Ht).
    assert (Hin0 : In e0 allEdges).
    { destruct (dedup_edge_fold allEdges [] [] (keyed_nil _)) as (_ & Hsub & _);
        [intros kv [] | intros x [] |].
      unfold Registry.dedup_edges, Registry.map_values in He0.
      apply in_map_iff in He0 as (kv & <- & Hkv). exact (Hsub kv Hkv). }
    destruct (Hedges e0 Hin0) as [Hs0 Ht0].
    destruct (Hnew _ Hs0) as (i & u & Hi & Hu & Hri & Hni).
    destruct (Hnew _ Ht0) as (j & v & Hj & Hv & Hrj & Hnj).
    exists e0, i, j, u, v. rewrite Hs, Ht, Hri, Hrj. by repeat split. }
  split; [|split; [exact Hthird|]].
  - rewrite Hnodes. apply renumber_nodes.
  - intros e' He'. destruct (Hthird e' He') as (e0 & i & j & u & v & _ & _ & _ & _ & _ & Hi & Hj).
    split; apply list_elem_of_In, list_elem_of_lookup; eauto.
Qed.

(** The result of one analyzer in which no label and no id is repeated. *)
Lemma X6_merge_without_duplicates_is_closed_witness :
  c_nodes (Registry.combineResults [Sample.resultA] 0 1)
  = [with_id "node-0-0" (Sample.node "a-root" "startups" 0 "reddit" (8 # 10) 0 (Some ∅));
     with_id "node-1-1" SampleMerge.entrepreneurA]
  ∧ Registry.edges_closed (Registry.combineResults [Sample.resultA] 0 1).
Proof.
  destruct (X6_merge_without_duplicates_is_closed [Sample.resultA] 0 1) as (H1 & _ & H3).
  - reflexivity.
  - vm_compute. repeat constructor; intros H;
      repeat (apply elem_of_cons in H as [H|H]; [discriminate H|]); by apply elem_of_nil in H.
  - vm_compute. repeat constructor; intros H;
      repeat (apply elem_of_cons in H as [H|H]; [discriminate H|]); by apply elem_of_nil in H.
  - intros e0 [<-|[]]. simpl. auto.
  - split; [exact H1 | exact H3].
Defined.

Lemma NoDup_map_eq {A B} (f : A → B) (l : list A) (x y : A) :
  NoDup (map f l) → In x l → In y l → f x = f y → x = y.
Proof.
  intros Hn [i Hi]%list_elem_of_In%list_elem_of_lookup
    [j Hj]%list_elem_of_In%list_elem_of_lookup Hf.
  rewrite map_fmap in Hn.
  assert (i = j).
  { apply (NoDup_lookup _ i j (f x) Hn); rewrite list_lookup_fmap.
    - by rewrite Hi.
    - by rewrite Hj, Hf. }
  subst j. congruence.
Qed.

(** X7.  Edges are deduplicated by the string
    <source>-<target>-<relationship>.  Among the edges kept no two have the
    same key, so of the edges that agree on source, target and relationship
    at most one is kept; every edge kept is one that went in; and for every
    edge that went in, an edge with its key and at least its confidence is
    kept.  Ids may contain hyphens, so two edges with different ends can
    have one key, and then one of them stands for both: of the sample
    edges a-b to c and a to b-c only the second, of higher confidence, is
    kept. *)
Theorem X7_one_edge_per_key_of_highest_confidence (allEdges : list AnalyzerEdge) :
  let kept := Registry.dedup_edges allEdges in
  NoDup (map Registry.edge_key kept)
  ∧ (∀ e1 e2, In e1 kept → In e2 kept →
       ae_source e1 = ae_source e2 → ae_target e1 = ae_target e2 →
       ae_relationship e1 = ae_relationship e2 → e1 = e2)
  ∧ (∀ e', In e' kept → In e' allEdges)
  ∧ (∀ e, In e allEdges →
       ∃ e', In e' kept
             ∧ Registry.edge_key e' = Registry.edge_key e
             ∧ (ae_confidence e <= ae_confidence e')%Q)
  ∧ Registry.edge_key SampleMerge.edgeLeft = Registry.edge_key SampleMerge.edgeRight
  ∧ Registry.dedup_edges [SampleMerge.edgeLeft; SampleMerge.edgeRight]
    = [SampleMerge.edgeRight].
Proof.
  cbv zeta.
  destruct (dedup_edge_fold allEdges [] [] (keyed_nil _)) as (Hk & Hsub & Hmax);
    [intros kv [] | intros x [] |].
  simpl in Hsub, Hmax.
  assert (Hn : NoDup (map Registry.edge_key (Registry.dedup_edges allEdges))).
  { unfold Registry.dedup_edges, Registry.map_values.
    rewrite (keyed_values _ _ Hk). exact (proj2 Hk). }
  split; [exact Hn|]. split; [|split; [|split; [|split; reflexivity]]].
  - intros e1 e2 H1 H2 Hs Ht Hr. apply (NoDup_map_eq _ _ _ _ Hn H1 H2).
    unfold Registry.edge_key. by rewrite Hs, Ht, Hr.
  - unfold Registry.dedup_edges, Registry.map_values.
    intros e' (kv & <- & Hkv)%in_map_iff. exact (Hsub kv Hkv).
  - unfold Registry.dedup_edges, Registry.map_values.
    intros e0 He0. destruct (Hmax e0 He0) as (v & Hv & Hle).
    apply map_get_In in Hv. exists v. split; [|split; [|exact Hle]].
    + apply in_map_iff. by exists (Registry.edge_key e0, v).
    + destruct Hk as [Hf _]. exact (proj1 (List.Forall_forall _ _) Hf _ Hv).
Qed.

(** ** What the analysis keeps when its reports stay within a level *)

Section Within.

Variable env : Env.
Variable P : World → Prop.
Variable bound : nat.
Hypothesis Hawait : keeps P (await_io env).

Section Analyzer.

Variable cb : ProgressCallback.
Hypothesis Hcb : ∀ p, level_within bound p → keeps P (cb p).

Lemma within_report lvl ph n e sa :
  (lvl <= bound)%nat → keeps P (RedditAnalyzer.report cb lvl ph n e sa).
Proof. intros H. apply Hcb. exact H. Qed.

Lemma within_createNodes subreddits index total lvl parentNiche nodes :
  (lvl <= bound)%nat →
  keeps P (RedditAnalyzer.createNodesFromSubredditsWithLLM env subreddits index total lvl
             parentNiche cb nodes).
Proof.
  intros Hl. revert index nodes.
  induction subreddits as [|sr rest IH]; intros index nodes; simpl.
  - apply keeps_ret.
  - apply keeps_bind; [by apply within_report|]. intros _.
    apply keeps_bind; [exact Hawait|]. intros k.
    apply keeps_bind; [|intros node; apply IH].
    apply keeps_try_catch; [|intros _; apply keeps_ret].
    apply keeps_bind; [apply keeps_lift_answer|]. intros subNiches.
    apply keeps_bind; [by apply within_report|]. intros _.
    destruct subNiches; apply keeps_ret.
Qed.

Lemma within_expandParents lvl niche parents parentIndex total nNodes nEdges acc :
  (lvl <= bound)%nat →
  keeps P (RedditAnalyzer.expandParents env lvl niche cb parents parentIndex total
             nNodes nEdges acc).
Proof.
  intros Hl. revert parentIndex acc.
  induction parents as [|parentNode rest IH]; intros parentIndex acc; simpl.
  - apply keeps_ret.
  - destruct acc as [[levelNodes levelEdges] apiCalls].
    apply keeps_bind; [|intros acc'; apply IH].
    apply keeps_try_catch; [|intros _; apply keeps_ret].
    apply keeps_bind; [by apply within_report|]. intros _.
    apply keeps_bind; [exact Hawait|]. intros k.
    apply keeps_bind; [apply keeps_lift_answer|]. intros topics.
    destruct topics; apply keeps_ret.
Qed.

Lemma within_expandLevels remaining lvl niche allNodes allEdges apiCalls :
  (lvl + remaining <= S bound)%nat →
  keeps P (RedditAnalyzer.expandLevels env remaining lvl niche cb allNodes allEdges apiCalls).
Proof.
  revert lvl allNodes allEdges apiCalls.
  induction remaining as [|remaining IH]; intros lvl allNodes allEdges apiCalls Hl; simpl.
  - apply keeps_ret.
  - assert (lvl <= bound)%nat by lia.
    apply keeps_bind; [by apply within_report|]. intros _.
    apply keeps_bind; [by apply within_expandParents|].
    intros [[levelNodes levelEdges] apiCalls'].
    apply keeps_bind; [by apply within_report|]. intros _.
    destruct (Nat.eqb (length levelNodes) 0); [apply keeps_ret | apply IH; lia].
Qed.

Lemma within_analyze niche cfg :
  (top_level (ac_maxLevels cfg) <= bound)%nat →
  keeps P (RedditAnalyzer.analyze env niche cfg cb).
Proof.
  unfold top_level. intros Hb. unfold RedditAnalyzer.analyze.
  apply keeps_bind; [apply keeps_gets|]. intros startTime.
  apply keeps_try_catch.
  - apply keeps_bind; [apply within_report; lia|]. intros _.
    apply keeps_bind; [apply within_report; lia|]. intros _.
    apply keeps_bind; [exact Hawait|]. intros k.
    apply keeps_bind; [apply keeps_lift_answer|]. intros subreddits.
    apply keeps_bind; [apply within_report; lia|]. intros _.
    apply keeps_bind; [apply within_createNodes; lia|]. intros level1Nodes.
    apply keeps_bind; [apply within_report; lia|]. intros _.
    apply keeps_bind; [apply within_expandLevels; lia|].
    intros [[allNodes' allEdges'] apiCalls].
    apply keeps_bind; [apply within_report; lia|]. intros _.
    apply keeps_bind; [apply keeps_gets|]. intros endTime.
    apply keeps_ret.
  - intros e. apply keeps_bind; [apply within_report; lia|]. intros _. apply keeps_throw.
Qed.

End Analyzer.

Lemma within_runAnalyzers (n : nat) niche cfg cb results errors :
  (top_level (ac_maxLevels cfg) <= bound)%nat →
  (∀ p, level_within bound p → keeps P (cb p)) →
  keeps P (AnalyzerRegistry.runAnalyzers (repeat (reddit env) n) niche cfg cb results errors).
Proof.
  intros Hb Hcb. revert results errors.
  induction n as [|n IH]; intros results errors; simpl.
  - apply keeps_ret.
  - apply keeps_bind.
    + apply keeps_try_catch; [|intros e; apply keeps_ret].
      apply keeps_bind; [|intros r; apply keeps_ret].
      apply within_analyze; [|exact Hb]. intros p Hp. apply Hcb. exact Hp.
    + intros [msg|result]; apply IH.
Qed.

End Within.

(** The analyzers that the service's registry selects are copies of the
    Reddit analyzer, one for each time the sources name it. *)
Lemma analyzers_repeat (env : Env) (platforms : list string) :
  omap (AnalyzerRegistry.getAnalyzer (Service.analyzerRegistry env)) platforms
  = repeat (reddit env) (length (List.filter (String.eqb "reddit") platforms)).
Proof.
  rewrite analyzers_of_sources.
  induction (List.filter (String.eqb "reddit") platforms) as [|x l IH]; [reflexivity|].
  simpl. by rewrite IH.
Qed.

Lemma within_analyzeWithMultiplePlatforms (env : Env) (P : World → Prop) (bound : nat)
    niche platforms cfg cb :
  keeps P (await_io env) →
  (top_level (ac_maxLevels cfg) <= bound)%nat →
  (∀ p, level_within bound p → keeps P (cb p)) →
  keeps P (AnalyzerRegistry.analyzeWithMultiplePlatforms (Service.analyzerRegistry env)
             niche platforms cfg cb).
Proof.
  intros Hawait Hb Hcb. unfold AnalyzerRegistry.analyzeWithMultiplePlatforms.
  apply keeps_bind; [apply keeps_gets|]. intros startTime.
  rewrite analyzers_repeat.
  destruct (length (List.filter (String.eqb "reddit") platforms)) as [|n] eqn:E.
  - apply keeps_throw.
  - change (reddit env :: repeat (reddit env) n) with (repeat (reddit env) (S n)).
    apply keeps_bind; [by apply (within_runAnalyzers env P bound)|].
    intros [analyzerResults errors]. destruct analyzerResults; [apply keeps_throw|].
    apply keeps_bind; [apply keeps_gets|]. intros endTime. apply keeps_ret.
Qed.

(** ** What an analysis returns *)

Section Yields.

Lemma yields_ret {A} (a : A) (Q : A → Prop) : Q a → yields (ret a) Q.
Proof. intros H w a' w' [= <- _]. exact H. Qed.

Lemma yields_throw {A} (e : JsError) (Q : A → Prop) : yields (throw e) Q.
Proof. intros w a w' H. discriminate H. Qed.

Lemma yields_gets {A} (f : World → A) (Q : A → Prop) : (∀ w, Q (f w)) → yields (gets f) Q.
Proof. intros H w a w' [= <- _]. apply H. Qed.

Lemma yields_lift_answer {A} (r : JsError + A) (Q : A → Prop) :
  (∀ a, r = inr a → Q a) → yields (lift_answer r) Q.
Proof. intros H w a w' [= -> _]. by apply H. Qed.

Lemma yields_bind {A B} (m : M A) (f : A → M B) (Q1 : A → Prop) (Q : B → Prop) :
  yields m Q1 → (∀ a, Q1 a → yields (f a) Q) → yields (bind m f) Q.
Proof.
  intros Hm Hf w b w' H. apply bind_inr_inv in H as (a & w1 & H1 & H2).
  exact (Hf a (Hm _ _ _ H1) _ _ _ H2).
Qed.

Lemma yields_then {A B} (m : M A) (f : A → M B) (Q : B → Prop) :
  (∀ a, yields (f a) Q) → yields (bind m f) Q.
Proof.
  intros Hf. apply (yields_bind _ _ (fun _ => True)); [done|]. intros a _. apply Hf.
Qed.

Lemma yields_try_catch {A} (m : M A) (h : JsError → M A) (Q : A → Prop) :
  yields m Q → (∀ e, yields (h e) Q) → yields (try_catch m h) Q.
Proof.
  intros Hm Hh w a w' H. unfold try_catch in H.
  destruct (m w) as [[e|a0] w1] eqn:E.
  - exact (Hh e _ _ _ H).
  - injection H as <- <-. exact (Hm _ _ _ E).
Qed.

Variable env : Env.
Variable cb : ProgressCallback.

Lemma yields_createNodes subreddits index total lvl parentNiche nodes :
  yields (RedditAnalyzer.createNodesFromSubredditsWithLLM env subreddits index total lvl
            parentNiche cb nodes)
    (fun out => ∃ new, out = nodes ++ new
                ∧ Forall2 (fun isr n => from_subreddit lvl (fst isr) (snd isr) n)
                    (imap (fun i sr => (index + i, sr)) subreddits) new).
Proof.
  revert index nodes. induction subreddits as [|sr rest IH]; intros index nodes; simpl.
  - apply yields_ret. exists []. split; [by rewrite app_nil_r | constructor].
  - apply yields_then. intros _. apply yields_then. intros k.
    apply (yields_bind _ _ (from_subreddit lvl index sr)).
    + apply yields_try_catch.
      * apply yields_then. intros subNiches. apply yields_then. intros _.
        destruct subNiches; apply yields_ret; by repeat split.
      * intros _. apply yields_ret. by repeat split.
    + intros node Hnode w a w' H.
      destruct (IH (S index) (nodes ++ [node]) _ _ _ H) as (new & -> & Hnew).
      exists (node :: new). split; [by rewrite <- app_assoc|].
      constructor; [simpl; by rewrite Nat.add_0_r|].
      erewrite imap_ext; [exact Hnew|]. intros i x _. simpl. f_equal. lia.
Qed.

Lemma yields_expandParents lvl niche parents parentIndex total nNodes nEdges
    levelNodes levelEdges apiCalls :
  yields (RedditAnalyzer.expandParents env lvl niche cb parents parentIndex total
            nNodes nEdges (levelNodes, levelEdges, apiCalls))
    (fun out => ∃ groups, length groups = length parents
                ∧ Forall (fun ts => (length ts <= 3)%nat) groups
                ∧ fst (fst out) = levelNodes ++ level_nodes lvl parents groups
                ∧ snd (fst out) = levelEdges ++ level_edges lvl parents groups).
Proof.
  revert parentIndex levelNodes levelEdges apiCalls.
  induction parents as [|parentNode rest IH];
    intros parentIndex levelNodes levelEdges apiCalls; simpl.
  - apply yields_ret. exists []. simpl. by rewrite !app_nil_r.
  - apply (yields_bind _ _
             (fun acc => ∃ ts, (length ts <= 3)%nat
                ∧ fst (fst acc) = levelNodes ++ topics_of lvl parentNode ts
                ∧ snd (fst acc) = levelEdges
                                  ++ map (RedditAnalyzer.topic_edge parentNode)
                                       (topics_of lvl parentNode ts))).
    + apply yields_try_catch.
      * apply yields_then. intros _. apply yields_then. intros k.
        apply yields_then. intros topics.
        destruct topics as [|t topics].
        -- apply yields_ret. exists []. simpl. rewrite !app_nil_r. split; [lia | done].
        -- apply yields_ret. exists (take 3 (t :: topics)). split; [|done].
           rewrite length_take. lia.
      * intros _. apply yields_ret. exists []. simpl. rewrite !app_nil_r. split; [lia | done].
    + intros [[ln le] c] (ts & Hts & Hn & He) w a w' H. simpl in Hn, He. subst ln le.
      destruct (IH _ _ _ _ _ _ _ H) as (groups & Hlen & Hall & Hn & He).
      exists (ts :: groups). simpl. split; [by rewrite Hlen|]. split; [by constructor|].
      unfold level_nodes, level_edges in *. simpl. rewrite Hn, He.
      by rewrite <- !app_assoc.
Qed.

Lemma yields_expandLevels remaining lvl niche allNodes allEdges apiCalls :
  yields (RedditAnalyzer.expandLevels env remaining lvl niche cb allNodes allEdges apiCalls)
    (fun out => expanded remaining lvl allNodes allEdges (fst (fst out)) (snd (fst out))).
Proof.
  revert lvl allNodes allEdges apiCalls.
  induction remaining as [|remaining IH]; intros lvl allNodes allEdges apiCalls; simpl.
  - apply yields_ret. constructor.
  - apply yields_then. intros _.
    eapply yields_bind; [apply yields_expandParents|].
    intros [[levelNodes levelEdges] apiCalls'] (groups & Hlen & Hall & Hn & He).
    simpl in Hn, He. rewrite firstn_all in Hlen, Hn, He.
    assert (Hstep : level_step lvl allNodes allEdges (allNodes ++ levelNodes)
                      (allEdges ++ levelEdges)).
    { exists groups. rewrite Hn, He. by repeat split. }
    apply yields_then. intros _.
    destruct (Nat.eqb (length levelNodes) 0).
    + apply yields_ret. simpl. eapply expanded_more; [exact Hstep | constructor].
    + intros w a w' H. eapply expanded_more; [exact Hstep|]. exact (IH _ _ _ _ _ _ _ H).
Qed.

(** What [analyze] returns: the root, one node for each subreddit that
    the search found, and then the levels of topics. *)
Lemma yields_analyze niche cfg :
  yields (RedditAnalyzer.analyze env niche cfg cb)
    (fun res => ∃ k subreddits level1Nodes,
       searchSubreddits env k niche = inr subreddits
       ∧ Forall2 (fun isr n => from_subreddit 1 (fst isr) (snd isr) n)
           (imap (fun i sr => (i, sr)) subreddits) level1Nodes
       ∧ expanded (Z.to_nat (ac_maxLevels cfg - 1)) 2
           (RedditAnalyzer.rootNode niche :: level1Nodes)
           (map (RedditAnalyzer.root_edge (RedditAnalyzer.rootNode niche)) level1Nodes)
           (r_nodes res) (r_edges res)).
Proof.
  unfold RedditAnalyzer.analyze. apply yields_then. intros startTime.
  apply yields_try_catch; [|intros e; apply yields_then; intros _; apply yields_throw].
  apply yields_then. intros _. apply yields_then. intros _. apply yields_then. intros k.
  eapply yields_bind; [apply (yields_lift_answer _ (fun subs =>
                                 searchSubreddits env k niche = inr subs)); auto|].
  intros subreddits Hsearch. apply yields_then. intros _.
  eapply yields_bind; [apply yields_createNodes|].
  intros level1Nodes (new & -> & Hnew). simpl in Hnew. apply yields_then. intros _.
  eapply yields_bind; [apply yields_expandLevels|].
  intros [[allNodes' allEdges'] apiCalls] Hexp. simpl in Hexp.
  apply yields_then. intros _. apply yields_then. intros endTime.
  apply yields_ret. simpl. exists k, subreddits, new. by repeat split.
Qed.

End Yields.

Section AnalysisShape.

Import RedditAnalyzer.

Lemma hyphen_free (d : Decimal.uint) (a b : string) :
  NilEmpty.string_of_uint d ≠ a +:+ String "-" b.
Proof.
  revert a. induction d as [|d IH|d IH|d IH|d IH|d IH|d IH|d IH|d IH|d IH|d IH];
    intros [|c a]; simpl; intros H; try discriminate H;
    injection H as _ H; exact (IH _ H).
Qed.

Lemma last_hyphen (a b : string) (d d' : Decimal.uint) :
  a +:+ String "-" (NilEmpty.string_of_uint d) = b +:+ String "-" (NilEmpty.string_of_uint d') →
  a = b ∧ d = d'.
Proof.
  revert b. induction a as [|c a IH]; intros [|c' b]; simpl; intros H.
  - injection H as H. split; [reflexivity|].
    pose proof (NilEmpty.usu d) as H1. rewrite H, NilEmpty.usu in H1. by injection H1.
  - injection H as _ H. by apply hyphen_free in H.
  - injection H as _ H. symmetry in H. by apply hyphen_free in H.
  - injection H as -> H. destruct (IH _ H) as [-> ->]. by split.
Qed.

Lemma node_id_level (l l' : nat) (r r' : string) :
  "node-" +:+ Js.string_of_nat l +:+ "-" +:+ r = "node-" +:+ Js.string_of_nat l' +:+ "-" +:+ r' →
  l = l' ∧ r = r'.
Proof.
  simpl. intros H. injection H as H. apply uint_hyphen in H as [H1 H2].
  split; [by apply DecimalNat.Unsigned.to_uint_inj | exact H2].
Qed.

Lemma wf_id_level (n n' : AnalyzerNode) :
  wf_id n → wf_id n' → a_id n = a_id n' → a_level n = a_level n'.
Proof.
  intros [[H1 H2]|[H1 [r H2]]] [[H3 H4]|[H3 [r' H4]]] E.
  - congruence.
  - rewrite H1, H4 in E. simpl in E. discriminate E.
  - rewrite H2, H3 in E. simpl in E. discriminate E.
  - rewrite H2, H4 in E. by apply node_id_level in E as [E _].
Qed.

Lemma topic_node_facts lvl p sn i t :
  a_level (topic_node lvl p sn i t) = lvl
  ∧ a_id (topic_node lvl p sn i t)
    = "node-" +:+ Js.string_of_nat lvl +:+ "-" +:+ a_id p +:+ "-" +:+ Js.string_of_nat i.
Proof. by split. Qed.

Lemma topic_ids_inj lvl p p' sn sn' i i' t t' :
  a_id (topic_node lvl p sn i t) = a_id (topic_node lvl p' sn' i' t') →
  a_id p = a_id p' ∧ i = i'.
Proof.
  intros H. cbn [topic_node a_id] in H. apply node_id_level in H as [_ H].
  unfold Js.string_of_nat in H. simpl in H. apply last_hyphen in H as [H1 H2].
  split; [exact H1 | by apply DecimalNat.Unsigned.to_uint_inj].
Qed.

(** The nodes of a round, one by one. *)
Lemma in_level_nodes lvl parents groups n :
  In n (level_nodes lvl parents groups) →
  ∃ p ts i t, In p parents ∧ In ts groups ∧ ts !! i = Some t
              ∧ n = topic_node lvl p (subredditName p) i t.
Proof.
  unfold level_nodes. revert groups.
  induction parents as [|p ps IH]; intros [|ts gs]; simpl; try tauto.
  rewrite in_app_iff. intros [H|H].
  - unfold topics_of in H. apply list_elem_of_In, list_elem_of_lookup in H as [i Hi].
    rewrite list_lookup_imap in Hi. destruct (ts !! i) as [t|] eqn:Et; [|discriminate].
    injection Hi as <-. exists p, ts, i, t. auto.
  - destruct (IH _ H) as (p' & ts' & i & t & H1 & H2 & H3 & H4).
    exists p', ts', i, t. auto.
Qed.

Lemma level_nodes_length lvl parents groups :
  length groups = length parents →
  Forall (fun ts => (length ts <= 3)%nat) groups →
  (length (level_nodes lvl parents groups) <= 3 * length parents)%nat.
Proof.
  unfold level_nodes. revert groups.
  induction parents as [|p ps IH]; intros [|ts gs]; simpl; intros Hl Hf; try lia.
  apply Forall_cons in Hf as [H1 H2]. rewrite length_app.
  unfold topics_of at 1. rewrite length_imap.
  specialize (IH gs ltac:(lia) H2). lia.
Qed.

Lemma level_nodes_level lvl parents groups :
  Forall (fun n => a_level n = lvl) (level_nodes lvl parents groups).
Proof.
  apply List.Forall_forall. intros n Hn.
  apply in_level_nodes in Hn as (p & ts & i & t & _ & _ & _ & ->). reflexivity.
Qed.

Lemma topics_of_ids lvl p ts : NoDup (map a_id (topics_of lvl p ts)).
Proof.
  rewrite map_fmap. apply NoDup_alt. intros i j x. unfold topics_of.
  rewrite !list_lookup_fmap, !list_lookup_imap.
  destruct (ts !! i) as [t|]; [|discriminate]. destruct (ts !! j) as [t'|]; [|discriminate].
  cbv [fmap option_fmap option_map]. intros H1 H2.
  assert (H : a_id (topic_node lvl p (subredditName p) i t)
              = a_id (topic_node lvl p (subredditName p) j t')) by congruence.
  by apply topic_ids_inj in H as [_ H].
Qed.

Lemma level_nodes_ids lvl parents groups :
  NoDup (map a_id parents) → NoDup (map a_id (level_nodes lvl parents groups)).
Proof.
  unfold level_nodes. revert groups.
  induction parents as [|p ps IH]; intros [|ts gs]; simpl; intros Hn;
    try apply NoDup_nil_2.
  apply NoDup_cons in Hn as [Hp Hn]. rewrite map_app. apply NoDup_app.
  split; [apply topics_of_ids|]. split; [|by apply IH].
  intros x Hx Hx'. apply list_elem_of_In, in_map_iff in Hx as (n & <- & Hn1).
  apply list_elem_of_In, in_map_iff in Hx' as (n' & E & Hn2).
  unfold topics_of in Hn1. apply list_elem_of_In, list_elem_of_lookup in Hn1 as [i Hi].
  rewrite list_lookup_imap in Hi. destruct (ts !! i) as [t|]; [|discriminate].
  injection Hi as <-.
  apply (in_level_nodes lvl ps gs) in Hn2 as (p' & ts' & i' & t' & Hp' & _ & _ & ->).
  apply topic_ids_inj in E as [E _]. apply Hp. rewrite <- E.
  apply list_elem_of_In, in_map. exact Hp'.
Qed.

Lemma is_child_mono (ns ns' : list AnalyzerNode) n e :
  (∀ p, In p ns → In p ns') → is_child ns n e → is_child ns' n e.
Proof.
  intros Hsub (H1 & H2 & p & Hp & H3 & H4). split; [exact H1|]. split; [exact H2|].
  exists p. auto.
Qed.

Lemma level_nodes_children lvl (ns parents : list AnalyzerNode) groups :
  (1 <= lvl)%nat →
  (∀ p, In p parents → In p ns ∧ a_level p = lvl - 1) →
  Forall2 (is_child ns) (level_nodes lvl parents groups) (level_edges lvl parents groups).
Proof.
  intros Hl. unfold level_nodes, level_edges. revert groups.
  induction parents as [|p ps IH]; intros [|ts gs] Hp; simpl; try constructor.
  apply Forall2_app; [|apply IH; intros q Hq; apply Hp; by right].
  destruct (Hp p ltac:(by left)) as [Hin Hlv].
  rewrite map_fmap. apply Forall2_fmap_r, Forall_Forall2_diag, List.Forall_forall.
  intros n Hn. unfold topics_of in Hn.
  apply list_elem_of_In, list_elem_of_lookup in Hn as [i Hi].
  rewrite list_lookup_imap in Hi. destruct (ts !! i) as [t|]; [|discriminate].
  injection Hi as <-. split; [reflexivity|]. split; [reflexivity|].
  exists p. split; [exact Hin|]. split; [reflexivity|]. simpl. lia.
Qed.

Lemma level_size_app lvl (ns ns' : list AnalyzerNode) :
  level_size lvl (ns ++ ns') = level_size lvl ns + level_size lvl ns'.
Proof. unfold level_size. by rewrite List.filter_app, length_app. Qed.

Lemma level_size_all lvl (ns : list AnalyzerNode) :
  Forall (fun n => a_level n = lvl) ns → level_size lvl ns = length ns.
Proof.
  unfold level_size. induction 1 as [|n ns Hn _ IH]; [reflexivity|].
  simpl. rewrite Hn, Nat.eqb_refl. simpl. by rewrite IH.
Qed.

Lemma level_size_none lvl (ns : list AnalyzerNode) :
  Forall (fun n => a_level n ≠ lvl) ns → level_size lvl ns = 0.
Proof.
  unfold level_size. induction 1 as [|n ns Hn _ IH]; [reflexivity|].
  simpl. apply Nat.eqb_neq in Hn. by rewrite Hn.
Qed.

Lemma NoDup_map_filter {A B} (f : A → B) (P : A → bool) (l : list A) :
  NoDup (map f l) → NoDup (map f (List.filter P l)).
Proof.
  induction l as [|a l IH]; [done|]. simpl. intros [Ha Hl]%NoDup_cons.
  destruct (P a); [|by apply IH]. simpl. apply NoDup_cons. split; [|by apply IH].
  intros H. apply Ha. apply list_elem_of_In, in_map_iff in H as (x & E & Hx).
  apply filter_In in Hx as [Hx _]. apply list_elem_of_In, in_map_iff. eauto.
Qed.

Lemma level_nodes_wf lvl parents groups :
  (1 <= lvl)%nat → Forall wf_id (level_nodes lvl parents groups).
Proof.
  intros Hl. apply List.Forall_forall. intros n Hn.
  apply in_level_nodes in Hn as (p & ts & i & t & _ & _ & _ & ->).
  right. split; [exact Hl|]. eexists. reflexivity.
Qed.

(** A round for level [lvl] keeps what holds of the nodes and edges. *)
Lemma analysis_inv_step niche lvl ns es ns' es' :
  (2 <= lvl)%nat →
  analysis_inv niche lvl ns es → level_step lvl ns es ns' es' →
  analysis_inv niche (S lvl) ns' es'
  ∧ List.filter (fun n => Nat.eqb (a_level n) 1) ns'
    = List.filter (fun n => Nat.eqb (a_level n) 1) ns.
Proof.
  intros Hl [(rest & Hns & Htree & Hlv) Hids Hwf Hsz] (groups & Hlen & Hg & -> & ->).
  set (parents := List.filter (fun n => Nat.eqb (a_level n) (lvl - 1)) ns) in *.
  set (newN := level_nodes lvl parents groups).
  assert (Hpar : ∀ p, In p parents → In p ns ∧ a_level p = lvl - 1).
  { intros p Hp. apply filter_In in Hp as [H1 H2]. apply Nat.eqb_eq in H2. auto. }
  pose proof (level_nodes_level lvl parents groups) as Hnew. fold newN in Hnew.
  assert (Hold : Forall (fun n => (a_level n < lvl)%nat) ns).
  { rewrite Hns. constructor; [simpl; lia|].
    eapply List.Forall_impl; [|exact Hlv]. simpl. intros; lia. }
  assert (Hparids : NoDup (map a_id parents)) by (by apply NoDup_map_filter).
  assert (Hnewwf : Forall wf_id newN) by (apply level_nodes_wf; lia).
  assert (Hsize_new : ∀ L, level_size L newN = if Nat.eqb L lvl then length newN else 0).
  { intros L. destruct (Nat.eqb_spec L lvl) as [->|Hne].
    - by apply level_size_all.
    - apply level_size_none. eapply List.Forall_impl; [|exact Hnew]. simpl. intros; lia. }
  assert (Hsize_old : level_size lvl ns = 0).
  { apply level_size_none. eapply List.Forall_impl; [|exact Hold]. simpl. intros; lia. }
  split; [split|].
  - exists (rest ++ newN). split; [by rewrite Hns|]. split.
    + apply Forall2_app.
      * eapply Forall2_impl; [exact Htree|]. intros n e. apply is_child_mono.
        intros p Hp. apply in_app_iff. by left.
      * apply level_nodes_children; [lia|]. intros p Hp. destruct (Hpar p Hp) as [H1 H2].
        split; [apply in_app_iff; by left | exact H2].
    + apply Forall_app. split.
      * eapply List.Forall_impl; [|exact Hlv]. simpl. intros; lia.
      * eapply List.Forall_impl; [|exact Hnew]. simpl. intros; lia.
  - rewrite map_app. apply NoDup_app. split; [exact Hids|].
    split; [|by apply level_nodes_ids].
    intros x Hx Hx'. apply list_elem_of_In, in_map_iff in Hx as (n & <- & Hn).
    apply list_elem_of_In, in_map_iff in Hx' as (n' & E & Hn').
    pose proof (proj1 (List.Forall_forall _ _) Hwf n Hn) as W1.
    pose proof (proj1 (List.Forall_forall _ _) Hnewwf n' Hn') as W2.
    pose proof (proj1 (List.Forall_forall _ _) Hold n Hn) as L1.
    pose proof (proj1 (List.Forall_forall _ _) Hnew n' Hn') as L2.
    simpl in L1, L2. pose proof (wf_id_level n' n W2 W1 E). lia.
  - apply Forall_app. by split.
  - intros L HL. rewrite !level_size_app, !Hsize_new.
    destruct (Nat.eqb_spec (S L) lvl) as [E|Hne].
    + destruct (Nat.eqb_spec L lvl) as [E'|_]; [lia|].
      rewrite E, Hsize_old.
      pose proof (level_nodes_length lvl parents groups Hlen Hg) as Hle. fold newN in Hle.
      replace (level_size L ns) with (length parents); [lia|].
      unfold level_size, parents. by replace (lvl - 1) with L by lia.
    + specialize (Hsz L HL). destruct (Nat.eqb L lvl); lia.
  - rewrite List.filter_app.
    replace (List.filter (fun n => Nat.eqb (a_level n) 1) newN) with (@nil AnalyzerNode);
      [by rewrite app_nil_r|].
    symmetry. apply length_zero_iff_nil. fold (level_size 1 newN). rewrite Hsize_new.
    destruct (Nat.eqb_spec 1 lvl) as [E|_]; [lia | reflexivity].
Qed.

Lemma analysis_inv_expanded niche remaining lvl ns es ns' es' :
  (2 <= lvl)%nat →
  analysis_inv niche lvl ns es → expanded remaining lvl ns es ns' es' →
  ∃ lvl', (lvl <= lvl' <= lvl + remaining)%nat
          ∧ analysis_inv niche lvl' ns' es'
          ∧ List.filter (fun n => Nat.eqb (a_level n) 1) ns'
            = List.filter (fun n => Nat.eqb (a_level n) 1) ns.
Proof.
  intros Hl Hinv Hexp. revert Hl Hinv.
  induction Hexp as [remaining lvl ns es|remaining lvl ns es ns1 es1 ns' es' Hstep Hexp IH];
    intros Hl Hinv.
  - exists lvl. split; [lia|]. by split.
  - destruct (analysis_inv_step _ _ _ _ _ _ Hl Hinv Hstep) as [Hinv1 Hs1].
    destruct (IH ltac:(lia) Hinv1) as (lvl' & Hb & Hinv' & Hs').
    exists lvl'. split; [lia|]. split; [exact Hinv'|]. congruence.
Qed.

(** What holds when the loop over the levels begins. *)
Lemma analysis_inv_start niche (subreddits : list Subreddit) (level1Nodes : list AnalyzerNode) :
  Forall2 (fun isr n => from_subreddit 1 (fst isr) (snd isr) n)
    (imap (fun i sr => (i, sr)) subreddits) level1Nodes →
  analysis_inv niche 2 (rootNode niche :: level1Nodes)
    (map (root_edge (rootNode niche)) level1Nodes)
  ∧ List.filter (fun n => Nat.eqb (a_level n) 1) (rootNode niche :: level1Nodes) = level1Nodes
  ∧ map a_popularity level1Nodes = map subscribers subreddits.
Proof.
  intros H.
  assert (Hfacts : ∀ i n, level1Nodes !! i = Some n →
            a_id n = "node-" +:+ Js.string_of_nat 1 +:+ "-" +:+ Js.string_of_nat i
            ∧ a_level n = 1).
  { intros i n Hi. destruct (Forall2_lookup_r _ _ _ _ _ H Hi) as ([j sr] & Hj & Hf).
    rewrite list_lookup_imap in Hj. destruct (subreddits !! i); [|discriminate].
    injection Hj as <- <-. destruct Hf as (H1 & H2 & _). by split. }
  assert (Hlevel : Forall (fun n => a_level n = 1) level1Nodes).
  { apply List.Forall_forall. intros n Hn.
    apply list_elem_of_In, list_elem_of_lookup in Hn as [i Hi]. by apply (Hfacts i). }
  split; [split|split].
  - exists level1Nodes. split; [reflexivity|]. split.
    + rewrite map_fmap. apply Forall2_fmap_r, Forall_Forall2_diag, List.Forall_forall.
      intros n Hn. split; [reflexivity|]. split; [reflexivity|].
      exists (rootNode niche). split; [by left|]. split; [reflexivity|].
      exact (proj1 (List.Forall_forall _ _) Hlevel n Hn).
    + eapply List.Forall_impl; [|exact Hlevel]. simpl. intros; lia.
  - simpl. apply NoDup_cons. split.
    + intros Hin. apply list_elem_of_In, in_map_iff in Hin as (n & E & Hn).
      apply list_elem_of_In, list_elem_of_lookup in Hn as [i Hi].
      destruct (Hfacts i n Hi) as [E1 _]. rewrite E1 in E. simpl in E. discriminate E.
    + rewrite map_fmap. apply NoDup_alt. intros i j x. rewrite !list_lookup_fmap.
      destruct (level1Nodes !! i) as [n|] eqn:Ei; [|discriminate].
      destruct (level1Nodes !! j) as [n'|] eqn:Ej; [|discriminate].
      cbv [fmap option_fmap option_map]. intros H1 H2.
      destruct (Hfacts i n Ei) as [E1 _]. destruct (Hfacts j n' Ej) as [E2 _].
      assert (E : "node-" +:+ Js.string_of_nat 1 +:+ "-" +:+ Js.string_of_nat i
                  = "node-" +:+ Js.string_of_nat 1 +:+ "-" +:+ Js.string_of_nat j)
        by congruence.
      apply node_id_level in E as [_ E]. by apply string_of_nat_inj.
  - constructor; [by left|]. apply List.Forall_forall. intros n Hn.
    apply list_elem_of_In, list_elem_of_lookup in Hn as [i Hi].
    destruct (Hfacts i n Hi) as [E1 E2]. right. rewrite E2. split; [lia|]. eauto.
  - intros L HL. replace (level_size (S L) (rootNode niche :: level1Nodes)) with 0; [lia|].
    symmetry. apply level_size_none. constructor; [simpl; lia|].
    eapply List.Forall_impl; [|exact Hlevel]. simpl. intros; lia.
  - simpl. clear H Hfacts. induction Hlevel as [|n l Hn _ IH]; [reflexivity|].
    simpl. rewrite Hn. simpl. by rewrite IH.
  - assert (G : ∀ (l : list Subreddit) k (ns : list AnalyzerNode),
              Forall2 (fun isr n => from_subreddit 1 (fst isr) (snd isr) n)
                (imap (fun i sr => (k + i, sr)) l) ns →
              map a_popularity ns = map subscribers l).
    { induction l as [|sr l IH]; intros k ns Hf.
      - apply Forall2_nil_inv_l in Hf as ->. reflexivity.
      - simpl in Hf. apply Forall2_cons_inv_l in Hf as (n & ns' & Hn & Hf & ->).
        simpl. destruct Hn as (_ & _ & _ & _ & ->). f_equal.
        apply (IH (S k)). erewrite imap_ext; [exact Hf|]. intros i x _. simpl. f_equal. lia. }
    exact (G subreddits 0 _ H).
Qed.

(** What [analyze] returns, in terms of the nodes and edges alone. *)
Lemma analyze_shape (env : Env) niche cfg cb (w w' : World) (res : AnalyzerResult) :
  analyze env niche cfg cb w = (inr res, w') →
  ∃ lvl' k subreddits,
    (lvl' <= 2 + Z.to_nat (ac_maxLevels cfg - 1))%nat
    ∧ analysis_inv niche lvl' (r_nodes res) (r_edges res)
    ∧ searchSubreddits env k niche = inr subreddits
    ∧ map a_popularity (List.filter (fun n => Nat.eqb (a_level n) 1) (r_nodes res))
      = map subscribers subreddits.
Proof.
  intros H. destruct (yields_analyze env cb niche cfg _ _ _ H)
    as (k & subreddits & level1Nodes & Hsearch & Hl1 & Hexp).
  destruct (analysis_inv_start niche subreddits level1Nodes Hl1) as (Hinv & Hf & Hpop).
  destruct (analysis_inv_expanded niche _ 2 _ _ _ _ ltac:(lia) Hinv Hexp)
    as (lvl' & Hb & Hinv' & Hf').
  exists lvl', k, subreddits. split; [lia|]. split; [exact Hinv'|]. split; [exact Hsearch|].
  by rewrite Hf', Hf.
Qed.

End AnalysisShape.

(** X8.  When the Reddit analysis returns, its result is a tree: the
    first node is the root (id "root", level 0, labelled with the niche);
    the other nodes are paired, in order, with the edges, the edge of a
    node arriving at it from a node of the result that is exactly one
    level up; and no two nodes have the same id. *)
Theorem X8_analysis_result_is_a_tree (env : Env) (niche : string) (cfg : AnalyzerConfig)
    (cb : ProgressCallback) (w w' : World) (res : AnalyzerResult) :
  RedditAnalyzer.analyze env niche cfg cb w = (inr res, w') →
  ∃ rest, r_nodes res = RedditAnalyzer.rootNode niche :: rest
    ∧ Forall2 (is_child (r_nodes res)) rest (r_edges res)
    ∧ NoDup (map a_id (r_nodes res)).
Proof.
  intros H. destruct (analyze_shape _ _ _ _ _ _ _ H) as (lvl' & k & subs & _ & Hinv & _).
  destruct Hinv as [(rest & H1 & H2 & _) H3 _ _]. eauto.
Qed.

Lemma X8_analysis_result_is_a_tree_witness :
  ∃ res w', sample_analysis = (inr res, w')
    ∧ ∃ rest, r_nodes res = RedditAnalyzer.rootNode "AI tools" :: rest
        ∧ Forall2 (is_child (r_nodes res)) rest (r_edges res)
        ∧ NoDup (map a_id (r_nodes res)).
Proof.
  destruct sample_analysis as [[e|res] w'] eqn:E.
  - exfalso. vm_compute in E. discriminate E.
  - exists res, w'. split; [reflexivity|].
    exact (X8_analysis_result_is_a_tree _ _ _ _ _ _ _ E).
Defined.

(** X9.  When the Reddit analysis returns: no node lies below the level
    that the config allows (level 1 when maxLevels is below 1); the
    level-1 nodes are, in order, one for each subreddit that the search
    returned, whatever the language model answered or threw, each with the
    subscriber count of its subreddit as popularity; and every deeper level
    has at most three times as many nodes as the level above it. *)
Theorem X9_analysis_levels (env : Env) (niche : string) (cfg : AnalyzerConfig)
    (cb : ProgressCallback) (w w' : World) (res : AnalyzerResult) :
  RedditAnalyzer.analyze env niche cfg cb w = (inr res, w') →
  Forall (fun n => (a_level n <= top_level (ac_maxLevels cfg))%nat) (r_nodes res)
  ∧ (∃ k subreddits,
       searchSubreddits env k niche = inr subreddits
       ∧ map a_popularity (List.filter (fun n => Nat.eqb (a_level n) 1) (r_nodes res))
         = map subscribers subreddits)
  ∧ (∀ L, (1 <= L)%nat →
          (level_size (S L) (r_nodes res) <= 3 * level_size L (r_nodes res))%nat).
Proof.
  intros H. destruct (analyze_shape _ _ _ _ _ _ _ H) as (lvl' & k & subs & Hb & Hinv & Hs & Hp).
  destruct Hinv as [(rest & H1 & _ & H2) _ _ H3].
  split; [|split; [eauto | exact H3]].
  rewrite H1. unfold top_level. constructor; [simpl; lia|].
  eapply List.Forall_impl; [|exact H2]. simpl. intros n Hn. lia.
Qed.

Lemma X9_analysis_levels_witness :
  ∃ res w', sample_analysis = (inr res, w')
    ∧ Forall (fun n => (a_level n <= 2)%nat) (r_nodes res)
    ∧ level_size 1 (r_nodes res) = 2.
Proof.
  destruct sample_analysis as [[e|res] w'] eqn:E.
  - exfalso. vm_compute in E. discriminate E.
  - exists res, w'. split; [reflexivity|].
    destruct (X9_analysis_levels _ _ _ _ _ _ _ E) as (H1 & (k & subs & Hs & Hp) & _).
    split; [exact H1|].
    injection Hs as <-. apply (f_equal (@length _)) in Hp.
    rewrite !length_map in Hp. exact Hp.
Defined.

(** ** The graph of a job whose task has ended *)

Section FinishedJob.

Lemma graphs_updateJobStatus j now st e r :
  Repo.jobGraphs (Repo.updateJobStatus j now st e r) = Repo.jobGraphs r.
Proof. unfold Repo.updateJobStatus. by destruct (Repo.jobs r !! j). Qed.

Lemma graphs_updateJobCurrentLevel j now lvl r :
  Repo.jobGraphs (Repo.updateJobCurrentLevel j now lvl r) = Repo.jobGraphs r.
Proof. unfold Repo.updateJobCurrentLevel. by destruct (Repo.jobs r !! j). Qed.

Lemma graphs_updateJobSubAnalysis j now sa r :
  Repo.jobGraphs (Repo.updateJobSubAnalysis j now sa r) = Repo.jobGraphs r.
Proof. unfold Repo.updateJobSubAnalysis. by destruct (Repo.jobs r !! j). Qed.

(** Neither an external call, with the requests served meanwhile, nor a
    progress report touches a graph. *)
Lemma keeps_graphs_await (env : Env) (G : gmap string DiscoveryGraph) :
  keeps (fun w => Repo.jobGraphs (repo w) = G) (await_io env).
Proof.
  intros w Hw. apply await_io_keeps; try done.
  intros j w0 H0. unfold Cancel.cancelJob. destruct (activeJobs w0 !! j); [|exact H0].
  simpl. by rewrite graphs_updateJobStatus.
Qed.

Lemma keeps_graphs_callback (uuid : string) (p : AnalyzerProgress)
    (G : gmap string DiscoveryGraph) :
  keeps (fun w => Repo.jobGraphs (repo w) = G) (Service.progressCallback uuid p).
Proof.
  intros w Hw. unfold Service.progressCallback.
  destruct (decide (uuid ∈ cancelledJobs w)); [exact Hw|].
  destruct (p_subAnalysis p); simpl;
    by rewrite ?graphs_updateJobSubAnalysis, graphs_updateJobCurrentLevel.
Qed.

Lemma keeps_graphs_analysis (env : Env) (uuid : string) niche platforms cfg
    (G : gmap string DiscoveryGraph) :
  keeps (fun w => Repo.jobGraphs (repo w) = G)
    (AnalyzerRegistry.analyzeWithMultiplePlatforms (Service.analyzerRegistry env)
       niche platforms cfg (Service.progressCallback uuid)).
Proof.
  apply (within_analyzeWithMultiplePlatforms env _ (top_level (ac_maxLevels cfg)));
    [apply keeps_graphs_await | lia | intros p _; apply keeps_graphs_callback].
Qed.

(** [storeAnalyzerResults] appends the nodes, then the edges, of the
    combined result to the graph of the job, in their order. *)
Lemma storeAnalyzerResults_graph (jobId : string) (c : CombinedAnalyzerResult) (w : World)
    (g0 : DiscoveryGraph) :
  Repo.jobGraphs (repo w) !! jobId = Some g0 →
  Repo.getJobGraph jobId (repo (snd (Service.storeAnalyzerResults jobId c w)))
  = {| nodes := nodes g0 ++ map Service.toDiscoveryNode (c_nodes c);
       edges := edges g0 ++ map Service.toDiscoveryEdge (c_edges c) |}.
Proof.
  intros Hg. unfold Service.storeAnalyzerResults, modify. cbn [snd].
  assert (H1 : ∀ ns w0 g, Repo.jobGraphs (repo w0) !! jobId = Some g →
            Repo.jobGraphs (repo (fold_left (fun w n =>
               set_repo (Repo.addNode jobId (clock w) (Service.toDiscoveryNode n)) w) ns w0))
              !! jobId
            = Some {| nodes := nodes g ++ map Service.toDiscoveryNode ns; edges := edges g |}).
  { induction ns as [|n ns IH]; intros w0 g H0; simpl.
    - rewrite app_nil_r. by destruct g.
    - rewrite (IH _ {| nodes := nodes g ++ [Service.toDiscoveryNode n]; edges := edges g |}).
      + simpl. by rewrite <- app_assoc.
      + simpl. unfold Repo.addNode. rewrite H0.
        destruct (Repo.jobs (repo w0) !! jobId); simpl; by rewrite lookup_insert_eq. }
  assert (H2 : ∀ es w0 g, Repo.jobGraphs (repo w0) !! jobId = Some g →
            Repo.jobGraphs (repo (fold_left (fun w e =>
               set_repo (Repo.addEdge jobId (clock w) (Service.toDiscoveryEdge e)) w) es w0))
              !! jobId
            = Some {| nodes := nodes g; edges := edges g ++ map Service.toDiscoveryEdge es |}).
  { induction es as [|e es IH]; intros w0 g H0; simpl.
    - rewrite app_nil_r. by destruct g.
    - rewrite (IH _ {| nodes := nodes g; edges := edges g ++ [Service.toDiscoveryEdge e] |}).
      + simpl. by rewrite <- app_assoc.
      + simpl. unfold Repo.addEdge. rewrite H0.
        destruct (Repo.jobs (repo w0) !! jobId); simpl; by rewrite lookup_insert_eq. }
  unfold Repo.getJobGraph. rewrite (H2 _ _ _ (H1 _ _ _ Hg)). reflexivity.
Qed.

(** How [runRealDiscovery] leaves the graph of the job: untouched when
    it throws; with the combined result of the analysis appended when it
    returns. *)
Lemma runRealDiscovery_graph (env : Env) (uuid : string) (w w1 : World) (job : DiscoveryJob)
    (g0 : DiscoveryGraph) (r : JsError + unit) :
  Repo.getJob uuid (repo w) = Some job →
  Repo.jobGraphs (repo w) !! uuid = Some g0 →
  Service.runRealDiscovery env uuid w = (r, w1) →
  match r with
  | inl _ => Repo.getJobGraph uuid (repo w1) = g0
  | inr _ =>
      ∃ c wa wd,
        AnalyzerRegistry.analyzeWithMultiplePlatforms (Service.analyzerRegistry env)
          (niche (config job)) (sources (config job))
          {| ac_maxLevels := maxLevels (config job);
             ac_maxNodesPerLevel := maxNodesPerLevel (config job) |}
          (Service.progressCallback uuid) wa = (inr c, wd)
        ∧ Repo.getJobGraph uuid (repo w1)
          = {| nodes := nodes g0 ++ map Service.toDiscoveryNode (c_nodes c);
               edges := edges g0 ++ map Service.toDiscoveryEdge (c_edges c) |}
  end.
Proof.
  intros Hj Hg. unfold Service.runRealDiscovery, bind at 1, gets. rewrite Hj.
  unfold try_catch, bind at 1. unfold Service.updateStatus at 1, modify.
  set (wa := set_repo (Repo.updateJobStatus uuid (clock w) Discovering None) w).
  assert (Hga : Repo.jobGraphs (repo wa) = Repo.jobGraphs (repo w))
    by (unfold wa; simpl; apply graphs_updateJobStatus).
  unfold bind at 1. unfold Service.runDiscoveryWithAnalyzers, try_catch, bind at 1.
  pose proof (keeps_graphs_analysis env uuid (niche (config job)) (sources (config job))
                {| ac_maxLevels := maxLevels (config job);
                   ac_maxNodesPerLevel := maxNodesPerLevel (config job) |}
                _ wa eq_refl) as Hk.
  destruct (AnalyzerRegistry.analyzeWithMultiplePlatforms _ _ _ _ _ wa) as [[e|c] wd] eqn:E.
  - unfold throw, bind, Service.updateStatus, modify. intros [= <- <-].
    simpl in *. unfold Repo.getJobGraph.
    by rewrite graphs_updateJobStatus, Hk, Hga, Hg.
  - pose proof (storeAnalyzerResults_graph uuid c wd g0) as Hs.
    destruct (Service.storeAnalyzerResults uuid c wd) as [[e2|[]] we] eqn:E2;
      [unfold Service.storeAnalyzerResults, modify in E2; discriminate E2|].
    unfold Service.updateStatus, modify. intros [= <- <-].
    exists c, wa, wd. split; [exact E|]. simpl in *.
    unfold Repo.getJobGraph in *. rewrite graphs_updateJobStatus. apply Hs.
    by rewrite Hk, Hga.
Qed.

Import Registry.

(** The first node that goes into the deduplication comes out first,
    with its label, level and type. *)
Lemma dedup_node_head (k : string) (v n : AnalyzerNode) (m : jsmap AnalyzerNode) :
  ∃ v' m', dedup_node ((k, v) :: m) n = (k, v') :: m'
    ∧ a_label v' = a_label v ∧ a_level v' = a_level v ∧ a_type v' = a_type v.
Proof.
  unfold dedup_node. cbn [map_get].
  destruct (String.eqb (node_key n) k) eqn:Ek.
  - cbn [map_set]. rewrite Ek. apply String.eqb_eq in Ek. rewrite Ek.
    eexists _, _. split; [reflexivity|]. by repeat split.
  - destruct (map_get (node_key n) m); cbn [map_set]; rewrite Ek;
      eexists _, _; (split; [reflexivity|]); by repeat split.
Qed.

Lemma dedup_nodes_head (x : AnalyzerNode) (l : list AnalyzerNode) :
  ∃ x' rest, dedup_nodes (x :: l) = x' :: rest
    ∧ a_label x' = a_label x ∧ a_level x' = a_level x ∧ a_type x' = a_type x.
Proof.
  unfold dedup_nodes, map_values. cbn [fold_left].
  change (dedup_node [] x) with [(node_key x, x)].
  assert (H : ∀ l k v m, ∃ v' m',
            fold_left dedup_node l ((k, v) :: m) = (k, v') :: m'
            ∧ a_label v' = a_label v ∧ a_level v' = a_level v ∧ a_type v' = a_type v).
  { clear. induction l as [|n l IH]; intros k v m; [by exists v, m|].
    cbn [fold_left].
    destruct (dedup_node_head k v n m) as (v1 & m1 & -> & A1 & A2 & A3).
    destruct (IH k v1 m1) as (v' & m' & E & H1 & H2 & H3).
    exists v', m'. split; [exact E|]. split; [congruence|]. split; congruence. }
  destruct (H l (node_key x) x []) as (v' & m' & E & H1 & H2 & H3).
  rewrite E. exists v', (map snd m'). auto.
Qed.

Lemma yields_runAnalyzers_rooted (env : Env) (n : nat) niche cfg cb results errors :
  Forall (rooted niche) results →
  yields (AnalyzerRegistry.runAnalyzers (repeat (reddit env) n) niche cfg cb results errors)
    (fun out => Forall (rooted niche) (fst out)).
Proof.
  revert results errors. induction n as [|n IH]; intros results errors Hr; simpl.
  - by apply yields_ret.
  - apply (yields_bind _ _ (fun r => ∀ result, r = inr result → rooted niche result)).
    + apply yields_try_catch; [|intros e; apply yields_ret; discriminate].
      eapply yields_bind; [apply (yields_analyze env)|].
      intros res (k & subs & l1 & _ & _ & Hexp). apply yields_ret. intros result [= <-].
      assert (H : ∀ rem lvl ns es ns' es', expanded rem lvl ns es ns' es' →
                ∃ more, ns' = ns ++ more).
      { clear. induction 1 as [? ? ns es|? ? ns es ns1 es1 ns' es' Hs _ [more ->]].
        - exists []. by rewrite app_nil_r.
        - destruct Hs as (groups & _ & _ & -> & _). eexists. by rewrite <- app_assoc. }
      destruct (H _ _ _ _ _ _ Hexp) as [more Hm]. unfold rooted. rewrite Hm.
      eexists. reflexivity.
    + intros [msg|result] Hres; apply IH; [exact Hr|].
      apply Forall_app. split; [exact Hr|]. constructor; [by apply Hres | constructor].
Qed.

(** The combined result that the service's registry returns begins with
    the root: the node for the niche itself, at level 0, under the id
    node-0-0. *)
Lemma yields_analysis_root (env : Env) niche platforms cfg cb :
  yields (AnalyzerRegistry.analyzeWithMultiplePlatforms (Service.analyzerRegistry env)
            niche platforms cfg cb)
    (fun c => ∃ root rest, c_nodes c = root :: rest
               ∧ a_id root = "node-0-0" ∧ a_level root = 0
               ∧ a_label root = niche ∧ a_type root = Niche).
Proof.
  unfold AnalyzerRegistry.analyzeWithMultiplePlatforms. apply yields_then. intros startTime.
  rewrite analyzers_repeat.
  destruct (length (List.filter (String.eqb "reddit") platforms)) as [|n];
    [apply yields_throw|].
  change (reddit env :: repeat (reddit env) n) with (repeat (reddit env) (S n)).
  eapply yields_bind; [apply yields_runAnalyzers_rooted; constructor|].
  intros [rs errs] Hrs. simpl in Hrs. destruct rs as [|r rs]; [apply yields_throw|].
  apply yields_then. intros endTime. apply yields_ret.
  apply Forall_cons in Hrs as [[rest Hr] _].
  rewrite combineResults_nodes. cbn [flat_map]. rewrite Hr. cbn [app].
  destruct (dedup_nodes_head (RedditAnalyzer.rootNode niche) (rest ++ flat_map r_nodes rs))
    as (x' & rest' & E & H1 & H2 & H3).
  rewrite E. cbn [renumber].
  destruct (renumber 1 rest' _) as [rest'' m]. simpl.
  rewrite H2. eexists _, _. split; [reflexivity|]. simpl. auto.
Qed.


(** The graph of a job when its background task has ended. *)
Lemma finished_job_graph (env : Env) (cfg : DiscoveryConfig) (uuid : string) (w : World) :
  let w' := Service.runJob env cfg uuid w in
  let g := Repo.getJobGraph uuid (repo w') in
  (Service.jobStatus uuid w' = Some Error ∧ g = empty_graph)
  ∨ (Service.jobStatus uuid w' = Some Complete
     ∧ ∃ root rest, nodes g = root :: rest
         ∧ id root = "node-0-0" ∧ level root = 0
         ∧ label root = niche cfg ∧ type root = Niche).
Proof.
  cbv zeta.
  destruct (startDiscovery_known cfg uuid w) as (Hj & _).
  set (w0 := snd (Service.startDiscovery cfg uuid w)) in *.
  assert (Hg : Repo.jobGraphs (repo w0) !! uuid = Some empty_graph).
  { unfold w0, Service.startDiscovery, Repo.createJob. simpl. apply lookup_insert_eq. }
  assert (Hknown : job_known uuid (repo w0)).
  { unfold job_known. unfold Repo.getJob in Hj. rewrite Hj. eauto. }
  unfold Service.runJob, Service.backgroundTask. fold w0.
  destruct (Service.runRealDiscovery env uuid w0) as [r w1] eqn:Erun.
  destruct (runRealDiscovery_status env uuid w0 w1 r Hknown Erun) as (st & Hst & Hr & Hk1).
  pose proof (runRealDiscovery_graph env uuid w0 w1 _ _ r Hj Hg Erun) as Hgr.
  destruct r as [e|[]].
  - left. rewrite (runRealDiscovery_throws env uuid _ _ _ Erun). simpl. split.
    + by apply status_after_update.
    + unfold Repo.getJobGraph in *. by rewrite graphs_updateJobStatus.
  - right. subst st. simpl. split; [exact Hst|].
    destruct Hgr as (c & wa & wd & Hc & Hgr). simpl in Hgr.
    destruct (yields_analysis_root env _ _ _ _ _ _ _ Hc) as (root & rest & E & H1 & H2 & H3 & H4).
    rewrite Hgr, E. simpl. eexists _, _. split; [reflexivity|]. simpl. auto.
Qed.

Lemma polling_stops (jobId : string) (maxLv : Z) (snapshots : list Repo.t) (r : Repo.t) :
  snd (Stream.tick jobId maxLv r) = true →
  Stream.polling jobId maxLv (snapshots ++ [r]) = false.
Proof.
  intros H. induction snapshots as [|r0 rest IH]; simpl; [by rewrite H|].
  by destruct (snd (Stream.tick jobId maxLv r0)).
Qed.

(** A tick that finds the job in error, or complete with nodes in its
    graph, writes a terminal event last and clears the interval. *)
Lemma tick_finished (jobId : string) (maxLv : Z) (r : Repo.t) (job : DiscoveryJob) :
  Repo.getJob jobId r = Some job →
  status job = Error ∨ (status job = Complete ∧ nodes (Repo.getJobGraph jobId r) ≠ []) →
  ∃ evs e, Stream.tick jobId maxLv r = (evs ++ [e], true)
           ∧ Stream.is_terminal_event e = true.
Proof.
  intros Hj H. unfold Stream.tick. rewrite Hj. destruct H as [->|[-> Hn]].
  - eexists [_], _. split; reflexivity.
  - destruct (nodes (Repo.getJobGraph jobId r)) as [|n ns] eqn:En; [done|].
    cbn [length Nat.ltb Nat.leb]. unfold Stream.replay_polled.
    rewrite app_assoc, app_comm_cons. eexists _, _. split; reflexivity.
Qed.

End FinishedJob.

(** X10.  When the background task of a job has ended, the job is in
    error and its graph is empty, or it is complete and its graph begins
    with the root: the node that stands for the niche itself, stored at
    level 0 under the id node-0-0.  (The graph is filled in one go, after
    the analysis; nothing is stored for a job that fails.) *)
Theorem X10_graph_of_a_finished_job (env : Env) (cfg : DiscoveryConfig) (uuid : string)
    (w : World) :
  let w' := Service.runJob env cfg uuid w in
  let g := Repo.getJobGraph uuid (repo w') in
  (Service.jobStatus uuid w' = Some Error ∧ g = empty_graph)
  ∨ (Service.jobStatus uuid w' = Some Complete
     ∧ ∃ root rest, nodes g = root :: rest
         ∧ id root = "node-0-0" ∧ level root = 0
         ∧ label root = niche cfg ∧ type root = Niche).
Proof. apply finished_job_graph. Qed.

(** X11.  Once the background task of a job has ended, no stream for
    the job stays open: a tick that finds the store as the task left it
    clears the polling interval, whatever ticks went before; and a client
    that connects afterwards is sent a stream that ends, at the latest
    with its first tick, in a done or an error event. *)
Theorem X11_stream_of_a_finished_job_ends (env : Env) (cfg : DiscoveryConfig) (uuid : string)
    (w : World) (snapshots : list Repo.t) :
  let r := repo (Service.runJob env cfg uuid w) in
  Stream.polling uuid (maxLevels cfg) (snapshots ++ [r]) = false
  ∧ ∃ evs e, Stream.stream uuid r [r] = evs ++ [e] ∧ Stream.is_terminal_event e = true.
Proof.
  cbv zeta. set (r := repo (Service.runJob env cfg uuid w)).
  pose proof (finished_job_graph env cfg uuid w) as H. cbv zeta in H. fold r in H.
  unfold Service.jobStatus in H. fold r in H.
  destruct (Repo.getJob uuid r) as [job|] eqn:Ej;
    [|destruct H as [[H _]|[H _]]; discriminate H].
  cbv [fmap option_fmap option_map] in H.
  assert (Hfin : status job = Error
                 ∨ (status job = Complete ∧ nodes (Repo.getJobGraph uuid r) ≠ [])).
  { destruct H as [[H _]|[H (root & rest & E & _)]]; [left; congruence|].
    right. split; [congruence|]. by rewrite E. }
  split.
  - destruct (tick_finished uuid (maxLevels cfg) r job Ej Hfin) as (evs & e & E & _).
    apply polling_stops. by rewrite E.
  - unfold Stream.stream. rewrite Ej.
    destruct H as [[_ Hg]|[_ (root & rest & E & _)]].
    + rewrite Hg. cbn [nodes empty_graph length Nat.eqb Stream.poll].
      destruct (tick_finished uuid (maxLevels (config job)) r job Ej Hfin) as (evs & e & E & He).
      rewrite E. exists (EvConnected uuid (status job) :: evs), e. by split.
    + rewrite E. cbn [length Nat.eqb]. unfold Stream.replay_immediate.
      rewrite app_assoc, app_comm_cons. eexists _, _. split; reflexivity.
Qed.

(** ** Jobs that cannot be analysed *)

Lemma update_result (j : string) (now : Time) (st : JobStatus) (m : string) (r : Repo.t) :
  job_known j r → String.eqb m "" = false →
  (fun job => (status job, error job)) <$> Repo.getJob j (Repo.updateJobStatus j now st (Some m) r)
  = Some (st, Some m).
Proof.
  intros [job Hj] Hm. unfold Repo.updateJobStatus, Repo.getJob. rewrite Hj. simpl.
  rewrite lookup_insert_eq. simpl. by rewrite Hm.
Qed.

(** X12.  A job whose sources do not name the Reddit analyzer, the only
    one that the service registers, ends in error with the message
    "No analyzers found for platforms: ..." listing its sources; no external
    call is made for it, no progress line is printed and its graph stays
    empty.  (The start-request schema accepts any non-empty list of source
    names.) *)
Theorem X12_unsupported_sources_end_in_error (env : Env) (cfg : DiscoveryConfig)
    (uuid : string) (w : World) :
  List.filter (String.eqb "reddit") (sources cfg) = [] →
  let w' := Service.runJob env cfg uuid w in
  (fun job => (status job, error job)) <$> Repo.getJob uuid (repo w')
  = Some (Error, Some ("No analyzers found for platforms: " +:+ Js.join ", " (sources cfg)))
  ∧ Repo.getJobGraph uuid (repo w') = empty_graph
  ∧ ioCount w' = ioCount w ∧ console w' = console w.
Proof.
  intros Hsrc. cbv zeta.
  destruct (startDiscovery_known cfg uuid w) as (Hj & _ & Hcon).
  set (w0 := snd (Service.startDiscovery cfg uuid w)) in *.
  assert (Hio : ioCount w0 = ioCount w) by reflexivity.
  assert (Hg : Repo.jobGraphs (repo w0) !! uuid = Some empty_graph).
  { unfold w0, Service.startDiscovery, Repo.createJob. simpl. apply lookup_insert_eq. }
  assert (Hknown : job_known uuid (repo w0)).
  { unfold job_known. unfold Repo.getJob in Hj. rewrite Hj. eauto. }
  unfold Service.runJob, Service.backgroundTask. fold w0.
  assert (E : Service.runRealDiscovery env uuid w0
              = (inl (mkError ("No analyzers found for platforms: "
                                +:+ Js.join ", " (sources cfg))),
                 set_repo (Repo.updateJobStatus uuid (clock w0) Error
                             (Some ("No analyzers found for platforms: "
                                    +:+ Js.join ", " (sources cfg))))
                   (set_repo (Repo.updateJobStatus uuid (clock w0) Discovering None) w0))).
  { unfold Service.runRealDiscovery, bind at 1, gets. rewrite Hj.
    unfold try_catch, bind at 1. unfold Service.updateStatus at 1, modify.
    unfold bind at 1. unfold Service.runDiscoveryWithAnalyzers, try_catch, bind at 1.
    unfold AnalyzerRegistry.analyzeWithMultiplePlatforms, bind at 1. unfold gets.
    cbn [config sources niche]. rewrite analyzers_of_sources, Hsrc. reflexivity. }
  rewrite E. cbn [err_name mkError String.eqb Ascii.eqb Bool.eqb err_message].
  split; [|split; [|split]].
  - cbn [repo set_cancelledJobs set_activeJobs set_repo]. apply update_result; [|reflexivity].
    apply (stable_status _ (job_known_stable uuid)).
    by apply (stable_status _ (job_known_stable uuid)).
  - cbn [repo set_cancelledJobs set_activeJobs set_repo]. unfold Repo.getJobGraph.
    by rewrite !graphs_updateJobStatus, Hg.
  - exact Hio.
  - exact Hcon.
Qed.

(** A job for a source that no analyzer is registered for. *)
Lemma X12_unsupported_sources_end_in_error_witness :
  let cfg := {| niche := "AI tools"; maxLevels := 2; maxNodesPerLevel := 5;
                sources := ["twitter"; "facebook"] |} in
  Validators.DiscoveryConfigSchema cfg = true
  ∧ (fun job => (status job, error job))
      <$> Repo.getJob "job-1" (repo (Service.runJob (SampleRun.quiet (inr [])) cfg "job-1" initial))
    = Some (Error, Some "No analyzers found for platforms: twitter, facebook").
Proof.
  split; [reflexivity|].
  apply (X12_unsupported_sources_end_in_error (SampleRun.quiet (inr []))
           {| niche := "AI tools"; maxLevels := 2; maxNodesPerLevel := 5;
              sources := ["twitter"; "facebook"] |} "job-1" initial).
  reflexivity.
Defined.

(** ** A cancel request stops the external calls *)

Section Halts.

Variable env : Env.
Variable uuid : string.
Variable k0 : nat.






Section Analyzer.

Variable a : BaseAnalyzer.








End Analyzer.



End Halts.



(** ** A search that fails *)

Section Throws.

Variable uuid : string.

Lemma throws_throw {A} (e : JsError) (w : World) (Post : JsError → list Phase → Prop) :
  Post e [] → throws uuid (@throw A e) w Post.
Proof.
  intros H. exists e, w, []. split; [reflexivity|]. split; [apply extends_refl | exact H].
Qed.

Lemma throws_lift_inl {A} (e : JsError) (w : World) (Post : JsError → list Phase → Prop) :
  Post e [] → throws uuid (@lift_answer A (inl e)) w Post.
Proof.
  intros H. exists e, w, []. split; [reflexivity|]. split; [apply extends_refl | exact H].
Qed.

(** [m] returns, and what follows throws. *)
Lemma throws_bind {A B} (m : M A) (f : A → M B) (w : World)
    (P1 : A → list Phase → Prop) (P2 : JsError → list Phase → Prop) :
  returns uuid m w P1 →
  (∀ a w' N, extends uuid w w' N → P1 a N →
             throws uuid (f a) w' (fun e N' => P2 e (N ++ N'))) →
  throws uuid (bind m f) w P2.
Proof.
  intros (a & w1 & N1 & E1 & X1 & H1) Hf.
  destruct (Hf a w1 N1 X1 H1) as (e & w2 & N2 & E2 & X2 & H2).
  exists e, w2, (N1 ++ N2). unfold bind. rewrite E1. split; [exact E2|].
  split; [by eapply extends_trans | exact H2].
Qed.

(** [m] throws, so what would follow is not run. *)
Lemma throws_bind_l {A B} (m : M A) (f : A → M B) (w : World)
    (Post : JsError → list Phase → Prop) :
  throws uuid m w Post → throws uuid (bind m f) w Post.
Proof.
  intros (e & w1 & N1 & E1 & X1 & H1). exists e, w1, N1. unfold bind. rewrite E1. auto.
Qed.

(** [m] throws and the handler throws in turn. *)
Lemma throws_try_catch {A} (m : M A) (h : JsError → M A) (w : World)
    (P1 P2 : JsError → list Phase → Prop) :
  throws uuid m w P1 →
  (∀ e w' N, extends uuid w w' N → P1 e N →
             throws uuid (h e) w' (fun e' N' => P2 e' (N ++ N'))) →
  throws uuid (try_catch m h) w P2.
Proof.
  intros (e & w1 & N1 & E1 & X1 & H1) Hh.
  destruct (Hh e w1 N1 X1 H1) as (e' & w2 & N2 & E2 & X2 & H2).
  exists e', w2, (N1 ++ N2). unfold try_catch. rewrite E1. split; [exact E2|].
  split; [by eapply extends_trans | exact H2].
Qed.

(** [m] throws and the handler returns. *)
Lemma returns_try_catch_caught {A} (m : M A) (h : JsError → M A) (w : World)
    (P1 : JsError → list Phase → Prop) (P2 : A → list Phase → Prop) :
  throws uuid m w P1 →
  (∀ e w' N, extends uuid w w' N → P1 e N →
             returns uuid (h e) w' (fun a N' => P2 a (N ++ N'))) →
  returns uuid (try_catch m h) w P2.
Proof.
  intros (e & w1 & N1 & E1 & X1 & H1) Hh.
  destruct (Hh e w1 N1 X1 H1) as (a & w2 & N2 & E2 & X2 & H2).
  exists a, w2, (N1 ++ N2). unfold try_catch. rewrite E1. split; [exact E2|].
  split; [by eapply extends_trans | exact H2].
Qed.

Variable env : Env.
Hypothesis Hq : quiet_env env uuid.

(** The analysis of a niche for which the search fails: the failure is
    reported through the callback and thrown on. *)
Lemma throws_analyze (niche : string) (cfg : AnalyzerConfig) (e : JsError) (w : World) :
  (∀ k, searchSubreddits env k niche = inl e) →
  uuid ∉ cancelledJobs w →
  throws uuid (RedditAnalyzer.analyze env niche cfg (service_callback (reddit env) uuid)) w
    (fun e' _ => e' = e).
Proof.
  intros Hsearch Hc. unfold RedditAnalyzer.analyze.
  pose proof (fun p w Hw => returns_progressCallback uuid (reddit env) p w Hw) as Hcb.
  apply (throws_bind _ _ _ (fun _ N => N = [])); [by apply returns_gets|].
  intros startTime w0 N0 X0 ->. pose proof (extends_calm _ _ _ _ X0 Hc) as Hc0.
  apply (throws_try_catch _ _ _ (fun e' _ => e' = e)).
  - apply (throws_bind _ _ _ (fun _ _ => True)).
    { eapply returns_weaken; [apply (returns_report uuid "reddit" _ Hcb); exact Hc0 | done]. }
    intros [] w1 N1 X1 _. pose proof (extends_calm _ _ _ _ X1 Hc0) as Hc1.
    apply (throws_bind _ _ _ (fun _ _ => True)).
    { eapply returns_weaken; [apply (returns_report uuid "reddit" _ Hcb); exact Hc1 | done]. }
    intros [] w2 N2 X2 _.
    apply (throws_bind _ _ _ (fun _ _ => True)); [by apply returns_await_io|].
    intros k w3 N3 X3 _. apply throws_bind_l. rewrite Hsearch. by apply throws_lift_inl.
  - intros e' w1 N1 X1 ->. pose proof (extends_calm _ _ _ _ X1 Hc0) as Hc1.
    apply (throws_bind _ _ _ (fun _ _ => True)).
    { eapply returns_weaken; [apply (returns_report uuid "reddit" _ Hcb); exact Hc1 | done]. }
    intros [] w2 N2 X2 _. by apply throws_throw.
Qed.

Lemma throws_runRealDiscovery (cfg : DiscoveryConfig) (e : JsError) (w : World)
    (job : DiscoveryJob) :
  Repo.getJob uuid (repo w) = Some job → config job = cfg →
  (∀ k, searchSubreddits env k (niche cfg) = inl e) →
  uuid ∉ cancelledJobs w →
  List.filter (String.eqb "reddit") (sources cfg) = ["reddit"] →
  throws uuid (Service.runRealDiscovery env uuid) w
    (fun e' _ => e' = mkError ("All analyzers failed. Errors: Error in reddit analyzer: "
                                 +:+ err_message e)).
Proof.
  intros Hj Hcfg Hsearch Hc Hsrc. unfold Service.runRealDiscovery.
  apply (throws_bind _ _ _ (fun a N => a = Some job ∧ N = [])); [by apply returns_gets|].
  intros a w0 N0 X0 [-> ->]. pose proof (extends_calm _ _ _ _ X0 Hc) as Hc0.
  rewrite Hcfg.
  apply (throws_try_catch _ _ _
           (fun e' _ => e' = mkError ("All analyzers failed. Errors: Error in reddit analyzer: "
                                        +:+ err_message e))).
  - apply (throws_bind _ _ _ (fun _ N => N = [])).
    { by apply (returns_modify_repo uuid
                  (fun w => Repo.updateJobStatus uuid (clock w) Discovering None)). }
    intros [] w1 N1 X1 ->. pose proof (extends_calm _ _ _ _ X1 Hc0) as Hc1.
    apply throws_bind_l. unfold Service.runDiscoveryWithAnalyzers.
    apply (throws_try_catch _ _ _
             (fun e' _ => e' = mkError ("All analyzers failed. Errors: Error in reddit analyzer: "
                                          +:+ err_message e)));
      [|intros e' w2 N2 X2 ->; by apply throws_throw].
    apply throws_bind_l. unfold AnalyzerRegistry.analyzeWithMultiplePlatforms.
    apply (throws_bind _ _ _ (fun _ N => N = [])); [by apply returns_gets|].
    intros startTime w2 N2 X2 ->. pose proof (extends_calm _ _ _ _ X2 Hc1) as Hc2.
    rewrite analyzers_of_sources, Hsrc. cbn [map].
    apply (throws_bind _ _ _
             (fun out _ => out = ([], ["Error in reddit analyzer: " +:+ err_message e]))).
    + cbn [AnalyzerRegistry.runAnalyzers].
      apply (returns_bind _ _ _ _
               (fun r _ => r = inl ("Error in reddit analyzer: " +:+ err_message e))).
      * apply (returns_try_catch_caught _ _ _ (fun e' _ => e' = e)).
        -- apply throws_bind_l. by apply throws_analyze.
        -- intros e' w3 N3 X3 ->. by apply returns_ret.
      * intros r w3 N3 X3 ->. by apply returns_ret.
    + intros out w3 N3 X3 ->. by apply throws_throw.
  - intros e' w1 N1 X1 ->.
    apply (throws_bind _ _ _ (fun _ N => N = [])).
    { by apply (returns_modify_repo uuid
                  (fun w => Repo.updateJobStatus uuid (clock w) Error
                              (Some (err_message
                                       (mkError ("All analyzers failed. Errors: Error in reddit analyzer: "
                                                 +:+ err_message e)))))). }
    intros [] w2 N2 X2 ->. by apply throws_throw.
Qed.

End Throws.

(** X14.  When the Reddit search fails, and no cancel request for the
    job arrives, a job whose sources name the Reddit analyzer once ends in
    error; the message on its record is "All analyzers failed. Errors:
    Error in reddit analyzer: " followed by the message of the search's
    error; and nothing is stored in its graph. *)
Theorem X14_failed_search_ends_in_error (env : Env) (cfg : DiscoveryConfig) (uuid : string)
    (w : World) (e : JsError) :
  quiet_env env uuid → uuid ∉ cancelledJobs w →
  List.filter (String.eqb "reddit") (sources cfg) = ["reddit"] →
  (∀ k, searchSubreddits env k (niche cfg) = inl e) →
  let w' := Service.runJob env cfg uuid w in
  (fun job => (status job, error job)) <$> Repo.getJob uuid (repo w')
  = Some (Error, Some ("All analyzers failed. Errors: Error in reddit analyzer: "
                         +:+ err_message e))
  ∧ Repo.getJobGraph uuid (repo w') = empty_graph.
Proof.
  intros Hq Hc Hsrc Hsearch. cbv zeta.
  pose proof (finished_job_graph env cfg uuid w) as Hfin. cbv zeta in Hfin.
  destruct (startDiscovery_known cfg uuid w) as (Hj & Hc0 & _).
  revert Hfin. unfold Service.jobStatus, Service.runJob, Service.backgroundTask.
  set (w0 := snd (Service.startDiscovery cfg uuid w)) in *.
  assert (Hknown : job_known uuid (repo w0)).
  { unfold job_known. unfold Repo.getJob in Hj. rewrite Hj. eauto. }
  destruct (throws_runRealDiscovery uuid env Hq cfg e w0 _ Hj eq_refl Hsearch
              ltac:(by rewrite Hc0) Hsrc) as (e' & w1 & N & E & _ & ->).
  pose proof (keeps_runRealDiscovery env _ (job_known_world env uuid) uuid w0 Hknown) as Hk1.
  rewrite E in *. simpl in Hk1.
  cbn [err_name mkError String.eqb Ascii.eqb Bool.eqb err_message].
  cbn [repo set_cancelledJobs set_activeJobs set_repo].
  intros Hfin.
  assert (Hres : (fun job => (status job, error job))
                   <$> Repo.getJob uuid
                         (Repo.updateJobStatus uuid (clock w1) Error
                            (Some ("All analyzers failed. Errors: Error in reddit analyzer: "
                                   +:+ err_message e)) (repo w1))
                 = Some (Error, Some ("All analyzers failed. Errors: Error in reddit analyzer: "
                                        +:+ err_message e)))
    by (by apply update_result).
  split; [exact Hres|].
  destruct Hfin as [[_ Hg]|[Hst _]]; [exact Hg|].
  exfalso. clear Hj.
  destruct (Repo.getJob uuid (Repo.updateJobStatus uuid (clock w1) Error _ (repo w1)))
    as [job|]; cbv [fmap option_fmap option_map] in Hres, Hst; [|discriminate Hst].
  injection Hst as Hst. injection Hres as Hres _. rewrite Hst in Hres. discriminate Hres.
Qed.

Lemma X14_failed_search_ends_in_error_witness :
  let env := {| searchSubreddits := fun _ _ => inl (mkError "Reddit search failed: Too Many Requests");
                extractSubNiches := fun _ _ _ => inr [];
                level1Confidence := fun _ _ _ => 1 # 2;
                extractTopics := fun _ _ _ _ => inr [];
                arrivals := fun _ => [];
                timeAt := fun k => S k |} in
  (fun job => (status job, error job))
    <$> Repo.getJob "job-1" (repo (Service.runJob env (SampleRun.cfg 2) "job-1" initial))
  = Some (Error,
          Some "All analyzers failed. Errors: Error in reddit analyzer: Reddit search failed: Too Many Requests").
Proof.
  apply (X14_failed_search_ends_in_error
           {| searchSubreddits := fun _ _ => inl (mkError "Reddit search failed: Too Many Requests");
              extractSubNiches := fun _ _ _ => inr [];
              level1Confidence := fun _ _ _ => 1 # 2;
              extractTopics := fun _ _ _ _ => inr [];
              arrivals := fun _ => [];
              timeAt := fun k => S k |}
           (SampleRun.cfg 2) "job-1" initial
           (mkError "Reddit search failed: Too Many Requests")).
  - intros k H. exact H.
  - simpl. apply not_elem_of_empty.
  - reflexivity.
  - intros k. reflexivity.
Defined.

(** ** [simulateDiscovery] *)

Lemma active_stable (env : Env) (jobId : string) :
  world_stable env (fun w => is_Some (activeJobs w !! jobId)).
Proof.
  split; try (intros; assumption).
  apply (await_io_keeps (fun w => is_Some (activeJobs w !! jobId)));
    try (intros; assumption).
  intros j w H. unfold Cancel.cancelJob. destruct (activeJobs w !! j); [|exact H].
  simpl. apply lookup_insert_is_Some'. by right.
Qed.

(** X15.  simulateDiscovery registers a controller for the job and never
    removes it: whether the run returns or throws, the job is afterwards
    still in the table of active jobs, so that a cancel request for it
    succeeds and writes cancelled over the status that the run left on the
    record. *)
Theorem X15_simulateDiscovery_leaves_the_controller (env : Env) (jobId : string) (w : World) :
  let w' := snd (simulateDiscovery env jobId w) in
  is_Some (activeJobs w' !! jobId)
  ∧ success (fst (Cancel.cancelJob jobId w')) = true
  ∧ (job_known jobId (repo w) →
     Service.jobStatus jobId (snd (Cancel.cancelJob jobId w')) = Some Cancelled).
Proof.
  cbv zeta. unfold simulateDiscovery, bind, modify.
  set (w0 := set_activeJobs (<[jobId := {| aborted := false |}]>) w).
  assert (H0 : is_Some (activeJobs w0 !! jobId))
    by (unfold w0; simpl; rewrite lookup_insert_eq; eauto).
  pose proof (keeps_runRealDiscovery env _ (active_stable env jobId) jobId w0 H0) as H1.
  pose proof (keeps_runRealDiscovery env _ (job_known_world env jobId) jobId w0) as H2.
  destruct (Service.runRealDiscovery env jobId w0) as [r w1]. simpl in H1, H2.
  destruct r as [e|[]]; cbn [snd] in *;
    (split; [exact H1|]); unfold Cancel.cancelJob; destruct H1 as [c Hc]; rewrite Hc; simpl;
    (split; [reflexivity|]); intros Hk; unfold Service.jobStatus; simpl;
    apply status_after_update; by apply H2.
Qed.

(** ** The levels that a job reports *)

Lemma bind_gets {A B} (g : World → A) (f : A → M B) (w : World) :
  bind (gets g) f w = f (g w) w.
Proof. reflexivity. Qed.

Section Levels.

Variable env : Env.
Variable uuid : string.
Variable bound : nat.
Variable wstart : World.

(** A call of the store that neither creates a job nor sets a level
    leaves the level on every record as it is. *)
Lemma level_kept (o : Repo.op) (r : Repo.t) (job' : DiscoveryJob) :
  match o with
  | Repo.CreateJob _ _ _ | Repo.UpdateJobCurrentLevel _ _ _ => False
  | _ => True
  end →
  Repo.getJob uuid (Repo.apply o r) = Some job' →
  ∃ job, Repo.getJob uuid r = Some job ∧ currentLevel job' = currentLevel job.
Proof.
  intros Ho. unfold Repo.getJob.
  destruct (decide (op_target o = uuid)) as [Ht|Hne].
  2:{ destruct (apply_other o uuid r Hne) as [E _]. rewrite E. eauto. }
  destruct o as [u now cfg|i now st e|i now lvl|i now sa|i now n|i now e];
    simpl in *; try done; subst i.
  - unfold Repo.updateJobStatus. destruct (Repo.jobs r !! uuid) as [job|] eqn:Ej;
      [|intros H; congruence].
    simpl. rewrite lookup_insert_eq. intros [= <-]. eauto.
  - unfold Repo.updateJobSubAnalysis. destruct (Repo.jobs r !! uuid) as [job|] eqn:Ej;
      [|intros H; congruence].
    simpl. rewrite lookup_insert_eq. intros [= <-]. eauto.
  - unfold Repo.addNode. destruct (Repo.jobGraphs r !! uuid); [|eauto].
    destruct (Repo.jobs r !! uuid) as [job|] eqn:Ej; simpl.
    + rewrite lookup_insert_eq. intros [= <-]. eauto.
    + rewrite Ej. discriminate.
  - unfold Repo.addEdge. destruct (Repo.jobGraphs r !! uuid); [|eauto].
    destruct (Repo.jobs r !! uuid) as [job|] eqn:Ej; simpl.
    + rewrite lookup_insert_eq. intros [= <-]. eauto.
    + rewrite Ej. discriminate.
Qed.

Lemma levels_within_repo (o : Repo.op) (w : World) :
  match o with
  | Repo.CreateJob _ _ _ | Repo.UpdateJobCurrentLevel _ _ _ => False
  | _ => True
  end →
  levels_within uuid bound wstart w →
  levels_within uuid bound wstart (set_repo (Repo.apply o) w).
Proof.
  intros Ho [Hc Hl]. split; [exact Hc|]. intros job' Hj'. simpl in Hj'.
  destruct (level_kept o _ _ Ho Hj') as (job & Hj & ->). by apply Hl.
Qed.

Lemma levels_within_await : keeps (levels_within uuid bound wstart) (await_io env).
Proof.
  intros w Hw. apply (await_io_keeps (levels_within uuid bound wstart));
    try (intros; assumption).
  intros j w0 H0. unfold Cancel.cancelJob. destruct (activeJobs w0 !! j); [|exact H0]. simpl.
  exact (levels_within_repo
           (Repo.UpdateJobStatus j (clock w0) Cancelled (Some "Job was cancelled by user"))
           _ I H0).
Qed.

Lemma levels_within_callback (p : AnalyzerProgress) :
  level_within bound p →
  keeps (levels_within uuid bound wstart) (Service.progressCallback uuid p).
Proof.
  intros Hp w Hw. unfold Service.progressCallback.
  destruct (decide (uuid ∈ cancelledJobs w)); [exact Hw|].
  assert (H1 : levels_within uuid bound wstart
                 (set_repo (Repo.updateJobCurrentLevel uuid (clock w) (p_currentLevel p))
                    (log_progress uuid p w))).
  { destruct Hw as [(new & Hn & Hf) Hl]. split.
    - exists (new ++ [(uuid, p)]). simpl. rewrite Hn, <- app_assoc. split; [reflexivity|].
      apply Forall_app. split; [exact Hf|]. constructor; [by split | constructor].
    - intros job'. simpl. unfold Repo.updateJobCurrentLevel, Repo.getJob.
      destruct (Repo.jobs (repo w) !! uuid) as [job|] eqn:Ej.
      + simpl. rewrite lookup_insert_eq. intros [= <-]. exact Hp.
      + rewrite Ej. discriminate. }
  destruct (p_subAnalysis p) as [sa|]; simpl; [|exact H1].
  exact (levels_within_repo (Repo.UpdateJobSubAnalysis uuid (clock w) sa) _ I H1).
Qed.

Lemma levels_within_updateStatus st e :
  keeps (levels_within uuid bound wstart) (Service.updateStatus uuid st e).
Proof.
  intros w Hw. exact (levels_within_repo (Repo.UpdateJobStatus uuid (clock w) st e) _ I Hw).
Qed.

Lemma levels_within_store result :
  keeps (levels_within uuid bound wstart) (Service.storeAnalyzerResults uuid result).
Proof.
  intros w Hw. unfold Service.storeAnalyzerResults, modify. simpl.
  assert (H1 : ∀ ns w0, levels_within uuid bound wstart w0 →
            levels_within uuid bound wstart
              (fold_left (fun w n => set_repo (Repo.addNode uuid (clock w)
                                                 (Service.toDiscoveryNode n)) w) ns w0)).
  { induction ns as [|n ns IH]; intros w0 H0; [exact H0|]. simpl. apply IH.
    exact (levels_within_repo (Repo.AddNode uuid (clock w0) (Service.toDiscoveryNode n))
             _ I H0). }
  assert (H2 : ∀ es w0, levels_within uuid bound wstart w0 →
            levels_within uuid bound wstart
              (fold_left (fun w e => set_repo (Repo.addEdge uuid (clock w)
                                                 (Service.toDiscoveryEdge e)) w) es w0)).
  { induction es as [|e es IH]; intros w0 H0; [exact H0|]. simpl. apply IH.
    exact (levels_within_repo (Repo.AddEdge uuid (clock w0) (Service.toDiscoveryEdge e))
             _ I H0). }
  apply H2, H1, Hw.
Qed.

Lemma levels_within_runRealDiscovery (w : World) :
  (∀ job, Repo.getJob uuid (repo w) = Some job →
          (top_level (maxLevels (config job)) <= bound)%nat) →
  levels_within uuid bound wstart w →
  levels_within uuid bound wstart (snd (Service.runRealDiscovery env uuid w)).
Proof.
  intros Hb. unfold Service.runRealDiscovery. rewrite bind_gets.
  destruct (Repo.getJob uuid (repo w)) as [job|]; [|apply keeps_throw].
  specialize (Hb job eq_refl). revert w.
  change (keeps (levels_within uuid bound wstart)
            (try_catch
               (Service.updateStatus uuid Discovering None ;;;
                Service.runDiscoveryWithAnalyzers env uuid (config job) ;;;
                Service.updateStatus uuid Complete None)
               (fun error =>
                  Service.updateStatus uuid Error (Some (err_message error)) ;;;
                  throw error))).
  apply keeps_try_catch.
  - apply keeps_bind; [apply levels_within_updateStatus|]. intros _.
    apply keeps_bind; [|intros _; apply levels_within_updateStatus].
    unfold Service.runDiscoveryWithAnalyzers.
    apply keeps_try_catch; [|intros e; apply keeps_throw].
    apply keeps_bind; [|intros result; apply levels_within_store].
    apply (within_analyzeWithMultiplePlatforms env _ bound);
      [apply levels_within_await | apply Hb | intros p Hp; by apply levels_within_callback].
  - intros e. apply keeps_bind; [apply levels_within_updateStatus|]. intros _.
    apply keeps_throw.
Qed.

End Levels.

Lemma progress_value_bound (maxLv : Z) (job : DiscoveryJob) :
  (1 <= maxLv)%Z → (Z.of_nat (currentLevel job) <= maxLv)%Z →
  (Stream.progress_value maxLv job <= 100)%Q.
Proof.
  intros H1 H2. unfold Stream.progress_value.
  assert (H : (inject_Z (Z.of_nat (currentLevel job)) / inject_Z maxLv * 100 <= 100)%Q).
  { apply (Qle_trans _ (1 * 100)%Q); [|apply Qle_refl].
    apply Qmult_le_compat_r; [|discriminate].
    apply Qle_shift_div_r.
    - change 0%Q with (inject_Z 0). rewrite <- Zlt_Qlt. lia.
    - rewrite Qmult_1_l. rewrite <- Zle_Qle. exact H2. }
  destruct (status job); try exact H. apply Qle_refl.
Qed.

(** X16.  When [1 <= maxLevels], every progress line that a job's run prints
    is a line of this job for a level of at most [maxLevels]; the level on
    the job's record at the end of the run is at most [maxLevels], and the
    progress value that the stream computes from it is at most 100. *)
Theorem X16_levels_stay_within_maxLevels (env : Env) (cfg : DiscoveryConfig)
    (uuid : string) (w : World) :
  (1 <= maxLevels cfg)%Z →
  let w' := Service.runJob env cfg uuid w in
  (∃ new, console w' = console w ++ new
          ∧ Forall (fun l => fst l = uuid
                             ∧ (Z.of_nat (p_currentLevel (snd l)) <= maxLevels cfg)%Z) new)
  ∧ ∀ job, Repo.getJob uuid (repo w') = Some job →
           (Z.of_nat (currentLevel job) <= maxLevels cfg)%Z
           ∧ (Stream.progress_value (maxLevels cfg) job <= 100)%Q.
Proof.
  intros Hm w'.
  assert (Hw : levels_within uuid (top_level (maxLevels cfg)) w w').
  { subst w'. unfold Service.runJob, Service.backgroundTask.
    set (w0 := snd (Service.startDiscovery cfg uuid w)).
    assert (H0 : levels_within uuid (top_level (maxLevels cfg)) w w0).
    { split.
      - exists []. split; [by rewrite app_nil_r | constructor].
      - intros job. subst w0. unfold Service.startDiscovery, Repo.getJob. simpl.
        rewrite lookup_insert_eq. intros [= <-]. simpl. lia. }
    assert (Hc : ∀ job, Repo.getJob uuid (repo w0) = Some job →
                        (top_level (maxLevels (config job)) <= top_level (maxLevels cfg))%nat).
    { intros job. subst w0. unfold Service.startDiscovery, Repo.getJob. simpl.
      rewrite lookup_insert_eq. intros [= <-]. simpl. lia. }
    pose proof (levels_within_runRealDiscovery env uuid _ w w0 Hc H0) as H1.
    destruct (Service.runRealDiscovery env uuid w0) as [r w1]. simpl in H1.
    assert (H2 : ∀ st e, levels_within uuid (top_level (maxLevels cfg)) w
                   (set_repo (Repo.updateJobStatus uuid (clock w1) st e) w1)).
    { intros st e.
      exact (levels_within_repo uuid _ w (Repo.UpdateJobStatus uuid (clock w1) st e) _ I H1). }
    destruct r as [e|[]]; [destruct (String.eqb (err_name e) "AbortError")|].
    - destruct (H2 Cancelled (Some "Job was cancelled by user")) as [Ha Hb].
      split; [exact Ha | exact Hb].
    - destruct (H2 Error (Some (err_message e))) as [Ha Hb].
      split; [exact Ha | exact Hb].
    - destruct H1 as [Ha Hb]. split; [exact Ha | exact Hb]. }
  assert (Et : Z.of_nat (top_level (maxLevels cfg)) = maxLevels cfg)
    by (unfold top_level; lia).
  destruct Hw as [(new & Hn & Hf) Hl]. split.
  - exists new. split; [exact Hn|].
    eapply Forall_impl; [exact Hf|]. intros [u p] [Hu Hp]. simpl in *. split; [exact Hu|lia].
  - intros job Hj. specialize (Hl job Hj).
    assert (Hz : (Z.of_nat (currentLevel job) <= maxLevels cfg)%Z) by lia.
    split; [exact Hz | by apply progress_value_bound].
Qed.

Lemma X16_levels_stay_within_maxLevels_witness :
  (1 <= maxLevels (SampleRun.cfg 2))%Z
  ∧ ∃ job, Repo.getJob SampleRun.jobId (repo SampleRun.undisturbed) = Some job
           ∧ (Stream.progress_value 2 job <= 100)%Q.
Proof.
  split; [simpl; lia|].
  destruct (Repo.getJob SampleRun.jobId (repo SampleRun.undisturbed)) as [job|] eqn:Ej;
    [|vm_compute in Ej; discriminate Ej].
  exists job. split; [reflexivity|].
  apply (X16_levels_stay_within_maxLevels (SampleRun.quiet (inr [SampleRun.pricing]))
           (SampleRun.cfg 2) SampleRun.jobId initial); [simpl; lia | exact Ej].
Defined.

(** ** What the client makes of a replay *)

Section Client.

Import Machine.

Lemma insert_by_perm {A} (le : A → A → bool) (x : A) (l : list A) :
  Js.insert_by le x l ≡ₚ x :: l.
Proof.
  induction l as [|y l IH]; simpl; [reflexivity|].
  destruct (le x y); [reflexivity|]. rewrite IH. apply Permutation_swap.
Qed.

Lemma sort_by_perm {A} (le : A → A → bool) (l : list A) : Js.sort_by le l ≡ₚ l.
Proof.
  unfold Js.sort_by. induction l as [|x l IH]; simpl; [reflexivity|].
  rewrite insert_by_perm. by rewrite IH.
Qed.

Lemma levels_perm (g : DiscoveryGraph) :
  Stream.levels g ≡ₚ remove_dups (map level (nodes g)).
Proof.
  unfold Stream.levels, Js.default_sort, Js.index_keys. by rewrite !sort_by_perm.
Qed.

Lemma levels_NoDup (g : DiscoveryGraph) : NoDup (Stream.levels g).
Proof. rewrite levels_perm. apply NoDup_remove_dups. Qed.

Lemma levels_elem (g : DiscoveryGraph) (n : DiscoveryNode) :
  In n (nodes g) → level n ∈ Stream.levels g.
Proof.
  intros Hn. rewrite levels_perm, elem_of_remove_dups, list_elem_of_In.
  by apply in_map.
Qed.

Lemma flat_map_head {A B} (f : A → list B) (a : A) (l : list A) :
  flat_map f (a :: l) = f a ++ flat_map f l.
Proof. reflexivity. Qed.

Lemma filter_level_head (n : DiscoveryNode) (ns : list DiscoveryNode) (l : nat) :
  List.filter (fun m => Nat.eqb (level m) l) (n :: ns)
  = if Nat.eqb (level n) l
    then n :: List.filter (fun m => Nat.eqb (level m) l) ns
    else List.filter (fun m => Nat.eqb (level m) l) ns.
Proof. reflexivity. Qed.

Lemma filter_level_skip (ns : list DiscoveryNode) (n : DiscoveryNode) (ls : list nat) :
  level n ∉ ls →
  flat_map (fun lvl => List.filter (fun n => Nat.eqb (level n) lvl) (n :: ns)) ls
  = flat_map (fun lvl => List.filter (fun n => Nat.eqb (level n) lvl) ns) ls.
Proof.
  induction ls as [|l ls IH]; intros Hn; [reflexivity|].
  rewrite !flat_map_head, filter_level_head.
  destruct (Nat.eqb_spec (level n) l) as [E|Hne].
  - exfalso. apply Hn, elem_of_cons. by left.
  - rewrite IH; [reflexivity|]. intros H. apply Hn, elem_of_cons. by right.
Qed.

Lemma filter_level_add (ns : list DiscoveryNode) (n : DiscoveryNode) (ls : list nat) :
  NoDup ls → level n ∈ ls →
  flat_map (fun lvl => List.filter (fun n => Nat.eqb (level n) lvl) (n :: ns)) ls
  ≡ₚ n :: flat_map (fun lvl => List.filter (fun n => Nat.eqb (level n) lvl) ns) ls.
Proof.
  induction ls as [|l ls IH]; intros Hd Hn; [by apply elem_of_nil in Hn|].
  apply NoDup_cons in Hd as [Hl Hd].
  rewrite !flat_map_head, filter_level_head.
  destruct (Nat.eqb_spec (level n) l) as [E|Hne].
  - rewrite filter_level_skip by (by rewrite E). reflexivity.
  - apply elem_of_cons in Hn as [Hn|Hn]; [done|].
    rewrite (IH Hd Hn). symmetry. apply Permutation_middle.
Qed.

(** Grouping by level loses no node and repeats none. *)
Lemma group_by_level (ns : list DiscoveryNode) (ls : list nat) :
  NoDup ls → (∀ n, In n ns → level n ∈ ls) →
  flat_map (fun lvl => List.filter (fun n => Nat.eqb (level n) lvl) ns) ls ≡ₚ ns.
Proof.
  intros Hd. induction ns as [|n ns IH]; intros Hin.
  - clear Hd Hin. induction ls as [|l ls IHl]; [reflexivity | exact IHl].
  - rewrite filter_level_add; [|exact Hd|apply Hin; by left].
    constructor. apply IH. intros m Hm. apply Hin. by right.
Qed.

Lemma nodes_by_level_perm (g : DiscoveryGraph) :
  flat_map (Stream.nodesByLevel g) (Stream.levels g) ≡ₚ nodes g.
Proof. apply group_by_level; [apply levels_NoDup | apply levels_elem]. Qed.

Lemma receive_app (s : StateValue * Context) (evs evs' : list Event) :
  receive s (evs ++ evs') = receive (receive s evs) evs'.
Proof. unfold receive. by rewrite omap_app, fold_left_app. Qed.

Lemma receive_cons (s : StateValue * Context) (e : Event) (evs : list Event) :
  receive s (e :: evs) = receive (receive s [e]) evs.
Proof. exact (receive_app s [e] evs). Qed.


Lemma receive_one (s : StateValue * Context) (e : Event) :
  receive s [e] = match listener e with Some ev => send s ev | None => s end.
Proof. unfold receive. simpl. by destruct (listener e). Qed.

Lemma holds_nodes (ctx : Context) (lvl : nat) (es : list DiscoveryEdge)
    (ns : list DiscoveryNode) :
  Forall (fun n => level n = lvl) ns →
  ∀ s ns0 lc k,
    holds ctx ns0 es lc s → lc !! lvl = Some k →
    holds ctx (ns0 ++ ns) es (<[lvl := (k + length ns)%nat]> lc)
      (receive s (map EvNodeFound ns)).
Proof.
  induction 1 as [|n ns Hn Hns IH]; intros s ns0 lc k Hs Hk.
  - simpl. rewrite app_nil_r, Nat.add_0_r, insert_id by exact Hk. exact Hs.
  - change (map EvNodeFound (n :: ns)) with (EvNodeFound n :: map EvNodeFound ns).
    rewrite receive_cons, receive_one. simpl listener. cbv iota.
    assert (H1 : holds ctx (ns0 ++ [n]) es (<[lvl := (k + 1)%nat]> lc) (send s (NODE_FOUND n))).
    { destruct s as [st c]. destruct Hs as (Hst & Hnodes & Hedges & Hlc & Herr).
      simpl in *. subst st. unfold send. simpl.
      unfold holds. simpl. rewrite Hnodes, Hn, Hlc, Hk, <- app_assoc. simpl.
      split; [reflexivity|]. split; [reflexivity|]. split; [exact Hedges|].
      split; [reflexivity | exact Herr]. }
    pose proof (IH _ _ _ (k + 1)%nat H1 (lookup_insert_eq _ _ _)) as H2.
    rewrite insert_insert_eq in H2. rewrite <- app_assoc in H2. simpl in H2.
    replace (k + length (n :: ns))%nat with (k + 1 + length ns)%nat by (simpl; lia).
    exact H2.
Qed.

Lemma nodesByLevel_level (g : DiscoveryGraph) (lvl : nat) :
  Forall (fun n => level n = lvl) (Stream.nodesByLevel g lvl).
Proof.
  apply List.Forall_forall. intros n Hn. unfold Stream.nodesByLevel in Hn.
  apply filter_In in Hn as [_ Hn]. by apply Nat.eqb_eq.
Qed.

Lemma holds_level (ctx : Context) (g : DiscoveryGraph) (completed : bool) (lvl : nat)
    (s : StateValue * Context) ns0 es lc :
  holds ctx ns0 es lc s →
  holds ctx (ns0 ++ Stream.nodesByLevel g lvl) es
    (<[lvl := length (Stream.nodesByLevel g lvl)]> lc)
    (receive s (level_events g completed lvl)).
Proof.
  intros Hs. unfold level_events. rewrite receive_cons, receive_one. simpl listener. cbv iota.
  assert (H1 : holds ctx ns0 es (<[lvl := 0%nat]> lc) (send s (LEVEL_STARTED lvl))).
  { destruct s as [st c]. destruct Hs as (Hst & Hnodes & Hedges & Hlc & Herr).
    simpl in *. subst st. unfold send, holds. simpl. rewrite Hlc. done. }
  pose proof (holds_nodes ctx lvl es _ (nodesByLevel_level g lvl) _ _ _ 0%nat H1
                (lookup_insert_eq _ _ _)) as H2.
  rewrite insert_insert_eq in H2. simpl in H2.
  rewrite receive_app. destruct completed; [|exact H2].
  rewrite receive_one. simpl listener. cbv iota.
  destruct (receive (send s (LEVEL_STARTED lvl)) (map EvNodeFound (Stream.nodesByLevel g lvl)))
    as [st c].
  destruct H2 as (Hst & Hnodes & Hedges & Hlc & Herr). simpl in *. subst st.
  unfold send, holds. simpl. rewrite Hlc, insert_insert_eq. done.
Qed.

Lemma holds_levels (ctx : Context) (g : DiscoveryGraph) (completed : bool) (es : list DiscoveryEdge)
    (ls : list nat) :
  ∀ s ns0 lc,
    holds ctx ns0 es lc s →
    holds ctx (ns0 ++ flat_map (Stream.nodesByLevel g) ls) es (counts_of g ls lc)
      (receive s (flat_map (level_events g completed) ls)).
Proof.
  induction ls as [|lvl ls IH]; intros s ns0 lc Hs.
  - simpl. by rewrite app_nil_r.
  - rewrite !flat_map_head, receive_app, app_assoc. apply IH. by apply holds_level.
Qed.

Lemma holds_edges (ctx : Context) (es' : list DiscoveryEdge) :
  ∀ s ns es lc,
    holds ctx ns es lc s → holds ctx ns (es ++ es') lc (receive s (map EvEdgeFound es')).
Proof.
  induction es' as [|e es' IH]; intros s ns es lc Hs.
  - simpl. by rewrite app_nil_r.
  - change (map EvEdgeFound (e :: es')) with (EvEdgeFound e :: map EvEdgeFound es').
    rewrite receive_cons, receive_one. simpl listener. cbv iota.
    replace (es ++ e :: es') with ((es ++ [e]) ++ es') by (by rewrite <- app_assoc).
    apply IH. destruct s as [st c]. destruct Hs as (Hst & Hnodes & Hedges & Hlc & Herr).
    simpl in *. subst st. unfold send, holds. simpl. rewrite Hedges, <- app_assoc. done.
Qed.

Lemma counts_of_other (g : DiscoveryGraph) (lvl : nat) (ls : list nat) :
  ∀ lc, lvl ∉ ls → counts_of g ls lc !! lvl = lc !! lvl.
Proof.
  induction ls as [|l ls IH]; intros lc Hn; [reflexivity|]. unfold counts_of. simpl.
  fold (counts_of g ls (<[l := length (Stream.nodesByLevel g l)]> lc)).
  rewrite IH by (intros H; apply Hn, elem_of_cons; by right).
  apply lookup_insert_ne. intros ->. apply Hn, elem_of_cons. by left.
Qed.

Lemma counts_of_level (g : DiscoveryGraph) (lvl : nat) (ls : list nat) :
  ∀ lc, lvl ∈ ls → counts_of g ls lc !! lvl = Some (length (Stream.nodesByLevel g lvl)).
Proof.
  induction ls as [|l ls IH]; intros lc Hn; [by apply elem_of_nil in Hn|].
  unfold counts_of. simpl.
  fold (counts_of g ls (<[l := length (Stream.nodesByLevel g l)]> lc)).
  destruct (decide (lvl ∈ ls)) as [Hin|Hout]; [by apply IH|].
  rewrite counts_of_other by exact Hout.
  apply elem_of_cons in Hn as [->|Hn]; [apply lookup_insert_eq | done].
Qed.

Lemma levels_of_nodes (g : DiscoveryGraph) (lvl : nat) :
  lvl ∈ Stream.levels g ↔ Stream.nodesByLevel g lvl ≠ [].
Proof.
  rewrite levels_perm, elem_of_remove_dups, list_elem_of_In, in_map_iff.
  unfold Stream.nodesByLevel. split.
  - intros (n & Hl & Hn) E.
    assert (H : In n (List.filter (fun n => Nat.eqb (level n) lvl) (nodes g)))
      by (apply filter_In; split; [exact Hn | by apply Nat.eqb_eq]).
    rewrite E in H. destruct H.
  - intros Hne.
    destruct (List.filter (fun n => Nat.eqb (level n) lvl) (nodes g)) as [|n ns] eqn:E; [done|].
    assert (H : In n (List.filter (fun n => Nat.eqb (level n) lvl) (nodes g)))
      by (rewrite E; by left).
    apply filter_In in H as [Hn Hl]. exists n. split; [by apply Nat.eqb_eq | exact Hn].
Qed.

Lemma replay_polled_levels (g : DiscoveryGraph) :
  Stream.replay_polled g
  = flat_map (level_events g true) (Stream.levels g)
    ++ map EvEdgeFound (edges g) ++ [Stream.done_event g].
Proof. reflexivity. Qed.

Lemma replay_immediate_levels (g : DiscoveryGraph) :
  Stream.replay_immediate g
  = flat_map (level_events g false) (Stream.levels g)
    ++ map EvEdgeFound (edges g) ++ [Stream.done_event g].
Proof.
  unfold Stream.replay_immediate. f_equal.
  apply flat_map_ext. intros lvl. unfold level_events. by rewrite app_nil_r.
Qed.

(** A client in [discovering] that is sent the events of a replay. *)
Lemma replay_rebuilt (g : DiscoveryGraph) (completed : bool) (ctx : Context)
    (s : StateValue * Context) :
  holds ctx [] [] (m_levelCounts ctx) s →
  rebuilt ctx g
    (receive s (flat_map (level_events g completed) (Stream.levels g)
                ++ map EvEdgeFound (edges g) ++ [Stream.done_event g])).
Proof.
  intros Hs. rewrite !receive_app.
  pose proof (holds_edges ctx (edges g) _ _ _ _
                (holds_levels ctx g completed [] (Stream.levels g) _ _ _ Hs)) as H.
  simpl in H. rewrite receive_one. simpl listener. cbv iota.
  destruct (receive (receive s (flat_map (level_events g completed) (Stream.levels g)))
              (map EvEdgeFound (edges g))) as [st c].
  destruct H as (Hst & Hnodes & Hedges & Hlc & Herr). simpl in *. subst st.
  unfold send, rebuilt. simpl. split; [reflexivity|].
  split; [exists (flat_map (Stream.nodesByLevel g) (Stream.levels g));
          split; [exact Hnodes | apply nodes_by_level_perm]|].
  split; [exact Hedges|]. split; [|exact Herr].
  intros lvl. rewrite Hlc.
  destruct (Stream.nodesByLevel g lvl) as [|n ns] eqn:E.
  - apply counts_of_other. rewrite levels_of_nodes. intros H. by apply H.
  - rewrite counts_of_level, E; [reflexivity|]. rewrite levels_of_nodes, E. discriminate.
Qed.

End Client.

(** X17.  A client in the state discovering that is sent a replay of a
    graph, from the polling callback or at once on connecting, ends in the
    state complete with the whole graph: the nodes of the graph, regrouped
    by level, and its edges, in their order, have been added to the graph
    the client held, and the client's count for every level of the graph is
    the number of nodes at that level. *)
Theorem X17_client_rebuilds_the_graph (g : DiscoveryGraph) (ctx : Machine.Context) :
  rebuilt ctx g (Machine.receive (Machine.st_discovering, ctx) (Stream.replay_polled g))
  ∧ rebuilt ctx g (Machine.receive (Machine.st_discovering, ctx) (Stream.replay_immediate g)).
Proof.
  assert (Hs : holds ctx [] [] (Machine.m_levelCounts ctx) (Machine.st_discovering, ctx)).
  { unfold holds. simpl. by rewrite !app_nil_r. }
  split.
  - rewrite replay_polled_levels. by apply replay_rebuilt.
  - rewrite replay_immediate_levels. by apply replay_rebuilt.
Qed.

(** ** What a client that ends in [complete] has been sent *)

Section ClientStream.

Import Machine.

Lemma receive_stuck (s : StateValue * Context) (evs : list Event) :
  fst s ≠ st_discovering → receive s evs = s.
Proof.
  intros Hs. unfold receive. induction (omap listener evs) as [|ev evs' IH]; [reflexivity|].
  simpl. replace (send s ev) with s; [exact IH|].
  unfold send. by destruct (fst s).
Qed.

Lemma holds_progress (ctx : Context) ns es lc (s : StateValue * Context) p lvl st sa :
  holds ctx ns es lc s → holds ctx ns es lc (receive s [EvProgress p lvl st sa]).
Proof.
  intros Hs. rewrite receive_one. simpl listener. cbv iota.
  destruct s as [s0 c]. destruct Hs as (Hst & Hnodes & Hedges & Hlc & Herr).
  simpl in *. subst s0. unfold send, holds. simpl. done.
Qed.

Lemma receive_error (ctx : Context) ns es lc (s : StateValue * Context) m c :
  holds ctx ns es lc s → fst (receive s [EvError m c]) = st_error.
Proof.
  intros Hs. rewrite receive_one. simpl listener. cbv iota.
  destruct s as [s0 c0]. destruct Hs as (Hst & _). simpl in *. subst s0. reflexivity.
Qed.

Lemma poll_rebuilt (jobId : string) (maxLv : Z) (ctx : Context) (snapshots : list Repo.t) :
  ∀ s, holds ctx [] [] (m_levelCounts ctx) s →
       fst (receive s (Stream.poll jobId maxLv snapshots)) = st_complete →
       ∃ r, In r snapshots
            ∧ rebuilt ctx (Repo.getJobGraph jobId r)
                (receive s (Stream.poll jobId maxLv snapshots)).
Proof.
  induction snapshots as [|r rest IH]; intros s Hs Hc.
  - simpl in Hc. destruct Hs as (Hst & _). unfold receive in Hc. simpl in Hc. congruence.
  - revert Hc. simpl Stream.poll. unfold Stream.tick.
    destruct (Repo.getJob jobId r) as [job|].
    2:{ rewrite (receive_error ctx _ _ _ _ _ _ Hs). discriminate. }
    set (progress := EvProgress (Stream.progress_value maxLv job) (currentLevel job)
                       (status job) (subAnalysis job)).
    assert (Hp : holds ctx [] [] (m_levelCounts ctx) (receive s [progress]))
      by (by apply holds_progress).
    assert (Hnext : fst (receive s ([progress] ++ Stream.poll jobId maxLv rest)) = st_complete →
              ∃ r0, In r0 (r :: rest)
                    ∧ rebuilt ctx (Repo.getJobGraph jobId r0)
                        (receive s ([progress] ++ Stream.poll jobId maxLv rest))).
    { rewrite receive_app. intros Hc. destruct (IH _ Hp Hc) as (r1 & Hin & Hr).
      exists r1. split; [by right | exact Hr]. }
    destruct (status job); try exact Hnext.
    + destruct (0 <? length (nodes (Repo.getJobGraph jobId r)))%nat; [|exact Hnext].
      intros _. exists r. split; [by left|].
      rewrite receive_cons, replay_polled_levels. by apply replay_rebuilt.
    + intros Hc. exfalso. revert Hc.
      change [progress; ?e] with ([progress] ++ [e]).
      rewrite receive_app, (receive_error ctx _ _ _ _ _ _ Hp). discriminate.
Qed.

End ClientStream.

(** X18.  Whatever the store held when a client connected and at the
    ticks that followed: if the events of the stream bring a client from
    the state discovering to the state complete, the client has been sent
    the whole graph that the store held for the job at connection time or
    at one of the ticks. *)
Theorem X18_complete_client_has_a_whole_graph (jobId : string) (r0 : Repo.t)
    (snapshots : list Repo.t) (ctx : Machine.Context) :
  let s' := Machine.receive (Machine.st_discovering, ctx)
              (Stream.stream jobId r0 snapshots) in
  fst s' = Machine.st_complete →
  ∃ r, In r (r0 :: snapshots) ∧ rebuilt ctx (Repo.getJobGraph jobId r) s'.
Proof.
  intros s'. subst s'.
  assert (Hs : holds ctx [] [] (Machine.m_levelCounts ctx) (Machine.st_discovering, ctx)).
  { unfold holds. simpl. by rewrite !app_nil_r. }
  unfold Stream.stream. destruct (Repo.getJob jobId r0) as [job|].
  2:{ rewrite (receive_error ctx _ _ _ _ _ _ Hs). discriminate. }
  rewrite receive_cons, receive_one. simpl Machine.listener. cbv iota.
  destruct (length (nodes (Repo.getJobGraph jobId r0)) =? 0)%nat.
  - intros Hc. destruct (poll_rebuilt _ _ ctx _ _ Hs Hc) as (r & Hin & Hr).
    exists r. split; [by right | exact Hr].
  - intros _. exists r0. split; [by left|].
    rewrite replay_immediate_levels. by apply replay_rebuilt.
Qed.

Lemma X18_complete_client_has_a_whole_graph_witness :
  ∃ r, In r [repo SampleRun.undisturbed]
       ∧ rebuilt Machine.initialContext (Repo.getJobGraph SampleRun.jobId r)
           (Machine.receive (Machine.st_discovering, Machine.initialContext)
              (Stream.stream SampleRun.jobId (repo SampleRun.undisturbed) [])).
Proof.
  apply (X18_complete_client_has_a_whole_graph SampleRun.jobId (repo SampleRun.undisturbed) []
           Machine.initialContext).
  vm_compute. reflexivity.
Defined.

(** ** The end of a stream *)

Section StreamEnd.

Import Stream.

(** No event of [evs] but the last is a [done] or an [error] event. *)
Lemma quiet_removelast (evs : list Event) :
  Forall (fun e => is_terminal_event e = false) evs →
  Forall (fun e => is_terminal_event e = false) (removelast evs).
Proof.
  induction 1 as [|e evs He Hevs IH]; [constructor|]. simpl.
  destruct evs; [constructor | by constructor].
Qed.

Lemma quiet_then (evs evs' : list Event) :
  Forall (fun e => is_terminal_event e = false) evs →
  Forall (fun e => is_terminal_event e = false) (removelast evs') →
  Forall (fun e => is_terminal_event e = false) (removelast (evs ++ evs')).
Proof.
  intros H H'. destruct evs' as [|e evs'].
  - rewrite app_nil_r. by apply quiet_removelast.
  - rewrite removelast_app by discriminate. apply Forall_app. by split.
Qed.

Lemma replay_polled_quiet (g : DiscoveryGraph) :
  Forall (fun e => is_terminal_event e = false) (removelast (replay_polled g)).
Proof.
  unfold replay_polled. rewrite app_assoc, removelast_last.
  apply Forall_app. split.
  - apply List.Forall_forall. intros e He. apply in_flat_map in He as (lvl & _ & He).
    destruct He as [<-|He]; [reflexivity|].
    apply in_app_or in He as [He|[<-|[]]]; [|reflexivity].
    apply in_map_iff in He as (n & <- & _). reflexivity.
  - apply List.Forall_forall. intros e He. apply in_map_iff in He as (n & <- & _). reflexivity.
Qed.

Lemma replay_immediate_quiet (g : DiscoveryGraph) :
  Forall (fun e => is_terminal_event e = false) (removelast (replay_immediate g)).
Proof.
  unfold replay_immediate. rewrite app_assoc, removelast_last.
  apply Forall_app. split.
  - apply List.Forall_forall. intros e He. apply in_flat_map in He as (lvl & _ & He).
    destruct He as [<-|He]; [reflexivity|].
    apply in_map_iff in He as (n & <- & _). reflexivity.
  - apply List.Forall_forall. intros e He. apply in_map_iff in He as (n & <- & _). reflexivity.
Qed.

Lemma poll_quiet (jobId : string) (maxLv : Z) (snapshots : list Repo.t) :
  Forall (fun e => is_terminal_event e = false) (removelast (poll jobId maxLv snapshots)).
Proof.
  induction snapshots as [|r rest IH]; [constructor|].
  simpl poll. unfold tick. destruct (Repo.getJob jobId r) as [job|]; [|constructor].
  set (progress := EvProgress (progress_value maxLv job) (currentLevel job)
                     (status job) (subAnalysis job)).
  assert (Hnext : Forall (fun e => is_terminal_event e = false)
                    (removelast ([progress] ++ poll jobId maxLv rest))).
  { apply quiet_then; [by repeat constructor | exact IH]. }
  destruct (status job); try exact Hnext.
  - destruct (0 <? length (nodes (Repo.getJobGraph jobId r)))%nat; [|exact Hnext].
    apply (quiet_then [progress]); [by repeat constructor | apply replay_polled_quiet].
  - by repeat constructor.
Qed.

End StreamEnd.

(** X19.  Nothing follows a done or an error event: in the stream of a
    connection, however the store evolves while the client is connected, no
    event but the last is a done or an error event. *)
Theorem X19_nothing_follows_a_terminal_event (jobId : string) (r0 : Repo.t)
    (snapshots : list Repo.t) :
  Forall (fun e => Stream.is_terminal_event e = false)
    (removelast (Stream.stream jobId r0 snapshots)).
Proof.
  unfold Stream.stream. destruct (Repo.getJob jobId r0) as [job|]; [|constructor].
  apply (quiet_then [EvConnected jobId (status job)]); [by repeat constructor|].
  destruct (length (nodes (Repo.getJobGraph jobId r0)) =? 0)%nat.
  - apply poll_quiet.
  - apply replay_immediate_quiet.
Qed.

(** ** The jobs that a run does not address *)

Section Isolation.

Variable env : Env.
Variable uuid j : string.
Variable w0 : World.
Hypothesis Hj : j ≠ uuid.

Lemma untouched_repo (o : Repo.op) (w : World) :
  op_target o ≠ j → untouched j w0 w → untouched j w0 (set_repo (Repo.apply o) w).
Proof.
  intros Ho (H1 & H2 & H3). destruct (apply_other o j (repo w) Ho) as [E1 E2].
  split; [simpl; by rewrite E1|]. split; [simpl; by rewrite E2 | exact H3].
Qed.

Lemma untouched_await : keeps (untouched j w0) (await_io env).
Proof.
  intros w Hw. apply (await_io_keeps (untouched j w0)); try (intros; assumption).
  intros j0 w1 H1. unfold Cancel.cancelJob.
  destruct (activeJobs w1 !! j0) as [c|] eqn:Ea; [|exact H1]. simpl.
  assert (Hne : j0 ≠ j).
  { intros ->. destruct H1 as (_ & _ & H3). rewrite H3 in Ea. discriminate Ea. }
  apply (untouched_repo
           (Repo.UpdateJobStatus j0 (clock w1) Cancelled (Some "Job was cancelled by user")));
    [exact Hne|].
  destruct H1 as (H1 & H2 & H3). split; [exact H1|]. split; [exact H2|].
  simpl. rewrite lookup_insert_ne by exact Hne. exact H3.
Qed.

Lemma untouched_callback (p : AnalyzerProgress) :
  keeps (untouched j w0) (Service.progressCallback uuid p).
Proof.
  intros w Hw. unfold Service.progressCallback.
  destruct (decide (uuid ∈ cancelledJobs w)); [exact Hw|].
  assert (H1 : untouched j w0
                 (set_repo (Repo.updateJobCurrentLevel uuid (clock w) (p_currentLevel p))
                    (log_progress uuid p w))).
  { apply (untouched_repo (Repo.UpdateJobCurrentLevel uuid (clock w) (p_currentLevel p)));
      [by apply not_eq_sym | exact Hw]. }
  destruct (p_subAnalysis p) as [sa|]; simpl; [|exact H1].
  apply (untouched_repo (Repo.UpdateJobSubAnalysis uuid (clock w) sa));
    [by apply not_eq_sym | exact H1].
Qed.

Lemma untouched_updateStatus st e :
  keeps (untouched j w0) (Service.updateStatus uuid st e).
Proof.
  intros w Hw.
  apply (untouched_repo (Repo.UpdateJobStatus uuid (clock w) st e));
    [by apply not_eq_sym | exact Hw].
Qed.

Lemma untouched_store result :
  keeps (untouched j w0) (Service.storeAnalyzerResults uuid result).
Proof.
  intros w Hw. unfold Service.storeAnalyzerResults, modify. simpl.
  assert (H1 : ∀ ns w1, untouched j w0 w1 →
            untouched j w0
              (fold_left (fun w n => set_repo (Repo.addNode uuid (clock w)
                                                 (Service.toDiscoveryNode n)) w) ns w1)).
  { induction ns as [|n ns IH]; intros w1 H1; [exact H1|]. simpl. apply IH.
    apply (untouched_repo (Repo.AddNode uuid (clock w1) (Service.toDiscoveryNode n)));
      [by apply not_eq_sym | exact H1]. }
  assert (H2 : ∀ es w1, untouched j w0 w1 →
            untouched j w0
              (fold_left (fun w e => set_repo (Repo.addEdge uuid (clock w)
                                                 (Service.toDiscoveryEdge e)) w) es w1)).
  { induction es as [|e es IH]; intros w1 H1'; [exact H1'|]. simpl. apply IH.
    apply (untouched_repo (Repo.AddEdge uuid (clock w1) (Service.toDiscoveryEdge e)));
      [by apply not_eq_sym | exact H1']. }
  apply H2, H1, Hw.
Qed.

Lemma untouched_runRealDiscovery :
  keeps (untouched j w0) (Service.runRealDiscovery env uuid).
Proof.
  unfold Service.runRealDiscovery.
  apply keeps_bind; [apply keeps_gets|]. intros [job|]; [|apply keeps_throw].
  apply keeps_try_catch.
  - apply keeps_bind; [apply untouched_updateStatus|]. intros _.
    apply keeps_bind; [|intros _; apply untouched_updateStatus].
    unfold Service.runDiscoveryWithAnalyzers.
    apply keeps_try_catch; [|intros e; apply keeps_throw].
    apply keeps_bind; [|intros result; apply untouched_store].
    apply (within_analyzeWithMultiplePlatforms env _ (top_level (maxLevels (config job))));
      [apply untouched_await | apply le_n | intros p _; apply untouched_callback].
  - intros e. apply keeps_bind; [apply untouched_updateStatus|]. intros _.
    apply keeps_throw.
Qed.

End Isolation.

(** X20.  The run of a job leaves every other job that has no running
    task alone: whatever requests are served during the run, the record and
    the graph of such a job are afterwards exactly as they were. *)
Theorem X20_a_run_leaves_other_jobs_alone (env : Env) (cfg : DiscoveryConfig)
    (uuid j : string) (w : World) :
  j ≠ uuid → activeJobs w !! j = None →
  let w' := Service.runJob env cfg uuid w in
  Repo.getJob j (repo w') = Repo.getJob j (repo w)
  ∧ Repo.getJobGraph j (repo w') = Repo.getJobGraph j (repo w).
Proof.
  intros Hj Ha w'.
  assert (Hw : untouched j w w').
  { subst w'. unfold Service.runJob, Service.backgroundTask.
    set (w1 := snd (Service.startDiscovery cfg uuid w)).
    assert (H1 : untouched j w w1).
    { subst w1. unfold Service.startDiscovery, untouched. simpl.
      rewrite !lookup_insert_ne by (by apply not_eq_sym). done. }
    pose proof (untouched_runRealDiscovery env uuid j w Hj w1 H1) as H2.
    destruct (Service.runRealDiscovery env uuid w1) as [r w2]. simpl in H2.
    assert (H3 : ∀ st e, untouched j w
                   (set_cancelledJobs (fun s => s ∖ {[ uuid ]})
                      (set_activeJobs (delete uuid)
                         (set_repo (Repo.updateJobStatus uuid (clock w2) st e) w2)))).
    { intros st e.
      destruct (untouched_repo j w (Repo.UpdateJobStatus uuid (clock w2) st e) w2
                  (not_eq_sym Hj) H2) as (E1 & E2 & E3).
      split; [exact E1|]. split; [exact E2|].
      simpl. rewrite lookup_delete_ne by (by apply not_eq_sym). exact E3. }
    destruct r as [e|[]]; [destruct (String.eqb (err_name e) "AbortError")|].
    - apply H3.
    - apply H3.
    - destruct H2 as (E1 & E2 & E3). split; [exact E1|]. split; [exact E2|].
      simpl. rewrite lookup_delete_ne by (by apply not_eq_sym). exact E3. }
  destruct Hw as (E1 & E2 & _). unfold Repo.getJob, Repo.getJobGraph.
  by rewrite E1, E2.
Qed.

(** A first job has run to its end in seven external calls; during the
    second call of the run of another job (call number 8) a cancel request
    for the first arrives.  It is refused, and the record and the graph of
    the first job are as they were. *)
Lemma X20_a_run_leaves_other_jobs_alone_witness :
  let w := Service.runJob (SampleRun.quiet (inr [SampleRun.pricing])) (SampleRun.cfg 3)
             "job-2" initial in
  let w' := Service.runJob
              (SampleRun.env (inr [SampleRun.pricing]) (SampleRun.during 8 [ReqCancel "job-2"]))
              (SampleRun.cfg 2) "job-1" w in
  status <$> Repo.getJob "job-2" (repo w) = Some Complete
  ∧ ioCount w = 7
  ∧ map reply_summary (replies w') = [inl false]
  ∧ Repo.getJob "job-2" (repo w') = Repo.getJob "job-2" (repo w)
  ∧ Repo.getJobGraph "job-2" (repo w') = Repo.getJobGraph "job-2" (repo w).
Proof.
  intros w w'. split; [vm_compute; reflexivity|].
  split; [vm_compute; reflexivity|]. split; [vm_compute; reflexivity|].
  apply (X20_a_run_leaves_other_jobs_alone
           (SampleRun.env (inr [SampleRun.pricing]) (SampleRun.during 8 [ReqCancel "job-2"]))
           (SampleRun.cfg 2) "job-1" "job-2" w).
  - intros H. discriminate H.
  - vm_compute. reflexivity.
Defined.

(** ** The graph of a complete job *)

Section CompleteGraph.

Import Registry.

Lemma dedup_node_levels (b : nat) (m : jsmap AnalyzerNode) (n : AnalyzerNode) :
  Forall (fun kv => (a_level (snd kv) <= b)%nat) m → (a_level n <= b)%nat →
  Forall (fun kv => (a_level (snd kv) <= b)%nat) (dedup_node m n).
Proof.
  intros Hm Hn. apply List.Forall_forall. intros kv Hkv. unfold dedup_node in Hkv.
  destruct (map_get (node_key n) m) as [ex|] eqn:E;
    apply map_set_In in Hkv as [->|Hkv];
    try exact (proj1 (List.Forall_forall _ _) Hm _ Hkv).
  - apply map_get_In in E. exact (proj1 (List.Forall_forall _ _) Hm _ E).
  - exact Hn.
Qed.

Lemma dedup_nodes_levels (b : nat) (l : list AnalyzerNode) :
  Forall (fun n => (a_level n <= b)%nat) l →
  Forall (fun n => (a_level n <= b)%nat) (dedup_nodes l).
Proof.
  intros Hl. unfold dedup_nodes, map_values.
  assert (H : ∀ m, Forall (fun kv => (a_level (snd kv) <= b)%nat) m →
                   Forall (fun kv => (a_level (snd kv) <= b)%nat) (fold_left dedup_node l m)).
  { induction Hl as [|n l Hn Hl IH]; intros m Hm; [exact Hm|].
    simpl. apply IH. by apply dedup_node_levels. }
  apply List.Forall_map. apply H. constructor.
Qed.

Lemma combineResults_levels (b : nat) (results : list AnalyzerResult) (s e : Time) :
  Forall (fun r => Forall (fun n => (a_level n <= b)%nat) (r_nodes r)) results →
  Forall (fun n => (a_level n <= b)%nat) (c_nodes (combineResults results s e)).
Proof.
  intros Hr. rewrite combineResults_nodes.
  destruct (renumber_fst 0 (dedup_nodes (flat_map r_nodes results)) ∅) as (_ & _ & E & _).
  apply (List.Forall_map a_level (fun l => (l <= b)%nat)). rewrite E.
  apply List.Forall_map. apply dedup_nodes_levels.
  apply List.Forall_flat_map. exact Hr.
Qed.

Lemma yields_analyze_levels (env : Env) niche cfg cb :
  yields (RedditAnalyzer.analyze env niche cfg cb)
    (fun res => Forall (fun n => (a_level n <= top_level (ac_maxLevels cfg))%nat) (r_nodes res)).
Proof.
  intros w res w' H.
  destruct (analyze_shape _ _ _ _ _ _ _ H) as (lvl' & k & subs & Hb & Hinv & _).
  destruct Hinv as [(rest & H1 & _ & H2) _ _ _].
  rewrite H1. unfold top_level. constructor; [simpl; lia|].
  eapply List.Forall_impl; [|exact H2]. simpl. intros n Hn. lia.
Qed.

Lemma yields_runAnalyzers_levels (env : Env) (n : nat) niche cfg cb results errors :
  Forall (fun r => Forall (fun n => (a_level n <= top_level (ac_maxLevels cfg))%nat)
                     (r_nodes r)) results →
  yields (AnalyzerRegistry.runAnalyzers (repeat (reddit env) n) niche cfg cb results errors)
    (fun out => Forall (fun r => Forall (fun n => (a_level n <= top_level (ac_maxLevels cfg))%nat)
                                   (r_nodes r)) (fst out)).
Proof.
  revert results errors. induction n as [|n IH]; intros results errors Hr; simpl.
  - by apply yields_ret.
  - apply (yields_bind _ _
             (fun r => ∀ result, r = inr result →
                 Forall (fun n => (a_level n <= top_level (ac_maxLevels cfg))%nat)
                   (r_nodes result))).
    + apply yields_try_catch; [|intros e; apply yields_ret; discriminate].
      eapply yields_bind; [apply (yields_analyze_levels env)|].
      intros res Hres. apply yields_ret. intros result [= <-]. exact Hres.
    + intros [msg|result] Hres; apply IH; [exact Hr|].
      apply Forall_app. split; [exact Hr|]. constructor; [by apply Hres | constructor].
Qed.

Lemma yields_analysis_levels (env : Env) niche platforms cfg cb :
  yields (AnalyzerRegistry.analyzeWithMultiplePlatforms (Service.analyzerRegistry env)
            niche platforms cfg cb)
    (fun c => Forall (fun n => (a_level n <= top_level (ac_maxLevels cfg))%nat) (c_nodes c)).
Proof.
  unfold AnalyzerRegistry.analyzeWithMultiplePlatforms. apply yields_then. intros startTime.
  rewrite analyzers_repeat.
  destruct (length (List.filter (String.eqb "reddit") platforms)) as [|n];
    [apply yields_throw|].
  change (reddit env :: repeat (reddit env) n) with (repeat (reddit env) (S n)).
  eapply yields_bind; [apply yields_runAnalyzers_levels; constructor|].
  intros [rs errs] Hrs. simpl in Hrs. destruct rs as [|r rs]; [apply yields_throw|].
  apply yields_then. intros endTime. apply yields_ret.
  by apply combineResults_levels.
Qed.

Lemma combineResults_ids_of (env : Env) niche platforms cfg cb :
  yields (AnalyzerRegistry.analyzeWithMultiplePlatforms (Service.analyzerRegistry env)
            niche platforms cfg cb)
    (fun c => node_ids c = imap (fun i n => new_node_id (a_level n) i) (c_nodes c)
              ∧ NoDup (node_ids c)).
Proof.
  unfold AnalyzerRegistry.analyzeWithMultiplePlatforms. apply yields_then. intros startTime.
  destruct (omap _ platforms) as [|a rest]; [apply yields_throw|].
  eapply yields_bind; [intros w0 a0 w1 _; exact I|].
  intros [rs errs] _. destruct rs as [|r rs]; [apply yields_throw|].
  apply yields_then. intros endTime. apply yields_ret. apply combineResults_ids.
Qed.

(** The graph of a job whose background task has ended in complete is
    the combined result of an analysis, converted node by node and edge by
    edge. *)
Lemma complete_job_graph (env : Env) (cfg : DiscoveryConfig) (uuid : string) (w : World) :
  Service.jobStatus uuid (Service.runJob env cfg uuid w) = Some Complete →
  ∃ c wa wd,
    AnalyzerRegistry.analyzeWithMultiplePlatforms (Service.analyzerRegistry env)
      (niche cfg) (sources cfg)
      {| ac_maxLevels := maxLevels cfg; ac_maxNodesPerLevel := maxNodesPerLevel cfg |}
      (Service.progressCallback uuid) wa = (inr c, wd)
    ∧ Repo.getJobGraph uuid (repo (Service.runJob env cfg uuid w))
      = {| nodes := map Service.toDiscoveryNode (c_nodes c);
           edges := map Service.toDiscoveryEdge (c_edges c) |}.
Proof.
  destruct (startDiscovery_known cfg uuid w) as (Hj & _).
  set (w0 := snd (Service.startDiscovery cfg uuid w)) in *.
  assert (Hg : Repo.jobGraphs (repo w0) !! uuid = Some empty_graph).
  { unfold w0, Service.startDiscovery, Repo.createJob. simpl. apply lookup_insert_eq. }
  assert (Hknown : job_known uuid (repo w0)).
  { unfold job_known. unfold Repo.getJob in Hj. rewrite Hj. eauto. }
  unfold Service.runJob, Service.backgroundTask. fold w0.
  destruct (Service.runRealDiscovery env uuid w0) as [r w1] eqn:Erun.
  pose proof (runRealDiscovery_graph env uuid w0 w1 _ _ r Hj Hg Erun) as Hgr.
  destruct (runRealDiscovery_status env uuid w0 w1 r Hknown Erun) as (st & Hst & Hr & Hk1).
  destruct r as [e|[]].
  - rewrite (runRealDiscovery_throws env uuid _ _ _ Erun). simpl.
    match goal with
    | |- ?x = Some Complete → _ =>
        assert (He : x = Some Error) by (by apply status_after_update);
        rewrite He; intros H; discriminate H
    end.
  - intros _. destruct Hgr as (c & wa & wd & Hc & Hgr). simpl in Hgr, Hc.
    exists c, wa, wd. split; [exact Hc|]. simpl. exact Hgr.
Qed.

End CompleteGraph.

(** X21.  The graph of a job whose background task has ended in complete:
    the node at position i has the id node-<level>-<i>, so that no two
    nodes have the same id; and no node lies below the level that the
    job's config allows (level 1 when maxLevels is below 1). *)
Theorem X21_graph_of_a_complete_job (env : Env) (cfg : DiscoveryConfig) (uuid : string)
    (w : World) :
  let w' := Service.runJob env cfg uuid w in
  let g := Repo.getJobGraph uuid (repo w') in
  Service.jobStatus uuid w' = Some Complete →
  map id (nodes g) = imap (fun i n => Registry.new_node_id (level n) i) (nodes g)
  ∧ NoDup (map id (nodes g))
  ∧ Forall (fun n => (Z.of_nat (level n) <= Z.max 1 (maxLevels cfg))%Z) (nodes g).
Proof.
  intros w' g Hc. subst w' g.
  destruct (complete_job_graph env cfg uuid w Hc) as (c & wa & wd & Hrun & ->). simpl.
  destruct (combineResults_ids_of env _ _ _ _ _ _ _ Hrun) as [E Hd].
  pose proof (yields_analysis_levels env _ _ _ _ _ _ _ Hrun) as Hl. simpl in Hl.
  assert (Eid : map id (map Service.toDiscoveryNode (c_nodes c)) = Registry.node_ids c).
  { unfold Registry.node_ids. rewrite map_map. reflexivity. }
  rewrite Eid. split; [|split; [exact Hd|]].
  - rewrite E. apply list_eq. intros i.
    rewrite !list_lookup_imap, map_fmap, list_lookup_fmap.
    by destruct (c_nodes c !! i).
  - apply List.Forall_map. eapply List.Forall_impl; [|exact Hl].
    intros n Hn. simpl. unfold top_level in Hn. lia.
Qed.

Lemma X21_graph_of_a_complete_job_witness :
  NoDup (map id (nodes (Repo.getJobGraph SampleRun.jobId (repo SampleRun.undisturbed))))
  ∧ Forall (fun n => (Z.of_nat (level n) <= 2)%Z)
      (nodes (Repo.getJobGraph SampleRun.jobId (repo SampleRun.undisturbed))).
Proof.
  destruct (X21_graph_of_a_complete_job (SampleRun.quiet (inr [SampleRun.pricing]))
              (SampleRun.cfg 2) SampleRun.jobId initial) as (_ & H1 & H2).
  - vm_compute. reflexivity.
  - split; [exact H1 | exact H2].
Defined.

(** ** The topics of the fallback service *)

Section Fallback.

Import Registry FallbackLLMService.

Lemma lower_ascii_idem (c : ascii) : Js.lower_ascii (Js.lower_ascii c) = Js.lower_ascii c.
Proof. destruct c as [[] [] [] [] [] [] [] []]; reflexivity. Qed.

Lemma lower_upper_ascii (c : ascii) :
  Js.lower_ascii c = c → Js.lower_ascii (upper_ascii c) = c.
Proof. destruct c as [[] [] [] [] [] [] [] []]; intros H; try reflexivity; discriminate H. Qed.

Lemma capitalize_inj (w w' : string) :
  all_chars (fun c => Js.lower_ascii c = c) w →
  all_chars (fun c => Js.lower_ascii c = c) w' →
  capitalize w = capitalize w' → w = w'.
Proof.
  destruct w as [|c r], w' as [|c' r']; simpl; intros Hw Hw' H;
    try reflexivity; try discriminate H.
  injection H as Hc ->. f_equal.
  rewrite <- (lower_upper_ascii c (proj1 Hw)), <- (lower_upper_ascii c' (proj1 Hw')).
  by rewrite Hc.
Qed.

Lemma toLowerCase_chars (s : string) :
  all_chars (fun c => Js.lower_ascii c = c) (Js.toLowerCase s).
Proof.
  induction s as [|c s IH]; simpl; [exact I|]. split; [apply lower_ascii_idem | exact IH].
Qed.

Lemma all_chars_app (P : ascii → Prop) (s s' : string) :
  all_chars P s → all_chars P s' → all_chars P (s ++ s').
Proof. induction s as [|c s IH]; simpl; [tauto|]. intros [Hc Hs] Hs'. auto. Qed.

Lemma split_ws_chars (P : ascii → Prop) (s : string) :
  all_chars P s →
  ∀ word in_space, all_chars P word → Forall (all_chars P) (split_ws s word in_space).
Proof.
  induction s as [|c s IH]; simpl; intros Hs word in_space Hw.
  - by repeat constructor.
  - destruct Hs as [Hc Hs]. destruct (Js.is_space c).
    + destruct in_space; [by apply IH|]. constructor; [exact Hw|]. by apply IH.
    + apply IH; [exact Hs|]. apply all_chars_app; [exact Hw|]. simpl. auto.
Qed.

(** A counted word is a piece of a lower-cased title, of more than three
    characters. *)
Lemma words_spec (post : Post) (word : string) :
  In word (words post) →
  In word (split (Js.toLowerCase (title post)))
  ∧ (3 < String.length word)%nat
  ∧ all_chars (fun c => Js.lower_ascii c = c) word.
Proof.
  unfold words. intros H. apply filter_In in H as [Hin Hf].
  apply andb_prop in Hf as [Hlen _]. apply Nat.ltb_lt in Hlen.
  split; [exact Hin|]. split; [exact Hlen|].
  assert (Hall : Forall (all_chars (fun c => Js.lower_ascii c = c))
                   (split (Js.toLowerCase (title post))))
    by (apply split_ws_chars; [apply toLowerCase_chars | exact I]).
  exact (proj1 (List.Forall_forall _ _) Hall _ Hin).
Qed.

Lemma counted_count_word (ws : list string) (m : jsmap nat) (w : string) :
  counted ws m → In w ws → counted ws (count_word m w).
Proof.
  intros [Hd Hf] Hw. unfold count_word. split.
  - destruct (map_get w m) as [v|] eqn:E.
    + by rewrite (map_set_keys_old _ _ _ _ E).
    + rewrite (map_set_new _ _ _ E), map_app. simpl. apply NoDup_app.
      split; [exact Hd|]. split; [|apply NoDup_singleton].
      intros k Hk Hk'. apply list_elem_of_singleton in Hk'. subst k.
      apply map_get_None in E. apply E. by apply list_elem_of_In.
  - apply List.Forall_forall. intros kv Hkv.
    apply map_set_In in Hkv as [->|Hkv]; [simpl; split; [exact Hw | lia]|].
    exact (proj1 (List.Forall_forall _ _) Hf _ Hkv).
Qed.

Lemma counted_fold (ws : list string) (l : list string) :
  (∀ w, In w l → In w ws) →
  ∀ m, counted ws m → counted ws (fold_left count_word l m).
Proof.
  induction l as [|w l IH]; intros Hl m Hm; [exact Hm|]. simpl.
  apply IH; [intros w' Hw'; apply Hl; by right|].
  apply counted_count_word; [exact Hm | apply Hl; by left].
Qed.

Lemma counted_wordCounts (posts : list Post) :
  counted (flat_map words posts) (wordCounts posts).
Proof.
  unfold wordCounts.
  assert (H : ∀ ps m,
            (∀ post, In post ps → ∀ w, In w (words post) → In w (flat_map words posts)) →
            counted (flat_map words posts) m →
            counted (flat_map words posts)
              (fold_left (fun m post => fold_left count_word (words post) m) ps m)).
  { induction ps as [|p ps IH]; intros m Hps Hm; [exact Hm|]. simpl.
    apply IH; [intros post Hp; apply Hps; by right|].
    apply counted_fold; [apply Hps; by left | exact Hm]. }
  apply H.
  - intros post Hp w Hw. apply in_flat_map. by exists post.
  - split; constructor.
Qed.

Lemma firstn_incl {A} (n : nat) (l : list A) (x : A) : In x (firstn n l) → In x l.
Proof.
  revert n. induction l as [|y l IH]; intros [|n]; simpl; try tauto.
  intros [->|H]; [by left | right; by apply (IH n)].
Qed.

End Fallback.

(** X22.  The topics that the fallback service extracts from posts: at
    most maxTopics of them; no two with the same label; each label is,
    with its first letter in upper case, a piece of more than three
    characters of the lower-cased title of one of the posts; and each
    confidence is above 0 and at most 0.6. *)
Theorem X22_fallback_topics (posts : list FallbackLLMService.Post) (maxTopics : nat) :
  let topics := FallbackLLMService.extractTopicsFromPosts posts maxTopics in
  (length topics <= maxTopics)%nat
  ∧ NoDup (map sn_label topics)
  ∧ Forall (fun t => ∃ post word,
              In post posts
              ∧ In word (FallbackLLMService.split
                           (Js.toLowerCase (FallbackLLMService.title post)))
              ∧ (3 < String.length word)%nat
              ∧ sn_label t = FallbackLLMService.capitalize word) topics
  ∧ Forall (fun t => (0 < sn_confidence t)%Q ∧ (sn_confidence t <= 6 # 10)%Q) topics.
Proof.
  cbv zeta. unfold FallbackLLMService.extractTopicsFromPosts.
  set (sorted := Js.sort_by (fun a b => (snd b <=? snd a)%nat)
                   (FallbackLLMService.wordCounts posts)).
  destruct (counted_wordCounts posts) as [Hd Hf].
  assert (Hperm : sorted ≡ₚ FallbackLLMService.wordCounts posts) by apply sort_by_perm.
  assert (Hin : ∀ kv, In kv (firstn maxTopics sorted) →
                      In kv (FallbackLLMService.wordCounts posts)).
  { intros kv Hkv. apply (Permutation_in _ Hperm). by apply (firstn_incl maxTopics). }
  assert (Hword : ∀ kv, In kv (firstn maxTopics sorted) →
            ∃ post, In post posts ∧ In (fst kv) (FallbackLLMService.words post)
                    ∧ (1 <= snd kv)%nat).
  { intros kv Hkv. apply Hin in Hkv.
    destruct (proj1 (List.Forall_forall _ _) Hf _ Hkv) as [Hw Hc].
    apply in_flat_map in Hw as (post & Hp & Hw). eauto. }
  split; [rewrite length_map; apply firstn_le_length|].
  split; [|split].
  - rewrite map_map. cbn [sn_label].
    rewrite <- (map_map fst FallbackLLMService.capitalize),
      (map_fmap FallbackLLMService.capitalize).
    apply NoDup_fmap_2_strong.
    + intros w w' Hw Hw' E.
      apply list_elem_of_In, in_map_iff in Hw as (kv & <- & Hkv).
      apply list_elem_of_In, in_map_iff in Hw' as (kv' & <- & Hkv').
      destruct (Hword _ Hkv) as (p & _ & Hp & _). destruct (Hword _ Hkv') as (p' & _ & Hp' & _).
      apply words_spec in Hp as (_ & _ & Hl). apply words_spec in Hp' as (_ & _ & Hl').
      by apply capitalize_inj.
    + rewrite <- firstn_map.
      apply (sublist_NoDup _ (map fst sorted)); [|apply sublist_take].
      rewrite Hperm. exact Hd.
  - apply List.Forall_map. apply List.Forall_forall. intros kv Hkv. simpl.
    destruct (Hword _ Hkv) as (p & Hp & Hw & _).
    apply words_spec in Hw as (H1 & H2 & _). exists p, (fst kv). auto.
  - apply List.Forall_map. apply List.Forall_forall. intros kv Hkv. simpl.
    split; [|apply Q.le_min_l].
    destruct (Hword _ Hkv) as (p & Hp & _ & Hc).
    apply Q.min_glb_lt; [reflexivity|].
    apply Qlt_shift_div_l.
    + change 0%Q with (inject_Z 0). rewrite <- Zlt_Qlt. destruct posts; [destruct Hp | simpl; lia].
    + rewrite Qmult_0_l. change 0%Q with (inject_Z 0). rewrite <- Zlt_Qlt. lia.
Qed.

(** * Requests served while a task is on its way *)

(** ** The states in which requests are served *)

Lemma serving_reachable (w : World) : serving w → reachable w.
Proof.
  induction 1; try (by constructor).
  - apply reach_cleanup. by constructor.
  - apply reach_cleanup. constructor. by constructor.
  - apply reach_cleanup. constructor. by constructor.
Qed.

Lemma serving_await (env : Env) : keeps serving (await_io env).
Proof.
  intros w Hw.
  apply await_io_keeps;
    [intros; by apply serving_clock | intros; by apply serving_io
    | intros; by apply serving_reply | intros; by apply serving_cancel | exact Hw].
Qed.

Lemma serving_callback (uuid : string) (p : AnalyzerProgress) :
  keeps serving (Service.progressCallback uuid p).
Proof.
  intros w Hw. unfold Service.progressCallback.
  destruct (decide (uuid ∈ cancelledJobs w)); [exact Hw|].
  destruct (p_subAnalysis p); simpl; repeat constructor; exact Hw.
Qed.

Lemma serving_store (uuid : string) (c : CombinedAnalyzerResult) :
  keeps serving (Service.storeAnalyzerResults uuid c).
Proof.
  intros w Hw. unfold Service.storeAnalyzerResults, modify. cbn [snd].
  assert (H1 : ∀ ns w0, serving w0 →
            serving (fold_left (fun w n => set_repo (Repo.addNode uuid (clock w)
                                             (Service.toDiscoveryNode n)) w) ns w0)).
  { induction ns as [|n ns IH]; intros w0 H0; [exact H0|]. simpl. apply IH. by constructor. }
  assert (H2 : ∀ es w0, serving w0 →
            serving (fold_left (fun w e => set_repo (Repo.addEdge uuid (clock w)
                                             (Service.toDiscoveryEdge e)) w) es w0)).
  { induction es as [|e es IH]; intros w0 H0; [exact H0|]. simpl. apply IH. by constructor. }
  by apply H2, H1.
Qed.

(** A whole job, from its start to the end of its background task, goes
    from one such state to another. *)
Lemma serving_runJob (env : Env) (cfg : DiscoveryConfig) (uuid : string) (w : World) :
  serving w → serving (Service.runJob env cfg uuid w).
Proof.
  intros Hw. destruct (startDiscovery_known cfg uuid w) as (Hj & _).
  unfold Service.runJob, Service.backgroundTask.
  set (w0 := snd (Service.startDiscovery cfg uuid w)) in *.
  assert (H0 : serving w0) by (by apply serving_start).
  unfold Service.runRealDiscovery, bind at 1, gets. rewrite Hj.
  unfold try_catch, bind at 1. unfold Service.updateStatus at 1, modify.
  set (wa := set_repo (Repo.updateJobStatus uuid (clock w0) Discovering None) w0).
  assert (Ha : serving wa) by (by apply serving_discovering).
  unfold bind at 1. unfold Service.runDiscoveryWithAnalyzers, try_catch, bind at 1.
  match goal with
  | |- context [AnalyzerRegistry.analyzeWithMultiplePlatforms ?r ?n ?p ?c ?k wa] =>
      pose proof (within_analyzeWithMultiplePlatforms env serving (top_level (ac_maxLevels c))
                    n p c k (serving_await env) (Nat.le_refl _)
                    (fun q _ => serving_callback uuid q) wa Ha) as Hd;
      destruct (AnalyzerRegistry.analyzeWithMultiplePlatforms r n p c k wa)
        as [[e1|result] wd] eqn:E1
  end; simpl in Hd.
  - unfold throw, bind, Service.updateStatus, modify. cbn [fst snd].
    destruct (String.eqb (err_name e1) "AbortError").
    + by apply serving_aborted.
    + by apply serving_failed.
  - pose proof (serving_store uuid result wd Hd) as Hs.
    unfold Service.storeAnalyzerResults, modify in *. cbn [fst snd] in *.
    unfold Service.updateStatus, modify. cbn [fst snd].
    by apply serving_complete.
Qed.

Section Finished.

Lemma getJob_level (j i : string) (now : Time) (lvl : nat) (r : Repo.t) (job : DiscoveryJob) :
  Repo.getJob j (Repo.updateJobCurrentLevel i now lvl r) = Some job →
  ∃ job0, Repo.getJob j r = Some job0 ∧ status job0 = status job.
Proof.
  unfold Repo.updateJobCurrentLevel, Repo.getJob.
  destruct (Repo.jobs r !! i) as [ji|] eqn:Ei; [|eauto]. simpl.
  destruct (decide (i = j)) as [->|Hne].
  - rewrite lookup_insert_eq. intros [= <-]. eauto.
  - rewrite lookup_insert_ne by done. eauto.
Qed.

Lemma getJob_sub (j i : string) (now : Time) (sa : SubAnalysis) (r : Repo.t)
    (job : DiscoveryJob) :
  Repo.getJob j (Repo.updateJobSubAnalysis i now sa r) = Some job →
  ∃ job0, Repo.getJob j r = Some job0 ∧ status job0 = status job.
Proof.
  unfold Repo.updateJobSubAnalysis, Repo.getJob.
  destruct (Repo.jobs r !! i) as [ji|] eqn:Ei; [|eauto]. simpl.
  destruct (decide (i = j)) as [->|Hne].
  - rewrite lookup_insert_eq. intros [= <-]. eauto.
  - rewrite lookup_insert_ne by done. eauto.
Qed.

Lemma getJob_node (j i : string) (now : Time) (n : DiscoveryNode) (r : Repo.t)
    (job : DiscoveryJob) :
  Repo.getJob j (Repo.addNode i now n r) = Some job →
  ∃ job0, Repo.getJob j r = Some job0 ∧ status job0 = status job.
Proof.
  unfold Repo.addNode, Repo.getJob.
  destruct (Repo.jobGraphs r !! i) as [g|]; [|eauto].
  destruct (Repo.jobs r !! i) as [ji|] eqn:Ei; [|eauto]. simpl.
  destruct (decide (i = j)) as [->|Hne].
  - rewrite lookup_insert_eq. intros [= <-]. eauto.
  - rewrite lookup_insert_ne by done. eauto.
Qed.

Lemma getJob_edge (j i : string) (now : Time) (e : DiscoveryEdge) (r : Repo.t)
    (job : DiscoveryJob) :
  Repo.getJob j (Repo.addEdge i now e r) = Some job →
  ∃ job0, Repo.getJob j r = Some job0 ∧ status job0 = status job.
Proof.
  unfold Repo.addEdge, Repo.getJob.
  destruct (Repo.jobGraphs r !! i) as [g|]; [|eauto].
  destruct (Repo.jobs r !! i) as [ji|] eqn:Ei; [|eauto]. simpl.
  destruct (decide (i = j)) as [->|Hne].
  - rewrite lookup_insert_eq. intros [= <-]. eauto.
  - rewrite lookup_insert_ne by done. eauto.
Qed.

(** The record of [j] after a status has been written on [i]: the old
    record when [j] is another job; otherwise the status is the one
    written. *)
Lemma getJob_status (j i : string) (now : Time) (st : JobStatus) (e : option string)
    (r : Repo.t) (job : DiscoveryJob) :
  Repo.getJob j (Repo.updateJobStatus i now st e r) = Some job →
  (i = j ∧ status job = st) ∨ (i ≠ j ∧ Repo.getJob j r = Some job).
Proof.
  unfold Repo.updateJobStatus, Repo.getJob.
  destruct (Repo.jobs r !! i) as [ji|] eqn:Ei; simpl.
  - destruct (decide (i = j)) as [->|Hne].
    + rewrite lookup_insert_eq. intros [= <-]. by left.
    + rewrite lookup_insert_ne by done. by right.
  - destruct (decide (i = j)) as [->|Hne]; [congruence | by right].
Qed.

(** In a state in which a request is served, a job whose record holds
    complete or error has no controller left. *)
Lemma finished_inactive (w : World) (j : string) :
  serving w → finished j (repo w) → activeJobs w !! j = None.
Proof.
  intros Hw. revert j.
  induction Hw as [|cfg uuid w Hw IH|i now w Hw IH|i now lvl w Hw IH|i now sa w Hw IH
                   |i now n w Hw IH|i now e w Hw IH|i p w Hw IH|t w Hw IH|w Hw IH|r w Hw IH
                   |i w Hw IH|i now w Hw IH|i now e now' e' w Hw IH|i now e now' e' w Hw IH];
    intros j (job & Hj & Hs).
  - reflexivity.
  - unfold Service.startDiscovery, Repo.createJob, Repo.getJob in *. simpl in *.
    destruct (decide (uuid = j)) as [->|Hne].
    + rewrite lookup_insert_eq in Hj. injection Hj as <-. simpl in Hs.
      destruct Hs as [Hs|Hs]; discriminate Hs.
    + rewrite lookup_insert_ne in Hj by done. rewrite lookup_insert_ne by done.
      apply IH. exists job. by split.
  - simpl in *. apply getJob_status in Hj as [[_ Hst]|[_ Hj]].
    + rewrite Hst in Hs. destruct Hs as [Hs|Hs]; discriminate Hs.
    + apply IH. exists job. by split.
  - simpl in *. apply getJob_level in Hj as (job0 & Hj & E). apply IH.
    exists job0. rewrite E. by split.
  - simpl in *. apply getJob_sub in Hj as (job0 & Hj & E). apply IH.
    exists job0. rewrite E. by split.
  - simpl in *. apply getJob_node in Hj as (job0 & Hj & E). apply IH.
    exists job0. rewrite E. by split.
  - simpl in *. apply getJob_edge in Hj as (job0 & Hj & E). apply IH.
    exists job0. rewrite E. by split.
  - apply IH. exists job. by split.
  - apply IH. exists job. by split.
  - apply IH. exists job. by split.
  - apply IH. exists job. by split.
  - unfold Cancel.cancelJob in *. destruct (activeJobs w !! i) as [c|] eqn:Ei.
    + simpl in *. apply getJob_status in Hj as [[_ Hst]|[Hne Hj]].
      * rewrite Hst in Hs. destruct Hs as [Hs|Hs]; discriminate Hs.
      * rewrite lookup_insert_ne by done. apply IH. exists job. by split.
    + apply IH. exists job. by split.
  - simpl in *. destruct (decide (i = j)) as [->|Hne]; [apply lookup_delete_eq|].
    rewrite lookup_delete_ne by done.
    apply getJob_status in Hj as [[? _]|[_ Hj]]; [done|]. apply IH. exists job. by split.
  - simpl in *. destruct (decide (i = j)) as [->|Hne]; [apply lookup_delete_eq|].
    rewrite lookup_delete_ne by done.
    apply getJob_status in Hj as [[? _]|[_ Hj]]; [done|].
    apply getJob_status in Hj as [[? _]|[_ Hj]]; [done|]. apply IH. exists job. by split.
  - simpl in *. destruct (decide (i = j)) as [->|Hne]; [apply lookup_delete_eq|].
    rewrite lookup_delete_ne by done.
    apply getJob_status in Hj as [[? _]|[_ Hj]]; [done|].
    apply getJob_status in Hj as [[? _]|[_ Hj]]; [done|]. apply IH. exists job. by split.
Qed.

End Finished.

(** C9 (as amended).  In every state in which the server, driven
    through its routes, serves a request, a cancel request for a job whose
    record holds the terminal status complete or error, or for an id that
    the store does not know, is answered with success false and the
    message "Job not found or already completed", and leaves the whole
    server state as it is: every job record, every graph and the service's
    tables.  One of these two
    statuses is what the record of a job holds once its background task
    has ended, so from then on a cancel request for the job is refused.
    (The third terminal status gives no such protection: cancelled is
    written while the task of the job is still on its way, and a further
    cancel request that arrives before the task ends is accepted, as in
    the sample run with two cancel requests.) *)
Theorem C9_cancel_of_finished_or_unknown_job (env : Env) (cfg : DiscoveryConfig)
    (uuid jobId : string) (w : World) :
  serving w →
  (Repo.getJob jobId (repo w) = None ∨ finished jobId (repo w) →
   Cancel.cancelJob jobId w = (refused, w))
  ∧ (let w' := Service.runJob env cfg uuid w in
     serving w' ∧ finished uuid (repo w') ∧ Cancel.cancelJob uuid w' = (refused, w')).
Proof.
  intros Hw.
  assert (H : ∀ j w0, serving w0 →
            Repo.getJob j (repo w0) = None ∨ finished j (repo w0) →
            Cancel.cancelJob j w0 = (refused, w0)).
  { intros j w0 H0 Hj. unfold Cancel.cancelJob.
    destruct (activeJobs w0 !! j) as [c|] eqn:Ea; [exfalso|reflexivity].
    destruct Hj as [Hj|Hj].
    - destruct (reachable_consistent w0 (serving_reachable w0 H0) j) as [job Hjob];
        [by rewrite Ea; eauto|].
      unfold Repo.getJob in Hj. congruence.
    - rewrite (finished_inactive w0 j H0 Hj) in Ea. discriminate Ea. }
  split; [by apply H|]. cbv zeta.
  pose proof (serving_runJob env cfg uuid w Hw) as Hs.
  assert (Hf : finished uuid (repo (Service.runJob env cfg uuid w))).
  { pose proof (task_never_ends_cancelled env cfg uuid w) as Ht. unfold Service.jobStatus in Ht.
    destruct (Repo.getJob uuid (repo (Service.runJob env cfg uuid w))) as [job|] eqn:Ej;
      [|destruct Ht as [Ht|Ht]; discriminate Ht].
    exists job. split; [exact Ej|].
    destruct Ht as [Ht|Ht]; injection Ht as Ht; auto. }
  split; [exact Hs|]. split; [exact Hf|]. apply H; [exact Hs | by right].
Qed.

(** After the sample run that went undisturbed the job is complete, and
    after the one that was cancelled mid-level it is in error: a cancel
    request for either is refused, as is one for an unknown id. *)
Lemma C9_cancel_of_finished_or_unknown_job_witness :
  Service.jobStatus SampleRun.jobId SampleRun.undisturbed = Some Complete
  ∧ Cancel.cancelJob SampleRun.jobId SampleRun.undisturbed = (refused, SampleRun.undisturbed)
  ∧ Service.jobStatus SampleRun.jobId SampleRun.cancelled_mid_level = Some Error
  ∧ Cancel.cancelJob SampleRun.jobId SampleRun.cancelled_mid_level
    = (refused, SampleRun.cancelled_mid_level)
  ∧ Cancel.cancelJob "no-such-job" SampleRun.undisturbed = (refused, SampleRun.undisturbed).
Proof.
  assert (Hu : serving SampleRun.undisturbed) by apply serving_runJob, serving_initial.
  assert (Hc : serving SampleRun.cancelled_mid_level) by apply serving_runJob, serving_initial.
  destruct (C9_cancel_of_finished_or_unknown_job (SampleRun.quiet (inr [SampleRun.pricing]))
              (SampleRun.cfg 2) "job-2" SampleRun.jobId SampleRun.undisturbed Hu) as [H1 _].
  destruct (C9_cancel_of_finished_or_unknown_job (SampleRun.quiet (inr [SampleRun.pricing]))
              (SampleRun.cfg 2) "job-2" SampleRun.jobId SampleRun.cancelled_mid_level Hc)
    as [H2 _].
  destruct (C9_cancel_of_finished_or_unknown_job (SampleRun.quiet (inr [SampleRun.pricing]))
              (SampleRun.cfg 2) "job-2" "no-such-job" SampleRun.undisturbed Hu) as [H3 _].
  split; [vm_compute; reflexivity|]. split.
  { apply H1. right. eexists. split; [vm_compute; reflexivity|]. left. reflexivity. }
  split; [vm_compute; reflexivity|]. split.
  { apply H2. right. eexists. split; [vm_compute; reflexivity|]. right. reflexivity. }
  apply H3. left. vm_compute. reflexivity.
Defined.

(** A cancel request that finds a controller for a known job is accepted
    and leaves the record with the status cancelled. *)
Lemma cancelJob_accepted (j : string) (w : World) :
  is_Some (activeJobs w !! j) → job_known j (repo w) →
  fst (Cancel.cancelJob j w) = {| success := true; message := "Job cancelled successfully" |}
  ∧ Service.jobStatus j (snd (Cancel.cancelJob j w)) = Some Cancelled.
Proof.
  intros [c Hc] Hk. unfold Cancel.cancelJob. rewrite Hc. simpl. split; [reflexivity|].
  by apply status_after_update.
Qed.

(** C5, at the failing input: the sample job is cancelled while the
    topics of the first of its two level-1 parents are being fetched.  The
    cancel request is accepted and the record then holds the terminal
    status cancelled with the message "Job was cancelled by user", as the
    status request served right after it shows.  When the background task
    has ended the same record holds error, with another message: the
    failure handlers of the task have written on a record that held a
    terminal status.  This is so in general: an accepted cancel request
    leaves the record with the status cancelled, and whenever a cancel
    request for a job whose sources name the Reddit analyzer once arrives
    during one of the external calls of its run, the record holds error
    when the task has ended. *)
Theorem C5_terminal_status_is_overwritten :
  (∃ job, last (replies SampleRun.cancelled_mid_level) = Some (StatusReplied (Some job))
          ∧ status job = Cancelled ∧ terminal (status job) = true
          ∧ error job = Some "Job was cancelled by user")
  ∧ (∃ job, Repo.getJob SampleRun.jobId (repo SampleRun.cancelled_mid_level) = Some job
            ∧ status job = Error ∧ terminal (status job) = true
            ∧ error job = Some "All analyzers failed. Errors: Error in reddit analyzer: Discovery job was cancelled")
  ∧ (∀ j w, is_Some (activeJobs w !! j) → job_known j (repo w) →
       fst (Cancel.cancelJob j w)
       = {| success := true; message := "Job cancelled successfully" |}
       ∧ Service.jobStatus j (snd (Cancel.cancelJob j w)) = Some Cancelled)
  ∧ (∀ env cfg uuid w k,
      List.filter (String.eqb "reddit") (sources cfg) = ["reddit"] →
      (ioCount w <= k < ioCount (Service.runJob env cfg uuid w))%nat →
      In (ReqCancel uuid) (arrivals env k) →
      Service.jobStatus uuid (Service.runJob env cfg uuid w) = Some Error).
Proof.
  split.
  { eexists. split; [vm_compute; reflexivity|]. split; [reflexivity|]. split; reflexivity. }
  split.
  { eexists. split; [vm_compute; reflexivity|]. split; [reflexivity|]. split; reflexivity. }
  split; [apply cancelJob_accepted | apply cancel_ends_in_error].
Qed.

(** The sample job cancelled mid-level is an instance of the general
    statements. *)
Lemma C5_terminal_status_is_overwritten_witness :
  Service.jobStatus SampleRun.jobId
    (snd (Cancel.cancelJob SampleRun.jobId
            (snd (Service.startDiscovery (SampleRun.cfg 2) SampleRun.jobId initial))))
  = Some Cancelled
  ∧ Service.jobStatus SampleRun.jobId SampleRun.cancelled_mid_level = Some Error.
Proof.
  destruct C5_terminal_status_is_overwritten as (_ & _ & H1 & H2). split.
  - destruct (H1 SampleRun.jobId
                (snd (Service.startDiscovery (SampleRun.cfg 2) SampleRun.jobId initial)))
      as [_ H]; [vm_compute; eauto | vm_compute; eauto | exact H].
  - apply (H2 _ (SampleRun.cfg 2) SampleRun.jobId initial 3).
    + reflexivity.
    + vm_compute. lia.
    + vm_compute. left. reflexivity.
Defined.

(** ** The stream of a job that was cancelled *)

Section CancelledStream.

Import Stream.

(** A tick that finds the task still on its way writes one progress
    event and leaves the interval armed. *)
Lemma tick_unfinished (jobId : string) (maxLv : Z) (r : Repo.t) :
  unfinished jobId r →
  ∃ p, tick jobId maxLv r = ([p], false) ∧ is_terminal_event p = false.
Proof.
  intros (job & Hj & Hc & He & Hg). unfold tick. rewrite Hj.
  destruct (status job); try done; eexists; split; reflexivity.
Qed.

Lemma poll_unfinished (jobId : string) (maxLv : Z) (pre rest : list Repo.t) :
  Forall (unfinished jobId) pre →
  ∃ progress, poll jobId maxLv (pre ++ rest) = progress ++ poll jobId maxLv rest
    ∧ Forall (fun e => is_terminal_event e = false) progress
    ∧ polling jobId maxLv (pre ++ rest) = polling jobId maxLv rest.
Proof.
  induction 1 as [|r pre Hr Hpre (progress & E1 & E2 & E3)].
  - exists []. repeat split. constructor.
  - destruct (tick_unfinished jobId maxLv r Hr) as (p & Ht & Hp).
    exists (p :: progress). cbn [app poll polling]. rewrite Ht. cbn [snd].
    rewrite E1, E3. repeat split. by constructor.
Qed.

(** The tick that finds the job in error writes a progress event and the
    error event, and clears the interval. *)
Lemma tick_error (jobId : string) (maxLv : Z) (r : Repo.t) (job : DiscoveryJob) :
  Repo.getJob jobId r = Some job → status job = Error →
  ∃ p msg, tick jobId maxLv r = ([p; EvError msg "DISCOVERY_ERROR"], true)
           ∧ is_terminal_event p = false.
Proof.
  intros Hj Hs. unfold tick. rewrite Hj, Hs. eexists _, _. split; reflexivity.
Qed.

Lemma terminal_events_quiet (evs : list Event) :
  Forall (fun e => is_terminal_event e = false) evs → terminal_events evs = [].
Proof.
  induction 1 as [|e evs He _ IH]; [reflexivity|].
  by rewrite terminal_events_cons.
Qed.

(** A connection to a job whose task is on its way, or has ended in
    error, goes into polling. *)
Lemma stream_of_empty_graph (jobId : string) (r0 : Repo.t) (snapshots : list Repo.t) :
  (∃ job, Repo.getJob jobId r0 = Some job) → nodes (Repo.getJobGraph jobId r0) = [] →
  ∃ st maxLv, stream jobId r0 snapshots = EvConnected jobId st :: poll jobId maxLv snapshots.
Proof.
  intros [job Hj] Hg. exists (status job), (maxLevels (config job)).
  by apply stream_polls.
Qed.

(** The stream of a job that ends in error: progress events, then one
    error event, and the interval is cleared. *)
Lemma stream_ends_in_error (jobId : string) (r0 rf : Repo.t) (pre post : list Repo.t)
    (job : DiscoveryJob) :
  Repo.getJob jobId rf = Some job → status job = Error →
  nodes (Repo.getJobGraph jobId rf) = [] →
  unfinished jobId r0 ∨ r0 = rf →
  Forall (unfinished jobId) pre →
  ∃ st progress msg,
    stream jobId r0 (pre ++ rf :: post)
    = EvConnected jobId st :: progress ++ [EvError msg "DISCOVERY_ERROR"]
    ∧ Forall (fun e => is_terminal_event e = false) progress
    ∧ terminal_events (stream jobId r0 (pre ++ rf :: post)) = [EvError msg "DISCOVERY_ERROR"]
    ∧ ∀ maxLv, polling jobId maxLv (pre ++ rf :: post) = false.
Proof.
  intros Hj Hs Hg H0 Hpre.
  assert (Hc : (∃ job0, Repo.getJob jobId r0 = Some job0)
               ∧ nodes (Repo.getJobGraph jobId r0) = []).
  { destruct H0 as [(job0 & H1 & _ & _ & H2)| ->]; eauto. }
  destruct Hc as [Hc1 Hc2].
  destruct (stream_of_empty_graph jobId r0 (pre ++ rf :: post) Hc1 Hc2) as (st & maxLv & E).
  destruct (poll_unfinished jobId maxLv pre (rf :: post) Hpre) as (progress & E1 & E2 & _).
  destruct (tick_error jobId maxLv rf job Hj Hs) as (p & msg & Ht & Hp).
  exists st, (progress ++ [p]), msg. rewrite E, E1. cbn [poll]. rewrite Ht.
  split; [by rewrite <- app_assoc|].
  assert (Hq : Forall (fun e => is_terminal_event e = false) (progress ++ [p])).
  { apply Forall_app. split; [exact E2 | by constructor]. }
  split; [exact Hq|]. split.
  - rewrite terminal_events_cons by reflexivity.
    replace (progress ++ [p; EvError msg "DISCOVERY_ERROR"])
      with ((progress ++ [p]) ++ [EvError msg "DISCOVERY_ERROR"]) by (by rewrite <- app_assoc).
    by rewrite terminal_events_app, (terminal_events_quiet _ Hq).
  - intros maxLv'.
    destruct (poll_unfinished jobId maxLv' pre (rf :: post) Hpre) as (_ & _ & _ & E3).
    rewrite E3. cbn [polling].
    destruct (tick_error jobId maxLv' rf job Hj Hs) as (p' & msg' & Ht' & _).
    by rewrite Ht'.
Qed.

(** The stream of a job that ends complete with nodes in its graph:
    progress events, then the replay, whose last event is the one terminal
    event, done. *)
Lemma stream_ends_in_done (jobId : string) (r0 rf : Repo.t) (pre post : list Repo.t)
    (job : DiscoveryJob) :
  Repo.getJob jobId rf = Some job → status job = Complete →
  nodes (Repo.getJobGraph jobId rf) ≠ [] →
  unfinished jobId r0 → Forall (unfinished jobId) pre →
  terminal_events (stream jobId r0 (pre ++ rf :: post))
  = [done_event (Repo.getJobGraph jobId rf)]
  ∧ terminal_events (stream jobId rf post) = [done_event (Repo.getJobGraph jobId rf)].
Proof.
  intros Hj Hs Hg (job0 & H1 & _ & _ & H2) Hpre. split.
  - destruct (stream_of_empty_graph jobId r0 (pre ++ rf :: post)) as (st & maxLv & E); eauto.
    destruct (poll_unfinished jobId maxLv pre (rf :: post) Hpre) as (progress & E1 & E2 & _).
    rewrite E, E1. cbn [poll]. unfold tick. rewrite Hj, Hs.
    destruct (nodes (Repo.getJobGraph jobId rf)) as [|n ns] eqn:En; [done|].
    cbn [length Nat.ltb Nat.leb].
    rewrite terminal_events_cons, terminal_events_app by reflexivity.
    rewrite (terminal_events_quiet _ E2), terminal_events_cons by reflexivity.
    apply terminal_events_replay_polled.
  - unfold stream. rewrite Hj.
    destruct (nodes (Repo.getJobGraph jobId rf)) as [|n ns] eqn:En; [done|].
    cbn [length Nat.eqb]. rewrite terminal_events_cons by reflexivity.
    apply terminal_events_replay_immediate.
Qed.

(** While the task of a job is on its way, the store stays as a client
    finds it then: neither an external call, with the requests served
    meanwhile, nor a progress report writes complete or error, or touches
    the graph. *)
Lemma unfinished_status (uuid j : string) (now : Time) (st : JobStatus) (e : option string)
    (r : Repo.t) :
  st ≠ Complete → st ≠ Error → unfinished uuid r →
  unfinished uuid (Repo.updateJobStatus j now st e r).
Proof.
  intros Hc He (job & Hj & H1 & H2 & Hg).
  unfold unfinished, Repo.getJobGraph. rewrite graphs_updateJobStatus.
  fold (Repo.getJobGraph uuid r).
  unfold Repo.updateJobStatus, Repo.getJob in *.
  destruct (Repo.jobs r !! j) as [ji|] eqn:Ei; [|eauto 6]. simpl.
  destruct (decide (j = uuid)) as [->|Hne].
  - rewrite lookup_insert_eq. eexists. split; [reflexivity|]. simpl. auto.
  - rewrite lookup_insert_ne by done. eauto 6.
Qed.

Lemma unfinished_level (uuid j : string) (now : Time) (lvl : nat) (r : Repo.t) :
  unfinished uuid r → unfinished uuid (Repo.updateJobCurrentLevel j now lvl r).
Proof.
  intros (job & Hj & H1 & H2 & Hg).
  unfold unfinished, Repo.getJobGraph. rewrite graphs_updateJobCurrentLevel.
  fold (Repo.getJobGraph uuid r).
  unfold Repo.updateJobCurrentLevel, Repo.getJob in *.
  destruct (Repo.jobs r !! j) as [ji|] eqn:Ei; [|eauto 6]. simpl.
  destruct (decide (j = uuid)) as [->|Hne].
  - rewrite lookup_insert_eq. eexists. split; [reflexivity|]. simpl.
    assert (ji = job) by congruence. subst ji. auto.
  - rewrite lookup_insert_ne by done. eauto 6.
Qed.

Lemma unfinished_sub (uuid j : string) (now : Time) (sa : SubAnalysis) (r : Repo.t) :
  unfinished uuid r → unfinished uuid (Repo.updateJobSubAnalysis j now sa r).
Proof.
  intros (job & Hj & H1 & H2 & Hg).
  unfold unfinished, Repo.getJobGraph. rewrite graphs_updateJobSubAnalysis.
  fold (Repo.getJobGraph uuid r).
  unfold Repo.updateJobSubAnalysis, Repo.getJob in *.
  destruct (Repo.jobs r !! j) as [ji|] eqn:Ei; [|eauto 6]. simpl.
  destruct (decide (j = uuid)) as [->|Hne].
  - rewrite lookup_insert_eq. eexists. split; [reflexivity|]. simpl.
    assert (ji = job) by congruence. subst ji. auto.
  - rewrite lookup_insert_ne by done. eauto 6.
Qed.

Lemma unfinished_await (env : Env) (uuid : string) :
  keeps (fun w => unfinished uuid (repo w)) (await_io env).
Proof.
  intros w Hw. apply (await_io_keeps (fun w => unfinished uuid (repo w)));
    try (intros; assumption).
  intros j w0 H0. unfold Cancel.cancelJob. destruct (activeJobs w0 !! j); [|exact H0].
  simpl. by apply unfinished_status.
Qed.

Lemma unfinished_callback (uuid j : string) (p : AnalyzerProgress) :
  keeps (fun w => unfinished uuid (repo w)) (Service.progressCallback j p).
Proof.
  intros w Hw. unfold Service.progressCallback.
  destruct (decide (j ∈ cancelledJobs w)); [exact Hw|].
  destruct (p_subAnalysis p); simpl.
  - by apply unfinished_sub, unfinished_level.
  - by apply unfinished_level.
Qed.

Lemma unfinished_analysis (env : Env) (uuid : string) niche platforms cfg :
  keeps (fun w => unfinished uuid (repo w))
    (AnalyzerRegistry.analyzeWithMultiplePlatforms (Service.analyzerRegistry env)
       niche platforms cfg (Service.progressCallback uuid)).
Proof.
  apply (within_analyzeWithMultiplePlatforms env _ (top_level (ac_maxLevels cfg)));
    [apply unfinished_await | lia | intros p _; apply unfinished_callback].
Qed.

Lemma unfinished_start (cfg : DiscoveryConfig) (uuid : string) (w : World) :
  unfinished uuid (repo (snd (Service.startDiscovery cfg uuid w)))
  ∧ unfinished uuid
      (repo (snd (Service.updateStatus uuid Discovering None
                    (snd (Service.startDiscovery cfg uuid w))))).
Proof.
  assert (H : unfinished uuid (repo (snd (Service.startDiscovery cfg uuid w)))).
  { destruct (startDiscovery_known cfg uuid w) as (Hj & _).
    eexists. split; [exact Hj|]. simpl. repeat split; try discriminate.
    unfold Service.startDiscovery, Repo.createJob, Repo.getJobGraph. simpl.
    by rewrite lookup_insert_eq. }
  split; [exact H|]. unfold Service.updateStatus, modify. simpl.
  by apply unfinished_status.
Qed.

End CancelledStream.

(** C6, at the failing input: the sources of the sample job name the
    Reddit analyzer twice, so two analyses are run; the first has had all
    its answers when a cancel request arrives, while the search of the
    second is pending.  The request is accepted and the record holds
    cancelled, as the status request served right after it shows.  The
    second analysis fails at its next progress report, the registry keeps
    the result of the first, and the task stores the graph and writes
    complete.  Every client of this job, whether it was connected while
    the task was on its way or connects afterwards, is sent the replay and
    done as the one terminal event: the stream of a job whose status
    became cancelled carries no error event.  What does hold: no
    connection is sent more than one terminal event; and when the sources
    name the analyzer once, a job for which a cancel request arrives
    during an external call of its run ends in error, so that every
    client that finds the task on its way (or ended) and then the store
    the task left is sent progress events and exactly one error event, with
    the code DISCOVERY_ERROR, and its polling interval is cleared.  The
    polling callback itself has no case for cancelled: while the record
    holds that status it writes progress events only. *)
Theorem C6_cancelled_job_stream_ends_in_done :
  let w := SampleTwice.cancelled_late in
  map reply_summary (replies w)
  = [inl true; inr (Some (Cancelled, Some "Job was cancelled by user"))]
  ∧ reply_summary (StatusReplied (Repo.getJob SampleRun.jobId (repo w)))
    = inr (Some (Complete, Some "Job was cancelled by user"))
  ∧ (∀ r0 pre post,
       unfinished SampleRun.jobId r0 → Forall (unfinished SampleRun.jobId) pre →
       Stream.terminal_events (Stream.stream SampleRun.jobId r0 (pre ++ repo w :: post))
       = [EvDone 4 4 3]
       ∧ Stream.terminal_events (Stream.stream SampleRun.jobId (repo w) post)
         = [EvDone 4 4 3])
  ∧ (∀ jobId r0 snapshots,
       (length (Stream.terminal_events (Stream.stream jobId r0 snapshots)) <= 1)%nat)
  ∧ (∀ env cfg uuid w0 k r0 pre post,
       List.filter (String.eqb "reddit") (sources cfg) = ["reddit"] →
       (ioCount w0 <= k < ioCount (Service.runJob env cfg uuid w0))%nat →
       In (ReqCancel uuid) (arrivals env k) →
       unfinished uuid r0 ∨ r0 = repo (Service.runJob env cfg uuid w0) →
       Forall (unfinished uuid) pre →
       ∃ st progress msg,
         Stream.stream uuid r0 (pre ++ repo (Service.runJob env cfg uuid w0) :: post)
         = EvConnected uuid st :: progress ++ [EvError msg "DISCOVERY_ERROR"]
         ∧ Forall (fun e => Stream.is_terminal_event e = false) progress
         ∧ Stream.terminal_events
             (Stream.stream uuid r0 (pre ++ repo (Service.runJob env cfg uuid w0) :: post))
           = [EvError msg "DISCOVERY_ERROR"]
         ∧ ∀ maxLv,
             Stream.polling uuid maxLv (pre ++ repo (Service.runJob env cfg uuid w0) :: post)
             = false)
  ∧ (∀ cfg uuid w0,
       unfinished uuid (repo (snd (Service.startDiscovery cfg uuid w0)))
       ∧ unfinished uuid
           (repo (snd (Service.updateStatus uuid Discovering None
                         (snd (Service.startDiscovery cfg uuid w0))))))
  ∧ (∀ env uuid niche platforms acfg,
       keeps (fun w => unfinished uuid (repo w))
         (AnalyzerRegistry.analyzeWithMultiplePlatforms (Service.analyzerRegistry env)
            niche platforms acfg (Service.progressCallback uuid))).
Proof.
  cbv zeta.
  split; [vm_compute; reflexivity|].
  split; [vm_compute; reflexivity|].
  split.
  { assert (Hd : Stream.done_event (Repo.getJobGraph SampleRun.jobId
                                      (repo SampleTwice.cancelled_late)) = EvDone 4 4 3)
      by (vm_compute; reflexivity).
    assert (Hs : status <$> Repo.getJob SampleRun.jobId (repo SampleTwice.cancelled_late)
                 = Some Complete) by (vm_compute; reflexivity).
    assert (Hn : nodes (Repo.getJobGraph SampleRun.jobId (repo SampleTwice.cancelled_late))
                 ≠ []) by (vm_compute; intros H; discriminate H).
    destruct (Repo.getJob SampleRun.jobId (repo SampleTwice.cancelled_late)) as [job|] eqn:Ej;
      [|discriminate Hs].
    injection Hs as Hs. intros r0 pre post H0 Hpre. rewrite <- Hd.
    exact (stream_ends_in_done _ r0 _ pre post job Ej Hs Hn H0 Hpre). }
  split; [apply stream_at_most_one_terminal|].
  split; [|split; [apply unfinished_start | apply unfinished_analysis]].
  intros env cfg uuid w0 k r0 pre post Hsrc Hk Hin H0 Hpre.
  pose proof (cancel_ends_in_error env cfg uuid w0 k Hsrc Hk Hin) as He.
  pose proof (finished_job_graph env cfg uuid w0) as Hg. cbv zeta in Hg.
  destruct Hg as [[_ Hg]|[Hc _]]; [|rewrite He in Hc; discriminate Hc].
  unfold Service.jobStatus in He.
  destruct (Repo.getJob uuid (repo (Service.runJob env cfg uuid w0))) as [job|] eqn:Ej;
    [|discriminate He].
  injection He as He.
  apply (stream_ends_in_error uuid r0 _ pre post job Ej He); [|exact H0 | exact Hpre].
  by rewrite Hg.
Qed.

(** The sample job whose search is pending when it is cancelled twice:
    a client connected since the store held discovering, whose ticks
    found the record cancelled three times and then the store that the
    task left. *)
Lemma C6_cancelled_job_stream_ends_in_done_witness :
  ∃ st progress msg,
    Stream.stream SampleRun.jobId SampleRun.running
      (repeat SampleRun.cancelled 3 ++ [repo SampleRun.cancelled_twice])
    = EvConnected SampleRun.jobId st :: progress ++ [EvError msg "DISCOVERY_ERROR"]
    ∧ Forall (fun e => Stream.is_terminal_event e = false) progress.
Proof.
  destruct C6_cancelled_job_stream_ends_in_done as (_ & _ & _ & _ & H & _).
  destruct (H (SampleRun.env (inr [SampleRun.pricing])
                 (SampleRun.during 0
                    [ReqCancel SampleRun.jobId; ReqStatus SampleRun.jobId;
                     ReqCancel SampleRun.jobId]))
              (SampleRun.cfg 2) SampleRun.jobId initial 0 SampleRun.running
              (repeat SampleRun.cancelled 3) [])
    as (st & progress & msg & E1 & E2 & _).
  - reflexivity.
  - vm_compute. lia.
  - vm_compute. left. reflexivity.
  - left. eexists. split; [vm_compute; reflexivity|].
    split; [intros H0; discriminate H0|]. split; [intros H0; discriminate H0|].
    vm_compute. reflexivity.
  - assert (Hc : unfinished SampleRun.jobId SampleRun.cancelled).
    { eexists. split; [vm_compute; reflexivity|].
      split; [intros H0; discriminate H0|]. split; [intros H0; discriminate H0|].
      vm_compute. reflexivity. }
    repeat constructor; exact Hc.
  - exists st, progress, msg. split; [exact E1 | exact E2].
Defined.
